(* ===== verification/_CoqProject ===== *)
-Q . S2P
Prelude.v
External.v
BTreeMap.v
Types.v
OrderBook.v
Levels.v
PriceTime.v
BookFacts.v
BookOps.v
Matching.v
Concrete.v
MatchingRefine.v
EngineFacts.v
Runs.v
Samples.v
EngineProps.v
Statuses.v
BookProps.v
Snapshot.v
Codec.v
SnapshotProps.v
Tests.v
Text.v
Mock.v
Processor.v
ProcessorProps.v
Kafka.v
Recovery.v
Persistence.v
Leader.v
Execution.v
Cluster.v
ClusterProps.v
Failover.v
Handlers.v
Streams.v
Replay.v
Metrics.v
Service.v
Pipeline.v
Startup.v
VecBook.v
