(* ===== verification/Prelude.v ===== *)
(** * LMAX-style central limit order book: a verification development

    The program matches buy and sell orders for one market. Orders arrive over
    HTTP ([handlers/orders.rs]) or from a stream ([ingest/yellowstone.rs], served
    in development by the [yellowstone-mock] crate), are published to the Kafka
    topic [orders-in], consumed ([kafka/consumer.rs]) and handed through a channel
    to one thread ([ingest/processor.rs]) that owns the matching engine (the
    [clob-engine] crate). The thread sends fills to the tasks of [main.rs], which
    broadcast them to WebSocket clients ([ws/broadcast.rs], [handlers/ws.rs]),
    publish them ([kafka/fill_publisher.rs]) and store them
    ([persistence/fills.rs]); it saves snapshots of the book
    ([persistence/snapshot.rs]) from which a restarted process resumes. Several
    processes elect a leader through a Kubernetes lease ([leader.rs]); the others
    replay the orders ([follower.rs]). The sources are below [src/crates/].

    ** Files

    Foundations.
    - [Prelude]: outcomes of a Rust computation (a value, a panic, no return),
      results, machine integers ([u64] and [i64] as [Z] with the wrap-around
      written out), lemmas on lists and options, tactics and hints.
    - [External]: interfaces, as classes of operations and of laws, of the crates
      whose source is not in the repository: [rust_decimal], [uuid], [slab],
      [postcard], and of the database's columns of amounts. [Concrete] and [Codec] implement them, so that witnesses
      evaluate and the laws are seen to be satisfiable.
    - [BTreeMap], [Text]: what the program uses of the standard library's ordered
      map, of [str::parse] and of [to_lowercase].

    The engine.
    - [Types]: [types.rs], [order.rs], [events.rs], [error.rs].
    - [OrderBook]: the record, each method of [orderbook.rs], and the invariant
      [book_wf]. [Levels], [BookFacts] and [BookOps] hold its lemmas, [BookProps]
      its properties.
    - [Matching]: [matching.rs]. Methods thread the engine, the taker and the
      fills; the two loops take fuel.
    - [PriceTime]: the abstract specification, queues of resting orders over exact
      integers. [MatchingRefine] proves that [process_order] computes what it
      says; [EngineFacts] and [Runs] extend that to sequences of commands, and
      [EngineProps] states the properties; [Statuses] types the status of resting
      orders. [Samples] has concrete inputs. [Tests] has the program's own unit tests
      as computations, all of which return.
    - [Snapshot] and [SnapshotProps]: [snapshot.rs].

    The service.
    - [Processor] and [ProcessorProps]: [ingest/processor.rs] and [follower.rs];
      the thread maps the orders it receives to effects.
    - [Kafka]: the clients under [kafka/]; [Recovery]: [persistence/snapshot.rs]
      and the start of [main.rs]; [Persistence]: [persistence/fills.rs] and
      [persistence/orders.rs].
    - [Leader]: [leader.rs] and [health.rs]; [Handlers]: the HTTP handlers;
      [Streams]: [ingest/yellowstone.rs], the tasks of [run_leader], [ws/] and
      [handlers/ws.rs].
    - [Execution]: invariants and [eventually] over a transition relation. [Cluster]:
      several processes that share the lease and a clock, each with its elector and
      what [main.rs] does with it; a step is one request, one wake-up, a tick of the
      clock, a crash or a restart. [ClusterProps] and [Failover] state what holds over
      its executions.
    - [Metrics]: [metrics.rs], [middleware/metrics.rs] and the samples of every
      component. [Service]: the HTTP services of each role. [Startup]: [main.rs] from
      the environment to the tasks of a role, and the settings of the clients.
    - [Pipeline]: the stages composed, from requests to rows. [Replay]: what a replay
      after a crash writes again.
    - [Mock]: the [yellowstone-mock] crate.
    - [VecBook]: the alternative book of [benches/btreemap_vs_vec.rs].

    ** What the theorems show

    - Refinement. Every sequence of submissions and cancellations is answered
      without panic or divergence, and the queues, the counter and the answers are
      those of the specification ([engine_refines_price_time]). The thread
      processes every order and sends the engine's fills
      ([thread_sends_engine_fills]), the follower's book is the engine's
      ([follower_replays]). End to end, the book, the rows of the database and the
      broadcast are those of the specification run on the orders that requests and
      stream updates published ([service_refines_price_time]).
    - Matching. The book never crosses, quantity is conserved, execution follows
      price-time priority, is maximal and respects limits, fills are numbered
      consecutively, [process_order_errors] says exactly when the answer is an error, the
      statuses of resting orders are well typed ([resting_orders_well_typed]).
    - Order book. The contract of every operation on every branch.
    - Snapshots and recovery. The round trip as a set of orders, as queues under a
      condition on slab keys, the failure of the latter without the condition, and
      recovery of a process that crashes right after a snapshot; the trades that a
      crash later than that leaves in the database twice.
    - Delivery. Offsets are committed after delivery, orders survive the topic,
      the fill writer accounts for every fill, exactly the well-formed requests are
      published, as orders the engine accepts ([place_order_publishes_accepted]),
      sessions and their gauge agree. Periods of zero are panics
      ([zero_period_panics], [zero_flush_panics]).
    - Leader election. Mutual exclusion until a lease expires, and its limits. Over
      executions of the cluster: at most one process believes it leads when attempts
      neither overlap nor are late ([one_believer]); all the same two processes can run
      as leader ([two_processes_lead]); a follower takes over within a bound
      ([failover]).
    - Service. A follower serves reads only ([follower_serves_reads]); what a process
      starts on every failing branch ([startup_contract]); every sample has the kind
      its metric was described with ([samples_well_typed]).
    - The vector book is in lockstep with the order book.

    ** Assumptions and bounds

    Decimals are exact on a grid: [order_ok lot] says that the quantities of an
    order have at most [lot] decimals and a mantissa below [2^96], within which
    the crate documents addition and subtraction to be exact. No theorem limits
    prices. Conditions on ids, where a theorem has them, are in its statement.
    [Decimal] equality is numeric, so [Decimal]s are compared up to [equiv].

    The matching loops are given the number of resting orders plus one as fuel
    ([loop_fuel]): every iteration but the last fills the taker or removes a
    maker. [matching_loops_terminate] proves that it is enough, and
    [exhausted_maker_diverges] shows a state, never reached by commands, in which
    no fuel is. Other loops recurse on the list of what they receive.

    Concurrency appears as the sequence of events each thread or task sees: the
    orders received, the polls of a channel, ticks, requests that fail. Theorems
    quantify over those sequences; capacities of bounded channels only delay
    their senders and are not modelled. Between processes, the lease is shared state
    and executions interleave single requests; [orderly] and [lone_step] say which
    executions a theorem is about. The liveness theorem is a bound: the predicate
    [eventually] holds of a state when every execution reaches the goal after finitely
    many steps and none is stuck before, and the goal includes the time.

    ** What is not modelled

    Logs, spans and the tracing pipeline, the clients' own behaviour beyond the
    answers the program distinguishes, the Redis caches (their modules are not in the
    repository; the calls appear as effects), the broadcast channel's buffer, a request
    to the API server that takes effect after its client gave up waiting (it takes
    effect at once or never), the mock's [main], the other benchmarks, and deployment
    files. *)

From stdpp Require Export base list gmap strings pretty sorting.
From Stdlib Require Export ZArith Lia.

#[global] Open Scope Z_scope.

(** ** Outcomes of a Rust computation

    A computation of the program returns a value, panics (a [Decimal] operator
    overflows, a slab is indexed at a vacant key), or never returns. [Diverge]
    is the answer of a loop whose fuel is used up; every loop of the model comes
    with a theorem that says how much fuel is enough. *)

Inductive outcome (A : Type) : Type :=
| Ret (a : A)
| Panic
| Diverge.
Arguments Ret {A} _.
Arguments Panic {A}.
Arguments Diverge {A}.

Definition obind {A B : Type} (e : outcome A) (k : A -> outcome B) : outcome B :=
  match e with
  | Ret a => k a
  | Panic => Panic
  | Diverge => Diverge
  end.

(** An operator that panics on [None]. *)
Definition or_panic {A : Type} (o : option A) : outcome A :=
  match o with
  | Some a => Ret a
  | None => Panic
  end.

(** Rust's [Result]. *)
Inductive result (A E : Type) : Type :=
| Ok (a : A)
| Err (e : E).
Arguments Ok {A E} _.
Arguments Err {A E} _.

Declare Scope clob_scope.
Delimit Scope clob_scope with clob.
Notation "'let!' x := e 'in' k" := (obind e (fun x => k))
  (at level 10, x pattern, e at level 100, k at level 200,
   format "'[' 'let!'  x  :=  e  'in' ']' '/' k") : clob_scope.
#[global] Open Scope clob_scope.

Lemma obind_ret {A B : Type} (a : A) (k : A -> outcome B) : obind (Ret a) k = k a.
Proof. reflexivity. Qed.

(** The value of a computation known to return, [d] otherwise. *)
Definition returned {A : Type} (d : A) (e : outcome A) : A :=
  match e with Ret a => a | _ => d end.

Definition returns {A : Type} (e : outcome A) : bool :=
  match e with Ret _ => true | _ => false end.

Lemma returned_eq {A : Type} (d : A) (e : outcome A) : returns e = true -> e = Ret (returned d e).
Proof. by destruct e. Qed.

(** ** Machine integers

    The release profile of the workspace does not enable overflow checks, so
    [u64] arithmetic wraps; [as i64] reinterprets the 64 bits. *)

Definition u64_modulus : Z := 2 ^ 64.

Definition u64_add (a b : Z) : Z := (a + b) mod u64_modulus.

Definition u64_as_i64 (a : Z) : Z :=
  if a <? 2 ^ 63 then a else a - u64_modulus.

Definition i64_as_u64 (a : Z) : Z := a mod u64_modulus.

(** [i64] addition, wrapping like the other arithmetic of a release build. *)
Definition i64_add (a b : Z) : Z := u64_as_i64 ((a + b) mod u64_modulus).

Definition i64_ok (a : Z) : Prop := - 2 ^ 63 <= a < 2 ^ 63.

Definition u64_ok (a : Z) : Prop := 0 <= a < u64_modulus.

Lemma u64_add_ok (a b : Z) : u64_ok (u64_add a b).
Proof. unfold u64_ok, u64_add, u64_modulus. apply Z.mod_pos_bound. lia. Qed.

Lemma u64_add_small (a b : Z) :
  0 <= a + b < u64_modulus -> u64_add a b = a + b.
Proof. intros H. unfold u64_add. by rewrite Z.mod_small. Qed.

Lemma u64_add_assoc (a b c : Z) : u64_add (u64_add a b) c = u64_add a (b + c).
Proof.
  unfold u64_add. rewrite Zplus_mod_idemp_l. f_equal. lia.
Qed.

Lemma u64_i64_roundtrip (a : Z) : u64_ok a -> i64_as_u64 (u64_as_i64 a) = a.
Proof.
  unfold u64_ok, i64_as_u64, u64_as_i64, u64_modulus. intros H.
  destruct (Z.ltb_spec a (2 ^ 63)).
  - apply Z.mod_small. lia.
  - replace (a - 2 ^ 64) with (a + (-1) * 2 ^ 64) by lia.
    rewrite Z.mod_add by lia. apply Z.mod_small. lia.
Qed.

Lemma i64_u64_roundtrip (a : Z) : i64_ok a -> u64_as_i64 (i64_as_u64 a) = a.
Proof.
  unfold i64_ok, i64_as_u64, u64_as_i64. intros H. assert (E : u64_modulus = 2 ^ 64) by done.
  destruct (Z.leb_spec 0 a) as [Ha|Ha].
  - rewrite Z.mod_small by lia. destruct (Z.ltb_spec a (2 ^ 63)); lia.
  - assert (Em : a mod u64_modulus = a + u64_modulus).
    { symmetry. apply (Z.mod_unique_pos _ _ (-1)); lia. }
    rewrite Em. destruct (Z.ltb_spec (a + u64_modulus) (2 ^ 63)); lia.
Qed.

Lemma i64_add_small (a b : Z) : i64_ok (a + b) -> i64_add a b = a + b.
Proof. apply i64_u64_roundtrip. Qed.

(** ** Tactics *)

(** Facts that close side conditions: widths, amounts, well-formedness. *)
Create HintDb clob.
#[export] Hint Resolve u64_add_ok : clob.

(** Reading a component of a book that was updated. *)
Create Rewrite HintDb book.

Ltac book_simpl := autorewrite with book.

(** Inverts an equation between outcomes produced by [obind]. *)
Lemma obind_inv {A B : Type} (e : outcome A) (k : A -> outcome B) (b : B) :
  obind e k = Ret b -> exists a, e = Ret a /\ k a = Ret b.
Proof. destruct e as [a| |]; [|discriminate|discriminate]. intros H. by exists a. Qed.

Ltac inv_bind H :=
  let a := fresh "a" in
  let E := fresh "E" in
  apply obind_inv in H as (a & E & H).

(** ** Lists *)

Lemma omap_ext_in {A B : Type} (f g : A -> option B) (l : list A) :
  (forall x, x ∈ l -> f x = g x) -> omap f l = omap g l.
Proof.
  induction l as [|x l IH]; intros H; [done|]. csimpl.
  rewrite (H x) by set_solver. rewrite IH by set_solver. done.
Qed.

Lemma NoDup_app_disjoint {A : Type} (l1 l2 : list A) (x : A) :
  NoDup (l1 ++ l2) -> x ∈ l1 -> x ∈ l2 -> False.
Proof. intros (_ & H & _)%NoDup_app. firstorder. Qed.

Lemma filter_all {A : Type} (P : A -> Prop) `{!forall x, Decision (P x)} (l : list A) :
  (forall x, x ∈ l -> P x) -> filter P l = l.
Proof.
  induction l as [|x l IH]; intros Hl; [done|].
  rewrite filter_cons_True by set_solver. rewrite IH by set_solver. done.
Qed.
