(* ===== verification/External.v ===== *)
(** * The third-party crates, as interfaces

    The engine computes with [rust_decimal::Decimal], names orders by
    [uuid::Uuid], stores them in a [slab::Slab] and encodes them with
    [postcard]. None of that code is part of the repository, so each crate is a
    class of operations together with a class of laws. The laws are the
    behaviour the crates document; [Concrete] shows that they can hold. *)

From S2P Require Import Prelude.
From Stdlib Require Import Strings.Byte.

(** ** rust_decimal

    A decimal is a 96-bit mantissa with a sign and a scale between 0 and 28.
    [dec_add] and [dec_sub] are the operators [+] and [-], which panic on
    overflow ([None]). *)

Class DecimalApi := {
  Decimal : Type;
  dec_mantissa : Decimal -> Z;
  dec_scale : Decimal -> Z;
  dec_ZERO : Decimal;
  dec_MAX : Decimal;
  dec_new : Z -> Z -> Decimal;
  dec_cmp : Decimal -> Decimal -> comparison;
  dec_min : Decimal -> Decimal -> Decimal;
  dec_add : Decimal -> Decimal -> option Decimal;
  dec_sub : Decimal -> Decimal -> option Decimal;
  dec_to_string : Decimal -> string
}.

(** [dec_units s d] is the value of [d] counted in units of [10^-s]; it is exact
    when the scale of [d] is at most [s]. *)
Definition dec_units `{DecimalApi} (s : Z) (d : Decimal) : Z :=
  dec_mantissa d * 10 ^ (s - dec_scale d).

(** [d] lies on the grid of multiples of [10^-s] that 96 bits can hold. *)
Definition on_grid `{DecimalApi} (s : Z) (d : Decimal) : Prop :=
  dec_scale d <= s /\ Z.abs (dec_units s d) < 2 ^ 96.

Class DecimalLaws (API : DecimalApi) : Prop := {
  dec_scale_range (d : Decimal) : 0 <= dec_scale d <= 28;
  dec_mantissa_range (d : Decimal) : Z.abs (dec_mantissa d) < 2 ^ 96;
  (** [ZERO] and [MAX] *)
  dec_ZERO_repr : dec_mantissa dec_ZERO = 0 /\ dec_scale dec_ZERO = 0;
  dec_MAX_repr : dec_mantissa dec_MAX = 2 ^ 96 - 1 /\ dec_scale dec_MAX = 0;
  (** [Decimal::new(num, scale)] *)
  dec_new_repr (m s : Z) :
    - 2 ^ 63 <= m < 2 ^ 63 -> 0 <= s <= 28 ->
    dec_mantissa (dec_new m s) = m /\ dec_scale (dec_new m s) = s;
  (** [Ord] compares numerically: [1.0] and [1.00] are equal *)
  dec_cmp_numeric (a b : Decimal) :
    dec_cmp a b =
      (dec_mantissa a * 10 ^ dec_scale b ?= dec_mantissa b * 10 ^ dec_scale a);
  (** [min] returns the smaller argument *)
  dec_min_choice (a b : Decimal) : dec_min a b = a \/ dec_min a b = b;
  dec_min_lower (a b : Decimal) :
    dec_cmp (dec_min a b) a <> Gt /\ dec_cmp (dec_min a b) b <> Gt;
  (** addition and subtraction are exact when both operands and the result are
      on a common grid; otherwise they may round or overflow *)
  dec_add_exact (s : Z) (a b : Decimal) :
    0 <= s <= 28 -> on_grid s a -> on_grid s b ->
    Z.abs (dec_units s a + dec_units s b) < 2 ^ 96 ->
    exists c, dec_add a b = Some c /\ dec_scale c <= s /\
      dec_units s c = dec_units s a + dec_units s b;
  dec_sub_exact (s : Z) (a b : Decimal) :
    0 <= s <= 28 -> on_grid s a -> on_grid s b ->
    Z.abs (dec_units s a - dec_units s b) < 2 ^ 96 ->
    exists c, dec_sub a b = Some c /\ dec_scale c <= s /\
      dec_units s c = dec_units s a - dec_units s b
}.

Section decimal.
Context {DA : DecimalApi} {DL : DecimalLaws DA}.

(** The operators [<=], [<], [>] and [==] of the source, on [Ord]. *)
Definition dec_le (a b : Decimal) : bool :=
  match dec_cmp a b with Gt => false | _ => true end.
Definition dec_lt (a b : Decimal) : bool :=
  match dec_cmp a b with Lt => true | _ => false end.
Definition dec_gt (a b : Decimal) : bool :=
  match dec_cmp a b with Gt => true | _ => false end.

(** The value of a decimal, as a number of units of [10^-28]. *)
Definition dec_val (d : Decimal) : Z := dec_units 28 d.

Lemma dec_cmp_units (s : Z) (a b : Decimal) :
  dec_scale a <= s -> dec_scale b <= s ->
  dec_cmp a b = (dec_units s a ?= dec_units s b).
Proof.
  intros Ha Hb. rewrite dec_cmp_numeric. unfold dec_units.
  pose proof (dec_scale_range a). pose proof (dec_scale_range b).
  rewrite (Zmult_compare_compat_r (dec_mantissa a * _) _ (10 ^ s)) by
    (apply Z.lt_gt, Z.pow_pos_nonneg; lia).
  rewrite (Zmult_compare_compat_r (dec_mantissa a * 10 ^ (s - _)) _
    (10 ^ (dec_scale a + dec_scale b))) by (apply Z.lt_gt, Z.pow_pos_nonneg; lia).
  rewrite <-!Z.mul_assoc, <-!Z.pow_add_r by lia.
  f_equal; f_equal; f_equal; lia.
Qed.

Lemma dec_cmp_val (a b : Decimal) : dec_cmp a b = (dec_val a ?= dec_val b).
Proof. apply dec_cmp_units; apply dec_scale_range. Qed.

Lemma dec_le_val (a b : Decimal) : dec_le a b = (dec_val a <=? dec_val b).
Proof. unfold dec_le, Z.leb. by rewrite dec_cmp_val. Qed.

Lemma dec_lt_val (a b : Decimal) : dec_lt a b = (dec_val a <? dec_val b).
Proof. unfold dec_lt, Z.ltb. by rewrite dec_cmp_val. Qed.

Lemma dec_gt_val (a b : Decimal) : dec_gt a b = (dec_val b <? dec_val a).
Proof.
  unfold dec_gt, Z.ltb. rewrite dec_cmp_val, Z.compare_antisym.
  by destruct (dec_val b ?= dec_val a).
Qed.

(** Prices and quantities that compare equal may differ in scale: the
    equivalence of the model is numeric equality. *)
#[export] Instance decimal_equiv : Equiv Decimal := fun a b => dec_cmp a b = Eq.

Lemma decimal_equiv_val (a b : Decimal) : a ≡ b <-> dec_val a = dec_val b.
Proof. unfold equiv, decimal_equiv. rewrite dec_cmp_val. apply Z.compare_eq_iff. Qed.

#[export] Instance decimal_equivalence : Equivalence (≡@{Decimal}).
Proof.
  split.
  - intros a. by apply decimal_equiv_val.
  - intros a b H. apply decimal_equiv_val. apply decimal_equiv_val in H. done.
  - intros a b c H1 H2. apply decimal_equiv_val.
    apply decimal_equiv_val in H1, H2. congruence.
Qed.

#[export] Instance dec_val_proper : Proper ((≡) ==> (=)) dec_val.
Proof. intros a b H. by apply decimal_equiv_val. Qed.

#[export] Instance dec_cmp_proper : Proper ((≡) ==> (≡) ==> (=)) dec_cmp.
Proof. intros a a' Ha b b' Hb. rewrite !dec_cmp_val. by rewrite Ha, Hb. Qed.

Lemma dec_units_ZERO (s : Z) : dec_units s dec_ZERO = 0.
Proof. unfold dec_units. by rewrite (proj1 dec_ZERO_repr). Qed.

Lemma dec_val_ZERO : dec_val dec_ZERO = 0.
Proof. apply dec_units_ZERO. Qed.

Lemma dec_min_units (s : Z) (a b : Decimal) :
  dec_scale a <= s -> dec_scale b <= s ->
  dec_units s (dec_min a b) = Z.min (dec_units s a) (dec_units s b).
Proof.
  intros Ha Hb. destruct (dec_min_lower a b) as [H1 H2].
  destruct (dec_min_choice a b) as [E|E]; rewrite E in *;
    rewrite (dec_cmp_units s) in H1, H2 by done.
  - rewrite Z.compare_le_iff in H2. lia.
  - rewrite Z.compare_le_iff in H1. lia.
Qed.
End decimal.

(** ** NUMERIC(20, 8)

    The database columns of prices and quantities keep eight decimals: how a value
    is stored in them. *)

Class NumericColumn (API : DecimalApi) := {
  numeric_20_8 : Decimal -> Decimal
}.

(** ** uuid *)

Class UuidApi := {
  Uuid : Type;
  #[global] uuid_eq_dec :: EqDecision Uuid;
  #[global] uuid_countable :: Countable Uuid;
  uuid_to_string : Uuid -> string
}.

(** ** slab

    [slab_insert] returns the key it assigned, which is [vacant_key]. The slab
    documents that vacant slots form a stack: a released key is the next one to
    be assigned, and a new slot is created at the end when there is none. *)

Class SlabApi := {
  Slab : Type -> Type;
  slab_new : forall {A}, Slab A;
  slab_insert : forall {A}, Slab A -> A -> nat * Slab A;
  slab_get : forall {A}, Slab A -> nat -> option A;
  slab_set : forall {A}, Slab A -> nat -> A -> Slab A;
  slab_try_remove : forall {A}, Slab A -> nat -> option (A * Slab A);
  slab_iter : forall {A}, Slab A -> list (nat * A);
  slab_len : forall {A}, Slab A -> nat
}.

(** A slab filled by insertions only: it has no vacant slot. *)
Definition slab_of_list `{SlabApi} {A} (vs : list A) : Slab A :=
  foldl (fun s v => snd (slab_insert s v)) slab_new vs.

(** [slab_set s k v] is the effect of writing [v] through [get_mut(k)]. *)
Class SlabLaws (API : SlabApi) : Prop := {
  slab_get_new {A} (k : nat) : slab_get (slab_new (A:=A)) k = None;
  slab_insert_vacant {A} (s : Slab A) (v : A) (k : nat) (s' : Slab A) :
    slab_insert s v = (k, s') -> slab_get s k = None;
  slab_get_insert {A} (s : Slab A) (v : A) (k : nat) (s' : Slab A) (j : nat) :
    slab_insert s v = (k, s') ->
    slab_get s' j = if decide (j = k) then Some v else slab_get s j;
  slab_get_set {A} (s : Slab A) (k : nat) (v : A) (j : nat) :
    is_Some (slab_get s k) ->
    slab_get (slab_set s k v) j = if decide (j = k) then Some v else slab_get s j;
  slab_remove_none {A} (s : Slab A) (k : nat) :
    slab_try_remove s k = None <-> slab_get s k = None;
  slab_remove_some {A} (s : Slab A) (k : nat) (v : A) (s' : Slab A) :
    slab_try_remove s k = Some (v, s') -> slab_get s k = Some v;
  slab_get_remove {A} (s : Slab A) (k : nat) (v : A) (s' : Slab A) (j : nat) :
    slab_try_remove s k = Some (v, s') ->
    slab_get s' j = if decide (j = k) then None else slab_get s j;
  (** writing through a reference does not move slots: the slot is released as if
      it had not been written *)
  slab_remove_set {A} (s : Slab A) (k : nat) (v : A) :
    is_Some (slab_get s k) ->
    snd <$> slab_try_remove (slab_set s k v) k = snd <$> slab_try_remove s k;
  (** iteration is in the order of the keys *)
  slab_iter_sorted {A} (s : Slab A) :
    StronglySorted (fun a b => (fst a < fst b)%nat) (slab_iter s);
  slab_iter_elem {A} (s : Slab A) (k : nat) (v : A) :
    (k, v) ∈ slab_iter s <-> slab_get s k = Some v;
  slab_len_iter {A} (s : Slab A) : slab_len s = length (slab_iter s);
  (** the stack of vacant slots *)
  slab_insert_reuse {A} (s s' s'' : Slab A) (k j : nat) (v w : A) :
    slab_try_remove s k = Some (v, s') -> slab_insert s' w = (j, s'') -> j = k;
  slab_insert_seq {A} (vs : list A) (v : A) (k : nat) (s' : Slab A) :
    slab_insert (slab_of_list vs) v = (k, s') -> k = length vs
}.

(** ** postcard

    [to_allocvec] and [from_bytes] at one type; decoding what was encoded gives
    the value back. *)

Class Postcard (A : Type) := {
  to_allocvec : A -> option (list byte);
  from_bytes : list byte -> option A
}.

Class PostcardLaws (A : Type) (P : Postcard A) : Prop :=
  postcard_roundtrip (a : A) (b : list byte) :
    to_allocvec a = Some b -> from_bytes b = Some a.
