(* ===== verification/BTreeMap.v ===== *)
(** * The standard library's [BTreeMap]

    The part of [std::collections::BTreeMap] the order book uses, as a list of
    bindings in ascending key order. Keys are compared with the key type's [Ord];
    two keys that compare equal are one key, and the key stored first is kept. *)

From S2P Require Import Prelude.

(** ** Order

    Keys are ordered by a number; a map is sorted when its keys increase strictly. *)

Section order.
Context {K V : Type} (kval : K -> Z).

Abbreviation bmap := (list (K * V)).

(** [keys().next()] and [keys().next_back()] *)
Definition bt_first_key (m : bmap) : option K := fst <$> head m.
Definition bt_last_key (m : bmap) : option K := fst <$> last m.

Definition bt_lt (a b : K * V) : Prop := kval (fst a) < kval (fst b).
Definition bt_sorted (m : bmap) : Prop := StronglySorted bt_lt m.

Definition below (k : K) (m : bmap) : Prop := Forall (fun a => kval (fst a) < kval k) m.
Definition above (k : K) (m : bmap) : Prop := Forall (fun a => kval k < kval (fst a)) m.

Lemma bt_sorted_app (m1 m2 : bmap) :
  bt_sorted (m1 ++ m2) <->
  bt_sorted m1 /\ bt_sorted m2 /\ (forall a b, a ∈ m1 -> b ∈ m2 -> bt_lt a b).
Proof.
  unfold bt_sorted. rewrite StronglySorted_app. naive_solver.
Qed.

Lemma bt_first_key_least (m : bmap) (k : K) (a : K * V) :
  bt_sorted m -> bt_first_key m = Some k -> a ∈ m -> kval k <= kval (fst a).
Proof.
  destruct m as [|[k' v] m]; [done|]. intros [Hs Hx]%StronglySorted_inv.
  cbn. intros [= ->] [->|Ha]%elem_of_cons; [done|].
  rewrite Forall_forall in Hx. specialize (Hx a Ha). unfold bt_lt in Hx. simpl in Hx. lia.
Qed.

Lemma bt_last_key_greatest (m : bmap) (k : K) (a : K * V) :
  bt_sorted m -> bt_last_key m = Some k -> a ∈ m -> kval (fst a) <= kval k.
Proof.
  induction m as [|x m _] using rev_ind; [done|]. intros Hs.
  unfold bt_last_key. rewrite last_snoc. cbn. intros [= E]. subst k.
  rewrite bt_sorted_app in Hs. destruct Hs as (_ & _ & H).
  intros [Ha|Ha%list_elem_of_singleton]%elem_of_app; [|by subst].
  assert (Hx : x ∈ [x]) by set_solver.
  specialize (H a x Ha Hx). unfold bt_lt in H. lia.
Qed.
Lemma bt_sorted_nodup (m : bmap) : bt_sorted m -> NoDup m.
Proof.
  induction m as [|x m IH]; intros Hs; [constructor|].
  apply StronglySorted_inv in Hs as [Hs Hx]. constructor; [|by apply IH].
  intros Hin. rewrite Forall_forall in Hx. specialize (Hx x Hin).
  unfold bt_lt in Hx. lia.
Qed.
End order.

(** ** Operations *)

Section btree.
Context {K V : Type} (cmp : K -> K -> comparison).

Abbreviation bmap := (list (K * V)).

(** [get] *)
Fixpoint bt_get (k : K) (m : bmap) : option V :=
  match m with
  | [] => None
  | (k', v) :: m' =>
      match cmp k k' with
      | Lt => None
      | Eq => Some v
      | Gt => bt_get k m'
      end
  end.

(** [entry(k).or_insert(d)], [or_default] when [d] is the default value *)
Fixpoint bt_entry_or (k : K) (d : V) (m : bmap) : bmap :=
  match m with
  | [] => [(k, d)]
  | (k', v) :: m' =>
      match cmp k k' with
      | Lt => (k, d) :: m
      | Eq => m
      | Gt => (k', v) :: bt_entry_or k d m'
      end
  end.

(** writing through the reference [get_mut(k)] returns *)
Fixpoint bt_modify (k : K) (f : V -> V) (m : bmap) : bmap :=
  match m with
  | [] => []
  | (k', v) :: m' =>
      match cmp k k' with
      | Lt => m
      | Eq => (k', f v) :: m'
      | Gt => (k', v) :: bt_modify k f m'
      end
  end.

(** [remove] *)
Fixpoint bt_remove (k : K) (m : bmap) : bmap :=
  match m with
  | [] => []
  | (k', v) :: m' =>
      match cmp k k' with
      | Lt => m
      | Eq => m'
      | Gt => (k', v) :: bt_remove k m'
      end
  end.

(** ** Laws, for a comparison that orders the keys by a number *)

Context (kval : K -> Z).
Hypothesis cmp_kval : forall a b, cmp a b = (kval a ?= kval b).

(** Where a key sits: below it, possibly at it, above it. Every operation acts
    at that place only. *)
Lemma bt_split (k : K) (m : bmap) :
  bt_sorted kval m ->
  exists m1 mid m2, m = m1 ++ mid ++ m2 /\ below kval k m1 /\ above kval k m2 /\
    (mid = [] \/ exists k' v, mid = [(k', v)] /\ kval k' = kval k).
Proof.
  intros Hs. induction m as [|[k' v] m IH].
  - exists [], [], []. repeat split; [constructor|constructor|by left].
  - apply StronglySorted_inv in Hs as [Hs Hx].
    destruct (Z.compare_spec (kval k) (kval k')) as [E|E|E].
    + exists [], [(k', v)], m. repeat split; [constructor| |right; eauto].
      eapply Forall_impl; [exact Hx|]. intros a Ha. unfold bt_lt in Ha. simpl in Ha. lia.
    + exists [], [], ((k', v) :: m). repeat split; [constructor| |by left].
      constructor; [done|]. eapply Forall_impl; [exact Hx|].
      intros a Ha. unfold bt_lt in Ha. simpl in Ha. lia.
    + destruct (IH Hs) as (m1 & mid & m2 & -> & H1 & H2 & H3).
      exists ((k', v) :: m1), mid, m2. repeat split; [by constructor|done|done].
Qed.

Lemma cmp_above (k : K) (m : bmap) (a : K * V) :
  above kval k m -> a ∈ m -> cmp k (fst a) = Lt.
Proof.
  unfold above. rewrite Forall_forall. intros H Ha. rewrite cmp_kval.
  by apply Z.compare_lt_iff, H.
Qed.

Lemma cmp_above_head (k k' : K) (v : V) (m : bmap) :
  above kval k ((k', v) :: m) -> cmp k k' = Lt.
Proof. intros H. apply (cmp_above _ _ (k', v) H). set_solver. Qed.

Section at_key.
Context (k : K) (m1 m2 : bmap) (Hb : below kval k m1) (Ha : above kval k m2).

Lemma bt_get_skip (m : bmap) : bt_get k (m1 ++ m) = bt_get k m.
Proof.
  induction m1 as [|[k' v] m1' IH]; [done|].
  apply Forall_cons in Hb as [H1 H2]. cbn [app bt_get]. rewrite cmp_kval.
  rewrite (proj2 (Z.compare_gt_iff _ _)) by done. by apply IH.
Qed.

Lemma bt_get_above : bt_get k m2 = None.
Proof.
  destruct m2 as [|[k' v] m]; [done|]. cbn [bt_get].
  by rewrite (cmp_above_head _ _ _ _ Ha).
Qed.

Lemma bt_get_absent : bt_get k (m1 ++ m2) = None.
Proof. rewrite bt_get_skip. apply bt_get_above. Qed.

Lemma bt_get_present (k' : K) (v : V) :
  kval k' = kval k -> bt_get k (m1 ++ (k', v) :: m2) = Some v.
Proof.
  intros E. rewrite bt_get_skip. cbn [bt_get]. by rewrite cmp_kval, E, Z.compare_refl.
Qed.

Lemma bt_entry_or_absent (d : V) :
  bt_entry_or k d (m1 ++ m2) = m1 ++ (k, d) :: m2.
Proof.
  induction m1 as [|[k' v] m1' IH]; cbn [app].
  - destruct m2 as [|[k' v] m]; [done|]. cbn [bt_entry_or].
    by rewrite (cmp_above_head _ _ _ _ Ha).
  - apply Forall_cons in Hb as [H1 H2]. cbn [bt_entry_or]. rewrite cmp_kval.
    rewrite (proj2 (Z.compare_gt_iff _ _)) by done. by rewrite IH.
Qed.

Lemma bt_entry_or_present (k' : K) (v d : V) :
  kval k' = kval k -> bt_entry_or k d (m1 ++ (k', v) :: m2) = m1 ++ (k', v) :: m2.
Proof.
  intros E. induction m1 as [|[k'' v'] m1' IH]; cbn [app bt_entry_or]; rewrite cmp_kval.
  - by rewrite E, Z.compare_refl.
  - apply Forall_cons in Hb as [H1 H2].
    rewrite (proj2 (Z.compare_gt_iff _ _)) by done. by rewrite IH.
Qed.

Lemma bt_modify_present (k' : K) (v : V) (f : V -> V) :
  kval k' = kval k -> bt_modify k f (m1 ++ (k', v) :: m2) = m1 ++ (k', f v) :: m2.
Proof.
  intros E. induction m1 as [|[k'' v'] m1' IH]; cbn [app bt_modify]; rewrite cmp_kval.
  - by rewrite E, Z.compare_refl.
  - apply Forall_cons in Hb as [H1 H2].
    rewrite (proj2 (Z.compare_gt_iff _ _)) by done. by rewrite IH.
Qed.

Lemma bt_remove_present (k' : K) (v : V) :
  kval k' = kval k -> bt_remove k (m1 ++ (k', v) :: m2) = m1 ++ m2.
Proof.
  intros E. induction m1 as [|[k'' v'] m1' IH]; cbn [app bt_remove]; rewrite cmp_kval.
  - by rewrite E, Z.compare_refl.
  - apply Forall_cons in Hb as [H1 H2].
    rewrite (proj2 (Z.compare_gt_iff _ _)) by done. by rewrite IH.
Qed.
End at_key.

(** A successful lookup splits the map at the key found. *)
Lemma bt_get_split (k : K) (m : bmap) (v : V) :
  bt_sorted kval m -> bt_get k m = Some v ->
  exists m1 k' m2, m = m1 ++ (k', v) :: m2 /\ kval k' = kval k /\
    below kval k m1 /\ above kval k m2.
Proof.
  intros Hs Hg. destruct (bt_split k m Hs) as (m1 & mid & m2 & -> & H1 & H2 & [->|H3]).
  - by rewrite bt_get_absent in Hg.
  - destruct H3 as (k' & v' & -> & E). exists m1, k', m2. cbn [app] in *.
    rewrite bt_get_present in Hg by done. by simplify_eq.
Qed.

End btree.

