(* ===== verification/Types.v ===== *)
(** * Domain types of the engine

    [types.rs], [order.rs], [events.rs] and [error.rs] of the [clob-engine] crate:
    sides, order types and statuses, the order record with its two methods, fills
    and order events, and the engine's errors. *)

From S2P Require Import Prelude External.

(** ** types.rs *)

Inductive Side := Bid | Ask.

Inductive OrderType := Limit | Market.

#[global] Instance Side_eq_dec : EqDecision Side.
Proof. solve_decision. Defined.

#[global] Instance OrderType_eq_dec : EqDecision OrderType.
Proof. solve_decision. Defined.

(** The type aliases of the source. *)
Abbreviation Price := Decimal.
Abbreviation Quantity := Decimal.
Abbreviation OrderId := Uuid.

(** ** order.rs *)

Inductive OrderStatus := Open | PartiallyFilled | Filled | Cancelled.

#[global] Instance OrderStatus_eq_dec : EqDecision OrderStatus.
Proof. solve_decision. Defined.

Section types.
Context {DA : DecimalApi} {UA : UuidApi}.

Record Order := mkOrder {
  o_id : OrderId;
  o_market_id : string;
  o_side : Side;
  o_order_type : OrderType;
  o_price : option Price;
  o_quantity : Quantity;
  o_filled : Quantity;
  o_status : OrderStatus;
  o_sequence : Z
}.

Definition set_filled (f : Quantity) (o : Order) : Order :=
  {| o_id := o_id o; o_market_id := o_market_id o; o_side := o_side o;
     o_order_type := o_order_type o; o_price := o_price o;
     o_quantity := o_quantity o; o_filled := f; o_status := o_status o;
     o_sequence := o_sequence o |}.

Definition set_status (st : OrderStatus) (o : Order) : Order :=
  {| o_id := o_id o; o_market_id := o_market_id o; o_side := o_side o;
     o_order_type := o_order_type o; o_price := o_price o;
     o_quantity := o_quantity o; o_filled := o_filled o; o_status := st;
     o_sequence := o_sequence o |}.

Definition set_sequence (n : Z) (o : Order) : Order :=
  {| o_id := o_id o; o_market_id := o_market_id o; o_side := o_side o;
     o_order_type := o_order_type o; o_price := o_price o;
     o_quantity := o_quantity o; o_filled := o_filled o; o_status := o_status o;
     o_sequence := n |}.

(** [Order::remaining]: the subtraction panics on overflow. *)
Definition remaining (o : Order) : outcome Quantity :=
  or_panic (dec_sub (o_quantity o) (o_filled o)).

(** [Order::is_complete] *)
Definition is_complete (o : Order) : bool :=
  bool_decide (o_status o = Filled) || bool_decide (o_status o = Cancelled).

(** ** events.rs *)

Record Fill := mkFill {
  f_maker_order_id : OrderId;
  f_taker_order_id : OrderId;
  f_price : Price;
  f_quantity : Quantity;
  f_sequence : Z
}.

Inductive OrderEvent :=
| OrderPlaced (order_id : OrderId) (market_id : string) (side : Side)
    (order_type : OrderType) (price : option Price) (quantity : Quantity) (sequence : Z)
| OrderCancelled (order_id : OrderId) (sequence : Z)
| OrderFilled (fill : Fill)
| OrderPartiallyFilled (fill : Fill).

(** ** error.rs

    [SnapshotSerialize] carries the codec's error; nothing reads it. *)

Inductive EngineError :=
| OrderNotFound (id : OrderId)
| OrderAlreadyComplete (id : OrderId)
| MissingLimitPrice
| InvalidQuantity
| SnapshotSerialize.

(** The message [thiserror] derives for each error. *)
Definition EngineError_to_string (e : EngineError) : string :=
  match e with
  | OrderNotFound id => "order not found: " +:+ uuid_to_string id
  | OrderAlreadyComplete id => "order already complete: " +:+ uuid_to_string id
  | MissingLimitPrice => "invalid price: limit order must have a price"
  | InvalidQuantity => "invalid quantity: must be greater than zero"
  | SnapshotSerialize => "snapshot serialization failed: "
  end.

(** The opposite side of the book, where a taker looks for makers. *)
Definition opposite (s : Side) : Side :=
  match s with Bid => Ask | Ask => Bid end.

(** ** Well-formed orders

    Quantities lie on the grid of [10^-lot] units; [lots] counts them. *)

Section lots.
Context (lot : Z).

Definition lots (d : Quantity) : Z := dec_units lot d.
Definition amount (d : Quantity) : Prop := on_grid lot d.

(** An order the engine may be given: amounts, nothing negative filled. *)
Definition order_ok (o : Order) : Prop :=
  amount (o_quantity o) /\ amount (o_filled o) /\ 0 <= lots (o_filled o).

(** An order that may rest: something is left to fill. *)
Definition resting_ok (o : Order) : Prop :=
  order_ok o /\ lots (o_filled o) < lots (o_quantity o).

Definition lots_left (o : Order) : Z := lots (o_quantity o) - lots (o_filled o).
End lots.
End types.

Arguments Order : clear implicits.
Arguments Order {DA UA}.
Arguments Fill : clear implicits.
Arguments Fill {DA UA}.
Arguments EngineError : clear implicits.
Arguments EngineError {UA}.

(** ** Facts about amounts *)

Section amounts.
Context {DA : DecimalApi} {DL : DecimalLaws DA} {UA : UuidApi}.
Context (lot : Z) (Hlot : 0 <= lot <= 28).

Lemma amount_ZERO : amount lot dec_ZERO.
Proof.
  split; [rewrite (proj2 dec_ZERO_repr); lia|]. rewrite dec_units_ZERO. lia.
Qed.

Lemma dec_le_lots (a b : Decimal) :
  amount lot a -> amount lot b -> dec_le a b = (lots lot a <=? lots lot b).
Proof. intros [Ha _] [Hb _]. unfold dec_le, Z.leb. by rewrite (dec_cmp_units lot). Qed.

Lemma dec_le_ZERO_lots (a : Decimal) :
  amount lot a -> dec_le a dec_ZERO = (lots lot a <=? 0).
Proof.
  intros Ha. rewrite dec_le_lots by (auto using amount_ZERO).
  unfold lots at 2. by rewrite dec_units_ZERO.
Qed.

Lemma dec_gt_ZERO_lots (a : Decimal) :
  amount lot a -> dec_gt a dec_ZERO = (0 <? lots lot a).
Proof.
  intros Ha. unfold dec_gt, lots. destruct Ha as [Ha _].
  rewrite (dec_cmp_units lot) by (rewrite ?(proj2 dec_ZERO_repr); lia).
  rewrite dec_units_ZERO. unfold Z.ltb. rewrite (Z.compare_antisym 0).
  by destruct (0 ?= dec_units lot a).
Qed.

Lemma remaining_lots (o : Order) :
  order_ok lot o -> - 2 ^ 96 < lots_left lot o ->
  exists r, remaining o = Ret r /\ amount lot r /\ lots lot r = lots_left lot o.
Proof.
  intros (Hq & Hf & H0) Hr. unfold remaining, lots_left, lots in *.
  assert (Hb : Z.abs (dec_units lot (o_quantity o) - dec_units lot (o_filled o)) < 2 ^ 96).
  { destruct Hq as [_ Hq]. lia. }
  destruct (dec_sub_exact lot _ _ Hlot Hq Hf Hb) as (c & -> & Hs & Hc).
  exists c. split; [done|]. split; [|done]. split; [done|]. by rewrite Hc.
Qed.
End amounts.

#[export] Hint Resolve amount_ZERO : clob.
