(* ===== verification/OrderBook.v ===== *)
(** * The order book

    [orderbook.rs] of the [clob-engine] crate: resting orders in a slab, an index
    from order ids to slab keys, and one map per side from prices to the queue of
    keys resting at that price. *)

From S2P Require Import Prelude External BTreeMap Types.

(** The type aliases of the source. *)
Abbreviation SlabKey := nat.
Abbreviation Level := (list SlabKey).

(** ** State and operations *)

Section orderbook.
Context {DA : DecimalApi} {UA : UuidApi} {SA : SlabApi}.

Abbreviation LevelMap := (list (Price * Level)).

Record OrderBook := mkBook {
  ob_orders : Slab Order;
  ob_index : gmap Uuid SlabKey;
  ob_bids : LevelMap;
  ob_asks : LevelMap
}.

Inductive InsertError := MarketOrderNotAllowed | InsertInvalidQuantity.

Inductive CancelError :=
| NotFound (id : OrderId)
| AlreadyComplete (id : OrderId).

Definition OrderBook_new : OrderBook :=
  {| ob_orders := slab_new; ob_index := ∅; ob_bids := []; ob_asks := [] |}.

Definition side_map (sd : Side) (b : OrderBook) : LevelMap :=
  match sd with Bid => ob_bids b | Ask => ob_asks b end.

Definition set_side_map (sd : Side) (m : LevelMap) (b : OrderBook) : OrderBook :=
  match sd with
  | Bid => {| ob_orders := ob_orders b; ob_index := ob_index b;
              ob_bids := m; ob_asks := ob_asks b |}
  | Ask => {| ob_orders := ob_orders b; ob_index := ob_index b;
              ob_bids := ob_bids b; ob_asks := m |}
  end.

Definition set_orders (s : Slab Order) (b : OrderBook) : OrderBook :=
  {| ob_orders := s; ob_index := ob_index b; ob_bids := ob_bids b; ob_asks := ob_asks b |}.

Definition set_index (i : gmap Uuid SlabKey) (b : OrderBook) : OrderBook :=
  {| ob_orders := ob_orders b; ob_index := i; ob_bids := ob_bids b; ob_asks := ob_asks b |}.

(** [entry(price).or_default()] followed by [push_back(key)] *)
Definition push_level (price : Price) (key : SlabKey) (m : LevelMap) : LevelMap :=
  bt_modify dec_cmp price (fun level => level ++ [key])
    (bt_entry_or dec_cmp price [] m).

(** The level at [price] becomes [level]; the source drops it when it is empty. *)
Definition write_level (price : Price) (level : Level) (m : LevelMap) : LevelMap :=
  let m' := bt_modify dec_cmp price (fun _ => level) m in
  match level with
  | [] => bt_remove dec_cmp price m'
  | _ :: _ => m'
  end.

(** [OrderBook::insert_order] *)
Definition insert_order (b : OrderBook) (order : Order) :
    outcome (OrderBook * result SlabKey InsertError) :=
  match o_price order with
  | None => Ret (b, Err MarketOrderNotAllowed)
  | Some price =>
      if dec_le (o_quantity order) dec_ZERO then Ret (b, Err InsertInvalidQuantity)
      else
        let id := o_id order in
        let '(key, s) := slab_insert (ob_orders b) order in
        let b := set_orders s b in
        let b := set_index (<[id := key]> (ob_index b)) b in
        let! o := or_panic (slab_get (ob_orders b) key) in
        let sd := o_side o in
        Ret (set_side_map sd (push_level price key (side_map sd b)) b, Ok key)
  end.

(** [OrderBook::cancel_order] *)
Definition cancel_order (b : OrderBook) (id : OrderId) :
    outcome (OrderBook * result unit CancelError) :=
  match ob_index b !! id with
  | None => Ret (b, Err (NotFound id))
  | Some key =>
      let! order := or_panic (slab_get (ob_orders b) key) in
      if is_complete order then Ret (b, Err (AlreadyComplete id))
      else
        match o_price order with
        | None => Ret (b, Err (NotFound id))
        | Some price =>
            let sd := o_side order in
            let b := set_orders (slab_set (ob_orders b) key (set_status Cancelled order)) b in
            let m := side_map sd b in
            let b :=
              match bt_get dec_cmp price m with
              | Some level =>
                  set_side_map sd (write_level price (filter (fun k => k <> key) level) m) b
              | None => b
              end in
            let! r := or_panic (slab_try_remove (ob_orders b) key) in
            let b := set_orders (snd r) b in
            Ret (set_index (delete id (ob_index b)) b, Ok tt)
        end
  end.

Definition best_bid (b : OrderBook) : option Price := bt_last_key (ob_bids b).

Definition best_ask (b : OrderBook) : option Price := bt_first_key (ob_asks b).

Definition level_depth (b : OrderBook) (sd : Side) (price : Price) : nat :=
  match bt_get dec_cmp price (side_map sd b) with
  | Some l => length l
  | None => 0
  end.

Definition best_bid_front (b : OrderBook) : option SlabKey :=
  price ← best_bid b; bt_get dec_cmp price (ob_bids b) ≫= head.

Definition best_ask_front (b : OrderBook) : option SlabKey :=
  price ← best_ask b; bt_get dec_cmp price (ob_asks b) ≫= head.

(** [OrderBook::pop_front] *)
Definition pop_front (b : OrderBook) (sd : Side) (price : Price) : OrderBook :=
  match bt_get dec_cmp price (side_map sd b) with
  | None => b
  | Some level =>
      let '(b, level) :=
        match level with
        | [] => (b, level)
        | key :: level' =>
            match slab_try_remove (ob_orders b) key with
            | Some (order, s) =>
                (set_index (delete (o_id order) (ob_index b)) (set_orders s b), level')
            | None => (b, level')
            end
        end in
      set_side_map sd (write_level price level (side_map sd b)) b
  end.

Definition get_order (b : OrderBook) (key : SlabKey) : option Order :=
  slab_get (ob_orders b) key.

(** Writing [o] through the reference [get_order_mut] returns. *)
Definition put_order (b : OrderBook) (key : SlabKey) (o : Order) : OrderBook :=
  set_orders (slab_set (ob_orders b) key o) b.

(** ** Priority

    The entries of a side in the order the matching loop meets them: best price
    first, and at one price first come first served. *)

Definition by_priority (sd : Side) (m : LevelMap) : LevelMap :=
  match sd with Ask => m | Bid => reverse m end.

Definition level_entries (pl : Price * Level) : list (Price * SlabKey) :=
  (fun k => (pl.1, k)) <$> pl.2.

Definition entries (sd : Side) (m : LevelMap) : list (Price * SlabKey) :=
  by_priority sd m ≫= level_entries.

(** The resting orders of a side in priority order. *)
Definition queue (sd : Side) (b : OrderBook) : list Order :=
  omap (slab_get (ob_orders b)) ((entries sd (side_map sd b)).*2).

(** The lower the rank of a price, the better it is for the other side. *)
Definition rank (sd : Side) (v : Z) : Z :=
  match sd with Ask => v | Bid => - v end.

(** ** Well-formed books *)

Definition entry_ok (s : Slab Order) (sd : Side) (e : Price * SlabKey) : Prop :=
  exists o q, slab_get s e.2 = Some o /\ o_side o = sd /\ o_price o = Some q /\ q ≡ e.1.

Record side_wf (s : Slab Order) (sd : Side) (m : LevelMap) : Prop := {
  sw_sorted : bt_sorted dec_val m;
  sw_nonempty : Forall (fun pl => snd pl <> []) m;
  sw_entries : Forall (entry_ok s sd) (entries sd m);
  sw_nodup : NoDup (entries sd m).*2
}.

(** Every resting order is in exactly one level, of its side and its price; the
    index only names resting orders. *)
Record book_wf (b : OrderBook) : Prop := {
  wf_side : forall sd, side_wf (ob_orders b) sd (side_map sd b);
  wf_cover : forall k o, slab_get (ob_orders b) k = Some o ->
    k ∈ (entries (o_side o) (side_map (o_side o) b)).*2;
  wf_index : forall id k, ob_index b !! id = Some k ->
    exists o, slab_get (ob_orders b) k = Some o /\ o_id o = id
}.

(** The index finds every resting order: the ids of resting orders are distinct. *)
Definition book_indexed (b : OrderBook) : Prop :=
  forall k o, slab_get (ob_orders b) k = Some o -> ob_index b !! o_id o = Some k.

(** Every resting order satisfies [P]. *)
Definition book_all (P : Order -> Prop) (b : OrderBook) : Prop :=
  forall k o, slab_get (ob_orders b) k = Some o -> P o.
End orderbook.

Arguments OrderBook : clear implicits.
Arguments OrderBook {DA UA SA}.
Arguments CancelError : clear implicits.
Arguments CancelError {UA}.
