(* ===== verification/Levels.v ===== *)
(** * Price levels in priority order

    How the operations on a side's price map act on the entries of that side,
    listed in priority order: a new key goes behind every key that is at least as
    good, and rewriting one level rewrites one contiguous segment. *)

From S2P Require Import Prelude External BTreeMap Types OrderBook.

Section levels.
Context {DA : DecimalApi} {DL : DecimalLaws DA}.

Abbreviation LevelMap := (list (Price * Level)).
Implicit Types (m : LevelMap) (sd : Side) (p : Price) (k : SlabKey).

#[local] Lemma cmp_val (a b : Price) : dec_cmp a b = (dec_val a ?= dec_val b).
Proof. apply dec_cmp_val. Qed.

(** The two halves of a side around a price. *)
Definition front_part sd m1 m2 : LevelMap :=
  match sd with Ask => m1 | Bid => reverse m2 end.
Definition back_part sd m1 m2 : LevelMap :=
  match sd with Ask => m2 | Bid => reverse m1 end.

Lemma entries_split sd m1 pl m2 :
  entries sd (m1 ++ pl :: m2) =
    (front_part sd m1 m2 ≫= level_entries) ++ level_entries pl ++
    (back_part sd m1 m2 ≫= level_entries).
Proof.
  unfold entries. destruct sd; cbn [by_priority front_part back_part].
  - rewrite reverse_app, reverse_cons, !bind_app. cbn. by rewrite app_nil_r, app_assoc.
  - rewrite bind_app. done.
Qed.

Lemma entries_join sd m1 m2 :
  entries sd (m1 ++ m2) =
    (front_part sd m1 m2 ≫= level_entries) ++ (back_part sd m1 m2 ≫= level_entries).
Proof.
  unfold entries. destruct sd; cbn [by_priority front_part back_part].
  - by rewrite reverse_app, bind_app.
  - by rewrite bind_app.
Qed.

Lemma elem_of_by_priority sd m pl : pl ∈ by_priority sd m <-> pl ∈ m.
Proof. destruct sd; cbn; [apply elem_of_reverse|done]. Qed.

Lemma elem_of_entries sd m p k :
  (p, k) ∈ entries sd m <-> exists l, (p, l) ∈ m /\ k ∈ l.
Proof.
  unfold entries, level_entries. rewrite list_elem_of_bind. split.
  - intros ([p' l] & H & Hin). apply list_elem_of_fmap in H as (k' & E & Hk).
    simplify_eq/=. exists l. split; [|done]. by apply elem_of_by_priority in Hin.
  - intros (l & Hin & Hk). exists (p, l). split.
    + apply list_elem_of_fmap. by exists k.
    + by apply elem_of_by_priority.
Qed.

Lemma level_entries_forall (P : Price * SlabKey -> Prop) m :
  Forall P (m ≫= level_entries) <-> (forall p l k, (p, l) ∈ m -> k ∈ l -> P (p, k)).
Proof.
  rewrite Forall_forall. unfold level_entries. split.
  - intros H p l k Hin Hk. apply H. apply list_elem_of_bind. exists (p, l).
    split; [|done]. apply list_elem_of_fmap. by exists k.
  - intros H [p k] ([p' l] & Hk & Hin)%list_elem_of_bind.
    apply list_elem_of_fmap in Hk as (k' & E & Hk). simplify_eq/=. by eapply H.
Qed.

(** Entries of the front half are strictly better, of the back half strictly worse. *)
Lemma front_part_better sd m1 m2 p :
  below dec_val p m1 -> above dec_val p m2 ->
  Forall (fun e => rank sd (dec_val e.1) < rank sd (dec_val p))
    (front_part sd m1 m2 ≫= level_entries).
Proof.
  unfold below, above. intros H1 H2. rewrite Forall_forall in H1, H2.
  apply level_entries_forall. intros q l k Hin _. destruct sd; cbn in *.
  - rewrite elem_of_reverse in Hin; apply H2 in Hin. cbn in Hin. lia.
  - by apply H1 in Hin.
Qed.

Lemma back_part_worse sd m1 m2 p :
  below dec_val p m1 -> above dec_val p m2 ->
  Forall (fun e => rank sd (dec_val p) < rank sd (dec_val e.1))
    (back_part sd m1 m2 ≫= level_entries).
Proof.
  unfold below, above. intros H1 H2. rewrite Forall_forall in H1, H2.
  apply level_entries_forall. intros q l k Hin _. destruct sd; cbn in *.
  - rewrite elem_of_reverse in Hin; apply H1 in Hin. cbn in Hin. lia.
  - by apply H2 in Hin.
Qed.

(** ** Sorted, non-empty maps stay so *)

Definition levels_ok m : Prop :=
  bt_sorted dec_val m /\ Forall (fun pl => snd pl <> []) m.

Lemma levels_ok_replace m1 m2 (a : Price * Level) p l :
  levels_ok (m1 ++ a :: m2) -> dec_val p = dec_val a.1 -> l <> [] ->
  levels_ok (m1 ++ (p, l) :: m2).
Proof.
  intros [Hs Hn] E Hl. split.
  - apply bt_sorted_app in Hs as (H1 & [H2 Hx]%StronglySorted_inv & H12).
    apply bt_sorted_app. split; [done|]. split.
    + constructor; [done|]. eapply Forall_impl; [exact Hx|].
      intros b Hb. unfold bt_lt in *. cbn [fst] in *. lia.
    + intros b c Hb [->|Hc]%elem_of_cons.
      * unfold bt_lt. simpl. rewrite E. apply (H12 b a); set_solver.
      * apply H12; set_solver.
  - apply Forall_app in Hn as [Hn1 [_ Hn2]%Forall_cons].
    apply Forall_app. split; [done|]. by constructor.
Qed.

Lemma levels_ok_drop m1 m2 (a : Price * Level) :
  levels_ok (m1 ++ a :: m2) -> levels_ok (m1 ++ m2).
Proof.
  intros [Hs Hn]. split.
  - apply bt_sorted_app in Hs as (H1 & [H2 Hx]%StronglySorted_inv & H12).
    apply bt_sorted_app. split; [done|]. split; [done|].
    intros b c Hb Hc. apply H12; set_solver.
  - apply Forall_app in Hn as [Hn1 [_ Hn2]%Forall_cons]. by apply Forall_app.
Qed.

Lemma levels_ok_insert m1 m2 p l :
  levels_ok (m1 ++ m2) -> below dec_val p m1 -> above dec_val p m2 -> l <> [] ->
  levels_ok (m1 ++ (p, l) :: m2).
Proof.
  unfold below, above. intros [Hs Hn] Hb Ha Hl. split.
  - apply bt_sorted_app in Hs as (H1 & H2 & H12). rewrite Forall_forall in Hb.
    apply bt_sorted_app. split; [done|]. split; [by constructor|].
    intros b c Hbin [->|Hc]%elem_of_cons; [by apply Hb|by apply H12].
  - apply Forall_app in Hn as [Hn1 Hn2]. apply Forall_app. split; [done|]. by constructor.
Qed.

(** ** Pushing a key *)

Lemma push_level_entries sd m p k :
  levels_ok m ->
  exists e1 e2 p', entries sd m = e1 ++ e2 /\
    entries sd (push_level p k m) = e1 ++ (p', k) :: e2 /\ p' ≡ p /\
    Forall (fun e => rank sd (dec_val e.1) <= rank sd (dec_val p)) e1 /\
    Forall (fun e => rank sd (dec_val p) < rank sd (dec_val e.1)) e2 /\
    levels_ok (push_level p k m).
Proof.
  intros Hok. destruct (bt_split dec_val p m (proj1 Hok))
    as (m1 & mid & m2 & -> & Hb & Ha & Hmid).
  pose proof (front_part_better sd m1 m2 p Hb Ha) as Hf.
  pose proof (back_part_worse sd m1 m2 p Hb Ha) as Hw.
  apply (Forall_impl _ (fun e => rank sd (dec_val e.1) <= rank sd (dec_val p))) in Hf;
    [|intros; lia].
  unfold push_level. destruct Hmid as [->|(p' & l & -> & E)]; cbn [app] in *.
  - rewrite (bt_entry_or_absent _ _ cmp_val) by done.
    rewrite (bt_modify_present _ _ cmp_val) by done. cbn [app].
    rewrite entries_split, entries_join. eexists _, _, p. repeat split; try done.
    + by apply levels_ok_insert.
    + by apply levels_ok_insert.
  - rewrite (bt_entry_or_present _ _ cmp_val) by done.
    rewrite (bt_modify_present _ _ cmp_val) by done. rewrite !entries_split.
    unfold level_entries at 2 5. cbn [fst snd]. rewrite fmap_app.
    exists ((front_part sd m1 m2 ≫= level_entries) ++ ((fun k => (p', k)) <$> l)), (back_part sd m1 m2 ≫= level_entries), p'.
    rewrite <-!app_assoc. repeat split; try done; [by apply decimal_equiv_val| | |].
    + apply Forall_app. split; [done|]. apply Forall_fmap, Forall_true. cbn. intros. rewrite E. lia.
    + eapply levels_ok_replace; [done|done|]. by destruct l.
    + eapply levels_ok_replace; [done|done|]. by destruct l.
Qed.

(** ** Rewriting a level *)

Lemma write_level_entries sd m p l :
  levels_ok m -> bt_get dec_cmp p m = Some l ->
  exists e1 e2 p', p' ≡ p /\
    entries sd m = e1 ++ level_entries (p', l) ++ e2 /\
    (forall l', entries sd (write_level p l' m) = e1 ++ level_entries (p', l') ++ e2) /\
    (forall l', levels_ok (write_level p l' m)).
Proof.
  intros Hok Hg. pose proof (proj1 Hok) as Hs.
  destruct (bt_get_split _ _ cmp_val p m l Hs Hg) as (m1 & p' & m2 & -> & E & Hb & Ha).
  exists (front_part sd m1 m2 ≫= level_entries), (back_part sd m1 m2 ≫= level_entries), p'.
  assert (Hw : forall l', write_level p l' (m1 ++ (p', l) :: m2) =
    match l' with [] => m1 ++ m2 | _ => m1 ++ (p', l') :: m2 end).
  { intros l'. unfold write_level. rewrite (bt_modify_present _ _ cmp_val) by done.
    destruct l'; [|done]. by rewrite (bt_remove_present _ _ cmp_val). }
  repeat split.
  - by apply decimal_equiv_val.
  - apply entries_split.
  - intros l'. rewrite Hw. destruct l'; [by rewrite entries_join|by rewrite entries_split].
  - rewrite Hw. destruct l'; [by eapply levels_ok_drop|by eapply levels_ok_replace].
  - rewrite Hw. destruct l'; [by eapply levels_ok_drop|by eapply levels_ok_replace].
Qed.

(** A key of a level is an entry of the side. *)
Lemma entry_level sd m p q k :
  levels_ok m -> (q, k) ∈ entries sd m -> q ≡ p ->
  exists l, bt_get dec_cmp p m = Some l /\ k ∈ l.
Proof.
  intros [Hs _] (l & Hin & Hk)%elem_of_entries E. exists l. split; [|done].
  apply list_elem_of_split in Hin as (m1 & m2 & ->).
  apply bt_sorted_app in Hs as (_ & [_ Hx]%StronglySorted_inv & H12).
  apply decimal_equiv_val in E. apply (bt_get_present _ _ cmp_val); [|done].
  apply Forall_forall. intros a Ha. rewrite <-E. apply (H12 a (q, l)); set_solver.
Qed.
End levels.
