(* ===== verification/PriceTime.v ===== *)
(** * Price-time priority, the specification

    What a limit order book with price-time priority promises, over exact
    integers: a side is a list of resting orders, best price first and oldest
    first within a price. No slab, no index, no price map, no decimals. The
    engine is proved to implement this specification in [MatchingRefine]. *)

From S2P Require Import Prelude External Types OrderBook.

Section spec.
Context {UA : UuidApi}.

(** A resting order or a taker; prices count units of [10^-28], quantities lots. *)
Record aorder := mkA {
  a_id : OrderId;
  a_price : Z;
  a_quantity : Z;
  a_filled : Z;
  a_status : OrderStatus
}.

Record afill := mkAFill {
  af_maker : OrderId;
  af_taker : OrderId;
  af_price : Z;
  af_quantity : Z;
  af_sequence : Z
}.

Definition a_left (o : aorder) : Z := a_quantity o - a_filled o.

(** [o] after [x] more lots were filled. *)
Definition a_fill (x : Z) (o : aorder) : aorder :=
  {| a_id := a_id o; a_price := a_price o; a_quantity := a_quantity o;
     a_filled := a_filled o + x;
     a_status := if a_left o - x <=? 0 then Filled else PartiallyFilled |}.

(** A new order goes behind every order whose price is at least as good. *)
Fixpoint q_insert (sd : Side) (o : aorder) (q : list aorder) : list aorder :=
  match q with
  | [] => [o]
  | o' :: q' =>
      if rank sd (a_price o) <? rank sd (a_price o') then o :: q
      else o' :: q_insert sd o q'
  end.

(** The order named [id] leaves; the others keep their places. *)
Definition q_cancel (id : OrderId) (q : list aorder) : list aorder :=
  filter (fun o => a_id o <> id) q.

(** The taker meets the makers from the front while it is not exhausted and
    their prices satisfy it. Every fill is at the maker's price. *)
Fixpoint q_match (crosses : Z -> bool) (t : aorder) (seq : Z) (q : list aorder) :
    aorder * Z * list aorder * list afill :=
  match q with
  | [] => (t, seq, [], [])
  | m :: q' =>
      if (a_left t <=? 0) || negb (crosses (a_price m)) then (t, seq, q, [])
      else
        let x := Z.min (a_left t) (a_left m) in
        let seq := u64_add seq 1 in
        let fill := {| af_maker := a_id m; af_taker := a_id t; af_price := a_price m;
                       af_quantity := x; af_sequence := seq |} in
        if a_left m - x <=? 0 then
          let '(t', seq', q'', fills) := q_match crosses (a_fill x t) seq q' in
          (t', seq', q'', fill :: fills)
        else (a_fill x t, seq, a_fill x m :: q', [fill])
  end.

(** ** Facts *)

Definition q_sorted (sd : Side) (q : list aorder) : Prop :=
  StronglySorted (fun o o' => rank sd (a_price o) <= rank sd (a_price o')) q.

Fixpoint total_left (q : list aorder) : Z :=
  match q with [] => 0 | o :: q' => a_left o + total_left q' end.

Fixpoint total_filled (fs : list afill) : Z :=
  match fs with [] => 0 | f :: fs' => af_quantity f + total_filled fs' end.

#[local] Arguments a_left : simpl never.

Lemma a_left_fill (x : Z) (o : aorder) : a_left (a_fill x o) = a_left o - x.
Proof. unfold a_left, a_fill. cbn. lia. Qed.

Lemma q_insert_split (sd : Side) (o : aorder) (q1 q2 : list aorder) :
  Forall (fun o' => rank sd (a_price o') <= rank sd (a_price o)) q1 ->
  Forall (fun o' => rank sd (a_price o) < rank sd (a_price o')) q2 ->
  q_insert sd o (q1 ++ q2) = q1 ++ o :: q2.
Proof.
  intros H1 H2. induction H1 as [|o' q1 Hle H1 IH]; cbn [app].
  - destruct H2 as [|o' q2 Hlt H2]; [done|]. cbn [q_insert].
    by rewrite (proj2 (Z.ltb_lt _ _) Hlt).
  - cbn [q_insert]. rewrite (proj2 (Z.ltb_ge _ _)) by done. by rewrite IH.
Qed.

Lemma q_insert_perm (sd : Side) (o : aorder) (q : list aorder) :
  q_insert sd o q ≡ₚ o :: q.
Proof.
  induction q as [|o' q IH]; cbn [q_insert]; [done|].
  case_match; [done|]. rewrite IH. apply Permutation_swap.
Qed.

Lemma q_insert_sorted (sd : Side) (o : aorder) (q : list aorder) :
  q_sorted sd q -> q_sorted sd (q_insert sd o q).
Proof.
  unfold q_sorted. induction q as [|o' q IH]; intros Hs; cbn [q_insert].
  - by repeat constructor.
  - pose proof Hs as [Hs' Hx]%StronglySorted_inv.
    destruct (Z.ltb_spec (rank sd (a_price o)) (rank sd (a_price o'))).
    + constructor; [done|]. constructor; [lia|].
      eapply Forall_impl; [exact Hx|]. cbn. intros; lia.
    + constructor; [by apply IH|]. rewrite Forall_forall in *. intros o'' Hin.
      rewrite q_insert_perm in Hin. apply elem_of_cons in Hin as [->|Hin]; [lia|].
      by apply Hx.
Qed.

(** What one call of the matcher does, by cases on the head of the queue. *)
Section match_facts.
Context (crosses : Z -> bool).

Lemma q_match_stop (t m : aorder) (seq : Z) (q : list aorder) :
  a_left t <= 0 \/ crosses (a_price m) = false ->
  q_match crosses t seq (m :: q) = (t, seq, m :: q, []).
Proof.
  intros H. cbn [q_match]. destruct H as [H|H].
  - by rewrite (proj2 (Z.leb_le _ _) H).
  - rewrite H, orb_true_r. done.
Qed.

Lemma q_match_done (t : aorder) (seq : Z) (q : list aorder) :
  a_left t <= 0 -> q_match crosses t seq q = (t, seq, q, []).
Proof. intros H. destruct q; [done|]. by apply q_match_stop; left. Qed.

(** One step of the matcher. *)
Lemma q_match_step (t m : aorder) (seq : Z) (q : list aorder) t' seq' q' fs :
  0 < a_left t -> crosses (a_price m) = true ->
  let x := Z.min (a_left t) (a_left m) in
  q_match crosses (a_fill x t) (u64_add seq 1)
    (if a_left m - x <=? 0 then q else a_fill x m :: q) = (t', seq', q', fs) ->
  q_match crosses t seq (m :: q) =
    (t', seq', q', {| af_maker := a_id m; af_taker := a_id t; af_price := a_price m;
                      af_quantity := x; af_sequence := u64_add seq 1 |} :: fs).
Proof.
  intros Ht Hc x. subst x. cbn [q_match].
  rewrite (proj2 (Z.leb_gt (a_left t) 0)), Hc by done. cbn [orb negb].
  destruct (a_left m - _ <=? 0) eqn:Hc1; [by intros ->|].
  rewrite q_match_done by (rewrite a_left_fill; apply Z.leb_gt in Hc1; lia). by intros [= <- <- <- <-].
Qed.

(** Nothing is created or lost: what the taker filled is what the makers filled. *)
Lemma q_match_conserves (t t' : aorder) (seq seq' : Z) (q q' : list aorder) fs :
  q_match crosses t seq q = (t', seq', q', fs) ->
  a_filled t' = a_filled t + total_filled fs /\
  total_left q = total_left q' + total_filled fs /\
  a_quantity t' = a_quantity t /\ a_id t' = a_id t.
Proof.
  revert t seq t' seq' q' fs. induction q as [|m q IH]; intros t seq t' seq' q' fs.
  - cbn. intros [= <- <- <- <-]. cbn. repeat split; lia.
  - cbn [q_match]. case_match; [intros [= <- <- <- <-]; cbn; repeat split; lia|].
    case_match eqn:Hm.
    + destruct (q_match _ _ _ q) as [[[t1 s1] q1] fs1] eqn:E. intros [= <- <- <- <-].
      apply IH in E as (H1 & H2 & H3 & H4). cbn in *.
      apply Z.leb_le in Hm. repeat split; [lia| |done|done].
      assert (Z.min (a_left t) (a_left m) <= a_left m) by lia. lia.
    + intros [= <- <- <- <-]. cbn. rewrite a_left_fill. repeat split; lia.
Qed.

(** The matcher stops only when nothing more can be matched. *)
Lemma q_match_exhausts (t t' : aorder) (seq seq' : Z) (q q' : list aorder) fs :
  q_match crosses t seq q = (t', seq', q', fs) ->
  a_left t' <= 0 \/ match q' with [] => True | m :: _ => crosses (a_price m) = false end.
Proof.
  revert t seq t' seq' q' fs. induction q as [|m q IH]; intros t seq t' seq' q' fs.
  - intros [= <- <- <- <-]. by right.
  - cbn [q_match]. case_match eqn:Hs.
    + intros [= <- <- <- <-]. apply orb_prop in Hs as [Hs%Z.leb_le|Hs%negb_true_iff];
        [by left|by right].
    + case_match eqn:Hm.
      * destruct (q_match _ _ _ q) as [[[t1 s1] q1] fs1] eqn:E. intros [= <- <- <- <-].
        by apply IH in E.
      * intros [= <- <- <- <-]. left. rewrite a_left_fill. apply Z.leb_gt in Hm. lia.
Qed.

(** Every fill is positive and at a price the taker accepts. *)
Lemma q_match_fills (t t' : aorder) (seq seq' : Z) (q q' : list aorder) fs :
  Forall (fun m => 0 < a_left m) q ->
  q_match crosses t seq q = (t', seq', q', fs) ->
  Forall (fun f => 0 < af_quantity f /\ crosses (af_price f) = true /\
    af_taker f = a_id t) fs.
Proof.
  revert t seq t' seq' q' fs. induction q as [|m q IH]; intros t seq t' seq' q' fs Hq.
  - intros [= <- <- <- <-]. constructor.
  - apply Forall_cons in Hq as [Hm Hq]. cbn [q_match]. case_match eqn:Hs.
    + intros [= <- <- <- <-]. constructor.
    + apply orb_false_elim in Hs as [Ht%Z.leb_gt Hc%negb_false_iff].
      case_match.
      * destruct (q_match _ _ _ q) as [[[t1 s1] q1] fs1] eqn:E. intros [= <- <- <- <-].
        apply IH in E; [|done]. constructor; [|done]. cbn. repeat split; [lia|done].
      * intros [= <- <- <- <-]. repeat constructor; [cbn; lia|done].
Qed.

(** Strict priority: the makers filled are the first ones of the queue, in order;
    all but the last are filled completely, and the rest is untouched. *)
Lemma q_match_priority (t t' : aorder) (seq seq' : Z) (q q' : list aorder) fs :
  q_match crosses t seq q = (t', seq', q', fs) ->
  exists q1 q2, q = q1 ++ q2 /\ af_maker <$> fs = a_id <$> q1 /\
    af_price <$> fs = a_price <$> q1 /\
    (q' = q2 \/ exists q0 m x, q1 = q0 ++ [m] /\ q' = a_fill x m :: q2 /\
       0 < a_left m - x).
Proof.
  revert t seq t' seq' q' fs. induction q as [|m q IH]; intros t seq t' seq' q' fs.
  - intros [= <- <- <- <-]. exists [], []. by repeat split; left.
  - cbn [q_match]. case_match eqn:Hs.
    + intros [= <- <- <- <-]. exists [], (m :: q). by repeat split; left.
    + case_match eqn:Hm.
      * destruct (q_match _ _ _ q) as [[[t1 s1] q1] fs1] eqn:E. intros [= <- <- <- <-].
        apply IH in E as (p1 & p2 & -> & Hid & Hpr & Hq').
        exists (m :: p1), p2. cbn. rewrite Hid, Hpr. repeat split.
        destruct Hq' as [->|(q0 & m' & x & -> & -> & Hx)]; [by left|].
        right. exists (m :: q0), m', x. by repeat split.
      * intros [= <- <- <- <-]. exists [m], q. repeat split. right.
        eexists [], m, _. repeat split. by apply Z.leb_gt in Hm.
Qed.

(** Fills are numbered consecutively from the engine's counter. *)
Lemma q_match_sequence (t t' : aorder) (seq seq' : Z) (q q' : list aorder) fs :
  q_match crosses t seq q = (t', seq', q', fs) ->
  (forall i f, fs !! i = Some f -> af_sequence f = u64_add seq (Z.of_nat i + 1)) /\
  (fs <> [] -> seq' = u64_add seq (Z.of_nat (length fs))) /\
  (fs = [] -> seq' = seq).
Proof.
  revert t seq t' seq' q' fs. induction q as [|m q IH]; intros t seq t' seq' q' fs.
  - intros [= <- <- <- <-]. repeat split; try done.
  - cbn [q_match]. case_match eqn:Hs.
    + intros [= <- <- <- <-]. repeat split; try done.
    + case_match.
      * destruct (q_match _ _ _ q) as [[[t1 s1] q1] fs1] eqn:E. intros [= <- <- <- <-].
        apply IH in E as (H1 & H2 & H3). repeat split; try done.
        -- intros [|i] f; cbn; [by intros [= <-]|]. intros Hf. rewrite (H1 i f Hf).
           rewrite u64_add_assoc. f_equal. lia.
        -- intros _. destruct fs1 as [|f fs1]; cbn [length].
           ++ rewrite H3 by done. f_equal.
           ++ rewrite H2 by done. rewrite u64_add_assoc. f_equal. cbn [length]. lia.
      * intros [= <- <- <- <-]. repeat split; try done.
        intros [|i] f; [|done]. cbn. by intros [= <-].
Qed.

(** What is left of the queue keeps its order and its prices. *)
Lemma q_match_sorted (sd : Side) (t t' : aorder) (seq seq' : Z) (q q' : list aorder) fs :
  q_match crosses t seq q = (t', seq', q', fs) -> q_sorted sd q -> q_sorted sd q'.
Proof.
  unfold q_sorted. revert t seq t' seq' q' fs.
  induction q as [|m q IH]; intros t seq t' seq' q' fs.
  - by intros [= <- <- <- <-].
  - cbn [q_match]. case_match; [by intros [= <- <- <- <-]|]. case_match.
    + destruct (q_match _ _ _ q) as [[[t1 s1] q1] fs1] eqn:E. intros [= <- <- <- <-].
      intros [Hs _]%StronglySorted_inv. by eapply IH.
    + intros [= <- <- <- <-] [Hs Hx]%StronglySorted_inv. by constructor.
Qed.
End match_facts.

(** ** The engine's contract *)

Record astate := mkState {
  as_bids : list aorder;
  as_asks : list aorder;
  as_sequence : Z
}.

Inductive aresult := AFills (fs : list afill) | ACancelled | AResting.

Inductive aerror := AInvalidQuantity | AOrderNotFound (id : OrderId).

Definition as_side (sd : Side) (st : astate) : list aorder :=
  match sd with Bid => as_bids st | Ask => as_asks st end.

Definition as_set_side (sd : Side) (q : list aorder) (st : astate) : astate :=
  match sd with
  | Bid => mkState q (as_asks st) (as_sequence st)
  | Ask => mkState (as_bids st) q (as_sequence st)
  end.

Definition as_set_sequence (n : Z) (st : astate) : astate :=
  mkState (as_bids st) (as_asks st) n.

(** The price test of a limit taker; a missing price is replaced by the worst
    acceptable one, [ZERO] for a bid and [MAX] for an ask. *)
Definition limit_crosses (max : Z) (sd : Side) (limit : option Z) (p : Z) : bool :=
  match sd with
  | Bid => p <=? default 0 limit
  | Ask => default max limit <=? p
  end.

Definition spec_match (crosses : Z -> bool) (sd : Side) (t : aorder) (st : astate) :
    aorder * astate * list afill :=
  let '(t', seq', q', fs) :=
    q_match crosses t (as_sequence st) (as_side (opposite sd) st) in
  (t', as_set_sequence seq' (as_set_side (opposite sd) q' st), fs).

Definition spec_limit (max : Z) (sd : Side) (limit : option Z) (t : aorder) (st : astate) :
    astate * result aresult aerror :=
  if a_quantity t <=? 0 then (st, Err AInvalidQuantity)
  else
    let '(t', st', fs) := spec_match (limit_crosses max sd limit) sd t st in
    if 0 <? a_left t' then
      match limit with
      | None => (st', Err AInvalidQuantity)
      | Some _ =>
          (as_set_side sd (q_insert sd t' (as_side sd st')) st',
           Ok (match fs with [] => AResting | _ => AFills fs end))
      end
    else (st', Ok (AFills fs)).

Definition spec_market (sd : Side) (t : aorder) (st : astate) :
    astate * result aresult aerror :=
  if a_quantity t <=? 0 then (st, Err AInvalidQuantity)
  else
    let '(_, st', fs) := spec_match (fun _ => true) sd t st in (st', Ok (AFills fs)).
End spec.

Arguments aorder : clear implicits.
Arguments aorder {UA}.
Arguments afill : clear implicits.
Arguments afill {UA}.
Arguments astate : clear implicits.
Arguments astate {UA}.
Arguments aresult : clear implicits.
Arguments aresult {UA}.
Arguments aerror : clear implicits.
Arguments aerror {UA}.
