(* ===== verification/BookFacts.v ===== *)
(** * The order book keeps its invariant and implements the priority queues

    Each operation of [OrderBook] preserves [book_wf] and acts on the queues of
    resting orders as the specification of [PriceTime] says: [insert_order] is
    the stable insertion, [cancel_order] removes one order, [pop_front] drops the
    head. *)

From S2P Require Import Prelude External BTreeMap Types OrderBook Levels PriceTime.

(** ** Abstraction *)

Section abstraction.
Context {DA : DecimalApi} {UA : UuidApi} {SA : SlabApi}.
Context (lot : Z).

Definition price_val (p : option Price) : Z := from_option dec_val 0 p.

Definition abs_order (o : Order) : aorder :=
  {| a_id := o_id o; a_price := price_val (o_price o);
     a_quantity := lots lot (o_quantity o); a_filled := lots lot (o_filled o);
     a_status := o_status o |}.

Definition abs_queue (sd : Side) (b : OrderBook) : list aorder :=
  abs_order <$> queue sd b.

Lemma a_left_abs (o : Order) : a_left (abs_order o) = lots_left lot o.
Proof. done. Qed.
End abstraction.

Section facts.
Context {DA : DecimalApi} {DL : DecimalLaws DA} {UA : UuidApi}
  {SA : SlabApi} {SL : SlabLaws SA}.

Implicit Types (b : OrderBook) (sd : Side) (p : Price) (k : SlabKey) (o : Order).

(** ** Resolving entries to orders *)

Definition resolve (s : Slab Order) (es : list (Price * SlabKey)) : list Order :=
  omap (slab_get s) es.*2.

Lemma resolve_app s es1 es2 : resolve s (es1 ++ es2) = resolve s es1 ++ resolve s es2.
Proof. unfold resolve. by rewrite fmap_app, omap_app. Qed.

Lemma resolve_cons s p k o es :
  slab_get s k = Some o -> resolve s ((p, k) :: es) = o :: resolve s es.
Proof. intros H. unfold resolve. csimpl. by rewrite H. Qed.

Lemma resolve_ext s s' es :
  (forall k, k ∈ es.*2 -> slab_get s' k = slab_get s k) -> resolve s' es = resolve s es.
Proof. intros H. by apply omap_ext_in. Qed.

Lemma entry_ok_ext s s' sd e :
  slab_get s' e.2 = slab_get s e.2 -> entry_ok s sd e -> entry_ok s' sd e.
Proof. intros E (o & q & H & ?). exists o, q. by rewrite E. Qed.

Lemma entries_ok_ext s s' sd es :
  (forall k, k ∈ es.*2 -> slab_get s' k = slab_get s k) ->
  Forall (entry_ok s sd) es -> Forall (entry_ok s' sd) es.
Proof.
  intros E. rewrite !Forall_forall. intros H e He.
  apply (entry_ok_ext s); [|by apply H]. apply E. by apply list_elem_of_fmap_2.
Qed.

(** A property of the prices of entries is one of the prices of their orders. *)
Lemma resolve_forall (lot : Z) s sd es (P : Z -> Prop) :
  Forall (entry_ok s sd) es -> Forall (fun e => P (dec_val e.1)) es ->
  Forall (fun a => P (a_price a)) (abs_order lot <$> resolve s es).
Proof.
  intros Hok HP. apply Forall_fmap.
  induction Hok as [|[p k] es (o & q & Hg & _ & Hq & E) Hok IH]; [constructor|].
  apply Forall_cons in HP as [HP1 HP2]. cbn in Hg.
  rewrite (resolve_cons _ _ _ o) by done. constructor; [|by apply IH].
  cbn. rewrite Hq. cbn. by rewrite E.
Qed.

Lemma entry_ok_key s sd es k :
  Forall (entry_ok s sd) es -> k ∈ es.*2 -> exists o, slab_get s k = Some o /\ o_side o = sd.
Proof.
  intros Hok (e & -> & He)%list_elem_of_fmap. rewrite Forall_forall in Hok.
  destruct (Hok e He) as (o & q & ? & ? & _). by exists o.
Qed.

(** ** The empty book *)

Lemma book_new_wf : book_wf (OrderBook_new : OrderBook).
Proof.
  split.
  - intros [|]; split; cbn; try constructor.
  - intros k o. cbn. by rewrite slab_get_new.
  - intros id k. cbn. by rewrite lookup_empty.
Qed.

Lemma book_new_indexed : book_indexed (OrderBook_new : OrderBook).
Proof. intros k o. cbn. by rewrite slab_get_new. Qed.

Lemma queue_new sd : queue sd (OrderBook_new : OrderBook) = [].
Proof. by destruct sd. Qed.

(** ** Component access *)

Lemma side_map_set_same sd m b : side_map sd (set_side_map sd m b) = m.
Proof. by destruct sd. Qed.

Lemma side_map_set_other sd sd' m b :
  sd <> sd' -> side_map sd' (set_side_map sd m b) = side_map sd' b.
Proof. by destruct sd, sd'. Qed.

Lemma ob_orders_set_side sd m b : ob_orders (set_side_map sd m b) = ob_orders b.
Proof. by destruct sd. Qed.

Lemma ob_index_set_side sd m b : ob_index (set_side_map sd m b) = ob_index b.
Proof. by destruct sd. Qed.

Lemma side_map_set_orders sd s b : side_map sd (set_orders s b) = side_map sd b.
Proof. by destruct sd. Qed.

Lemma side_map_set_index sd i b : side_map sd (set_index i b) = side_map sd b.
Proof. by destruct sd. Qed.

Lemma ob_orders_set_orders s b : ob_orders (set_orders s b) = s.
Proof. done. Qed.

Lemma ob_orders_set_index i b : ob_orders (set_index i b) = ob_orders b.
Proof. done. Qed.

Lemma ob_index_set_orders s b : ob_index (set_orders s b) = ob_index b.
Proof. done. Qed.

Lemma ob_index_set_index i b : ob_index (set_index i b) = i.
Proof. done. Qed.

Lemma wf_levels_ok b sd : book_wf b -> levels_ok (side_map sd b).
Proof. intros H. destruct (wf_side b H sd). by split. Qed.

(** A resting order sits in its side at its price. *)
Lemma wf_entry b k o :
  book_wf b -> slab_get (ob_orders b) k = Some o ->
  exists e1 p q e2, entries (o_side o) (side_map (o_side o) b) = e1 ++ (p, k) :: e2 /\
    o_price o = Some q /\ q ≡ p.
Proof.
  intros Hwf Hg. pose proof (wf_cover b Hwf k o Hg) as Hin.
  apply list_elem_of_fmap in Hin as ([p k'] & E & Hin). cbn in E. subst k'.
  pose proof (sw_entries _ _ _ (wf_side b Hwf (o_side o))) as Hok.
  rewrite Forall_forall in Hok. destruct (Hok _ Hin) as (o' & q & Hg' & _ & Hq & E).
  cbn in *. simplify_eq. apply list_elem_of_split in Hin as (e1 & e2 & ->).
  by exists e1, p, q, e2.
Qed.

(** ** Adding a key *)

Lemma add_key_wf b b' k o e1 e2 p' :
  book_wf b -> slab_get (ob_orders b) k = None ->
  (forall j, slab_get (ob_orders b') j =
     if decide (j = k) then Some o else slab_get (ob_orders b) j) ->
  ob_index b' = <[o_id o := k]> (ob_index b) ->
  entries (o_side o) (side_map (o_side o) b) = e1 ++ e2 ->
  entries (o_side o) (side_map (o_side o) b') = e1 ++ (p', k) :: e2 ->
  levels_ok (side_map (o_side o) b') ->
  (forall sd, sd <> o_side o -> side_map sd b' = side_map sd b) ->
  (exists q, o_price o = Some q /\ q ≡ p') ->
  book_wf b' /\
  queue (o_side o) b = resolve (ob_orders b) e1 ++ resolve (ob_orders b) e2 /\
  queue (o_side o) b' = resolve (ob_orders b) e1 ++ o :: resolve (ob_orders b) e2 /\
  (forall sd, sd <> o_side o -> queue sd b' = queue sd b).
Proof.
  intros Hwf Hnone Hget Hidx He He' Hok Hother Hp.
  assert (Hfresh : forall sd j, j ∈ (entries sd (side_map sd b)).*2 -> j <> k).
  { intros sd j Hj ->. pose proof (sw_entries _ _ _ (wf_side b Hwf sd)) as Hes.
    destruct (entry_ok_key _ _ _ _ Hes Hj) as (o' & Hg & _). congruence. }
  assert (Hsame : forall sd j, j ∈ (entries sd (side_map sd b)).*2 ->
    slab_get (ob_orders b') j = slab_get (ob_orders b) j).
  { intros sd j Hj. rewrite Hget, decide_False; [done|by eapply Hfresh]. }
  assert (Hk : slab_get (ob_orders b') k = Some o) by (by rewrite Hget, decide_True).
  pose proof (Hsame (o_side o)) as Hs. pose proof (Hfresh (o_side o)) as Hf.
  rewrite He in Hs, Hf. rewrite fmap_app in Hs, Hf.
  pose proof (wf_side b Hwf (o_side o)) as [_ _ Hes Hnd]. rewrite He in Hes, Hnd.
  apply Forall_app in Hes as [Hes1 Hes2]. rewrite fmap_app in Hnd.
  split; [|split; [|split]].
  - split.
    + intros sd. destruct (decide (sd = o_side o)) as [->|Hsd].
      * split; [apply Hok|apply Hok| |]; rewrite He'.
        -- apply Forall_app. split; [|constructor].
           ++ apply (entries_ok_ext (ob_orders b)); [set_solver|done].
           ++ destruct Hp as (q & Hq & E). by exists o, q.
           ++ apply (entries_ok_ext (ob_orders b)); [set_solver|done].
        -- rewrite fmap_app. csimpl. rewrite <-Permutation_middle. constructor; [|done].
           intros Hin. by apply (Hf k).
      * rewrite Hother by done. pose proof (wf_side b Hwf sd) as [H1 H2 H3 H4].
        split; try done. apply (entries_ok_ext (ob_orders b)); [by apply Hsame|done].
    + intros j o'. rewrite Hget. case_decide as Hj; [intros [= <-]; subst j|].
      * rewrite He', fmap_app. csimpl. set_solver.
      * intros Hg. apply (wf_cover b Hwf) in Hg.
        destruct (decide (o_side o' = o_side o)) as [Hsd|Hsd].
        -- rewrite Hsd in *. rewrite He' . rewrite He in Hg.
           rewrite !fmap_app in *. csimpl. set_solver.
        -- by rewrite Hother.
    + intros id j. rewrite Hidx. intros [[<- <-]|[Hne Hl]]%lookup_insert_Some; [by exists o|].
      apply (wf_index b Hwf) in Hl as (o' & Hg & Hid). exists o'. split; [|done].
      rewrite Hget, decide_False; [done|congruence].
  - unfold queue. rewrite He. apply resolve_app.
  - unfold queue. rewrite He'. fold (resolve (ob_orders b') (e1 ++ (p', k) :: e2)).
    rewrite resolve_app, (resolve_cons _ _ _ o) by done.
    by rewrite !(resolve_ext (ob_orders b) (ob_orders b')) by set_solver.
  - intros sd Hsd. unfold queue. rewrite Hother by done. by apply resolve_ext, Hsame.
Qed.

(** ** Removing a key *)

Lemma remove_key_wf b b' k o e1 e2 p' :
  book_wf b -> slab_get (ob_orders b) k = Some o ->
  (forall j, slab_get (ob_orders b') j =
     if decide (j = k) then None else slab_get (ob_orders b) j) ->
  ob_index b' = delete (o_id o) (ob_index b) ->
  entries (o_side o) (side_map (o_side o) b) = e1 ++ (p', k) :: e2 ->
  entries (o_side o) (side_map (o_side o) b') = e1 ++ e2 ->
  levels_ok (side_map (o_side o) b') ->
  (forall sd, sd <> o_side o -> side_map sd b' = side_map sd b) ->
  book_wf b' /\
  queue (o_side o) b = resolve (ob_orders b) e1 ++ o :: resolve (ob_orders b) e2 /\
  queue (o_side o) b' = resolve (ob_orders b) e1 ++ resolve (ob_orders b) e2 /\
  (forall sd, sd <> o_side o -> queue sd b' = queue sd b).
Proof.
  intros Hwf Hk Hget Hidx He He' Hok Hother.
  assert (Hsame : forall j, j <> k -> slab_get (ob_orders b') j = slab_get (ob_orders b) j).
  { intros j Hj. by rewrite Hget, decide_False. }
  assert (Hside : forall sd j, sd <> o_side o ->
    j ∈ (entries sd (side_map sd b)).*2 -> j <> k).
  { intros sd j Hsd Hj ->. pose proof (sw_entries _ _ _ (wf_side b Hwf sd)) as Hes.
    destruct (entry_ok_key _ _ _ _ Hes Hj) as (o' & Hg & <-). congruence. }
  pose proof (wf_side b Hwf (o_side o)) as [_ _ Hes Hnd]. rewrite He in Hes, Hnd.
  apply Forall_app in Hes as [Hes1 [_ Hes2]%Forall_cons].
  rewrite fmap_app in Hnd. csimpl in Hnd. rewrite <-Permutation_middle in Hnd.
  apply NoDup_cons in Hnd as [Hnk Hnd].
  assert (Hne : forall j, j ∈ e1.*2 \/ j ∈ e2.*2 -> j <> k) by set_solver.
  split; [|split; [|split]].
  - split.
    + intros sd. destruct (decide (sd = o_side o)) as [->|Hsd].
      * split; [apply Hok|apply Hok| |]; rewrite He'.
        -- apply Forall_app.
           split; apply (entries_ok_ext (ob_orders b)); try done; intros; apply Hsame; auto.
        -- by rewrite fmap_app.
      * rewrite Hother by done. pose proof (wf_side b Hwf sd) as [H1 H2 H3 H4].
        split; try done. apply (entries_ok_ext (ob_orders b)); [|done].
        intros j Hj. apply Hsame. by eapply Hside.
    + intros j o'. rewrite Hget. case_decide as Hj; [done|].
      intros Hg. apply (wf_cover b Hwf) in Hg.
      destruct (decide (o_side o' = o_side o)) as [Hsd|Hsd].
      * rewrite Hsd in *. rewrite He'. rewrite He in Hg.
        rewrite !fmap_app in *. csimpl in *. set_solver.
      * by rewrite Hother.
    + intros id j. rewrite Hidx. intros [Hid Hl]%lookup_delete_Some.
      apply (wf_index b Hwf) in Hl as (o' & Hg & Hid'). exists o'. split; [|done].
      rewrite Hsame; [done|congruence].
  - unfold queue. rewrite He. fold (resolve (ob_orders b) (e1 ++ (p', k) :: e2)).
    by rewrite resolve_app, (resolve_cons _ _ _ o).
  - unfold queue. rewrite He'. fold (resolve (ob_orders b') (e1 ++ e2)).
    rewrite resolve_app. f_equal; apply resolve_ext; intros; apply Hsame; auto.
  - intros sd Hsd. unfold queue. rewrite Hother by done.
    apply resolve_ext. intros j Hj. apply Hsame. by eapply Hside.
Qed.
End facts.

#[export] Hint Rewrite @side_map_set_same @side_map_set_orders @side_map_set_index
  @ob_orders_set_side @ob_orders_set_orders @ob_orders_set_index
  @ob_index_set_side @ob_index_set_orders @ob_index_set_index : book.
#[export] Hint Rewrite @side_map_set_other using done : book.
#[export] Hint Resolve wf_levels_ok book_new_wf : clob.
