(* ===== verification/BookOps.v ===== *)
(** * Contracts of the order book's operations

    [insert_order], [cancel_order] and [pop_front] never panic on a well-formed
    book, keep it well-formed, and act on the queues of [PriceTime]. The best
    price and the front key are those of the head of the queue. *)

From S2P Require Import Prelude External BTreeMap Types OrderBook Levels PriceTime BookFacts.

Section ops.
Context {DA : DecimalApi} {DL : DecimalLaws DA} {UA : UuidApi}
  {SA : SlabApi} {SL : SlabLaws SA}.

Implicit Types (b : OrderBook) (sd : Side) (p : Price) (k : SlabKey) (o : Order).

(** ** insert_order *)

Lemma insert_order_ok (lot : Z) b o p :
  book_wf b -> o_price o = Some p -> dec_le (o_quantity o) dec_ZERO = false ->
  exists k b', insert_order b o = Ret (b', Ok k) /\ book_wf b' /\
    slab_get (ob_orders b) k = None /\
    (forall j, slab_get (ob_orders b') j =
       if decide (j = k) then Some o else slab_get (ob_orders b) j) /\
    ob_index b' = <[o_id o := k]> (ob_index b) /\
    abs_queue lot (o_side o) b' =
      q_insert (o_side o) (abs_order lot o) (abs_queue lot (o_side o) b) /\
    (forall sd, sd <> o_side o -> queue sd b' = queue sd b).
Proof.
  intros Hwf Hp Hq. unfold insert_order. rewrite Hp, Hq.
  destruct (slab_insert (ob_orders b) o) as [k s] eqn:Hins.
  pose proof (slab_insert_vacant _ _ _ _ Hins) as Hnone.
  pose proof (fun j => slab_get_insert _ _ _ _ j Hins) as Hget.
  cbn. rewrite (Hget k), decide_True by done. cbn. book_simpl.
  destruct (push_level_entries (o_side o) (side_map (o_side o) b) p k (wf_levels_ok b _ Hwf))
    as (e1 & e2 & p' & He & He' & Ep & H1 & H2 & Hok).
  eexists k, _. split; [reflexivity|].
  match goal with |- book_wf ?bb /\ _ => set (b' := bb) end.
  assert (Hb' : side_map (o_side o) b' = push_level p k (side_map (o_side o) b)) by
    apply side_map_set_same.
  assert (Hg' : forall j, slab_get (ob_orders b') j =
    if decide (j = k) then Some o else slab_get (ob_orders b) j).
  { intros j. unfold b'. book_simpl. apply Hget. }
  assert (Hi' : ob_index b' = <[o_id o := k]> (ob_index b)) by
    (unfold b'; by book_simpl).
  destruct (add_key_wf b b' k o e1 e2 p') as (Hwf' & Hq1 & Hq2 & Hq3); try done.
  - by rewrite Hb'.
  - by rewrite Hb'.
  - intros sd Hsd. unfold b'. by book_simpl.
  - exists p. by split.
  - split_and!; try done. unfold abs_queue. rewrite Hq1, Hq2, !fmap_app. csimpl.
    pose proof (sw_entries _ _ _ (wf_side b Hwf (o_side o))) as Hes. rewrite He in Hes.
    apply Forall_app in Hes as [Hes1 Hes2]. symmetry. apply q_insert_split; cbn; rewrite Hp; cbn.
    + exact (resolve_forall lot _ _ _ (fun v => rank _ v <= rank _ (dec_val p)) Hes1 H1).
    + exact (resolve_forall lot _ _ _ (fun v => rank _ (dec_val p) < rank _ v) Hes2 H2).
Qed.

Lemma insert_order_market b o :
  o_price o = None -> insert_order b o = Ret (b, Err MarketOrderNotAllowed).
Proof. intros H. unfold insert_order. by rewrite H. Qed.

Lemma insert_order_quantity b o p :
  o_price o = Some p -> dec_le (o_quantity o) dec_ZERO = true ->
  insert_order b o = Ret (b, Err InsertInvalidQuantity).
Proof. intros Hp Hq. unfold insert_order. by rewrite Hp, Hq. Qed.

Lemma insert_order_indexed b o k b' :
  book_indexed b -> ob_index b !! o_id o = None ->
  (forall j, slab_get (ob_orders b') j =
     if decide (j = k) then Some o else slab_get (ob_orders b) j) ->
  ob_index b' = <[o_id o := k]> (ob_index b) -> book_indexed b'.
Proof.
  intros Hb Hfresh Hget Hidx j o'. rewrite Hget, Hidx. case_decide as Hj.
  - intros [= <-]. subst j. apply lookup_insert_eq.
  - intros Hg. apply Hb in Hg. rewrite lookup_insert_ne; [done|congruence].
Qed.

(** ** The front of a side *)

Definition best_price (sd : Side) b : option Price :=
  match sd with Bid => best_bid b | Ask => best_ask b end.

Definition best_front (sd : Side) b : option SlabKey :=
  match sd with Bid => best_bid_front b | Ask => best_ask_front b end.

(** The best level is the first in priority order. *)
Lemma best_price_head sd b : best_price sd b = fst <$> head (by_priority sd (side_map sd b)).
Proof.
  destruct sd; [|done]. unfold best_price, best_bid, bt_last_key, by_priority.
  by rewrite head_reverse.
Qed.

Lemma best_front_level sd b :
  best_front sd b = p ← best_price sd b; bt_get dec_cmp p (side_map sd b) ≫= head.
Proof. by destruct sd. Qed.

(** Either the side is empty, or its best price and front key are those of the
    first entry. *)
Lemma best_cases sd b :
  book_wf b ->
  (best_price sd b = None /\ best_front sd b = None /\ entries sd (side_map sd b) = []) \/
  (exists p k l e2, best_price sd b = Some p /\ best_front sd b = Some k /\
    bt_get dec_cmp p (side_map sd b) = Some (k :: l) /\
    entries sd (side_map sd b) = level_entries (p, k :: l) ++ e2).
Proof.
  intros Hwf. rewrite best_front_level, best_price_head. unfold entries.
  pose proof (wf_levels_ok b sd Hwf) as [Hs Hn].
  destruct (by_priority sd (side_map sd b)) as [|[p l] m] eqn:E; cbn; [by left|].
  right. assert (Hin : (p, l) ∈ side_map sd b).
  { apply (elem_of_by_priority sd). rewrite E. set_solver. }
  rewrite Forall_forall in Hn. specialize (Hn _ Hin). cbn in Hn.
  destruct l as [|k l]; [done|].
  assert (Hg : bt_get dec_cmp p (side_map sd b) = Some (k :: l)).
  { destruct (entry_level sd (side_map sd b) p p k) as (l' & Hl & _).
    - auto with clob.
    - apply elem_of_entries. exists (k :: l). set_solver.
    - done.
    - destruct (bt_get_split dec_cmp _ dec_cmp_val p _ l' Hs Hl) as (m1 & p' & m2 & Em & Ep & Hb & Ha).
      rewrite Hl. f_equal. rewrite Em in Hin.
      apply elem_of_app in Hin as [Hin|[Hin|Hin]%elem_of_cons].
      + unfold below in Hb. rewrite Forall_forall in Hb. apply Hb in Hin. cbn in Hin. lia.
      + congruence.
      + unfold above in Ha. rewrite Forall_forall in Ha. apply Ha in Hin. cbn in Hin. lia. }
  exists p, k, l, (m ≫= level_entries). by rewrite Hg.
Qed.
(** ** cancel_order *)

Lemma filter_ne_split k (l1 l2 : list SlabKey) :
  NoDup (l1 ++ k :: l2) -> filter (fun j => j <> k) (l1 ++ k :: l2) = l1 ++ l2.
Proof.
  intros Hnd. rewrite <-Permutation_middle in Hnd. apply NoDup_cons in Hnd as [Hk _].
  rewrite filter_app, filter_cons_False by naive_solver.
  rewrite !filter_all by (intros j Hj ->; set_solver). done.
Qed.

Lemma level_entries_app p (l1 l2 : list SlabKey) :
  level_entries (p, l1 ++ l2) = level_entries (p, l1) ++ level_entries (p, l2).
Proof. apply fmap_app. Qed.

Lemma level_nodup b sd e1 e2 p (l : list SlabKey) :
  book_wf b -> entries sd (side_map sd b) = e1 ++ level_entries (p, l) ++ e2 -> NoDup l.
Proof.
  intros Hwf He. pose proof (sw_nodup _ _ _ (wf_side b Hwf sd)) as Hnd.
  rewrite He, !fmap_app in Hnd. apply NoDup_app in Hnd as (_ & _ & Hnd).
  apply NoDup_app in Hnd as (Hnd & _). unfold level_entries in Hnd.
  rewrite <-list_fmap_compose in Hnd. cbn in Hnd. by rewrite list_fmap_id in Hnd.
Qed.

(** The level that holds a resting order, around its key. *)
Lemma wf_level b k o :
  book_wf b -> slab_get (ob_orders b) k = Some o ->
  exists p l1 l2 e1 e2 p', o_price o = Some p /\
    bt_get dec_cmp p (side_map (o_side o) b) = Some (l1 ++ k :: l2) /\
    filter (fun j => j <> k) (l1 ++ k :: l2) = l1 ++ l2 /\
    entries (o_side o) (side_map (o_side o) b) =
      (e1 ++ level_entries (p', l1)) ++ (p', k) :: (level_entries (p', l2) ++ e2) /\
    entries (o_side o) (write_level p (l1 ++ l2) (side_map (o_side o) b)) =
      (e1 ++ level_entries (p', l1)) ++ (level_entries (p', l2) ++ e2) /\
    levels_ok (write_level p (l1 ++ l2) (side_map (o_side o) b)).
Proof.
  intros Hwf Hg. destruct (wf_entry b k o Hwf Hg) as (f1 & q & p & f2 & He & Hp & E).
  destruct (entry_level (o_side o) (side_map (o_side o) b) p q k) as (l & Hl & Hk).
  { auto with clob. }
  { rewrite He. set_solver. }
  { by symmetry. }
  destruct (write_level_entries (o_side o) _ p l (wf_levels_ok b _ Hwf) Hl)
    as (e1 & e2 & p' & _ & He1 & He2 & Hok).
  pose proof (level_nodup b _ _ _ _ _ Hwf He1) as Hnd.
  apply list_elem_of_split in Hk as (l1 & l2 & ->).
  exists p, l1, l2, e1, e2, p'. split_and!; try done.
  - by apply filter_ne_split.
  - rewrite He1, level_entries_app. unfold level_entries at 2. csimpl.
    by rewrite <-!app_assoc.
  - rewrite He2, level_entries_app. by rewrite <-!app_assoc.
Qed.

Lemma cancel_order_ok b id k o :
  book_wf b -> ob_index b !! id = Some k -> slab_get (ob_orders b) k = Some o ->
  is_complete o = false ->
  exists b' q1 q2, cancel_order b id = Ret (b', Ok tt) /\ book_wf b' /\
    (forall j, slab_get (ob_orders b') j =
       if decide (j = k) then None else slab_get (ob_orders b) j) /\
    ob_index b' = delete id (ob_index b) /\
    queue (o_side o) b = q1 ++ o :: q2 /\ queue (o_side o) b' = q1 ++ q2 /\
    (forall sd, sd <> o_side o -> queue sd b' = queue sd b).
Proof.
  intros Hwf Hid Hg Hc.
  destruct (wf_index b Hwf id k Hid) as (o' & Hg' & Hid'). assert (o' = o) as -> by congruence.
  destruct (wf_level b k o Hwf Hg) as (p & l1 & l2 & e1 & e2 & p' & Hp & Hl & Hf & He & He' & Hok).
  unfold cancel_order. rewrite Hid, Hg. cbn [or_panic obind]. rewrite Hc, Hp.
  rewrite side_map_set_orders, Hl, Hf, ob_orders_set_side. cbn [ob_orders set_orders].
  set (s1 := slab_set (ob_orders b) k (set_status Cancelled o)).
  assert (Hs1 : forall j, slab_get s1 j =
    if decide (j = k) then Some (set_status Cancelled o) else slab_get (ob_orders b) j).
  { intros j. apply slab_get_set. by exists o. }
  destruct (slab_try_remove s1 k) as [[v s2]|] eqn:Hr; cbn [or_panic obind snd].
  2: { apply slab_remove_none in Hr. rewrite Hs1, decide_True in Hr by done. done. }
  pose proof (fun j => slab_get_remove _ _ _ _ j Hr) as Hs2.
  match goal with |- context [Ret (?bb, _)] => set (b' := bb) end.
  assert (Hm : side_map (o_side o) b' = write_level p (l1 ++ l2) (side_map (o_side o) b)).
  { unfold b'. by book_simpl. }
  destruct (remove_key_wf b b' k o (e1 ++ level_entries (p', l1))
    (level_entries (p', l2) ++ e2) p') as (Hwf' & Hq1 & Hq2 & Hq3); try done.
  - intros j. cbn. rewrite Hs2, Hs1. by case_decide.
  - unfold b'. book_simpl. by rewrite Hid'.
  - by rewrite Hm.
  - by rewrite Hm.
  - intros sd Hsd. unfold b'. by book_simpl.
  - exists b'. eexists _, _. split_and!; try done.
    + intros j. cbn. rewrite Hs2, Hs1. by case_decide.
    + unfold b'. by book_simpl.
Qed.

Lemma cancel_order_not_found b id :
  ob_index b !! id = None -> cancel_order b id = Ret (b, Err (NotFound id)).
Proof. intros H. unfold cancel_order. by rewrite H. Qed.

Lemma cancel_order_complete b id k o :
  ob_index b !! id = Some k -> slab_get (ob_orders b) k = Some o -> is_complete o = true ->
  cancel_order b id = Ret (b, Err (AlreadyComplete id)).
Proof. intros H1 H2 H3. unfold cancel_order. rewrite H1, H2. cbn. by rewrite H3. Qed.

(** Removing a key keeps the index complete. *)
Lemma remove_indexed b b' k o :
  book_indexed b -> slab_get (ob_orders b) k = Some o ->
  (forall j, slab_get (ob_orders b') j =
     if decide (j = k) then None else slab_get (ob_orders b) j) ->
  ob_index b' = delete (o_id o) (ob_index b) -> book_indexed b'.
Proof.
  intros Hb Hk Hget Hidx j o'. rewrite Hget, Hidx. case_decide as Hj; [done|].
  intros Hg. apply Hb in Hg, Hk. rewrite lookup_delete_ne; [done|congruence].
Qed.

(** In an indexed book the ids of a queue are those of distinct orders. *)
Lemma elem_of_queue b sd o :
  book_wf b -> o ∈ queue sd b <-> exists k, slab_get (ob_orders b) k = Some o /\ o_side o = sd.
Proof.
  intros Hwf. unfold queue. rewrite list_elem_of_omap. split.
  - intros (k & Hk & Hg). exists k. split; [done|].
    destruct (entry_ok_key _ _ _ k (sw_entries _ _ _ (wf_side b Hwf sd)) Hk) as (o' & Hg' & Hs).
    congruence.
  - intros (k & Hg & <-). exists k. split; [|done]. by apply (wf_cover b Hwf).
Qed.

(** ** Writing a resting order in place *)

Lemma put_order_get b k o o' j :
  slab_get (ob_orders b) k = Some o ->
  slab_get (ob_orders (put_order b k o')) j =
    if decide (j = k) then Some o' else slab_get (ob_orders b) j.
Proof. intros H. apply slab_get_set. by exists o. Qed.

Lemma put_order_side_map b k o sd : side_map sd (put_order b k o) = side_map sd b.
Proof. apply side_map_set_orders. Qed.

(** Two orders that may stand for each other in a level. *)
Definition same_place o o' : Prop :=
  o_id o' = o_id o /\ o_side o' = o_side o /\ o_price o' = o_price o.

Lemma put_order_wf b k o o' :
  book_wf b -> slab_get (ob_orders b) k = Some o -> same_place o o' ->
  book_wf (put_order b k o').
Proof.
  intros Hwf Hg (Hid & Hsd & Hp). pose proof (fun j => put_order_get b k o o' j Hg) as Hget.
  split.
  - intros sd. rewrite put_order_side_map. destruct (wf_side b Hwf sd) as [H1 H2 H3 H4].
    split; try done. eapply Forall_impl; [exact H3|].
    intros [p j] (o1 & q & Hg1 & Hs1 & Hp1 & E). cbn in Hg1.
    destruct (decide (j = k)) as [->|Hj].
    + assert (o1 = o) as -> by congruence. exists o', q. split_and!; try congruence.
      cbn [snd]. by rewrite Hget, decide_True.
    + exists o1, q. split_and!; try done. cbn [snd]. by rewrite Hget, decide_False.
  - intros j o1. rewrite Hget, put_order_side_map. case_decide as Hj.
    + intros [= <-]. subst j. rewrite Hsd. by apply (wf_cover b Hwf).
    + by apply (wf_cover b Hwf).
  - intros id j Hl. apply (wf_index b Hwf) in Hl as (o1 & Hg1 & Hid1).
    destruct (decide (j = k)) as [->|Hj].
    + exists o'. rewrite Hget, decide_True by done. split; [done|]. congruence.
    + exists o1. by rewrite Hget, decide_False.
Qed.

Lemma put_order_indexed b k o o' :
  book_indexed b -> slab_get (ob_orders b) k = Some o -> same_place o o' ->
  book_indexed (put_order b k o').
Proof.
  intros Hb Hg (Hid & _) j o1. rewrite (put_order_get b k o) by done.
  case_decide as Hj; [intros [= <-]; subst j; cbn; rewrite Hid|]; apply Hb; done.
Qed.

Lemma put_order_queue b k o o' sd e1 e2 p :
  book_wf b -> slab_get (ob_orders b) k = Some o ->
  entries sd (side_map sd b) = e1 ++ (p, k) :: e2 ->
  queue sd b = resolve (ob_orders b) e1 ++ o :: resolve (ob_orders b) e2 /\
  queue sd (put_order b k o') =
    resolve (ob_orders b) e1 ++ o' :: resolve (ob_orders b) e2.
Proof.
  intros Hwf Hg He. pose proof (sw_nodup _ _ _ (wf_side b Hwf sd)) as Hnd.
  rewrite He, fmap_app in Hnd. csimpl in Hnd. rewrite <-Permutation_middle in Hnd.
  apply NoDup_cons in Hnd as [Hk _]. rewrite not_elem_of_app in Hk.
  unfold queue. rewrite put_order_side_map, He.
  fold (resolve (ob_orders b) (e1 ++ (p, k) :: e2)).
  fold (resolve (ob_orders (put_order b k o')) (e1 ++ (p, k) :: e2)).
  rewrite !resolve_app, (resolve_cons _ _ _ o) by done.
  rewrite (resolve_cons _ _ _ o') by (rewrite (put_order_get b k o), decide_True; done).
  split; [done|]. f_equal; [|f_equal]; apply resolve_ext; intros j Hj;
    rewrite (put_order_get b k o), decide_False by (done || set_solver); done.
Qed.

(** The queue of the side an order is not in does not change. *)
Lemma put_order_queue_other b k o o' sd :
  book_wf b -> slab_get (ob_orders b) k = Some o -> sd <> o_side o ->
  queue sd (put_order b k o') = queue sd b.
Proof.
  intros Hwf Hg Hsd. unfold queue. rewrite put_order_side_map. apply resolve_ext.
  intros j Hj. rewrite (put_order_get b k o) by done. rewrite decide_False; [done|].
  intros ->. destruct (entry_ok_key _ _ _ k (sw_entries _ _ _ (wf_side b Hwf sd)) Hj)
    as (o1 & Hg1 & Hs1). congruence.
Qed.

(** ** pop_front *)

Lemma pop_front_ok b sd p k l o e2 :
  book_wf b -> bt_get dec_cmp p (side_map sd b) = Some (k :: l) ->
  slab_get (ob_orders b) k = Some o ->
  entries sd (side_map sd b) = level_entries (p, k :: l) ++ e2 ->
  book_wf (pop_front b sd p) /\
  (forall j, slab_get (ob_orders (pop_front b sd p)) j =
     if decide (j = k) then None else slab_get (ob_orders b) j) /\
  ob_index (pop_front b sd p) = delete (o_id o) (ob_index b) /\
  o_side o = sd /\
  queue sd b = o :: queue sd (pop_front b sd p) /\
  (forall sd', sd' <> sd -> queue sd' (pop_front b sd p) = queue sd' b).
Proof.
  intros Hwf Hl Hg He.
  assert (Hk : k ∈ (entries sd (side_map sd b)).*2) by (rewrite He; csimpl; set_solver).
  assert (Hsd : o_side o = sd).
  { destruct (entry_ok_key _ _ _ k (sw_entries _ _ _ (wf_side b Hwf sd)) Hk)
      as (o1 & Hg1 & Hs1). congruence. }
  pose proof (sw_nodup _ _ _ (wf_side b Hwf sd)) as Hnd.
  destruct (write_level_entries sd _ p (k :: l) (wf_levels_ok b sd Hwf) Hl)
    as (e1 & e2' & p' & _ & He1 & He2 & Hok).
  destruct e1 as [|[p1 k1] e1].
  2: { exfalso. rewrite He1 in Hnd. rewrite He1 in He. injection He as -> -> He.
    csimpl in Hnd. apply NoDup_cons in Hnd as [Hn _]. apply Hn.
    rewrite fmap_app. csimpl. set_solver. }
  cbn [app] in *.
  unfold pop_front. rewrite Hl.
  destruct (slab_try_remove (ob_orders b) k) as [[v s]|] eqn:Hr.
  2: { apply slab_remove_none in Hr. congruence. }
  pose proof (slab_remove_some _ _ _ _ Hr) as Hv. assert (v = o) as -> by congruence.
  rewrite side_map_set_index, side_map_set_orders.
  match goal with |- book_wf ?bb /\ _ => set (b' := bb) end.
  assert (Hm : side_map sd b' = write_level p l (side_map sd b)) by
    (unfold b'; by book_simpl).
  assert (Hget : forall j, slab_get (ob_orders b') j =
     if decide (j = k) then None else slab_get (ob_orders b) j).
  { intros j. unfold b'. book_simpl. apply (slab_get_remove _ _ _ _ _ Hr). }
  assert (Hi : ob_index b' = delete (o_id o) (ob_index b)) by
    (unfold b'; by book_simpl).
  subst sd. destruct (remove_key_wf b b' k o [] (level_entries (p', l) ++ e2') p')
    as (Hwf' & Hq1 & Hq2 & Hq3); try done.
  - by rewrite Hm, He2.
  - rewrite Hm. apply Hok.
  - intros sd' Hsd'. unfold b'. by book_simpl.
  - split_and!; try done. by rewrite Hq1, Hq2.
Qed.

End ops.
