(* ===== verification/Matching.v ===== *)
(** * The matching engine

    [matching.rs] of the [clob-engine] crate. The methods thread the engine, the
    taker and the vector of fills explicitly. The two loops take fuel; the number
    of resting orders plus one is enough ([MatchingRefine]), because every
    iteration but the last either fills the taker or removes a maker. *)

From S2P Require Import Prelude External BTreeMap Types OrderBook.

Section matching.
Context {DA : DecimalApi} {UA : UuidApi} {SA : SlabApi}.

Record MatchingEngine := mkEngine {
  eng_book : OrderBook;
  eng_market_id : string;
  eng_sequence : Z
}.

Inductive ProcessResult := Fills (fills : list Fill) | ResCancelled | Resting.

Definition set_book (b : OrderBook) (eng : MatchingEngine) : MatchingEngine :=
  {| eng_book := b; eng_market_id := eng_market_id eng; eng_sequence := eng_sequence eng |}.

Definition set_eng_sequence (n : Z) (eng : MatchingEngine) : MatchingEngine :=
  {| eng_book := eng_book eng; eng_market_id := eng_market_id eng; eng_sequence := n |}.

Definition MatchingEngine_new (market_id : string) : MatchingEngine :=
  {| eng_book := OrderBook_new; eng_market_id := market_id; eng_sequence := 0 |}.

Definition next_sequence (eng : MatchingEngine) : Z * MatchingEngine :=
  let n := u64_add (eng_sequence eng) 1 in (n, set_eng_sequence n eng).

(** [MatchingEngine::cancel] *)
Definition cancel (eng : MatchingEngine) (id : OrderId) :
    outcome (MatchingEngine * result ProcessResult EngineError) :=
  let! (b, r) := cancel_order (eng_book eng) id in
  Ret (set_book b eng,
       match r with Ok _ => Ok ResCancelled | Err _ => Err (OrderNotFound id) end).

(** The status an order gets after a fill. *)
Definition status_after (o : Order) : outcome OrderStatus :=
  let! r := remaining o in
  Ret (if dec_le r dec_ZERO then Filled else PartiallyFilled).

(** [filled += fill_qty] and the new status. *)
Definition add_fill (qty : Quantity) (o : Order) : outcome Order :=
  let! f := or_panic (dec_add (o_filled o) qty) in
  let o := set_filled f o in
  let! st := status_after o in
  Ret (set_status st o).

(** [MatchingEngine::execute_fill] *)
Definition execute_fill (eng : MatchingEngine) (taker : Order) (maker_key : SlabKey)
    (maker_price : Price) (fills : list Fill) :
    outcome (MatchingEngine * Order * list Fill) :=
  match get_order (eng_book eng) maker_key with
  | None => Ret (eng, taker, fills)
  | Some maker =>
      let! tr := remaining taker in
      let! mr := remaining maker in
      let fill_qty := dec_min tr mr in
      if dec_le fill_qty dec_ZERO then Ret (eng, taker, fills)
      else
        let '(seq, eng) := next_sequence eng in
        match get_order (eng_book eng) maker_key with
        | None => Ret (eng, taker, fills)
        | Some maker =>
            let! maker := add_fill fill_qty maker in
            let eng := set_book (put_order (eng_book eng) maker_key maker) eng in
            let maker_id := o_id maker in
            let! taker := add_fill fill_qty taker in
            let fill :=
              {| f_maker_order_id := maker_id; f_taker_order_id := o_id taker;
                 f_price := maker_price; f_quantity := fill_qty; f_sequence := seq |} in
            let! exhausted :=
              match get_order (eng_book eng) maker_key with
              | None => Ret false
              | Some o => let! r := remaining o in Ret (dec_le r dec_ZERO)
              end in
            let eng :=
              if exhausted then
                set_book (pop_front (eng_book eng) (opposite (o_side taker)) maker_price) eng
              else eng in
            Ret (eng, taker, fills ++ [fill])
        end
  end.

(** The maker a limit taker meets next, if its price is acceptable. *)
Definition next_maker_limit (b : OrderBook) (taker : Order) : option (SlabKey * Price) :=
  match o_side taker with
  | Bid =>
      match best_ask b with
      | None => None
      | Some price =>
          if dec_gt price (default dec_ZERO (o_price taker)) then None
          else
            match best_ask_front b with
            | Some k => Some (k, price)
            | None => None
            end
      end
  | Ask =>
      match best_bid b with
      | None => None
      | Some price =>
          if dec_lt price (default dec_MAX (o_price taker)) then None
          else
            match best_bid_front b with
            | Some k => Some (k, price)
            | None => None
            end
      end
  end.

(** The maker a market taker meets next. *)
Definition next_maker_market (b : OrderBook) (taker : Order) : option (SlabKey * Price) :=
  match o_side taker with
  | Bid =>
      match best_ask_front b with
      | Some k => Some (k, default dec_ZERO (best_ask b))
      | None => None
      end
  | Ask =>
      match best_bid_front b with
      | Some k => Some (k, default dec_ZERO (best_bid b))
      | None => None
      end
  end.

(** [MatchingEngine::match_against_book] *)
Fixpoint match_against_book (fuel : nat) (eng : MatchingEngine) (taker : Order)
    (fills : list Fill) : outcome (MatchingEngine * Order * list Fill) :=
  match fuel with
  | O => Diverge
  | S fuel =>
      let! r := remaining taker in
      if dec_le r dec_ZERO then Ret (eng, taker, fills)
      else
        match next_maker_limit (eng_book eng) taker with
        | None => Ret (eng, taker, fills)
        | Some (maker_key, maker_price) =>
            let! (eng, taker, fills) := execute_fill eng taker maker_key maker_price fills in
            match_against_book fuel eng taker fills
        end
  end.

(** [MatchingEngine::sweep_book] *)
Fixpoint sweep_book (fuel : nat) (eng : MatchingEngine) (taker : Order)
    (fills : list Fill) : outcome (MatchingEngine * Order * list Fill) :=
  match fuel with
  | O => Diverge
  | S fuel =>
      let! r := remaining taker in
      if dec_le r dec_ZERO then Ret (eng, taker, fills)
      else
        match next_maker_market (eng_book eng) taker with
        | None => Ret (eng, taker, fills)
        | Some (maker_key, maker_price) =>
            let! (eng, taker, fills) := execute_fill eng taker maker_key maker_price fills in
            sweep_book fuel eng taker fills
        end
  end.

Definition loop_fuel (eng : MatchingEngine) : nat := S (slab_len (ob_orders (eng_book eng))).

(** [MatchingEngine::process_limit] *)
Definition process_limit (eng : MatchingEngine) (taker : Order) :
    outcome (MatchingEngine * result ProcessResult EngineError) :=
  if dec_le (o_quantity taker) dec_ZERO then Ret (eng, Err InvalidQuantity)
  else
    let! (eng, taker, fills) := match_against_book (loop_fuel eng) eng taker [] in
    let! r := remaining taker in
    if dec_gt r dec_ZERO then
      let! (b, ins) := insert_order (eng_book eng) taker in
      let eng := set_book b eng in
      match ins with
      | Err _ => Ret (eng, Err InvalidQuantity)
      | Ok _ => Ret (eng, Ok (match fills with [] => Resting | _ => Fills fills end))
      end
    else Ret (eng, Ok (Fills fills)).

(** [MatchingEngine::process_market] *)
Definition process_market (eng : MatchingEngine) (taker : Order) :
    outcome (MatchingEngine * result ProcessResult EngineError) :=
  if dec_le (o_quantity taker) dec_ZERO then Ret (eng, Err InvalidQuantity)
  else
    let! (eng, _, fills) := sweep_book (loop_fuel eng) eng taker [] in
    Ret (eng, Ok (Fills fills)).

(** [MatchingEngine::process_order] *)
Definition process_order (eng : MatchingEngine) (order : Order) :
    outcome (MatchingEngine * result ProcessResult EngineError) :=
  match o_order_type order with
  | Limit => process_limit eng order
  | Market => process_market eng order
  end.
End matching.

Arguments MatchingEngine : clear implicits.
Arguments MatchingEngine {DA UA SA}.
Arguments ProcessResult : clear implicits.
Arguments ProcessResult {DA UA}.
