(* ===== verification/Concrete.v ===== *)
(** * The interfaces can be met

    Concrete functions for the third-party interfaces of [External]: a decimal
    with a 96-bit mantissa, ids that are numbers, and a slab with a stack of
    vacant slots. They are used to evaluate the model on concrete inputs. *)

From S2P Require Import Prelude External.

(** ** Decimals *)

Module Dec.
Definition ok (m s : Z) : bool :=
  (Z.abs m <? 2 ^ 96) && (0 <=? s) && (s <=? 28).

Record t := mk { mant : Z; sc : Z; wf : ok mant sc = true }.

Definition make (m s : Z) : option t :=
  match Bool.bool_dec (ok m s) true with
  | left p => Some (mk m s p)
  | right _ => None
  end.

Definition zero : t := mk 0 0 eq_refl.
Definition max : t := mk (2 ^ 96 - 1) 0 eq_refl.
Definition new (m s : Z) : t := default zero (make m s).

Definition cmp (a b : t) : comparison :=
  (mant a * 10 ^ sc b ?= mant b * 10 ^ sc a).

Definition min (a b : t) : t := match cmp a b with Gt => b | _ => a end.

Definition align (s : Z) (d : t) : Z := mant d * 10 ^ (s - sc d).

Definition add (a b : t) : option t :=
  let s := Z.max (sc a) (sc b) in make (align s a + align s b) s.

Definition sub (a b : t) : option t :=
  let s := Z.max (sc a) (sc b) in make (align s a - align s b) s.

Definition to_string (d : t) : string := pretty (mant d) +:+ "e-" +:+ pretty (sc d).

Lemma make_some (m s : Z) :
  ok m s = true -> exists c, make m s = Some c /\ mant c = m /\ sc c = s.
Proof.
  intros H. unfold make. destruct (Bool.bool_dec (ok m s) true); [|done].
  by eexists.
Qed.

Lemma wf_bounds (d : t) : Z.abs (mant d) < 2 ^ 96 /\ 0 <= sc d <= 28.
Proof. destruct d as [m s w]. unfold ok in w. cbn [mant sc]. lia. Qed.

Lemma align_grid (s : Z) (d : t) :
  sc d <= s -> mant d * 10 ^ (s - sc d) = align s d.
Proof. done. Qed.

(** Aligning further multiplies by a power of ten. *)
Lemma align_up (s s' : Z) (d : t) :
  sc d <= s -> s <= s' -> align s' d = align s d * 10 ^ (s' - s).
Proof.
  intros H1 H2. unfold align. rewrite <-Z.mul_assoc, <-Z.pow_add_r by lia.
  f_equal. f_equal. lia.
Qed.

(** A sum that fits in 96 bits on a grid fits on a coarser one. *)
Lemma coarse_fits (s s' x : Z) : s' <= s -> Z.abs (x * 10 ^ (s - s')) < 2 ^ 96 -> Z.abs x < 2 ^ 96.
Proof.
  intros H. pose proof (Z.pow_pos_nonneg 10 (s - s') ltac:(lia) ltac:(lia)).
  rewrite Z.abs_mul, (Z.abs_eq (10 ^ _)) by lia. nia.
Qed.

Lemma exact (op : Z -> Z -> Z) (s : Z) (a b : t) :
  (forall x y z, op (x * z) (y * z) = op x y * z) ->
  0 <= s <= 28 -> sc a <= s -> sc b <= s ->
  Z.abs (op (align s a) (align s b)) < 2 ^ 96 ->
  exists c, make (op (align (Z.max (sc a) (sc b)) a) (align (Z.max (sc a) (sc b)) b))
      (Z.max (sc a) (sc b)) = Some c /\ sc c <= s /\
    align s c = op (align s a) (align s b).
Proof.
  intros Hop Hs Ha Hb Hf. set (s' := Z.max (sc a) (sc b)).
  pose proof (wf_bounds a). pose proof (wf_bounds b).
  assert (E : op (align s a) (align s b) = op (align s' a) (align s' b) * 10 ^ (s - s')).
  { rewrite (align_up s' s a), (align_up s' s b) by lia. apply Hop. }
  destruct (make_some (op (align s' a) (align s' b)) s') as (c & Hc & Hm & Hsc).
  { unfold ok. rewrite E in Hf. apply coarse_fits in Hf; lia. }
  exists c. split; [done|]. split; [lia|]. unfold align at 1. by rewrite Hm, Hsc, E.
Qed.
End Dec.

#[export] Instance dec_api : DecimalApi := {|
  Decimal := Dec.t; dec_mantissa := Dec.mant; dec_scale := Dec.sc;
  dec_ZERO := Dec.zero; dec_MAX := Dec.max; dec_new := Dec.new;
  dec_cmp := Dec.cmp; dec_min := Dec.min; dec_add := Dec.add; dec_sub := Dec.sub;
  dec_to_string := Dec.to_string
|}.

#[export] Instance dec_laws : DecimalLaws dec_api.
Proof.
  split; cbn.
  - intros d. apply Dec.wf_bounds.
  - intros d. apply Dec.wf_bounds.
  - done.
  - done.
  - intros m s Hm Hs. unfold Dec.new.
    destruct (Dec.make_some m s) as (c & -> & Hc); [unfold Dec.ok; lia|done].
  - done.
  - intros a b. unfold Dec.min. case_match; auto.
  - intros a b. unfold Dec.min. unfold Dec.cmp at 1 3. case_match eqn:E; rewrite ?Z.compare_refl;
      split; unfold Dec.cmp in *; rewrite ?Z.compare_refl, ?E; try done.
    rewrite Z.compare_antisym, E. done.
  - intros s a b Hs [Ha _] [Hb _] Hf. apply (Dec.exact Z.add); try done. intros; lia.
  - intros s a b Hs [Ha _] [Hb _] Hf. apply (Dec.exact Z.sub); try done. intros; lia.
Qed.

(** Rounding to eight decimals, halves away from zero. *)
Definition round_8 (d : Dec.t) : Dec.t :=
  if Dec.sc d <=? 8 then d
  else
    let unit := 10 ^ (Dec.sc d - 8) in
    Dec.new (Z.sgn (Dec.mant d) * ((2 * Z.abs (Dec.mant d) + unit) / (2 * unit))) 8.

#[export] Instance numeric_column : NumericColumn dec_api := {| numeric_20_8 := round_8 |}.

(** ** Ids *)

#[export] Instance uuid_api : UuidApi := {|
  Uuid := N; uuid_eq_dec := _; uuid_countable := _; uuid_to_string := pretty
|}.

(** ** Slabs *)

Module CSlab.
Record t (A : Type) := mk { slots : list (option A); free : list nat }.
Arguments mk {A} _ _.
Arguments slots {A} _.
Arguments free {A} _.

Section ops.
Context {A : Type}.
Implicit Types (s : t A).

Definition get s (k : nat) : option A := mjoin (slots s !! k).

Definition is_vacant s (k : nat) : bool :=
  match slots s !! k with Some None => true | _ => false end.

Definition vacant s : option nat := head (List.filter (is_vacant s) (free s)).

Definition insert s (v : A) : nat * t A :=
  match vacant s with
  | Some k => (k, mk (<[k := Some v]> (slots s)) (free s))
  | None => (length (slots s), mk (slots s ++ [Some v]) (free s))
  end.

Definition set s (k : nat) (v : A) : t A :=
  match get s k with
  | Some _ => mk (<[k := Some v]> (slots s)) (free s)
  | None => s
  end.

Definition try_remove s (k : nat) : option (A * t A) :=
  match get s k with
  | Some v => Some (v, mk (<[k := None]> (slots s)) (k :: free s))
  | None => None
  end.

Definition iter s : list (nat * A) :=
  omap (fun k => pair k <$> get s k) (seq 0 (length (slots s))).

Lemma get_lookup s k v : get s k = Some v <-> slots s !! k = Some (Some v).
Proof.
  unfold get. destruct (slots s !! k) as [[w|]|]; cbn; naive_solver.
Qed.

Lemma vacant_some s k : vacant s = Some k -> slots s !! k = Some None.
Proof.
  unfold vacant. destruct (List.filter _ _) as [|j l] eqn:E; [done|]. cbn. intros [= ->].
  assert (H : In k (List.filter (is_vacant s) (free s))) by (rewrite E; by left).
  apply filter_In in H as [_ H]. unfold is_vacant in H. by destruct (slots s !! k) as [[]|].
Qed.

Lemma get_update (l : list (option A)) f k v j :
  (k < length l)%nat ->
  get (mk (<[k := v]> l) f) j = if decide (j = k) then v else get (mk l f) j.
Proof.
  intros Hk. unfold get. cbn [slots]. case_decide as Hj.
  - subst j. by rewrite list_lookup_insert_eq.
  - by rewrite list_lookup_insert_ne.
Qed.

Lemma get_insert s v k s' j :
  insert s v = (k, s') -> get s' j = if decide (j = k) then Some v else get s j.
Proof.
  unfold insert. destruct (vacant s) as [k0|] eqn:E; intros [= <- <-].
  - rewrite get_update; [done|]. by apply vacant_some, lookup_lt_Some in E.
  - unfold get. cbn [slots]. case_decide as Hj.
    + subst j. by rewrite list_lookup_middle.
    + destruct (decide (j < length (slots s))%nat).
      * by rewrite lookup_app_l.
      * rewrite !(proj2 (lookup_ge_None _ _)); [done|lia|]. rewrite length_app. cbn. lia.
Qed.

Lemma insert_vacant s v k s' : insert s v = (k, s') -> get s k = None.
Proof.
  unfold insert, get. destruct (vacant s) as [k0|] eqn:E; intros [= <- <-].
  - by rewrite (vacant_some _ _ E).
  - by rewrite (proj2 (lookup_ge_None _ _)).
Qed.

Lemma iter_elem s k v : (k, v) ∈ iter s <-> get s k = Some v.
Proof.
  unfold iter. rewrite list_elem_of_omap. split.
  - intros (j & _ & H). destruct (get s j) eqn:E; naive_solver.
  - intros H. exists k. rewrite H. split; [|done]. apply get_lookup, lookup_lt_Some in H.
    apply elem_of_seq. lia.
Qed.

Lemma iter_sorted s : StronglySorted (fun a b => (fst a < fst b)%nat) (iter s).
Proof.
  unfold iter. generalize (length (slots s)) as n, 0%nat as i. induction n as [|n IH]; intros i.
  - constructor.
  - cbn [seq omap list_omap]. destruct (get s i) as [v|]; cbn; [|apply IH].
    constructor; [apply IH|]. apply Forall_forall. intros [k w] (j & Hj & Hw)%list_elem_of_omap.
    apply elem_of_seq in Hj. destruct (get s j); naive_solver lia.
Qed.

Lemma of_list (vs : list A) :
  foldl (fun s v => snd (insert s v)) (mk [] []) vs = mk (Some <$> vs) [].
Proof.
  induction vs as [|v vs IH] using rev_ind; [done|].
  rewrite foldl_app, IH. cbn. by rewrite fmap_app.
Qed.
End ops.
End CSlab.

#[export] Instance slab_api : SlabApi := {|
  Slab := CSlab.t; slab_new := fun A => CSlab.mk [] [];
  slab_insert := fun A => CSlab.insert; slab_get := fun A => CSlab.get;
  slab_set := fun A => CSlab.set; slab_try_remove := fun A => CSlab.try_remove;
  slab_iter := fun A => CSlab.iter; slab_len := fun A s => length (CSlab.iter s)
|}.

#[export] Instance slab_laws : SlabLaws slab_api.
Proof.
  split; cbn; intros A.
  - done.
  - apply CSlab.insert_vacant.
  - apply CSlab.get_insert.
  - intros s k v j [w Hw]. unfold CSlab.set. rewrite Hw. destruct s as [l f].
    apply CSlab.get_lookup, lookup_lt_Some in Hw. by rewrite CSlab.get_update.
  - intros s k. unfold CSlab.try_remove. by destruct (CSlab.get s k).
  - intros s k v s'. unfold CSlab.try_remove. destruct (CSlab.get s k); naive_solver.
  - intros s k v s' j. unfold CSlab.try_remove. destruct (CSlab.get s k) eqn:E; [|done].
    intros [= _ <-]. destruct s as [l f]. apply CSlab.get_lookup, lookup_lt_Some in E.
    by rewrite CSlab.get_update.
  - intros s k v [w Hw]. unfold CSlab.set, CSlab.try_remove. rewrite Hw.
    pose proof Hw as Hl. apply CSlab.get_lookup, lookup_lt_Some in Hl. destruct s as [l f].
    rewrite CSlab.get_update, decide_True by done. cbn. by rewrite list_insert_insert_eq.
  - apply CSlab.iter_sorted.
  - apply CSlab.iter_elem.
  - done.
  - intros s s' s'' k j v w. unfold CSlab.try_remove. destruct (CSlab.get s k) eqn:E; [|done].
    intros [= _ <-]. apply CSlab.get_lookup, lookup_lt_Some in E.
    unfold CSlab.insert, CSlab.vacant. cbn [CSlab.free CSlab.slots List.filter].
    unfold CSlab.is_vacant at 1. cbn [CSlab.slots]. rewrite list_lookup_insert_eq by done.
    cbn. by intros [= <- _].
  - intros vs v k s'. unfold slab_of_list. cbn. rewrite CSlab.of_list. cbn.
    intros [= <- _]. by rewrite length_fmap.
Qed.
