(* ===== verification/MatchingRefine.v ===== *)
(** * The matching engine implements price-time priority

    [process_order] returns (no panic, no divergence, enough fuel) on every order
    whose amounts are on the grid, keeps the book well-formed and its orders
    fillable, and computes exactly what the specification of [PriceTime]
    computes on the queues of the book. *)

From S2P Require Import Prelude External BTreeMap Types OrderBook Levels PriceTime BookFacts BookOps Matching.

(** ** Abstraction of the engine *)

Section abstraction.
Context {DA : DecimalApi} {UA : UuidApi} {SA : SlabApi}.
Context (lot : Z).

Definition abs_fill (f : Fill) : afill :=
  {| af_maker := f_maker_order_id f; af_taker := f_taker_order_id f;
     af_price := dec_val (f_price f); af_quantity := lots lot (f_quantity f);
     af_sequence := f_sequence f |}.

Definition abs_engine (eng : MatchingEngine) : astate :=
  {| as_bids := abs_queue lot Bid (eng_book eng);
     as_asks := abs_queue lot Ask (eng_book eng);
     as_sequence := eng_sequence eng |}.

Definition abs_result (r : result ProcessResult EngineError) : result aresult aerror :=
  match r with
  | Ok (Fills fs) => Ok (AFills (abs_fill <$> fs))
  | Ok ResCancelled => Ok ACancelled
  | Ok Resting => Ok AResting
  | Err (OrderNotFound id) => Err (AOrderNotFound id)
  | Err _ => Err AInvalidQuantity
  end.

(** The invariant of the engine's book. *)
Record engine_inv (eng : MatchingEngine) : Prop := {
  inv_wf : book_wf (eng_book eng);
  inv_resting : book_all (resting_ok lot) (eng_book eng)
}.

(** An order the loop may match: positive quantity, amounts on the grid. *)
Definition taker_ok (t : Order) : Prop := order_ok lot t /\ 0 < lots lot (o_quantity t).

(** The fields of an order no fill changes. *)
Definition same_order (o o' : Order) : Prop :=
  o_id o' = o_id o /\ o_market_id o' = o_market_id o /\ o_side o' = o_side o /\
  o_order_type o' = o_order_type o /\ o_price o' = o_price o /\
  o_quantity o' = o_quantity o /\ o_sequence o' = o_sequence o.
End abstraction.

Section refine.
Context {DA : DecimalApi} {DL : DecimalLaws DA} {UA : UuidApi}
  {SA : SlabApi} {SL : SlabLaws SA}.
Context (lot : Z) (Hlot : 0 <= lot <= 28).

Implicit Types (eng : MatchingEngine) (b : OrderBook) (o t : Order).

Lemma same_order_place o o' : same_order o o' -> same_place o o'.
Proof. intros (? & ? & ? & ? & ? & ? & ?). by split_and!. Qed.

Lemma same_order_refl o : same_order o o.
Proof. by split_and!. Qed.

Lemma same_order_trans o1 o2 o3 : same_order o1 o2 -> same_order o2 o3 -> same_order o1 o3.
Proof. unfold same_order. intuition congruence. Qed.

(** ** Filling one order *)

Lemma remaining_ok t :
  taker_ok lot t ->
  exists r, remaining t = Ret r /\ amount lot r /\ lots lot r = lots_left lot t.
Proof.
  intros [Hok Hq]. apply remaining_lots; [done..|]. destruct Hok as (_ & [_ Hf] & _).
  unfold lots_left, lots in *. lia.
Qed.

Lemma resting_taker_ok o : resting_ok lot o -> taker_ok lot o.
Proof. intros [Hok Hlt]. split; [done|]. destruct Hok as (_ & _ & Hf). lia. Qed.

Lemma add_fill_ok o (qty : Quantity) :
  taker_ok lot o -> amount lot qty -> 0 < lots lot qty <= lots_left lot o ->
  exists o', add_fill qty o = Ret o' /\ same_order o o' /\ taker_ok lot o' /\
    abs_order lot o' = a_fill (lots lot qty) (abs_order lot o).
Proof.
  intros [(Hq & Hf & H0) Hpos] Hx Hb. unfold lots_left in Hb. unfold add_fill.
  destruct (dec_add_exact lot (o_filled o) qty Hlot Hf Hx) as (c & Hc & Hs & Hu).
  { destruct Hq as [_ Hq]. unfold lots in *. lia. }
  rewrite Hc. cbn [or_panic obind].
  assert (Hok : taker_ok lot (set_filled c o)).
  { split; [|done]. split_and!; [done| |]; cbn; unfold amount, on_grid, lots in *.
    - destruct Hq as [_ Hq]. lia.
    - lia. }
  destruct (remaining_ok _ Hok) as (r & Hr & Har & Hrl).
  unfold status_after. rewrite Hr. cbn [obind]. rewrite (dec_le_ZERO_lots lot) by done.
  eexists. split; [reflexivity|]. split_and!; try done; try apply Hok.
  unfold abs_order, a_fill, a_left, lots_left, lots in *. cbn in *.
  f_equal; [done|]. rewrite Hrl, Hu.
  replace (_ - (_ + _)) with
    (dec_units lot (o_quantity o) - dec_units lot (o_filled o) - dec_units lot qty) by lia.
  done.
Qed.

Lemma min_left t m :
  taker_ok lot t -> taker_ok lot m ->
  exists tr mr, remaining t = Ret tr /\ remaining m = Ret mr /\
    amount lot (dec_min tr mr) /\
    lots lot (dec_min tr mr) = Z.min (lots_left lot t) (lots_left lot m).
Proof.
  intros Ht Hm. destruct (remaining_ok _ Ht) as (tr & Etr & Atr & Ltr).
  destruct (remaining_ok _ Hm) as (mr & Emr & Amr & Lmr).
  exists tr, mr. split_and!; try done.
  - destruct (dec_min_choice tr mr) as [->| ->]; done.
  - unfold lots in *. rewrite <-Ltr, <-Lmr. apply dec_min_units; [apply Atr|apply Amr].
Qed.

(** ** The book after one fill *)

(** The book after the maker at the front of its side was filled: rewritten in
    place, or removed when nothing is left of it. *)
Definition book_after (b : OrderBook) sd (p : Price) (k : SlabKey) (m : Order) : OrderBook :=
  if lots_left lot m <=? 0 then pop_front (put_order b k m) sd p else put_order b k m.

Lemma book_after_ok b sd p k l e2 m m' :
  book_wf b -> book_all (resting_ok lot) b ->
  bt_get dec_cmp p (side_map sd b) = Some (k :: l) ->
  entries sd (side_map sd b) = level_entries (p, k :: l) ++ e2 ->
  slab_get (ob_orders b) k = Some m -> same_order m m' -> taker_ok lot m' ->
  exists q, queue sd b = m :: q /\
    queue sd (book_after b sd p k m') = (if lots_left lot m' <=? 0 then q else m' :: q) /\
    queue (opposite sd) (book_after b sd p k m') = queue (opposite sd) b /\
    book_wf (book_after b sd p k m') /\
    book_all (resting_ok lot) (book_after b sd p k m') /\
    (book_indexed b -> book_indexed (book_after b sd p k m')).
Proof.
  intros Hwf Hall Hl He Hg Hso Hok. pose proof (same_order_place _ _ Hso) as Hsp.
  pose proof (put_order_wf b k m m' Hwf Hg Hsp) as Hwf1.
  destruct (put_order_queue b k m m' sd [] (level_entries (p, l) ++ e2) p Hwf Hg He)
    as [Hq1 Hq2]. cbn [app resolve] in Hq1, Hq2.
  pose proof (fun j => put_order_get b k m m' j Hg) as Hget.
  assert (Hg1 : slab_get (ob_orders (put_order b k m')) k = Some m') by
    (by rewrite Hget, decide_True).
  destruct (pop_front_ok (put_order b k m') sd p k l m' e2 Hwf1) as (Hw & Hg2 & Hi & Hsd & Hq3 & Hoth);
    rewrite ?put_order_side_map; try done.
  assert (Hopp : opposite sd <> sd) by (by destruct sd).
  assert (Hsm : o_side m = sd) by (destruct Hsp as (_ & <- & _); done).
  assert (Hq4 : queue (opposite sd) (put_order b k m') = queue (opposite sd) b).
  { apply (put_order_queue_other b k m); [done|done|]. by rewrite Hsm. }
  eexists. split; [exact Hq1|]. unfold book_after.
  destruct (Z.leb_spec (lots_left lot m') 0); split_and!; try done.
  - rewrite Hq2 in Hq3. by injection Hq3.
  - by rewrite Hoth.
  - intros j o. rewrite Hg2, Hget. repeat case_decide; [done|]. apply Hall.
  - intros Hix. eapply remove_indexed; [|exact Hg1|done|done]. by eapply put_order_indexed.
  - intros j o. rewrite Hget. case_decide; [|apply Hall]. intros [= <-].
    split; [apply Hok|]. unfold lots_left in *. lia.
  - intros Hix. by eapply put_order_indexed.
Qed.

(** ** One fill *)

Lemma execute_fill_ok eng t p k l e2 fills :
  let sd := opposite (o_side t) in
  engine_inv lot eng -> taker_ok lot t -> 0 < lots_left lot t ->
  bt_get dec_cmp p (side_map sd (eng_book eng)) = Some (k :: l) ->
  entries sd (side_map sd (eng_book eng)) = level_entries (p, k :: l) ++ e2 ->
  exists m q eng' t' f, queue sd (eng_book eng) = m :: q /\
    execute_fill eng t k p fills = Ret (eng', t', fills ++ [f]) /\
    engine_inv lot eng' /\ taker_ok lot t' /\ same_order t t' /\
    0 < lots_left lot m /\ dec_val p = price_val (o_price m) /\
    let x := Z.min (lots_left lot t) (lots_left lot m) in
    abs_order lot t' = a_fill x (abs_order lot t) /\
    eng_sequence eng' = u64_add (eng_sequence eng) 1 /\
    eng_market_id eng' = eng_market_id eng /\
    abs_fill lot f = {| af_maker := o_id m; af_taker := o_id t; af_price := dec_val p;
                        af_quantity := x; af_sequence := u64_add (eng_sequence eng) 1 |} /\
    abs_queue lot sd (eng_book eng') =
      (if lots_left lot m - x <=? 0 then abs_order lot <$> q
       else a_fill x (abs_order lot m) :: (abs_order lot <$> q)) /\
    queue (opposite sd) (eng_book eng') = queue (opposite sd) (eng_book eng) /\
    (book_indexed (eng_book eng) -> book_indexed (eng_book eng')).
Proof.
  intros sd [Hwf Hall] Ht Hlt Hl He. set (b := eng_book eng) in *.
  assert (Hen : entry_ok (ob_orders b) sd (p, k)).
  { pose proof (sw_entries _ _ _ (wf_side b Hwf sd)) as Hes. rewrite Forall_forall in Hes.
    apply Hes. rewrite He. csimpl. set_solver. }
  destruct Hen as (m & pr & Hg & _ & Hpr & E). cbn [fst snd] in *.
  pose proof (Hall _ _ Hg) as Hm. pose proof (resting_taker_ok _ Hm) as Hmt.
  assert (Hml : 0 < lots_left lot m) by (destruct Hm; unfold lots_left; lia).
  destruct (min_left t m Ht Hmt) as (tr & mr & Etr & Emr & Ax & Lx).
  destruct (add_fill_ok m (dec_min tr mr) Hmt Ax) as (m' & Em' & Hsm & Hm' & Abm); [lia|].
  destruct (add_fill_ok t (dec_min tr mr) Ht Ax) as (t' & Et' & Hst & Ht' & Abt); [lia|].
  destruct (remaining_ok m' Hm') as (r' & Er' & Ar' & Lr').
  destruct (book_after_ok b sd p k l e2 m m' Hwf Hall Hl He Hg Hsm Hm')
    as (q & Hq & Hq' & Hqo & Hwf' & Hall' & Hix').
  assert (Hlm' : lots_left lot m' = lots_left lot m - lots lot (dec_min tr mr)).
  { change (lots_left lot m') with (a_left (abs_order lot m')). rewrite Abm. apply a_left_fill. }
  unfold execute_fill, get_order. fold b. rewrite Hg, Etr, Emr. cbn [obind].
  rewrite (dec_le_ZERO_lots lot) by done. rewrite (proj2 (Z.leb_gt _ _)) by lia.
  unfold next_sequence. cbn [eng_book set_eng_sequence]. fold b. rewrite Hg, Em', Et'.
  cbn [obind eng_book set_book eng_sequence eng_market_id].
  rewrite (put_order_get b k m), decide_True, Er' by done. cbn [obind].
  rewrite (dec_le_ZERO_lots lot), Lr' by done.
  assert (Hts : opposite (o_side t') = sd) by (destruct Hst as (_ & _ & -> & _); done).
  rewrite Hts.
  exists m, q. eexists (mkEngine (book_after b sd p k m') (eng_market_id eng)
    (u64_add (eng_sequence eng) 1)), t', _.
  split; [done|]. split.
  { unfold book_after. destruct (lots_left lot m' <=? 0); reflexivity. }
  rewrite <-Lx. split_and!; try done.
  - rewrite Hpr. cbn. by rewrite E.
  - unfold abs_fill. cbn. destruct Hsm as (-> & _), Hst as (-> & _). done.
  - cbn [eng_book]. unfold abs_queue. rewrite Hq', Hlm'. rewrite <-Abm.
    by destruct (lots_left lot m - lots lot (dec_min tr mr) <=? 0).
Qed.
(** ** The loops

    Both loops of the source are one loop over the choice of the next maker. *)

Section loop.
Context (next : OrderBook -> Order -> option (SlabKey * Price)).

Fixpoint match_loop (fuel : nat) (eng : MatchingEngine) (taker : Order)
    (fills : list Fill) : outcome (MatchingEngine * Order * list Fill) :=
  match fuel with
  | O => Diverge
  | S fuel =>
      let! r := remaining taker in
      if dec_le r dec_ZERO then Ret (eng, taker, fills)
      else
        match next (eng_book eng) taker with
        | None => Ret (eng, taker, fills)
        | Some (maker_key, maker_price) =>
            let! (eng, taker, fills) := execute_fill eng taker maker_key maker_price fills in
            match_loop fuel eng taker fills
        end
  end.

(** What a run of the loop from [eng], [t] guarantees. *)
Definition loop_post (crosses : Z -> bool) (eng : MatchingEngine) (t : Order)
    (fills : list Fill) (res : outcome (MatchingEngine * Order * list Fill)) : Prop :=
  let sd := opposite (o_side t) in
  exists eng' t' fs, res = Ret (eng', t', fills ++ fs) /\
    engine_inv lot eng' /\ taker_ok lot t' /\ same_order t t' /\
    q_match crosses (abs_order lot t) (eng_sequence eng) (abs_queue lot sd (eng_book eng)) =
      (abs_order lot t', eng_sequence eng', abs_queue lot sd (eng_book eng'),
       abs_fill lot <$> fs) /\
    queue (opposite sd) (eng_book eng') = queue (opposite sd) (eng_book eng) /\
    eng_market_id eng' = eng_market_id eng /\
    (book_indexed (eng_book eng) -> book_indexed (eng_book eng')).

(** [next] is the front of the opposite side when its price is acceptable. *)
Definition next_ok (crosses : Z -> bool) (t : Order) : Prop :=
  forall b t', book_wf b -> same_order t t' ->
    next b t' = (k ← best_front (opposite (o_side t)) b;
                 p ← best_price (opposite (o_side t)) b;
                 if crosses (dec_val p) then Some (k, p) else None).

Lemma next_ok_same crosses t t' : same_order t t' -> next_ok crosses t -> next_ok crosses t'.
Proof.
  intros Hst H b t2 Hwf Hst2.
  rewrite (H b t2 Hwf (same_order_trans _ _ _ Hst Hst2)).
  destruct Hst as (_ & _ & -> & _). done.
Qed.

(** The loop stops when the taker is filled or no maker is acceptable. *)
Lemma loop_stop crosses eng t fills (q : list aorder) :
  engine_inv lot eng -> taker_ok lot t ->
  abs_queue lot (opposite (o_side t)) (eng_book eng) = q ->
  lots_left lot t <= 0 \/ q = [] \/ (exists m q', q = m :: q' /\ crosses (a_price m) = false) ->
  loop_post crosses eng t fills (Ret (eng, t, fills)).
Proof.
  intros Hinv Ht Eq Hq. exists eng, t, []. rewrite app_nil_r, Eq. split_and!; try done.
  destruct Hq as [H|[->|(m & q' & -> & H)]];
    [by apply q_match_done|done|by apply q_match_stop; right].
Qed.

(** After a fill the side is shorter, unless the taker is filled. *)
Lemma fuel_after_fill eng1 t t1 m q (fuel : nat) :
  let x := Z.min (lots_left lot t) (lots_left lot m) in
  abs_order lot t1 = a_fill x (abs_order lot t) -> o_side t1 = o_side t ->
  abs_queue lot (opposite (o_side t)) (eng_book eng1) =
    (if lots_left lot m - x <=? 0 then abs_order lot <$> q
     else a_fill x (abs_order lot m) :: (abs_order lot <$> q)) ->
  (S (length q) < S fuel)%nat ->
  (0 < lots_left lot t1 ->
     (length (queue (opposite (o_side t1)) (eng_book eng1)) < fuel)%nat) /\ (0 < fuel)%nat.
Proof.
  intros x Abt Hsd Hq1 Hfuel. subst x. split; [|lia]. intros Hl1. apply (f_equal length) in Hq1.
  unfold abs_queue in Hq1. rewrite length_fmap in Hq1. rewrite Hsd, Hq1.
  change (lots_left lot t1) with (a_left (abs_order lot t1)) in Hl1.
  rewrite Abt, a_left_fill, a_left_abs in Hl1.
  case_match eqn:Hc1; cbn [length]; rewrite length_fmap; [lia|]. apply Z.leb_gt in Hc1. lia.
Qed.

Lemma match_loop_ok crosses (fuel : nat) eng t fills :
  next_ok crosses t -> engine_inv lot eng -> taker_ok lot t ->
  (0 < lots_left lot t ->
     (length (queue (opposite (o_side t)) (eng_book eng)) < fuel)%nat) /\ (0 < fuel)%nat ->
  loop_post crosses eng t fills (match_loop fuel eng t fills).
Proof.
  revert eng t fills. induction fuel as [|fuel IH]; [lia|].
  intros eng t fills Hnext Hinv Ht [Hfuel _]. cbn [match_loop].
  destruct (remaining_ok t Ht) as (r & -> & Har & Hr). cbn [obind].
  rewrite (dec_le_ZERO_lots lot), Hr by done.
  destruct (Z.leb_spec (lots_left lot t) 0) as [Hle|Hlt]; [by eapply loop_stop; eauto|].
  rewrite (Hnext _ t (inv_wf _ _ Hinv) (same_order_refl t)).
  destruct (best_cases (opposite (o_side t)) (eng_book eng) (inv_wf _ _ Hinv))
    as [(-> & -> & He)|(p & k & l & e2 & -> & -> & Hl & He)]; cbn [mbind option_bind].
  { apply (loop_stop _ _ _ _ []); [done..| |by right; left]. unfold abs_queue, queue. by rewrite He. }
  destruct (execute_fill_ok eng t p k l e2 fills Hinv Ht Hlt Hl He)
    as (m & q & eng1 & t1 & f & Hq & Hex & Hinv1 & Ht1 & Hst1 & Hlm & Hp & Abt & Hs1 & Hmk &
        Hf & Hq1 & Hqo & Hix).
  assert (Eq : abs_queue lot (opposite (o_side t)) (eng_book eng) =
    abs_order lot m :: (abs_order lot <$> q)) by (unfold abs_queue; by rewrite Hq).
  specialize (Hfuel Hlt). rewrite Hq in Hfuel. cbn [length] in Hfuel.
  destruct (crosses (dec_val p)) eqn:Hc.
  2: { eapply loop_stop; [done..|exact Eq|right; right]. do 2 eexists. split; [done|]. cbn. by rewrite <-Hp. }
  rewrite Hex. cbn [obind]. pose proof Hst1 as (_ & _ & Hsd & _).
  destruct (IH eng1 t1 (fills ++ [f]) ltac:(by eapply next_ok_same) Hinv1 Ht1
    (fuel_after_fill eng1 t t1 m q fuel Abt Hsd Hq1 Hfuel))
    as (eng2 & t2 & fs & Hres & Hinv2 & Ht2 & Hst2 & Hm & Hqo2 & Hmk2 & Hix2).
  exists eng2, t2, (f :: fs). rewrite Hres, <-app_assoc. rewrite Hsd in Hm, Hqo2.
  split_and!; [done|done|done|by eapply same_order_trans| |congruence|congruence|auto].
  rewrite Abt, Hs1, Hq1 in Hm. apply (q_match_step crosses (abs_order lot t) (abs_order lot m)) in Hm; [|done|cbn; by rewrite <-Hp].
  rewrite Eq, Hm. csimpl. rewrite Hf. do 2 f_equal. by rewrite Hp.
Qed.
End loop.

Lemma match_against_book_loop fuel eng t fills :
  match_against_book fuel eng t fills = match_loop next_maker_limit fuel eng t fills.
Proof.
  revert eng t fills. induction fuel as [|fuel IH]; intros eng t fills; [done|].
  cbn. destruct (remaining t); cbn; [|done|done]. case_match; [done|]. case_match; [|done].
  case_match. destruct (execute_fill _ _ _ _ _) as [[[? ?] ?]| |]; cbn; [apply IH|done|done].
Qed.

Lemma sweep_book_loop fuel eng t fills :
  sweep_book fuel eng t fills = match_loop next_maker_market fuel eng t fills.
Proof.
  revert eng t fills. induction fuel as [|fuel IH]; intros eng t fills; [done|].
  cbn. destruct (remaining t); cbn; [|done|done]. case_match; [done|]. case_match; [|done].
  case_match. destruct (execute_fill _ _ _ _ _) as [[[? ?] ?]| |]; cbn; [apply IH|done|done].
Qed.

(** The price test of the limit loop, on values. *)
Definition limit_ok (sd : Side) (limit : option Price) : Z -> bool :=
  limit_crosses (dec_val dec_MAX) sd (dec_val <$> limit).

Lemma next_maker_limit_ok t : next_ok next_maker_limit (limit_ok (o_side t) (o_price t)) t.
Proof.
  intros b t' Hwf (_ & _ & Hsd & _ & Hp & _). unfold next_maker_limit. rewrite Hsd, Hp.
  destruct (best_cases (opposite (o_side t)) b Hwf) as [(E1 & E2 & _)|(p & k & l & e2 & E1 & E2 & _)];
    destruct (o_side t); cbn in *; rewrite E1, E2; cbn; try done.
  - rewrite dec_gt_val. unfold limit_ok, limit_crosses.
    replace (default 0 (dec_val <$> o_price t)) with (dec_val (default dec_ZERO (o_price t)))
      by (destruct (o_price t); cbn; [done|apply dec_val_ZERO]).
    rewrite Z.ltb_antisym. by destruct (_ <=? _).
  - rewrite dec_lt_val. unfold limit_ok, limit_crosses.
    replace (default (dec_val dec_MAX) (dec_val <$> o_price t))
      with (dec_val (default dec_MAX (o_price t))) by (by destruct (o_price t)).
    rewrite Z.ltb_antisym. by destruct (_ <=? _).
Qed.

Lemma next_maker_market_ok t : next_ok next_maker_market (fun _ => true) t.
Proof.
  intros b t' Hwf (_ & _ & Hsd & _). unfold next_maker_market. rewrite Hsd.
  destruct (best_cases (opposite (o_side t)) b Hwf) as [(E1 & E2 & _)|(p & k & l & e2 & E1 & E2 & _)];
    destruct (o_side t); cbn in *; rewrite E1, E2; done.
Qed.

(** ** Enough fuel *)

Lemma queue_length sd b : book_wf b -> (length (queue sd b) <= slab_len (ob_orders b))%nat.
Proof.
  intros Hwf. destruct (wf_side b Hwf sd) as [_ _ Hes Hnd]. rewrite slab_len_iter.
  assert (Hsub : (entries sd (side_map sd b)).*2 ⊆+ (slab_iter (ob_orders b)).*1).
  { apply NoDup_submseteq; [done|]. intros k Hk.
    destruct (entry_ok_key _ _ _ _ Hes Hk) as (o & Hg & _).
    apply slab_iter_elem in Hg. by apply (list_elem_of_fmap_2 fst) in Hg. }
  apply submseteq_length in Hsub. rewrite !length_fmap in Hsub.
  etransitivity; [|exact Hsub]. unfold queue.
  rewrite <-(length_fmap snd (entries _ _)).
  generalize ((entries sd (side_map sd b)).*2) as ks. clear. intros ks.
  induction ks as [|k ks IH]; cbn; [lia|]. case_match; cbn; lia.
Qed.

Lemma loop_fuel_enough eng sd :
  engine_inv lot eng -> (length (queue sd (eng_book eng)) < loop_fuel eng)%nat.
Proof. intros Hinv. pose proof (queue_length sd _ (inv_wf _ _ Hinv)). unfold loop_fuel. lia. Qed.

Lemma loop_run next crosses eng t :
  next_ok next crosses t -> engine_inv lot eng -> taker_ok lot t ->
  loop_post crosses eng t [] (match_loop next (loop_fuel eng) eng t []).
Proof.
  intros Hn Hinv Ht. apply match_loop_ok; try done. split; [|unfold loop_fuel; lia].
  intros _. by apply loop_fuel_enough.
Qed.

(** ** Orders *)

(** The specification of [process_order]. *)
Definition spec_process (o : Order) (st : astate) : astate * result aresult aerror :=
  match o_order_type o with
  | Limit =>
      spec_limit (dec_val dec_MAX) (o_side o) (dec_val <$> o_price o) (abs_order lot o) st
  | Market => spec_market (o_side o) (abs_order lot o) st
  end.

Lemma as_side_abs sd eng : as_side sd (abs_engine lot eng) = abs_queue lot sd (eng_book eng).
Proof. by destruct sd. Qed.

Lemma abs_engine_match sd eng eng' :
  queue (opposite (opposite sd)) (eng_book eng') = queue (opposite (opposite sd)) (eng_book eng) ->
  as_set_sequence (eng_sequence eng')
    (as_set_side (opposite sd) (abs_queue lot (opposite sd) (eng_book eng')) (abs_engine lot eng))
  = abs_engine lot eng'.
Proof.
  intros H. unfold abs_engine, abs_queue, as_set_sequence, as_set_side.
  destruct sd; cbn in *; by rewrite H.
Qed.

(** The loop's guarantee in terms of the specification. *)
Lemma loop_post_spec crosses eng t res :
  loop_post crosses eng t [] res ->
  exists eng' t' fs, res = Ret (eng', t', fs) /\
    engine_inv lot eng' /\ taker_ok lot t' /\ same_order t t' /\
    spec_match crosses (o_side t) (abs_order lot t) (abs_engine lot eng) =
      (abs_order lot t', abs_engine lot eng', abs_fill lot <$> fs) /\
    eng_market_id eng' = eng_market_id eng /\
    (book_indexed (eng_book eng) -> book_indexed (eng_book eng')).
Proof.
  intros (eng' & t' & fs & -> & Hinv & Ht & Hst & Hm & Hq & Hmk & Hix).
  exists eng', t', fs. split_and!; try done. unfold spec_match.
  rewrite as_side_abs. cbn [as_sequence abs_engine]. rewrite Hm. by rewrite abs_engine_match.
Qed.

(** No matching step adds an id to the book. *)
Lemma spec_match_ids crosses sd (t : aorder) st (t' : aorder) st' fs sd' a :
  spec_match crosses sd t st = (t', st', fs) -> a ∈ as_side sd' st' ->
  exists a', a' ∈ as_side sd' st /\ a_id a' = a_id a.
Proof.
  unfold spec_match.
  destruct (q_match crosses t (as_sequence st) (as_side (opposite sd) st)) as [[[t1 s1] q1] fs1] eqn:E.
  intros [= <- <- <-]. destruct (decide (sd' = opposite sd)) as [->|Hne].
  - assert (Eq : as_side (opposite sd) (as_set_sequence s1 (as_set_side (opposite sd) q1 st)) = q1)
      by (by destruct sd).
    rewrite Eq. apply q_match_priority in E as (p1 & p2 & -> & _ & _ & [->|(q0 & m & x & -> & -> & _)]).
    + intros Ha. exists a. set_solver.
    + intros [->|Ha]%elem_of_cons; [exists m|exists a]; set_solver.
  - intros Ha. exists a. split; [|done]. by destruct sd, sd', st.
Qed.

Lemma index_none_queue eng sd id a :
  book_wf (eng_book eng) -> book_indexed (eng_book eng) ->
  ob_index (eng_book eng) !! id = None -> a ∈ abs_queue lot sd (eng_book eng) -> a_id a <> id.
Proof.
  intros Hwf Hix Hn (o & -> & Ho)%list_elem_of_fmap. apply elem_of_queue in Ho as (k & Hg & _); [|done].
  apply Hix in Hg. cbn. congruence.
Qed.

(** An id that is fresh before the matching is fresh after it. *)
Lemma fresh_after crosses eng eng' t (t' : aorder) fs id :
  engine_inv lot eng -> engine_inv lot eng' -> book_indexed (eng_book eng) ->
  spec_match crosses (o_side t) (abs_order lot t) (abs_engine lot eng) =
    (t', abs_engine lot eng', fs) ->
  ob_index (eng_book eng) !! id = None -> ob_index (eng_book eng') !! id = None.
Proof.
  intros Hinv Hinv' Hix Hsp Hn. destruct (ob_index (eng_book eng') !! id) as [k|] eqn:E; [|done].
  exfalso. apply (wf_index _ (inv_wf _ _ Hinv')) in E as (o & Hg & Hid).
  assert (Ha : abs_order lot o ∈ as_side (o_side o) (abs_engine lot eng')).
  { rewrite as_side_abs. apply list_elem_of_fmap_2, elem_of_queue; [apply Hinv'|]. by exists k. }
  destruct (spec_match_ids _ _ _ _ _ _ _ _ _ Hsp Ha) as (a' & Ha' & Hida).
  rewrite as_side_abs in Ha'. eapply index_none_queue; [apply Hinv|done|done|exact Ha'|].
  by rewrite Hida.
Qed.

(** What a call of the engine promises. *)
Definition process_post (eng : MatchingEngine) (o : Order)
    (res : outcome (MatchingEngine * result ProcessResult EngineError)) : Prop :=
  exists eng' r, res = Ret (eng', r) /\ engine_inv lot eng' /\
    spec_process o (abs_engine lot eng) = (abs_engine lot eng', abs_result lot r) /\
    eng_market_id eng' = eng_market_id eng /\
    (book_indexed (eng_book eng) -> ob_index (eng_book eng) !! o_id o = None ->
     book_indexed (eng_book eng')).

Lemma quantity_test o :
  order_ok lot o -> dec_le (o_quantity o) dec_ZERO = (a_quantity (abs_order lot o) <=? 0).
Proof. intros (Hq & _). by apply dec_le_ZERO_lots. Qed.

Lemma process_market_refines eng o :
  engine_inv lot eng -> order_ok lot o -> o_order_type o = Market ->
  process_post eng o (process_market eng o).
Proof.
  intros Hinv Ho Hty. unfold process_post, process_market, spec_process, spec_market.
  rewrite Hty, quantity_test by done.
  destruct (Z.leb_spec (a_quantity (abs_order lot o)) 0) as [Hle|Hlt].
  - eexists eng, _. split; [reflexivity|]. by split_and!; auto.
  - rewrite sweep_book_loop.
    destruct (loop_post_spec _ _ _ _ (loop_run _ _ eng o (next_maker_market_ok o) Hinv (conj Ho Hlt)))
      as (eng' & t' & fs & -> & Hinv' & Ht' & Hst & Hsp & Hmk & Hix).
    cbn [obind]. rewrite Hsp. eexists eng', _. split; [reflexivity|]. split_and!; auto.
Qed.

(** Resting what is left of a limit order. *)
Lemma rest_ok eng o p :
  engine_inv lot eng -> taker_ok lot o -> 0 < lots_left lot o -> o_price o = Some p ->
  exists k b', insert_order (eng_book eng) o = Ret (b', Ok k) /\
    engine_inv lot (set_book b' eng) /\
    abs_engine lot (set_book b' eng) =
      as_set_side (o_side o) (q_insert (o_side o) (abs_order lot o)
        (as_side (o_side o) (abs_engine lot eng))) (abs_engine lot eng) /\
    (book_indexed (eng_book eng) -> ob_index (eng_book eng) !! o_id o = None ->
     book_indexed b').
Proof.
  intros [Hwf Hall] [Hok Hq] Hl Hp.
  assert (Hz : dec_le (o_quantity o) dec_ZERO = false).
  { rewrite quantity_test by done. by apply Z.leb_gt. }
  destruct (insert_order_ok lot (eng_book eng) o p Hwf Hp Hz)
    as (k & b' & Hins & Hwf' & Hnone & Hget & Hidx & Habs & Hoth).
  exists k, b'. split; [done|]. split; [split; cbn; [done|]|split].
  - intros j o'. rewrite Hget. case_decide; [|apply Hall]. intros [= <-].
    split; [done|]. unfold lots_left in Hl. lia.
  - rewrite as_side_abs, <-Habs. unfold abs_engine, abs_queue, as_set_side, set_book.
    assert (Hq' : queue (opposite (o_side o)) b' = queue (opposite (o_side o)) (eng_book eng))
      by (apply Hoth; by destruct (o_side o)).
    destruct (o_side o); cbn [opposite eng_book] in *; by rewrite Hq'.
  - intros Hix Hn. by eapply insert_order_indexed.
Qed.

Lemma abs_result_fills fs :
  match abs_fill lot <$> fs with [] => AResting | _ :: _ => AFills (abs_fill lot <$> fs) end =
  match fs with [] => AResting | _ :: _ => AFills (abs_fill lot <$> fs) end.
Proof. by destruct fs. Qed.

Lemma process_limit_refines eng o :
  engine_inv lot eng -> order_ok lot o -> o_order_type o = Limit ->
  process_post eng o (process_limit eng o).
Proof.
  intros Hinv Ho Hty. unfold process_post, process_limit, spec_process, spec_limit.
  rewrite Hty, quantity_test by done.
  destruct (Z.leb_spec (a_quantity (abs_order lot o)) 0) as [Hle|Hlt].
  - eexists eng, _. split; [reflexivity|]. by split_and!; auto.
  - rewrite match_against_book_loop.
    destruct (loop_post_spec _ _ _ _ (loop_run _ _ eng o (next_maker_limit_ok o) Hinv (conj Ho Hlt)))
      as (eng1 & t & fs & -> & Hinv1 & Ht & Hst & Hsp & Hmk & Hix).
    cbn [obind]. unfold limit_ok in Hsp. rewrite Hsp.
    destruct (remaining_ok t Ht) as (r & -> & Har & Hr). cbn [obind].
    rewrite (dec_gt_ZERO_lots lot), Hr, a_left_abs by done.
    pose proof Hst as (Hid & _ & Hsd & _ & Hp & _).
    destruct (Z.ltb_spec 0 (lots_left lot t)) as [Hl|Hl].
    2: { eexists eng1, _. split; [reflexivity|]. split_and!; auto. }
    destruct (o_price o) as [p|] eqn:Ep; cbn [fmap option_fmap option_map].
    + destruct (rest_ok eng1 t p Hinv1 Ht Hl Hp) as (k & b' & -> & Hinv' & Habs & Hix').
      cbn [obind]. eexists (set_book b' eng1), _. split; [reflexivity|].
      split; [done|]. split; [|split; [done|]].
      * rewrite Habs, Hsd. by destruct fs.
      * intros Hb Hn. apply Hix'; [by apply Hix|]. rewrite Hid.
        eapply fresh_after; [exact Hinv|exact Hinv1|done|exact Hsp|done].
    + rewrite insert_order_market by done. cbn [obind]. eexists (set_book _ eng1), _.
      split; [reflexivity|]. destruct eng1. split_and!; auto.
Qed.

Lemma process_order_post eng o :
  engine_inv lot eng -> order_ok lot o -> process_post eng o (process_order eng o).
Proof.
  intros Hinv Ho. unfold process_order. destruct (o_order_type o) eqn:E.
  - by apply process_limit_refines.
  - by apply process_market_refines.
Qed.
End refine.
