(* ===== verification/EngineFacts.v ===== *)
(** * Invariants of the engine

    Facts about the queues of a well-formed book and about the specification of
    [PriceTime] that the properties of the engine rest on: queues are sorted, the
    book never crosses, cancellation is [q_cancel], and the reachable states. *)

From S2P Require Import Prelude External BTreeMap Types OrderBook Levels PriceTime BookFacts BookOps Matching MatchingRefine.

Section sorted.
Context {DA : DecimalApi} {DL : DecimalLaws DA} {UA : UuidApi}
  {SA : SlabApi} {SL : SlabLaws SA}.
Context (lot : Z).

Implicit Types (m : list (Price * Level)) (sd : Side) (b : OrderBook).

Definition better_eq sd (e e' : Price * SlabKey) : Prop :=
  rank sd (dec_val e.1) <= rank sd (dec_val e'.1).

Lemma level_entries_sorted sd p (l : Level) : StronglySorted (better_eq sd) (level_entries (p, l)).
Proof.
  unfold level_entries. cbn. induction l as [|k l IH]; constructor; [done|].
  apply Forall_fmap, Forall_true. intros j. unfold better_eq. cbn. lia.
Qed.

Lemma entries_sorted sd m :
  bt_sorted dec_val m -> StronglySorted (better_eq sd) (entries sd m).
Proof.
  induction m as [|[p l] m IH]; intros Hs; [destruct sd; constructor|].
  apply StronglySorted_inv in Hs as [Hs Hx]. specialize (IH Hs).
  rewrite Forall_forall in Hx.
  assert (Hrest : forall q k, (q, k) ∈ entries sd m -> dec_val p < dec_val q).
  { intros q k (l' & Hin & _)%elem_of_entries. apply (Hx _ Hin). }
  unfold entries. destruct sd; cbn [by_priority].
  - rewrite reverse_cons, bind_app. cbn. rewrite app_nil_r.
    apply StronglySorted_app_2; [|exact IH|apply level_entries_sorted].
    intros [q k] [q' k'] Hq (j & E & _)%list_elem_of_fmap. cbn in E. simplify_eq.
    apply Hrest in Hq. unfold better_eq. cbn. lia.
  - cbn. apply StronglySorted_app_2; [|apply level_entries_sorted|exact IH].
    intros [q' k'] [q k] (j & E & _)%list_elem_of_fmap Hq. cbn in E. simplify_eq.
    apply Hrest in Hq. unfold better_eq. cbn. lia.
Qed.

Lemma resolve_sorted s sd es :
  Forall (entry_ok s sd) es -> StronglySorted (better_eq sd) es ->
  q_sorted sd (abs_order lot <$> resolve s es).
Proof.
  intros Hok Hs. induction Hs as [|[p k] es Hs IH Hx]; [constructor|].
  apply Forall_cons in Hok as [(o & q & Hg & Hsd & Hq & E) Hok]. cbn in Hg.
  rewrite (resolve_cons _ _ _ o) by done. cbn. constructor; [by apply IH|].
  cbn. rewrite Hq. cbn. apply decimal_equiv_val in E. cbn in E. rewrite E.
  exact (resolve_forall lot s sd es (fun v => rank sd (dec_val p) <= rank sd v) Hok Hx).
Qed.

(** The resting orders of a side are sorted by price, best first. *)
Lemma abs_queue_sorted sd b : book_wf b -> q_sorted sd (abs_queue lot sd b).
Proof.
  intros Hwf. destruct (wf_side b Hwf sd). apply resolve_sorted; [done|].
  by apply entries_sorted.
Qed.

(** The best price is the price of the first order of the queue. *)
Lemma best_price_queue sd b :
  book_wf b ->
  dec_val <$> best_price sd b = a_price <$> head (abs_queue lot sd b).
Proof.
  intros Hwf. destruct (best_cases sd b Hwf) as [(-> & _ & He)|(p & k & l & e2 & -> & _ & _ & He)].
  - unfold abs_queue, queue. by rewrite He.
  - pose proof (sw_entries _ _ _ (wf_side b Hwf sd)) as Hes. rewrite He in Hes.
    apply Forall_cons in Hes as [(o & q & Hg & _ & Hq & E) _]. cbn in Hg.
    assert (Eq : queue sd b = o :: resolve (ob_orders b) (level_entries (p, l) ++ e2)).
    { unfold queue. rewrite He. exact (resolve_cons (ob_orders b) p k o _ Hg). }
    unfold abs_queue. rewrite Eq. cbn. rewrite Hq. cbn. by rewrite E.
Qed.
End sorted.

(** ** The specification never crosses the book *)

Section uncrossed.
Context {UA : UuidApi}.
Implicit Types (st : astate) (t : aorder) (sd : Side).

Definition uncrossed st : Prop :=
  forall x y, x ∈ as_bids st -> y ∈ as_asks st -> a_price x < a_price y.

Definition spec_sorted st : Prop := forall sd, q_sorted sd (as_side sd st).

(** The price test accepts everything better than what it accepts. *)
Lemma limit_crosses_mono max sd limit p p' :
  rank (opposite sd) p <= rank (opposite sd) p' -> limit_crosses max sd limit p = false ->
  limit_crosses max sd limit p' = false.
Proof. unfold limit_crosses. destruct sd; cbn; intros H ?%Z.leb_gt; apply Z.leb_gt; lia. Qed.

Lemma q_match_prices crosses t seq q t' seq' q' fs a :
  q_match crosses t seq q = (t', seq', q', fs) -> a ∈ q' ->
  exists a', a' ∈ q /\ a_price a' = a_price a.
Proof.
  intros E Ha. apply q_match_priority in E
    as (p1 & p2 & -> & _ & _ & [->|(q0 & m & x & -> & -> & _)]); [exists a; set_solver|].
  apply elem_of_cons in Ha as [->|Ha]; [exists m|exists a]; set_solver.
Qed.

Lemma spec_match_side crosses sd t st t' st' fs :
  spec_match crosses sd t st = (t', st', fs) ->
  as_side sd st' = as_side sd st /\
  exists seq', q_match crosses t (as_sequence st) (as_side (opposite sd) st) =
    (t', seq', as_side (opposite sd) st', fs) /\ as_sequence st' = seq'.
Proof.
  unfold spec_match.
  destruct (q_match crosses t (as_sequence st) (as_side (opposite sd) st)) as [[[t1 s1] q1] f1] eqn:E.
  intros [= <- <- <-]. split; [by destruct sd|]. exists s1. split; [|by destruct sd].
  by destruct sd.
Qed.

Lemma spec_match_keeps crosses sd t st t' st' fs :
  spec_match crosses sd t st = (t', st', fs) -> spec_sorted st -> uncrossed st ->
  spec_sorted st' /\ uncrossed st'.
Proof.
  intros (Hs & seq' & E & _)%spec_match_side Hso Hu. split.
  - intros sd'. destruct (decide (sd' = sd)) as [->|Hne]; [rewrite Hs; apply Hso|].
    assert (sd' = opposite sd) as -> by (by destruct sd, sd'). by eapply q_match_sorted.
  - intros x y Hx Hy. destruct sd; cbn in *.
    + rewrite Hs in Hx. destruct (q_match_prices _ _ _ _ _ _ _ _ y E Hy) as (y' & Hy' & <-).
      by apply Hu.
    + rewrite Hs in Hy. destruct (q_match_prices _ _ _ _ _ _ _ _ x E Hx) as (x' & Hx' & <-).
      by apply Hu.
Qed.

(** After the matching nothing left on the other side crosses a taker that has
    something left. *)
Lemma spec_match_no_cross max sd limit t st t' st' fs :
  spec_match (limit_crosses max sd limit) sd t st = (t', st', fs) -> spec_sorted st' ->
  0 < a_left t' ->
  forall a, a ∈ as_side (opposite sd) st' -> limit_crosses max sd limit (a_price a) = false.
Proof.
  intros (_ & seq' & E & _)%spec_match_side Hso Hl a Ha.
  apply q_match_exhausts in E as [E|E]; [lia|]. specialize (Hso (opposite sd)).
  destruct (as_side (opposite sd) st') as [|m q]; [set_solver|].
  apply StronglySorted_inv in Hso as [_ Hx]. rewrite Forall_forall in Hx.
  apply elem_of_cons in Ha as [->|Ha]; [done|].
  eapply limit_crosses_mono; [|exact E]. by apply Hx.
Qed.

Lemma insert_uncrossed max sd v t st :
  spec_sorted st -> uncrossed st -> a_price t = v ->
  (forall a, a ∈ as_side (opposite sd) st -> limit_crosses max sd (Some v) (a_price a) = false) ->
  let st' := as_set_side sd (q_insert sd t (as_side sd st)) st in
  spec_sorted st' /\ uncrossed st'.
Proof.
  intros Hso Hu <- Hn st'. split.
  - intros sd'. destruct (decide (sd' = sd)) as [->|Hne].
    + assert (E : as_side sd st' = q_insert sd t (as_side sd st)) by (by destruct sd).
      rewrite E. apply q_insert_sorted, Hso.
    + assert (E : as_side sd' st' = as_side sd' st) by (by destruct sd, sd').
      rewrite E. apply Hso.
  - intros x y. unfold st'. destruct sd; cbn in *.
    + rewrite q_insert_perm. intros [->|Hx]%elem_of_cons Hy; [|by apply Hu].
      apply Hn in Hy. lia.
    + rewrite q_insert_perm. intros Hx [->|Hy]%elem_of_cons; [|by apply Hu].
      apply Hn in Hx. lia.
Qed.
End uncrossed.

(** ** Level depths *)

Section depth.
Context {DA : DecimalApi} {DL : DecimalLaws DA} {UA : UuidApi}
  {SA : SlabApi} {SL : SlabLaws SA}.
Context (lot : Z).

Lemma filter_none {A : Type} (P : A -> Prop) `{!forall x, Decision (P x)} (l : list A) :
  Forall (fun x => ~ P x) l -> filter P l = [].
Proof. induction 1; [done|]. by rewrite filter_cons_False. Qed.

(** The entries of a side at one price are those of its level. *)
Lemma entries_at sd m (p : Price) :
  levels_ok m ->
  exists p', filter (fun e => dec_val e.1 = dec_val p) (entries sd m) =
    level_entries (p', default [] (bt_get dec_cmp p m)).
Proof.
  intros Hok. destruct (bt_split dec_val p m (proj1 Hok)) as (m1 & mid & m2 & -> & Hb & Ha & Hmid).
  assert (Hf : filter (fun e => dec_val e.1 = dec_val p) (front_part sd m1 m2 ≫= level_entries) = []).
  { apply filter_none. eapply Forall_impl; [by apply front_part_better|]. cbn. destruct sd; cbn; lia. }
  assert (Hw : filter (fun e => dec_val e.1 = dec_val p) (back_part sd m1 m2 ≫= level_entries) = []).
  { apply filter_none. eapply Forall_impl; [by apply back_part_worse|]. cbn. destruct sd; cbn; lia. }
  destruct Hmid as [->|(p' & l & -> & E)]; cbn [app].
  - exists p. by rewrite entries_join, filter_app, Hf, Hw, (bt_get_absent _ _ dec_cmp_val).
  - exists p'. rewrite entries_split, !filter_app, Hf, Hw, (bt_get_present _ _ dec_cmp_val) by done.
    rewrite app_nil_r. cbn. apply filter_all. by intros [q k] (j & [= -> ->] & _)%list_elem_of_fmap.
Qed.

(** Resolving keeps prices, so it keeps the number of entries at a price. *)
Lemma resolve_at sd s es v :
  Forall (entry_ok s sd) es ->
  length (filter (fun a => a_price a = v) (abs_order lot <$> resolve s es)) =
  length (filter (fun e => dec_val e.1 = v) es).
Proof.
  induction 1 as [|[p k] es (o & q & Hg & _ & Hq & E) _ IH]; [done|]. cbn in Hg.
  rewrite (resolve_cons _ _ _ o) by done. apply decimal_equiv_val in E. cbn in E.
  assert (Ep : a_price (abs_order lot o) = dec_val p) by (cbn; rewrite Hq; exact E).
  cbn [fmap list_fmap]. rewrite !filter_cons. cbn [fst]. rewrite Ep.
  case_decide; cbn [length]; by rewrite IH.
Qed.

(** A level holds the orders of its side at its price. *)
Lemma level_depth_abs sd b (p : Price) :
  book_wf b ->
  level_depth b sd p = length (filter (fun a => a_price a = dec_val p) (abs_queue lot sd b)).
Proof.
  intros Hwf. unfold abs_queue, queue. fold (resolve (ob_orders b) (entries sd (side_map sd b))).
  rewrite (resolve_at sd) by apply Hwf.
  destruct (entries_at sd (side_map sd b) p (wf_levels_ok b sd Hwf)) as [p' ->].
  unfold level_depth, level_entries. rewrite length_fmap.
  by destruct (bt_get dec_cmp p (side_map sd b)).
Qed.
End depth.
