(* ===== verification/Runs.v ===== *)
(** * Runs of the engine

    Sequences of commands as the processor issues them: submissions and
    cancellations. The specification executes the same commands on the queues of
    [PriceTime]; a run of the engine from the empty book refines it, and keeps the
    book sorted, uncrossed and free of completed orders. *)

From S2P Require Import Prelude External BTreeMap Types OrderBook Levels PriceTime BookFacts BookOps Matching MatchingRefine EngineFacts.

(** ** Commands *)

Section commands.
Context {DA : DecimalApi} {UA : UuidApi} {SA : SlabApi}.

Inductive command := Submit (o : Order) | CancelId (id : OrderId).

Definition engine_step (eng : MatchingEngine) (c : command) :
    outcome (MatchingEngine * result ProcessResult EngineError) :=
  match c with
  | Submit o => process_order eng o
  | CancelId id => cancel eng id
  end.

Fixpoint engine_run (eng : MatchingEngine) (cs : list command) :
    outcome (MatchingEngine * list (result ProcessResult EngineError)) :=
  match cs with
  | [] => Ret (eng, [])
  | c :: cs =>
      let! (eng, r) := engine_step eng c in
      let! (eng, rs) := engine_run eng cs in
      Ret (eng, r :: rs)
  end.

(** The id a command submits. *)
Definition submitted (c : command) : option OrderId :=
  match c with Submit o => Some (o_id o) | CancelId _ => None end.

(** The specification of [cancel]: the id leaves whichever side holds it. *)
Definition named (id : OrderId) (st : astate) : bool :=
  bool_decide (id ∈ a_id <$> (as_bids st ++ as_asks st)).

Definition spec_cancel (id : OrderId) (st : astate) : astate * result aresult aerror :=
  if named id st then
    ({| as_bids := q_cancel id (as_bids st); as_asks := q_cancel id (as_asks st);
        as_sequence := as_sequence st |}, Ok ACancelled)
  else (st, Err (AOrderNotFound id)).
End commands.

Arguments command : clear implicits.
Arguments command {DA UA}.

(** ** Facts about the specification *)

Section spec_facts.
Context {UA : UuidApi}.
Implicit Types (st : astate) (t a : aorder) (sd : Side).

Definition live_status (s : OrderStatus) : Prop := s = Open \/ s = PartiallyFilled.

Definition spec_live st : Prop := forall sd a, a ∈ as_side sd st -> live_status (a_status a).

Lemma a_fill_live x t : 0 < a_left (a_fill x t) -> live_status (a_status (a_fill x t)).
Proof. rewrite a_left_fill. intros H. right. cbn. by rewrite (proj2 (Z.leb_gt _ _)). Qed.

(** The matcher does not change the price of the taker, and leaves it live as
    long as something is left of it. *)
Lemma q_match_taker crosses t seq q t' seq' q' fs :
  q_match crosses t seq q = (t', seq', q', fs) ->
  a_price t' = a_price t /\
  ((0 < a_left t -> live_status (a_status t)) -> 0 < a_left t' -> live_status (a_status t')).
Proof.
  revert t seq t' seq' q' fs. induction q as [|m q IH]; intros t seq t' seq' q' fs.
  - by intros [= <- <- <- <-].
  - cbn [q_match]. case_match; [by intros [= <- <- <- <-]|]. case_match.
    + destruct (q_match _ _ _ q) as [[[t1 s1] q1] fs1] eqn:E. intros [= <- <- <- <-].
      apply IH in E as [Hp Hl]. split; [done|]. intros _. apply Hl, a_fill_live.
    + intros [= <- <- <- <-]. split; [done|]. intros _. apply a_fill_live.
Qed.

(** A maker that stays is live. *)
Lemma q_match_live crosses t seq q t' seq' q' fs :
  q_match crosses t seq q = (t', seq', q', fs) ->
  Forall (fun a => live_status (a_status a)) q -> Forall (fun a => live_status (a_status a)) q'.
Proof.
  intros E. apply q_match_priority in E
    as (p1 & p2 & -> & _ & _ & [->|(q0 & m & x & -> & -> & Hx)]); intros [_ H]%Forall_app; [done|].
  constructor; [|done]. apply a_fill_live. by rewrite a_left_fill.
Qed.

Lemma spec_match_live crosses sd t st t' st' fs :
  spec_match crosses sd t st = (t', st', fs) -> spec_live st -> live_status (a_status t) ->
  spec_live st' /\ a_price t' = a_price t /\ (0 < a_left t' -> live_status (a_status t')).
Proof.
  intros (Hs & seq' & E & _)%spec_match_side Hl Ht. pose proof (q_match_taker _ _ _ _ _ _ _ _ E) as [Hp Hlt].
  split; [|split; [done|by apply Hlt]]. intros sd' a Ha.
  destruct (decide (sd' = sd)) as [->|Hne]; [rewrite Hs in Ha; by eapply Hl|].
  assert (sd' = opposite sd) as -> by (by destruct sd, sd').
  apply (q_match_live _ _ _ _ _ _ _ _) in E.
  - rewrite Forall_forall in E. by apply E.
  - apply Forall_forall. intros a'. apply Hl.
Qed.

(** What every reachable state of the specification satisfies. *)
Record spec_inv st : Prop := {
  si_sorted : spec_sorted st;
  si_uncrossed : uncrossed st;
  si_live : spec_live st
}.

Lemma spec_limit_inv max sd v t st st' r :
  spec_limit max sd (Some v) t st = (st', r) -> a_price t = v -> live_status (a_status t) ->
  spec_inv st -> spec_inv st'.
Proof.
  unfold spec_limit. intros H Hv Ht [Hso Hu Hl]. destruct (a_quantity t <=? 0); [by simplify_eq|].
  destruct (spec_match (limit_crosses max sd (Some v)) sd t st) as [[t1 st1] fs] eqn:E.
  pose proof (spec_match_keeps _ _ _ _ _ _ _ E Hso Hu) as [Hso1 Hu1].
  destruct (spec_match_live _ _ _ _ _ _ _ E Hl Ht) as (Hl1 & Hp & Hlt).
  destruct (Z.ltb_spec 0 (a_left t1)) as [Hpos|]; simplify_eq; [|done].
  pose proof (spec_match_no_cross _ _ _ _ _ _ _ _ E Hso1 Hpos) as Hn.
  destruct (insert_uncrossed max sd _ t1 st1 Hso1 Hu1 Hp Hn). split; [done..|].
  intros sd' a Ha. destruct (decide (sd' = sd)) as [->|Hne].
  - assert (Ha' : a ∈ q_insert sd t1 (as_side sd st1)) by (by destruct sd).
    rewrite q_insert_perm in Ha'. apply elem_of_cons in Ha' as [->|Ha']; [by apply Hlt|by eapply Hl1].
  - apply (Hl1 sd'). by destruct sd, sd'.
Qed.

Lemma spec_match_inv crosses sd t st t' st' fs :
  spec_match crosses sd t st = (t', st', fs) -> live_status (a_status t) ->
  spec_inv st -> spec_inv st'.
Proof.
  intros E Ht [Hso Hu Hl]. destruct (spec_match_keeps _ _ _ _ _ _ _ E Hso Hu).
  destruct (spec_match_live _ _ _ _ _ _ _ E Hl Ht) as (? & _). done.
Qed.

Lemma q_cancel_sorted sd id q : q_sorted sd q -> q_sorted sd (q_cancel id q).
Proof.
  unfold q_sorted, q_cancel. induction 1 as [|a q Hs IH Hx]; [constructor|].
  rewrite filter_cons. case_decide; [|done]. constructor; [done|].
  rewrite Forall_forall in *. intros a' [_ Ha]%list_elem_of_filter. by apply Hx.
Qed.

Lemma spec_cancel_inv id st st' r :
  spec_cancel id st = (st', r) -> spec_inv st -> spec_inv st'.
Proof.
  unfold spec_cancel. case_match; intros [= <- <-]; [|done]. intros [Hso Hu Hl]. split.
  - intros [|]; apply q_cancel_sorted; [apply (Hso Bid)|apply (Hso Ask)].
  - intros x y [_ Hx]%list_elem_of_filter [_ Hy]%list_elem_of_filter. by apply Hu.
  - intros [|] a [_ Ha]%list_elem_of_filter; [by apply (Hl Bid)|by apply (Hl Ask)].
Qed.
End spec_facts.

(** ** The engine refines the specification *)

Section runs.
Context {DA : DecimalApi} {DL : DecimalLaws DA} {UA : UuidApi}
  {SA : SlabApi} {SL : SlabLaws SA}.
Context (lot : Z) (Hlot : 0 <= lot <= 28).

Implicit Types (eng : MatchingEngine) (cs : list command) (id : OrderId).

Definition spec_step (c : command) (st : astate) : astate * result aresult aerror :=
  match c with
  | Submit o => spec_process lot o st
  | CancelId id => spec_cancel id st
  end.

Fixpoint spec_run (cs : list command) (st : astate) : astate * list (result aresult aerror) :=
  match cs with
  | [] => (st, [])
  | c :: cs =>
      let '(st, r) := spec_step c st in
      let '(st, rs) := spec_run cs st in
      (st, r :: rs)
  end.

(** A submitted order is a fresh order with amounts on the grid. *)
Definition command_ok (c : command) : Prop :=
  match c with
  | Submit o => order_ok lot o /\ live_status (o_status o)
  | CancelId _ => True
  end.

Lemma spec_process_inv (o : Order) st st' r :
  spec_process lot o st = (st', r) -> live_status (o_status o) -> spec_inv st -> spec_inv st'.
Proof.
  unfold spec_process. intros H Ho Hi. destruct (o_order_type o).
  - destruct (o_price o) as [p|] eqn:Ep; cbn in H.
    + eapply spec_limit_inv; [exact H| |exact Ho|exact Hi]. cbn. by rewrite Ep.
    + unfold spec_limit in H. destruct (a_quantity _ <=? 0); [by simplify_eq|].
      destruct (spec_match _ _ _ st) as [[t1 st1] fs] eqn:E.
      apply spec_match_inv in E; [|done..]. by case_match; simplify_eq.
  - unfold spec_market in H. destruct (a_quantity _ <=? 0); [by simplify_eq|].
    destruct (spec_match _ _ _ st) as [[t1 st1] fs] eqn:E.
    apply spec_match_inv in E; [|done..]. by simplify_eq.
Qed.

Lemma named_elem id (st : astate) :
  named id st = true <-> exists sd (a : aorder), a ∈ as_side sd st /\ a_id a = id.
Proof.
  unfold named. rewrite bool_decide_eq_true, list_elem_of_fmap. split.
  - intros (a & -> & [Ha|Ha]%elem_of_app); [by exists Bid, a|by exists Ask, a].
  - intros ([|] & a & Ha & <-); exists a; (split; [done|]); apply elem_of_app; auto.
Qed.

(** Only the submitted id may be new. *)
Lemma spec_process_named (o : Order) st st' r id :
  spec_process lot o st = (st', r) -> named id st' = true -> id = o_id o \/ named id st = true.
Proof.
  intros H (sd & a & Ha & <-)%named_elem.
  assert (Hm : forall crosses sd0 t1 st1 fs, spec_match crosses sd0 (abs_order lot o) st = (t1, st1, fs) ->
    (forall a, a ∈ as_side sd st1 -> named (a_id a) st = true) /\ a_id t1 = o_id o).
  { intros crosses sd0 t1 st1 fs E. split.
    - intros a1 Ha1. eapply spec_match_ids in E as (a' & Ha' & <-); [|exact Hlot|exact Ha1].
      apply named_elem. by exists sd, a'.
    - apply spec_match_side in E as (_ & seq' & E & _). by apply q_match_conserves in E as (_ & _ & _ & ->). }
  assert (Hst : st' = st -> named (a_id a) st = true).
  { intros ->. apply named_elem. by exists sd, a. }
  unfold spec_process, spec_limit, spec_market in H.
  destruct (o_order_type o); (destruct (a_quantity _ <=? 0); [injection H as H _; right; by apply Hst|]);
    destruct (spec_match _ _ _ st) as [[t1 st1] fs] eqn:E; destruct (Hm _ _ _ _ _ E) as [Hin Hid].
  - destruct (0 <? a_left t1); [|simplify_eq; right; by apply Hin].
    destruct (o_price o); cbn in H; simplify_eq; [|right; by apply Hin].
    destruct (decide (sd = o_side o)) as [->|Hne].
    + assert (Ha' : a ∈ q_insert (o_side o) t1 (as_side (o_side o) st1)) by (by destruct (o_side o)).
      rewrite q_insert_perm in Ha'. apply elem_of_cons in Ha' as [->|Ha']; [by left|right; by apply Hin].
    + right. apply Hin. by destruct (o_side o), sd.
  - simplify_eq. right. by apply Hin.
Qed.

Lemma spec_cancel_named id' st st' r id :
  spec_cancel id' st = (st', r) -> named id st' = true -> named id st = true.
Proof.
  unfold spec_cancel. case_match; intros [= <- <-]; [|done]. rewrite !named_elem.
  intros ([|] & a & [_ Ha]%list_elem_of_filter & Hid); [exists Bid, a|exists Ask, a]; done.
Qed.

(** The ids of the abstract state are those of the slab. *)
Lemma named_abs eng id :
  engine_inv lot eng ->
  named id (abs_engine lot eng) = true <->
  exists k o, slab_get (ob_orders (eng_book eng)) k = Some o /\ o_id o = id.
Proof.
  intros [Hwf _]. rewrite named_elem. split.
  - intros (sd & a & Ha & Hid). rewrite as_side_abs in Ha.
    apply list_elem_of_fmap in Ha as (o & -> & Ho). apply elem_of_queue in Ho as (k & Hg & _); [|done].
    by exists k, o.
  - intros (k & o & Hg & Hid). exists (o_side o), (abs_order lot o). split; [|done].
    rewrite as_side_abs. apply list_elem_of_fmap_2, elem_of_queue; [done|]. by exists k.
Qed.

Lemma named_index eng id :
  engine_inv lot eng -> book_indexed (eng_book eng) ->
  named id (abs_engine lot eng) = bool_decide (is_Some (ob_index (eng_book eng) !! id)).
Proof.
  intros Hinv Hix. apply eq_iff_eq_true. rewrite named_abs, bool_decide_eq_true by done. split.
  - intros (k & o & Hg & <-). exists k. by apply Hix.
  - intros [k Hk]. apply (wf_index _ (inv_wf _ _ Hinv)) in Hk as (o & ? & ?). by exists k, o.
Qed.

(** ** Cancellation *)

Lemma abs_order_cancelled eng b' (o : Order) q1 q2 :
  queue (o_side o) (eng_book eng) = q1 ++ o :: q2 -> queue (o_side o) b' = q1 ++ q2 ->
  (forall sd, sd <> o_side o -> queue sd b' = queue sd (eng_book eng)) ->
  forall sd, exists p1 p2, abs_queue lot sd b' = p1 ++ p2 /\
    (abs_queue lot sd (eng_book eng) = p1 ++ p2 \/
     sd = o_side o /\ abs_queue lot sd (eng_book eng) = p1 ++ abs_order lot o :: p2).
Proof.
  intros Hq Hq' Hoth sd. unfold abs_queue. destruct (decide (sd = o_side o)) as [->|Hne].
  - exists (abs_order lot <$> q1), (abs_order lot <$> q2). rewrite Hq, Hq', !fmap_app. auto.
  - exists [], (abs_order lot <$> queue sd b'). split; [done|]. left. by rewrite Hoth.
Qed.

Lemma spec_live_order eng k (o : Order) :
  engine_inv lot eng -> spec_live (abs_engine lot eng) ->
  slab_get (ob_orders (eng_book eng)) k = Some o -> is_complete o = false.
Proof.
  intros [Hwf _] Hl Hg. assert (Ha : abs_order lot o ∈ as_side (o_side o) (abs_engine lot eng)).
  { rewrite as_side_abs. apply list_elem_of_fmap_2, elem_of_queue; [done|]. by exists k. }
  apply Hl in Ha. cbn in Ha. unfold is_complete. by destruct Ha as [-> | ->].
Qed.

(** In a queue of distinct ids removing an order is cancelling its id. *)
Lemma q_cancel_middle (p1 p2 : list aorder) (a : aorder) :
  Forall (fun a' => a_id a' <> a_id a) (p1 ++ p2) ->
  q_cancel (a_id a) (p1 ++ a :: p2) = p1 ++ p2.
Proof.
  intros [H1 H2]%Forall_app. rewrite Forall_forall in H1, H2. unfold q_cancel.
  rewrite filter_app, filter_cons_False by naive_solver. by rewrite !filter_all.
Qed.

Lemma q_cancel_absent (q : list aorder) id :
  Forall (fun a => a_id a <> id) q -> q_cancel id q = q.
Proof. rewrite Forall_forall. apply filter_all. Qed.

Lemma abs_queue_ids eng sd id :
  engine_inv lot eng -> named id (abs_engine lot eng) <> true ->
  Forall (fun a => a_id a <> id) (abs_queue lot sd (eng_book eng)).
Proof.
  intros Hinv Hn. apply Forall_forall. intros a Ha Hid. apply Hn, named_elem.
  exists sd, a. by rewrite as_side_abs.
Qed.

(** A cancellation that finds its order: it leaves the book, nothing else moves. *)
Lemma cancel_found eng id k :
  engine_inv lot eng -> spec_live (abs_engine lot eng) ->
  ob_index (eng_book eng) !! id = Some k ->
  exists o b', cancel eng id = Ret (set_book b' eng, Ok ResCancelled) /\
    slab_get (ob_orders (eng_book eng)) k = Some o /\ o_id o = id /\
    (forall j, slab_get (ob_orders b') j =
       if decide (j = k) then None else slab_get (ob_orders (eng_book eng)) j) /\
    engine_inv lot (set_book b' eng) /\
    (book_indexed (eng_book eng) -> book_indexed b') /\
    forall sd, exists p1 p2, abs_queue lot sd b' = p1 ++ p2 /\
      (abs_queue lot sd (eng_book eng) = p1 ++ p2 \/
       sd = o_side o /\ abs_queue lot sd (eng_book eng) = p1 ++ abs_order lot o :: p2).
Proof.
  intros Hinv Hl Hk. destruct (wf_index _ (inv_wf _ _ Hinv) id k Hk) as (o & Hg & Hid).
  pose proof (spec_live_order eng k o Hinv Hl Hg) as Hc. destruct Hinv as [Hwf Hall].
  destruct (cancel_order_ok (eng_book eng) id k o Hwf Hk Hg Hc)
    as (b' & q1 & q2 & E & Hwf' & Hget & Hix & Hq & Hq' & Hoth).
  exists o, b'. unfold cancel. rewrite E. split_and!; try done.
  - split; [done|]. intros j o'. cbn. rewrite Hget. case_decide; [done|]. apply Hall.
  - intros Hb. rewrite <-Hid in Hix. by eapply remove_indexed.
  - by apply abs_order_cancelled with q1 q2.
Qed.

Lemma cancel_missing eng id :
  ob_index (eng_book eng) !! id = None ->
  cancel eng id = Ret (eng, Err (OrderNotFound id)).
Proof.
  intros H. unfold cancel. rewrite cancel_order_not_found by done. by destruct eng.
Qed.

Lemma cancel_refines eng id :
  engine_inv lot eng -> spec_live (abs_engine lot eng) -> book_indexed (eng_book eng) ->
  exists eng' r, cancel eng id = Ret (eng', r) /\ engine_inv lot eng' /\
    book_indexed (eng_book eng') /\
    spec_cancel id (abs_engine lot eng) = (abs_engine lot eng', abs_result lot r).
Proof.
  intros Hinv Hl Hix. unfold spec_cancel. rewrite named_index by done.
  destruct (ob_index (eng_book eng) !! id) as [k|] eqn:Hk.
  2: { rewrite bool_decide_false by (by intros [? ?]). eexists eng, _. by rewrite cancel_missing. }
  rewrite bool_decide_true by done.
  destruct (cancel_found eng id k Hinv Hl Hk) as (o & b' & E & Hg & Hid & Hget & Hinv' & Hix' & Hq).
  eexists _, _. split; [exact E|]. split; [done|]. split; [by apply Hix'|].
  assert (Hgone : named id (abs_engine lot (set_book b' eng)) <> true).
  { rewrite named_abs by done. cbn. intros (j & o' & Hj & Hid'). rewrite Hget in Hj.
    case_decide as Hjk; [done|]. apply Hix in Hj. rewrite Hid' in Hj. congruence. }
  assert (Hc : forall sd, q_cancel id (abs_queue lot sd (eng_book eng)) = abs_queue lot sd b').
  { intros sd. pose proof (abs_queue_ids _ sd id Hinv' Hgone) as Hno. cbn in Hno.
    destruct (Hq sd) as (p1 & p2 & E2 & [E1|[-> E1]]); rewrite E2 in Hno |- *; rewrite E1.
    - by apply q_cancel_absent.
    - rewrite <-Hid in Hno |- *. by apply (q_cancel_middle p1 p2 (abs_order lot o)). }
  unfold abs_engine. cbn [as_bids as_asks as_sequence]. by rewrite !Hc.
Qed.

(** Cancellation keeps the invariants, also when ids are not distinct. *)
Lemma cancel_inv eng id :
  engine_inv lot eng -> spec_inv (abs_engine lot eng) ->
  exists eng' r, cancel eng id = Ret (eng', r) /\ engine_inv lot eng' /\
    spec_inv (abs_engine lot eng').
Proof.
  intros Hinv [Hso Hu Hl]. destruct (ob_index (eng_book eng) !! id) as [k|] eqn:Hk.
  2: { eexists eng, _. by rewrite cancel_missing. }
  destruct (cancel_found eng id k Hinv Hl Hk) as (o & b' & E & _ & _ & _ & Hinv' & _ & Hq).
  eexists _, _. split; [exact E|]. split; [done|].
  assert (Hin : forall sd a, a ∈ abs_queue lot sd b' -> a ∈ abs_queue lot sd (eng_book eng)).
  { intros sd a. destruct (Hq sd) as (p1 & p2 & -> & [->|[_ ->]]); set_solver. }
  split.
  - intros sd. rewrite as_side_abs. apply abs_queue_sorted, Hinv'.
  - intros x y Hx Hy. apply Hu; by apply Hin.
  - intros sd a. rewrite as_side_abs. intros Ha%Hin. apply (Hl sd). by rewrite as_side_abs.
Qed.

(** ** Runs *)

Lemma engine_new_inv (market : string) : engine_inv lot (MatchingEngine_new market).
Proof.
  split; [apply book_new_wf|]. intros k o. cbn. by rewrite slab_get_new.
Qed.

Lemma engine_new_spec (market : string) :
  abs_engine lot (MatchingEngine_new market) = mkState [] [] 0 /\
  spec_inv (abs_engine lot (MatchingEngine_new market)).
Proof.
  split; [reflexivity|]. split.
  - intros [|]; constructor.
  - intros x y Hx. cbn in Hx. set_solver.
  - intros [|] a Ha; cbn in Ha; set_solver.
Qed.

Lemma engine_step_inv eng c :
  engine_inv lot eng -> spec_inv (abs_engine lot eng) -> command_ok c ->
  exists eng' r, engine_step eng c = Ret (eng', r) /\ engine_inv lot eng' /\
    spec_inv (abs_engine lot eng').
Proof.
  intros Hinv Hs Hc. destruct c as [o|id]; [|by apply cancel_inv].
  destruct Hc as [Ho Hst].
  destruct (process_order_post lot Hlot eng o Hinv Ho) as (eng' & r & E & Hinv' & Hsp & _).
  exists eng', r. split; [done|]. split; [done|]. by eapply spec_process_inv.
Qed.

Lemma engine_step_refines eng c :
  engine_inv lot eng -> spec_inv (abs_engine lot eng) -> book_indexed (eng_book eng) ->
  command_ok c -> (forall id, submitted c = Some id -> named id (abs_engine lot eng) <> true) ->
  exists eng' r, engine_step eng c = Ret (eng', r) /\ engine_inv lot eng' /\
    spec_inv (abs_engine lot eng') /\ book_indexed (eng_book eng') /\
    spec_step c (abs_engine lot eng) = (abs_engine lot eng', abs_result lot r) /\
    (forall id, named id (abs_engine lot eng') = true ->
       submitted c = Some id \/ named id (abs_engine lot eng) = true).
Proof.
  intros Hinv Hs Hix Hc Hf. destruct c as [o|id]; cbn in *.
  - destruct Hc as [Ho Hst].
    destruct (process_order_post lot Hlot eng o Hinv Ho)
      as (eng' & r & E & Hinv' & Hsp & _ & Hix').
    exists eng', r. split_and!; try done.
    + by eapply spec_process_inv.
    + apply Hix'; [done|]. specialize (Hf _ eq_refl). rewrite named_index in Hf by done.
      rewrite bool_decide_eq_true in Hf. by apply eq_None_not_Some.
    + intros id Hid. eapply spec_process_named in Hid as [->|?]; [by left|by right|done].
  - destruct (cancel_refines eng id Hinv (si_live _ Hs) Hix) as (eng' & r & E & Hinv' & Hix' & Hsp).
    exists eng', r. split_and!; try done.
    + by eapply spec_cancel_inv.
    + intros id' Hid. right. by eapply spec_cancel_named.
Qed.

Lemma engine_run_inv eng cs :
  engine_inv lot eng -> spec_inv (abs_engine lot eng) -> Forall command_ok cs ->
  exists eng' rs, engine_run eng cs = Ret (eng', rs) /\ engine_inv lot eng' /\
    spec_inv (abs_engine lot eng').
Proof.
  intros Hinv Hs Hcs. revert eng Hinv Hs. induction Hcs as [|c cs Hc Hcs IH]; intros eng Hinv Hs.
  - by eexists eng, _.
  - destruct (engine_step_inv eng c Hinv Hs Hc) as (eng1 & r & E & Hinv1 & Hs1).
    destruct (IH eng1 Hinv1 Hs1) as (eng2 & rs & E2 & Hinv2 & Hs2).
    exists eng2, (r :: rs). cbn. by rewrite E; cbn; rewrite E2.
Qed.

Lemma engine_run_refines eng cs :
  engine_inv lot eng -> spec_inv (abs_engine lot eng) -> book_indexed (eng_book eng) ->
  Forall command_ok cs -> NoDup (omap submitted cs) ->
  (forall id, id ∈ omap submitted cs -> named id (abs_engine lot eng) <> true) ->
  exists eng' rs, engine_run eng cs = Ret (eng', rs) /\
    spec_run cs (abs_engine lot eng) = (abs_engine lot eng', abs_result lot <$> rs).
Proof.
  intros Hinv Hs Hix Hcs. revert eng Hinv Hs Hix.
  induction Hcs as [|c cs Hc Hcs IH]; intros eng Hinv Hs Hix Hnd Hf; [by eexists eng, []|].
  destruct (engine_step_refines eng c Hinv Hs Hix Hc) as
    (eng1 & r & E & Hinv1 & Hs1 & Hix1 & Hsp & Hnew).
  { intros id Hid. apply Hf. apply list_elem_of_omap. exists c. split; [by left|done]. }
  destruct (IH eng1 Hinv1 Hs1 Hix1) as (eng2 & rs & E2 & Hsp2).
  - csimpl in Hnd. destruct (submitted c); [by apply NoDup_cons in Hnd as [_ Hnd]|done].
  - intros id Hid Hn. apply Hnew in Hn as [Hn|Hn].
    + csimpl in Hnd. rewrite Hn in Hnd. by apply NoDup_cons in Hnd as [? _].
    + apply (Hf id); [|done]. csimpl. destruct (submitted c); [by right|done].
  - exists eng2, (r :: rs). cbn. rewrite E, Hsp. cbn. by rewrite E2, Hsp2.
Qed.
End runs.
