(* ===== verification/Samples.v ===== *)
(** * Sample orders and books

    Concrete inputs on the instances of [Concrete]: prices in cents, quantities in
    hundredths. The witnesses of the properties evaluate the model on them. *)

From S2P Require Import Prelude External BTreeMap Types OrderBook Levels PriceTime BookFacts BookOps Matching Concrete MatchingRefine EngineFacts Runs.

(** [dec m s] is [m * 10^-s]. *)
Definition dec (m s : Z) : Decimal := Dec.new m s.

(** The order id numbered [n]. *)
Definition oid (n : N) : Uuid := n.

Definition sample_order (id : N) (sd : Side) (ty : OrderType) (price : option Decimal)
    (qty : Z) : Order :=
  {| o_id := id; o_market_id := "SOL-USDC"; o_side := sd; o_order_type := ty;
     o_price := price; o_quantity := dec qty 2; o_filled := dec_ZERO; o_status := Open;
     o_sequence := 0 |}.

Definition limit (id : N) (sd : Side) (price qty : Z) : Order :=
  sample_order id sd Limit (Some (dec price 2)) qty.

Definition market (id : N) (sd : Side) (qty : Z) : Order := sample_order id sd Market None qty.

(** Two asks at 10.00, one at 10.10, two bids below. *)
Definition sample_commands : list command :=
  [Submit (limit 1 Ask 1000 300); Submit (limit 2 Ask 1010 500); Submit (limit 3 Ask 1000 200);
   Submit (limit 4 Bid 990 400); Submit (limit 5 Bid 980 100)].

Definition run_engine (cs : list command) : MatchingEngine :=
  match engine_run (MatchingEngine_new "SOL-USDC") cs with
  | Ret (eng, _) => eng
  | _ => MatchingEngine_new "SOL-USDC"
  end.

Definition sample_engine : MatchingEngine := run_engine sample_commands.

(** [order_ok] is decidable, so concrete orders pass by evaluation. *)
Definition order_ok_b (lot : Z) (o : Order) : bool :=
  forallb (fun d => (dec_scale d <=? lot) && (Z.abs (dec_units lot d) <? 2 ^ 96))
    [o_quantity o; o_filled o] && (0 <=? lots lot (o_filled o)).

Definition command_ok_b (lot : Z) (c : command) : bool :=
  match c with
  | Submit o => order_ok_b lot o && (bool_decide (o_status o = Open) || bool_decide (o_status o = PartiallyFilled))
  | CancelId _ => true
  end.

Lemma order_ok_sound (lot : Z) (o : Order) : order_ok_b lot o = true -> order_ok lot o.
Proof.
  unfold order_ok_b, order_ok, amount, on_grid. cbn [forallb]. intros H.
  rewrite !andb_true_iff, !Z.leb_le, !Z.ltb_lt in H. tauto.
Qed.

Lemma command_ok_sound (lot : Z) (c : command) : command_ok_b lot c = true -> command_ok lot c.
Proof.
  destruct c as [o|id]; [|done]. cbn. intros [H1 H2]%andb_prop.
  split; [by apply order_ok_sound|]. apply orb_prop in H2 as [H2|H2]; apply bool_decide_eq_true in H2;
    [by left|by right].
Qed.

Lemma commands_ok_sound (lot : Z) (cs : list command) :
  forallb (command_ok_b lot) cs = true -> Forall (command_ok lot) cs.
Proof.
  intros H. apply Forall_forall. intros c Hc. apply command_ok_sound.
  rewrite forallb_forall in H. apply H. by apply list_elem_of_In.
Qed.

Lemma run_engine_inv (lot : Z) (cs : list command) :
  0 <= lot <= 28 -> forallb (command_ok_b lot) cs = true ->
  engine_inv lot (run_engine cs) /\ spec_inv (abs_engine lot (run_engine cs)).
Proof.
  intros Hlot Hcs. unfold run_engine.
  destruct (engine_run_inv lot Hlot _ cs (engine_new_inv lot "SOL-USDC")
    (proj2 (engine_new_spec lot Hlot "SOL-USDC")) (commands_ok_sound lot cs Hcs))
    as (eng & rs & -> & H & Hs).
  done.
Qed.

Lemma sample_inv : engine_inv 2 sample_engine.
Proof. apply run_engine_inv; [lia|vm_compute; reflexivity]. Qed.

(** The orders of a run are live, so snapshots carry all of them. *)
Lemma run_engine_live (lot : Z) (cs : list command) :
  0 <= lot <= 28 -> forallb (command_ok_b lot) cs = true ->
  book_all (fun o => is_complete o = false) (eng_book (run_engine cs)).
Proof.
  intros Hlot Hcs k o Hg. destruct (run_engine_inv lot cs Hlot Hcs) as [Hi [_ _ Hl]].
  by eapply spec_live_order.
Qed.
