(* ===== verification/EngineProps.v ===== *)
(** * Properties of the matching engine

    What [MatchingEngine] guarantees to its callers: refinement of the
    price-time specification over whole runs, an uncrossed book, conservation of
    quantity, strict priority, price limits, numbering of fills, termination and
    the complete list of error answers. *)

From S2P Require Import Prelude External BTreeMap Types OrderBook Levels PriceTime BookFacts BookOps Matching Concrete MatchingRefine EngineFacts Runs Samples.

(** ** Accepted orders *)

Section accepted.
Context {DA : DecimalApi} {UA : UuidApi} {SA : SlabApi}.
Context (lot : Z).

(** An order the engine answers with [Ok]. *)
Definition accepted (o : Order) : Prop :=
  order_ok lot o /\ 0 < lots lot (o_quantity o) /\
  (o_order_type o = Limit -> is_Some (o_price o)).

(** The price test of an order. *)
Definition crosses (o : Order) : Z -> bool :=
  match o_order_type o with
  | Limit => limit_ok (o_side o) (o_price o)
  | Market => fun _ => true
  end.

(** The fills an answer carries. *)
Definition fills_of (r : ProcessResult) : list Fill :=
  match r with Fills fs => fs | ResCancelled => [] | Resting => [] end.

(** The queue of the taker's own side after the matching left [t']. *)
Definition own_queue (o : Order) (t' : aorder) (q : list aorder) : list aorder :=
  match o_order_type o with
  | Limit => if 0 <? a_left t' then q_insert (o_side o) t' q else q
  | Market => q
  end.

(** The answer: [Resting] exactly when a limit order rests without a fill. *)
Definition answer (o : Order) (t' : aorder) (fs : list Fill) : ProcessResult :=
  match o_order_type o, fs with
  | Limit, [] => if 0 <? a_left t' then Resting else Fills []
  | _, _ => Fills fs
  end.
End accepted.

Section facts.
Context {DA : DecimalApi} {DL : DecimalLaws DA} {UA : UuidApi}
  {SA : SlabApi} {SL : SlabLaws SA}.
Context (lot : Z) (Hlot : 0 <= lot <= 28).

Implicit Types (eng : MatchingEngine) (o : Order).

Definition accepted_post eng o eng' (r : ProcessResult) t' : Prop :=
  let sd := opposite (o_side o) in
  engine_inv lot eng' /\
  q_match (crosses o) (abs_order lot o) (eng_sequence eng) (abs_queue lot sd (eng_book eng)) =
    (t', eng_sequence eng', abs_queue lot sd (eng_book eng'), abs_fill lot <$> fills_of r) /\
  abs_queue lot (o_side o) (eng_book eng') =
    own_queue o t' (abs_queue lot (o_side o) (eng_book eng)) /\
  r = answer o t' (fills_of r).

Lemma abs_result_Fills (r : result ProcessResult EngineError) afs :
  abs_result lot r = Ok (AFills afs) -> exists fs, r = Ok (Fills fs) /\ abs_fill lot <$> fs = afs.
Proof. destruct r as [[fs| |]|[]]; naive_solver. Qed.

Lemma abs_result_resting (r : result ProcessResult EngineError) :
  abs_result lot r = Ok AResting -> r = Ok Resting.
Proof. destruct r as [[fs| |]|[]]; naive_solver. Qed.

Lemma process_accepted eng o :
  engine_inv lot eng -> accepted lot o ->
  exists eng' r t', process_order eng o = Ret (eng', Ok r) /\ accepted_post eng o eng' r t'.
Proof.
  intros Hinv (Ho & Hq & Hp).
  destruct (process_order_post lot Hlot eng o Hinv Ho) as (eng' & r & E & Hinv' & Hsp & _).
  exists eng'. revert Hsp. unfold spec_process, spec_limit, spec_market, accepted_post, crosses,
    own_queue, answer.
  assert (Hqz : (a_quantity (abs_order lot o) <=? 0) = false) by (by apply Z.leb_gt).
  rewrite Hqz. destruct (o_order_type o).
  - destruct (Hp eq_refl) as [p Hpp]. rewrite Hpp. cbn [fmap option_fmap option_map].
    destruct (spec_match _ _ _ _) as [[t' st'] fs] eqn:Em.
    apply spec_match_side in Em as (Hs & seq' & Em & Eseq). rewrite !as_side_abs in *.
    unfold limit_ok. cbn [fmap option_fmap option_map]. cbn [as_sequence abs_engine] in Em. rewrite Em.
    destruct (0 <? a_left t') eqn:Hl; intros [= Est Er].
    + assert (Ho' : abs_queue lot (opposite (o_side o)) (eng_book eng') =
        as_side (opposite (o_side o)) st').
      { rewrite <-as_side_abs, <-Est. by destruct (o_side o). }
      assert (Hown : abs_queue lot (o_side o) (eng_book eng') =
        q_insert (o_side o) t' (as_side (o_side o) st')).
      { rewrite <-as_side_abs, <-Est. by destruct (o_side o). }
      assert (Hsq : eng_sequence eng' = seq').
      { rewrite <-Eseq. change (eng_sequence eng') with (as_sequence (abs_engine lot eng')).
        rewrite <-Est. by destruct (o_side o). }
      rewrite Hown, Hs, Ho', Hsq.
      destruct fs as [|f fs].
      * symmetry in Er. apply abs_result_resting in Er as ->. eexists _, t'. split; [exact E|].
        by rewrite Hl.
      * symmetry in Er. apply abs_result_Fills in Er as ([|g gs] & -> & Hf); [done|].
        eexists _, t'. split; [exact E|]. cbn [fills_of]. by rewrite Hl, Hf.
    + symmetry in Er. apply abs_result_Fills in Er as (gs & -> & Hf). subst st'.
      eexists _, t'. split; [exact E|]. cbn [fills_of]. rewrite Hf, Hl.
      rewrite as_side_abs in *. cbn [as_sequence abs_engine] in Eseq. subst seq'.
      split_and!; try done. by destruct gs.
  - destruct (spec_match _ _ _ _) as [[t' st'] fs] eqn:Em.
    apply spec_match_side in Em as (Hs & seq' & Em & Eseq). rewrite !as_side_abs in *.
    cbn [as_sequence abs_engine] in Em. rewrite Em. intros [= Est Er]. subst st'.
    symmetry in Er. apply abs_result_Fills in Er as (gs & -> & Hf).
    eexists _, t'. split; [exact E|]. cbn [fills_of]. rewrite Hf, as_side_abs in *.
    cbn [as_sequence abs_engine] in Eseq. subst seq'. by split_and!.
Qed.
End facts.

(** ** Helper facts for the properties *)

Section queue_facts.
Context {UA : UuidApi}.

Lemma total_left_insert sd (a : aorder) (q : list aorder) :
  total_left (q_insert sd a q) = a_left a + total_left q.
Proof.
  induction q as [|a' q IH]; cbn; [done|]. case_match; cbn; [done|]. rewrite IH. lia.
Qed.

Lemma q_match_left crosses (t : aorder) seq q t' seq' q' fs :
  q_match crosses t seq q = (t', seq', q', fs) -> 0 <= a_left t -> 0 <= a_left t'.
Proof.
  revert t seq t' seq' q' fs. induction q as [|m q IH]; intros t seq t' seq' q' fs.
  - by intros [= <- <- <- <-].
  - cbn [q_match]. case_match; [by intros [= <- <- <- <-]|]. case_match.
    + destruct (q_match _ _ _ q) as [[[t1 s1] q1] fs1] eqn:E. intros [= <- <- <- <-] Ht.
      apply IH in E; [done|]. rewrite a_left_fill. lia.
    + intros [= <- <- <- <-] Ht. rewrite a_left_fill. lia.
Qed.

Lemma total_filled_pos (fs : list afill) :
  Forall (fun f => 0 < af_quantity f) fs -> 0 <= total_filled fs.
Proof. induction 1; cbn; lia. Qed.
End queue_facts.

Section engine_facts.
Context {DA : DecimalApi} {DL : DecimalLaws DA} {UA : UuidApi}
  {SA : SlabApi} {SL : SlabLaws SA}.
Context (lot : Z) (Hlot : 0 <= lot <= 28).

Lemma queue_left_pos eng sd :
  engine_inv lot eng -> Forall (fun m => 0 < a_left m) (abs_queue lot sd (eng_book eng)).
Proof.
  intros [Hwf Hall]. apply Forall_forall. intros a (o & -> & Ho)%list_elem_of_fmap.
  apply elem_of_queue in Ho as (k & Hg & _); [|done]. apply Hall in Hg as [_ Hg].
  rewrite a_left_abs. unfold lots_left. lia.
Qed.

(** The fills of an accepted order are positive, at acceptable prices and name
    the taker. *)
Lemma accepted_fills eng (o : Order) eng' r t' :
  engine_inv lot eng -> accepted_post lot eng o eng' r t' ->
  Forall (fun f => 0 < af_quantity f /\ crosses o (af_price f) = true /\ af_taker f = o_id o)
    (abs_fill lot <$> fills_of r).
Proof.
  intros Hinv (_ & Hm & _). eapply q_match_fills in Hm; [exact Hm|]. by apply queue_left_pos.
Qed.

(** More fuel does not change the answer of a loop. *)
Lemma match_loop_more next (n m : nat) eng (t : Order) fills res :
  match_loop next n eng t fills = Ret res -> (n <= m)%nat ->
  match_loop next m eng t fills = Ret res.
Proof.
  revert m eng t fills. induction n as [|n IH]; intros m eng t fills H Hm; [done|].
  destruct m as [|m]; [lia|]. cbn in *. destruct (remaining t) as [rm| |]; cbn in *; [|done..].
  destruct (dec_le rm dec_ZERO); [done|].
  destruct (next (eng_book eng) t) as [[k p]|]; [|done].
  destruct (execute_fill eng t k p fills) as [[[e1 t1] f1]| |]; cbn in *; [|done..].
  apply IH; [done|lia].
Qed.
End engine_facts.

(** ** Properties *)

Section properties.
Context {DA : DecimalApi} {DL : DecimalLaws DA} {UA : UuidApi}
  {SA : SlabApi} {SL : SlabLaws SA}.
Context (lot : Z) (Hlot : 0 <= lot <= 28).

Implicit Types (eng : MatchingEngine).

(** C1. From the empty book, every sequence of submissions (with distinct ids
    and amounts on the grid) and cancellations is answered: no panic, no
    divergence. The book's queues, the sequence counter and every answer are
    those of the price-time specification. *)
Theorem engine_refines_price_time (market : string) (cs : list command) :
  Forall (command_ok lot) cs -> NoDup (omap submitted cs) ->
  exists eng rs, engine_run (MatchingEngine_new market) cs = Ret (eng, rs) /\
    spec_run lot cs (mkState [] [] 0) = (abs_engine lot eng, abs_result lot <$> rs).
Proof.
  intros Hcs Hnd. destruct (engine_new_spec lot Hlot market) as [E Hs].
  destruct (engine_run_refines lot Hlot _ cs (engine_new_inv lot market) Hs book_new_indexed Hcs Hnd)
    as (eng & rs & Hr & Hsp); [|by exists eng, rs; rewrite <-E].
  intros id _. rewrite E. unfold named. rewrite bool_decide_eq_true. apply not_elem_of_nil.
Qed.

(** C3. The book never crosses: after any sequence of submissions (repeated ids
    included) and cancellations the best bid is below the best ask, each side
    is sorted by price, and the slab, the index and the levels agree. *)
Theorem book_never_crosses (market : string) (cs : list command) :
  Forall (command_ok lot) cs ->
  exists eng rs, engine_run (MatchingEngine_new market) cs = Ret (eng, rs) /\
    book_wf (eng_book eng) /\
    (forall bid ask, best_bid (eng_book eng) = Some bid -> best_ask (eng_book eng) = Some ask ->
       dec_lt bid ask = true) /\
    (forall sd, q_sorted sd (abs_queue lot sd (eng_book eng))).
Proof.
  intros Hcs. destruct (engine_new_spec lot Hlot market) as [_ Hs].
  destruct (engine_run_inv lot Hlot _ cs (engine_new_inv lot market) Hs Hcs)
    as (eng & rs & Hr & [Hwf _] & [_ Hu _]).
  exists eng, rs. split_and!; [done|done| |intros sd; by apply abs_queue_sorted].
  intros bid ask Hb Ha. rewrite dec_lt_val. apply Z.ltb_lt.
  pose proof (best_price_queue lot Bid _ Hwf) as Eb. pose proof (best_price_queue lot Ask _ Hwf) as Ea.
  cbn [best_price] in Eb, Ea. rewrite Hb in Eb. rewrite Ha in Ea.
  unfold uncrossed in Hu. cbn [as_bids as_asks abs_engine] in Hu.
  destruct (abs_queue lot Bid (eng_book eng)) as [|x qb]; [done|].
  destruct (abs_queue lot Ask (eng_book eng)) as [|y qa]; [done|].
  cbn in Eb, Ea. injection Eb as ->. injection Ea as ->. apply Hu; by left.
Qed.

(** C4. Quantity is conserved: what the fills of an order take from the opposite
    side is exactly what leaves it, it never exceeds what the order has left,
    and the remainder of a limit order, no more and no less, rests on its own
    side. The remainder of a market order is discarded. *)
Theorem process_order_conserves eng (o : Order) :
  engine_inv lot eng -> accepted lot o -> 0 <= lots_left lot o ->
  exists eng' r, process_order eng o = Ret (eng', Ok r) /\
    let x := total_filled (abs_fill lot <$> fills_of r) in
    let left sd e := total_left (abs_queue lot sd (eng_book e)) in
    0 <= x <= lots_left lot o /\
    left (opposite (o_side o)) eng = left (opposite (o_side o)) eng' + x /\
    left (o_side o) eng' = left (o_side o) eng +
      match o_order_type o with Limit => lots_left lot o - x | Market => 0 end.
Proof.
  intros Hinv Hacc Hl. destruct (process_accepted lot Hlot eng o Hinv Hacc) as (eng' & r & t' & E & Hpost).
  exists eng', r. split; [done|]. pose proof (accepted_fills lot eng o eng' r t' Hinv Hpost) as Hfs.
  destruct Hpost as (_ & Hm & Hown & _). pose proof (q_match_left _ _ _ _ _ _ _ _ Hm Hl) as Hl'.
  apply q_match_conserves in Hm as (Hf & Ht & Hq & _).
  assert (H0 : 0 <= total_filled (abs_fill lot <$> fills_of r)).
  { apply total_filled_pos. eapply Forall_impl; [exact Hfs|]. by intros f (H & _). }
  assert (El : a_left t' = lots_left lot o - total_filled (abs_fill lot <$> fills_of r)).
  { unfold a_left in *. rewrite Hf, Hq. unfold lots_left. cbn. lia. }
  cbv zeta. split_and!; [done|lia|done|]. rewrite Hown. unfold own_queue.
  destruct (o_order_type o); [|lia].
  destruct (Z.ltb_spec 0 (a_left t')); [rewrite total_left_insert|]; lia.
Qed.

(** C5. Strict price-time priority: the makers an order fills are exactly the
    first ones of the opposite queue, in their order and at their own prices;
    all of them are filled completely except possibly the last, and no order
    behind them moves. *)
Theorem process_order_priority eng (o : Order) :
  engine_inv lot eng -> accepted lot o ->
  exists eng' r filled rest, process_order eng o = Ret (eng', Ok r) /\
    abs_queue lot (opposite (o_side o)) (eng_book eng) = filled ++ rest /\
    af_maker <$> (abs_fill lot <$> fills_of r) = a_id <$> filled /\
    af_price <$> (abs_fill lot <$> fills_of r) = a_price <$> filled /\
    (abs_queue lot (opposite (o_side o)) (eng_book eng') = rest \/
     exists before m x, filled = before ++ [m] /\ 0 < a_left m - x /\
       abs_queue lot (opposite (o_side o)) (eng_book eng') = a_fill x m :: rest).
Proof.
  intros Hinv Hacc. destruct (process_accepted lot Hlot eng o Hinv Hacc) as (eng' & r & t' & E & Hpost).
  destruct Hpost as (_ & Hm & _).
  apply q_match_priority in Hm as (q1 & q2 & Hq & Hid & Hp & Hrest).
  exists eng', r, q1, q2. split_and!; try done.
  destruct Hrest as [H|(q0 & m & x & -> & H & Hx)]; [by left|right]. by exists q0, m, x.
Qed.

(** C6. Execution is maximal: when an order is answered, either everything it had
    left is filled or no maker that remains on the opposite side has a price the
    order accepts (for a market order: the side is empty). *)
Theorem process_order_exhaustive eng (o : Order) :
  engine_inv lot eng -> accepted lot o -> 0 <= lots_left lot o ->
  exists eng' r, process_order eng o = Ret (eng', Ok r) /\
    (total_filled (abs_fill lot <$> fills_of r) = lots_left lot o \/
     forall a, a ∈ abs_queue lot (opposite (o_side o)) (eng_book eng') ->
       crosses o (a_price a) = false).
Proof.
  intros Hinv Hacc Hl. destruct (process_accepted lot Hlot eng o Hinv Hacc) as (eng' & r & t' & E & Hpost).
  exists eng', r. split; [done|]. destruct Hpost as (Hinv' & Hm & _).
  pose proof (q_match_left _ _ _ _ _ _ _ _ Hm Hl) as Hl'.
  pose proof (abs_queue_sorted lot (opposite (o_side o)) _ (inv_wf _ _ Hinv')) as Hs.
  pose proof (q_match_conserves _ _ _ _ _ _ _ _ Hm) as (Hf & _ & Hq & _).
  apply q_match_exhausts in Hm as [Hx|Hx].
  - left. unfold a_left, lots_left in *. cbn in *. lia.
  - right. destruct (abs_queue lot _ (eng_book eng')) as [|m q]; [set_solver|].
    apply StronglySorted_inv in Hs as [_ Hs]. rewrite Forall_forall in Hs.
    intros a [->|Ha]%elem_of_cons; [done|]. apply Hs in Ha. revert Hx. unfold crosses.
    destruct (o_order_type o); [|done]. by apply limit_crosses_mono.
Qed.

(** C22. Every fill has a positive quantity, names the order as its taker, and its
    price is one the order's limit allows: at most the limit for a bid, at least
    the limit for an ask. *)
Theorem process_order_limit_respected eng (o : Order) :
  engine_inv lot eng -> accepted lot o ->
  exists eng' r, process_order eng o = Ret (eng', Ok r) /\
    Forall (fun f => 0 < lots lot (f_quantity f) /\ f_taker_order_id f = o_id o /\
      forall limit, o_order_type o = Limit -> o_price o = Some limit ->
        match o_side o with
        | Bid => dec_le (f_price f) limit = true
        | Ask => dec_le limit (f_price f) = true
        end) (fills_of r).
Proof.
  intros Hinv Hacc. destruct (process_accepted lot Hlot eng o Hinv Hacc) as (eng' & r & t' & E & Hpost).
  exists eng', r. split; [done|]. apply accepted_fills in Hpost; [|done..].
  rewrite Forall_fmap in Hpost. eapply Forall_impl; [exact Hpost|].
  intros f (Hq & Hc & Ht). split; [done|]. split; [done|]. intros limit Hty Hp.
  cbn in Hc. unfold crosses, limit_ok, limit_crosses in Hc. rewrite Hty, Hp in Hc.
  destruct (o_side o); by rewrite dec_le_val.
Qed.

(** C23. Fills are numbered consecutively after the engine's counter, in u64
    arithmetic, and the counter ends at the number of the last fill. *)
Theorem process_order_numbers_fills eng (o : Order) :
  engine_inv lot eng -> accepted lot o -> u64_ok (eng_sequence eng) ->
  exists eng' r, process_order eng o = Ret (eng', Ok r) /\
    (forall i f, fills_of r !! i = Some f ->
       f_sequence f = u64_add (eng_sequence eng) (Z.of_nat i + 1)) /\
    eng_sequence eng' = u64_add (eng_sequence eng) (Z.of_nat (length (fills_of r))).
Proof.
  intros Hinv Hacc Hu. destruct (process_accepted lot Hlot eng o Hinv Hacc) as (eng' & r & t' & E & Hpost).
  exists eng', r. split; [done|]. destruct Hpost as (_ & Hm & _).
  apply q_match_sequence in Hm as (Hs & Hne & He). split.
  - intros i f Hf. specialize (Hs i (abs_fill lot f)). rewrite list_lookup_fmap, Hf in Hs.
    by apply Hs.
  - destruct (fills_of r) as [|f fs]; [rewrite He by done|].
    + cbn. rewrite u64_add_small; unfold u64_ok in Hu; lia.
    + rewrite Hne by done. by rewrite length_fmap.
Qed.

(** A market order never rests: its own side is untouched, it is always
    answered with its fills, and only a non-positive quantity is refused. *)
Theorem process_market_never_rests eng (o : Order) :
  engine_inv lot eng -> order_ok lot o -> o_order_type o = Market ->
  exists eng' r, process_order eng o = Ret (eng', r) /\
    abs_queue lot (o_side o) (eng_book eng') = abs_queue lot (o_side o) (eng_book eng) /\
    (if dec_le (o_quantity o) dec_ZERO then r = Err InvalidQuantity /\ eng' = eng
     else exists fs, r = Ok (Fills fs)).
Proof.
  intros Hinv Ho Hty. destruct (dec_le (o_quantity o) dec_ZERO) eqn:Hq.
  - unfold process_order, process_market. rewrite Hty, Hq. by eexists _, _.
  - assert (Hacc : accepted lot o).
    { rewrite (quantity_test lot) in Hq by done. apply Z.leb_gt in Hq. split_and!; [done|done|].
      by rewrite Hty. }
    destruct (process_accepted lot Hlot eng o Hinv Hacc) as (eng' & r & t' & E & _ & _ & Hown & Ha).
    eexists eng', _. split; [exact E|]. unfold own_queue, answer in *. rewrite Hty in *.
    split; [done|]. exists (fills_of r). by rewrite <-Ha.
Qed.

(** C11. The matching loops terminate: from a well-formed engine the number of
    resting orders plus one is enough fuel for both, and more fuel gives the
    same result. *)
Theorem matching_loops_terminate eng (t : Order) (fuel : nat) :
  engine_inv lot eng -> taker_ok lot t -> (loop_fuel eng <= fuel)%nat ->
  (exists res, match_against_book fuel eng t [] = Ret res /\
     match_against_book (loop_fuel eng) eng t [] = Ret res) /\
  (exists res, sweep_book fuel eng t [] = Ret res /\
     sweep_book (loop_fuel eng) eng t [] = Ret res).
Proof.
  intros Hinv Ht Hf. split.
  - destruct (loop_run lot Hlot _ _ eng t (next_maker_limit_ok t) Hinv Ht) as (e & t' & fs & E & _).
    exists (e, t', fs). rewrite !match_against_book_loop. split; [by eapply match_loop_more|done].
  - destruct (loop_run lot Hlot _ _ eng t (next_maker_market_ok t) Hinv Ht) as (e & t' & fs & E & _).
    exists (e, t', fs). rewrite !sweep_book_loop. split; [by eapply match_loop_more|done].
Qed.
End properties.

(** ** Error answers, for every engine *)

Section errors.
Context {DA : DecimalApi} {UA : UuidApi} {SA : SlabApi}.
Implicit Types (eng : MatchingEngine).

Lemma add_fill_keeps qty (o o' : Order) :
  add_fill qty o = Ret o' -> o_price o' = o_price o /\ o_quantity o' = o_quantity o.
Proof. unfold add_fill. intros H. inv_bind H. inv_bind H. by simplify_eq. Qed.

Lemma execute_fill_keeps eng (t : Order) k p fs eng' t' fs' :
  execute_fill eng t k p fs = Ret (eng', t', fs') ->
  o_price t' = o_price t /\ o_quantity t' = o_quantity t.
Proof.
  unfold execute_fill, next_sequence. destruct (get_order _ k) as [m|]; [|by intros [= <- <- <-]].
  intros H. inv_bind H. inv_bind H. destruct (dec_le _ dec_ZERO); [by simplify_eq|].
  inv_bind H. inv_bind H. inv_bind H. simplify_eq. by eapply add_fill_keeps.
Qed.

Lemma match_against_book_keeps fuel eng (t : Order) fs eng' t' fs' :
  match_against_book fuel eng t fs = Ret (eng', t', fs') ->
  o_price t' = o_price t /\ o_quantity t' = o_quantity t.
Proof.
  revert eng t fs. induction fuel as [|fuel IH]; intros eng t fs H; [done|]. cbn in H.
  inv_bind H. destruct (dec_le _ dec_ZERO); [by simplify_eq|].
  destruct (next_maker_limit _ t) as [[k p]|]; [|by simplify_eq].
  inv_bind H. destruct a0 as [[e1 t1] f1].
  match goal with X : execute_fill _ _ _ _ _ = _ |- _ => apply execute_fill_keeps in X as [E1 E2] end.
  apply IH in H as [-> ->]. done.
Qed.

(** A refused insertion leaves the book as it was. *)
Lemma insert_order_refused b (o : Order) b' e :
  insert_order b o = Ret (b', Err e) ->
  b' = b /\ (o_price o = None \/ dec_le (o_quantity o) dec_ZERO = true).
Proof.
  unfold insert_order. intros H. destruct (o_price o); [|simplify_eq; auto].
  destruct (dec_le (o_quantity o) dec_ZERO); [simplify_eq; auto|].
  destruct (slab_insert _ _). by inv_bind H.
Qed.

Lemma insert_order_priceless b (o : Order) :
  o_price o = None -> insert_order b o = Ret (b, Err MarketOrderNotAllowed).
Proof. unfold insert_order. by intros ->. Qed.

(** C39. [process_order] answers with an error exactly when the quantity is not positive,
    and then leaves the engine untouched, or when a limit order without a price still
    has something left after the matching, and then the engine keeps what the matching
    did to it: the trades are made, but the error replaces the fills. The error is
    always [InvalidQuantity]; [MissingLimitPrice], [OrderAlreadyComplete] and
    [SnapshotSerialize] are never answers. *)
Theorem process_order_errors eng (o : Order) eng' e :
  process_order eng o = Ret (eng', Err e) <->
  e = InvalidQuantity /\
  ((dec_le (o_quantity o) dec_ZERO = true /\ eng' = eng) \/
   (dec_le (o_quantity o) dec_ZERO = false /\ o_order_type o = Limit /\ o_price o = None /\
    exists taker fills left, match_against_book (loop_fuel eng) eng o [] = Ret (eng', taker, fills) /\
      remaining taker = Ret left /\ dec_gt left dec_ZERO = true)).
Proof.
  unfold process_order, process_limit, process_market. split.
  - destruct (o_order_type o), (dec_le (o_quantity o) dec_ZERO) eqn:Hq; intros H; simplify_eq; auto.
    + inv_bind H. destruct a as [[e1 t1] fs]. pose proof (match_against_book_keeps _ _ _ _ _ _ _ E) as [Ep Eq].
      inv_bind H. destruct (dec_gt a dec_ZERO) eqn:Hgt; [|by simplify_eq].
      inv_bind H. destruct a0 as [b ins]. destruct ins; [by simplify_eq|].
      apply insert_order_refused in E1 as [-> [Hn|Hn]]; [|by rewrite Eq, Hq in Hn].
      simplify_eq. split; [done|]. right. rewrite <-Ep. destruct e1. eauto 10.
    + inv_bind H. destruct a as [[e1 t1] fs]. by simplify_eq.
  - intros (-> & [[-> ->]|(-> & -> & Hp & t & fs & r & E & Er & Hgt)]); [by case_match|].
    rewrite E. cbn [obind]. rewrite Er. cbn [obind]. rewrite Hgt.
    apply match_against_book_keeps in E as [Ep _].
    rewrite insert_order_priceless by congruence. by destruct eng'.
Qed.

(** [cancel] either answers [Cancelled], or [OrderNotFound] with the engine
    untouched; an order that is already complete is reported as not found. *)
Theorem cancel_errors eng id eng' r :
  cancel eng id = Ret (eng', r) ->
  (r = Ok ResCancelled /\ is_Some (ob_index (eng_book eng) !! id)) \/
  (r = Err (OrderNotFound id) /\ eng' = eng).
Proof.
  unfold cancel, cancel_order. intros H. inv_bind H. destruct a as [b r'].
  destruct (ob_index (eng_book eng) !! id) as [k|] eqn:Hi; [|simplify_eq; right; by destruct eng].
  inv_bind E. destruct (is_complete a); [simplify_eq; right; by destruct eng|].
  destruct (o_price a); [|simplify_eq; right; by destruct eng].
  inv_bind E. simplify_eq. left. split; [done|by exists k].
Qed.

(** C35. A maker with nothing left at the front of the book, as a snapshot with a
    fully filled order would restore it, stops the engine for good: no amount
    of fuel ends the loop, since [execute_fill] returns without popping it. *)
Theorem exhausted_maker_diverges eng (t m : Order) k p rt rm (fs : list Fill) :
  next_maker_limit (eng_book eng) t = Some (k, p) -> get_order (eng_book eng) k = Some m ->
  remaining t = Ret rt -> dec_le rt dec_ZERO = false ->
  remaining m = Ret rm -> dec_le (dec_min rt rm) dec_ZERO = true ->
  forall fuel, match_against_book fuel eng t fs = Diverge.
Proof.
  intros Hn Hg Ht Hz Hm Hmin fuel. induction fuel as [|fuel IH]; [done|].
  cbn. rewrite Ht. cbn. rewrite Hz, Hn. unfold execute_fill. rewrite Hg, Ht, Hm. cbn.
  rewrite Hmin. cbn. exact IH.
Qed.
End errors.

(** ** Witnesses *)

Definition sample_run : list command :=
  sample_commands ++ [Submit (limit 6 Bid 1000 400); CancelId 2%N; Submit (market 7 Ask 450);
                      CancelId 2%N; Submit (limit 8 Ask 970 900)].

Lemma sample_run_ok : forallb (command_ok_b 2) sample_run = true.
Proof. vm_compute. reflexivity. Qed.

Lemma accepted_sound (lot : Z) (o : Order) :
  order_ok_b lot o && (0 <? lots lot (o_quantity o)) &&
    (bool_decide (o_order_type o = Market) || bool_decide (is_Some (o_price o))) = true ->
  accepted lot o.
Proof.
  rewrite !andb_true_iff, orb_true_iff, !bool_decide_eq_true, Z.ltb_lt. intros [[H1 H2] H3].
  split_and!; [by apply order_ok_sound|done|]. destruct H3 as [->|H3]; done.
Qed.

Lemma crossing_accepted : accepted 2 (limit 6 Bid 1000 400).
Proof. apply accepted_sound. vm_compute. reflexivity. Qed.

Lemma engine_refines_price_time_witness :
  exists eng rs, engine_run (MatchingEngine_new "SOL-USDC") sample_run = Ret (eng, rs) /\
    spec_run 2 sample_run (mkState [] [] 0) = (abs_engine 2 eng, abs_result 2 <$> rs).
Proof.
  apply (engine_refines_price_time 2); [lia| |].
  - apply commands_ok_sound, sample_run_ok.
  - apply (bool_decide_unpack _). vm_compute. exact I.
Defined.

Lemma book_never_crosses_witness :
  exists eng rs, engine_run (MatchingEngine_new "SOL-USDC") sample_run = Ret (eng, rs) /\
    book_wf (eng_book eng) /\
    (forall bid ask, best_bid (eng_book eng) = Some bid -> best_ask (eng_book eng) = Some ask ->
       dec_lt bid ask = true) /\
    (forall sd, q_sorted sd (abs_queue 2 sd (eng_book eng))).
Proof. apply (book_never_crosses 2); [lia|apply commands_ok_sound, sample_run_ok]. Defined.

Lemma process_order_conserves_witness :
  exists eng' r, process_order sample_engine (limit 6 Bid 1000 400) = Ret (eng', Ok r) /\
    let x := total_filled (abs_fill 2 <$> fills_of r) in
    let left sd e := total_left (abs_queue 2 sd (eng_book e)) in
    0 <= x <= 400 /\
    left Ask sample_engine = left Ask eng' + x /\
    left Bid eng' = left Bid sample_engine + (400 - x).
Proof.
  apply (process_order_conserves 2 ltac:(lia) sample_engine (limit 6 Bid 1000 400) sample_inv
    crossing_accepted). vm_compute. discriminate.
Defined.

Lemma process_order_priority_witness :
  exists eng' r filled rest, process_order sample_engine (limit 6 Bid 1000 400) = Ret (eng', Ok r) /\
    abs_queue 2 Ask (eng_book sample_engine) = filled ++ rest /\
    af_maker <$> (abs_fill 2 <$> fills_of r) = a_id <$> filled /\
    af_price <$> (abs_fill 2 <$> fills_of r) = a_price <$> filled /\
    (abs_queue 2 Ask (eng_book eng') = rest \/
     exists before m x, filled = before ++ [m] /\ 0 < a_left m - x /\
       abs_queue 2 Ask (eng_book eng') = a_fill x m :: rest).
Proof.
  exact (process_order_priority 2 ltac:(lia) sample_engine (limit 6 Bid 1000 400) sample_inv
    crossing_accepted).
Defined.

Lemma process_order_exhaustive_witness :
  exists eng' r, process_order sample_engine (limit 6 Bid 1000 400) = Ret (eng', Ok r) /\
    (total_filled (abs_fill 2 <$> fills_of r) = 400 \/
     forall a, a ∈ abs_queue 2 Ask (eng_book eng') ->
       crosses (limit 6 Bid 1000 400) (a_price a) = false).
Proof.
  apply (process_order_exhaustive 2 ltac:(lia) sample_engine (limit 6 Bid 1000 400) sample_inv
    crossing_accepted). vm_compute. discriminate.
Defined.

Lemma process_order_limit_respected_witness :
  exists eng' r, process_order sample_engine (limit 6 Bid 1000 400) = Ret (eng', Ok r) /\
    Forall (fun f => 0 < lots 2 (f_quantity f) /\ f_taker_order_id f = 6%N /\
      forall p, Limit = Limit -> Some (dec 1000 2) = Some p -> dec_le (f_price f) p = true)
      (fills_of r).
Proof.
  exact (process_order_limit_respected 2 ltac:(lia) sample_engine (limit 6 Bid 1000 400) sample_inv
    crossing_accepted).
Defined.

Lemma process_order_numbers_fills_witness :
  exists eng' r, process_order sample_engine (limit 6 Bid 1000 400) = Ret (eng', Ok r) /\
    (forall i f, fills_of r !! i = Some f ->
       f_sequence f = u64_add (eng_sequence sample_engine) (Z.of_nat i + 1)) /\
    eng_sequence eng' = u64_add (eng_sequence sample_engine) (Z.of_nat (length (fills_of r))).
Proof.
  apply (process_order_numbers_fills 2 ltac:(lia) sample_engine (limit 6 Bid 1000 400) sample_inv
    crossing_accepted). vm_compute. split; [discriminate|reflexivity].
Defined.

Lemma process_market_never_rests_witness :
  exists eng' r, process_order sample_engine (market 7 Ask 900) = Ret (eng', r) /\
    abs_queue 2 Ask (eng_book eng') = abs_queue 2 Ask (eng_book sample_engine) /\
    (if dec_le (dec 900 2) dec_ZERO then r = Err InvalidQuantity /\ eng' = sample_engine
     else exists fs, r = Ok (Fills fs)).
Proof.
  apply (process_market_never_rests 2 ltac:(lia) sample_engine (market 7 Ask 900) sample_inv).
  - apply order_ok_sound. vm_compute. reflexivity.
  - reflexivity.
Defined.

Lemma matching_loops_terminate_witness :
  (exists res, match_against_book 9 sample_engine (limit 6 Bid 1000 400) [] = Ret res /\
     match_against_book (loop_fuel sample_engine) sample_engine (limit 6 Bid 1000 400) [] = Ret res) /\
  (exists res, sweep_book 9 sample_engine (limit 6 Bid 1000 400) [] = Ret res /\
     sweep_book (loop_fuel sample_engine) sample_engine (limit 6 Bid 1000 400) [] = Ret res).
Proof.
  apply (matching_loops_terminate 2 ltac:(lia) sample_engine (limit 6 Bid 1000 400) 9 sample_inv).
  - split; apply crossing_accepted.
  - vm_compute. lia.
Defined.

(** An ask at price zero, which a bid without a price takes. *)
Definition zero_price_engine : MatchingEngine :=
  (returned (MatchingEngine_new "SOL-USDC", [])
     (engine_run (MatchingEngine_new "SOL-USDC") [Submit (limit 1 Ask 0 100)])).1.

Definition priceless_bid : Order :=
  {| o_id := oid 2; o_market_id := "SOL-USDC"; o_side := Bid; o_order_type := Limit; o_price := None;
     o_quantity := dec 300 2; o_filled := dec 0 2; o_status := Open; o_sequence := 2 |}.

Definition priceless_match : MatchingEngine * Order * list Fill :=
  returned (zero_price_engine, priceless_bid, [])
    (match_against_book (loop_fuel zero_price_engine) zero_price_engine priceless_bid []).

(** A quantity of zero; and a bid without a price, whose trade is made and not
    reported. *)
Lemma process_order_errors_witness :
  process_order sample_engine (limit 6 Bid 1000 0) = Ret (sample_engine, Err InvalidQuantity) /\
  process_order zero_price_engine priceless_bid = Ret (priceless_match.1.1, Err InvalidQuantity) /\
  length priceless_match.2 = 1%nat /\ best_ask (eng_book priceless_match.1.1) = None /\
  forall eng' e, process_order sample_engine (limit 6 Bid 1000 400) <> Ret (eng', Err e).
Proof.
  split; [|split; [|split; [|split]]].
  - apply process_order_errors. split; [reflexivity|]. left. split; reflexivity.
  - apply process_order_errors. split; [reflexivity|]. right. split; [reflexivity|].
    split; [reflexivity|]. split; [reflexivity|].
    exists priceless_match.1.2, priceless_match.2, (returned dec_ZERO (remaining priceless_match.1.2)).
    split; [|split].
    + rewrite <-!surjective_pairing. apply returned_eq. vm_compute. reflexivity.
    + apply returned_eq. vm_compute. reflexivity.
    + vm_compute. reflexivity.
  - vm_compute. reflexivity.
  - vm_compute. reflexivity.
  - intros eng' e [_ [[H _]|(_ & _ & H & _)]]%process_order_errors; vm_compute in H; discriminate.
Defined.

Lemma cancel_errors_witness :
  let r : result ProcessResult EngineError := Err (OrderNotFound (oid 42)) in
  (r = Ok ResCancelled /\ is_Some (ob_index (eng_book sample_engine) !! (oid 42))) \/
  (r = Err (OrderNotFound (oid 42)) /\ sample_engine = sample_engine).
Proof.
  apply (cancel_errors sample_engine (oid 42) sample_engine).
  unfold cancel. rewrite cancel_order_not_found by (vm_compute; reflexivity). by destruct sample_engine.
Defined.

(** A book with a fully filled ask, as [deserialize_book] accepts it. *)
Definition stuck_engine : MatchingEngine :=
  match insert_order OrderBook_new (set_filled (dec 300 2) (limit 1 Ask 1000 300)) with
  | Ret (b, _) => set_book b (MatchingEngine_new "SOL-USDC")
  | _ => MatchingEngine_new "SOL-USDC"
  end.

Lemma exhausted_maker_diverges_witness :
  next_maker_limit (eng_book stuck_engine) (limit 2 Bid 1000 100) = Some (0%nat, dec 1000 2) /\
  forall fuel, match_against_book fuel stuck_engine (limit 2 Bid 1000 100) [] = Diverge.
Proof.
  split; [reflexivity|]. apply (exhausted_maker_diverges stuck_engine (limit 2 Bid 1000 100)
    (set_filled (dec 300 2) (limit 1 Ask 1000 300)) 0 (dec 1000 2) (dec 100 2) (dec 0 2)); reflexivity.
Defined.
