(* ===== verification/Statuses.v ===== *)
(** * Statuses of resting orders

    The typing of the [status] field: an order that rests is [Open] with nothing filled,
    or [PartiallyFilled] with some but not all of it filled; [Filled] and [Cancelled]
    orders never rest. Proved on the specification and transported to the engine. *)

From S2P Require Import Prelude External BTreeMap Types OrderBook Levels PriceTime BookFacts BookOps Matching Concrete MatchingRefine EngineFacts Runs Samples EngineProps.

Section specification.
Context {UA : UuidApi}.
Implicit Types (a m t : aorder) (st : astate) (sd : Side).

#[local] Arguments a_left : simpl never.

(** The status says how much of the order is filled, as long as something is left. *)
Definition status_typed a : Prop :=
  0 <= a_filled a /\
  (0 < a_left a -> a_status a = if a_filled a =? 0 then Open else PartiallyFilled).

Definition resting_typed a : Prop := status_typed a /\ 0 < a_left a.

Definition sides_typed st : Prop := forall sd, Forall resting_typed (as_side sd st).

Lemma a_fill_typed x a : 0 < x -> status_typed a -> status_typed (a_fill x a).
Proof.
  intros Hx [H0 _]. split; [cbn; lia|]. rewrite a_left_fill. intros H. cbn.
  rewrite (proj2 (Z.leb_gt _ _)), (proj2 (Z.eqb_neq _ _)) by lia. done.
Qed.

Lemma q_match_typed crosses t seq q t' seq' q' fs :
  q_match crosses t seq q = (t', seq', q', fs) -> Forall resting_typed q -> status_typed t ->
  Forall resting_typed q' /\ status_typed t'.
Proof.
  revert t seq t' seq' q' fs. induction q as [|m q IH]; intros t seq t' seq' q' fs.
  - by intros [= <- <- <- <-].
  - cbn [q_match]. case_match eqn:Hs; [by intros [= <- <- <- <-]|].
    apply orb_false_elim in Hs as [Ht%Z.leb_gt _]. intros H [[Hm Hml] Hq]%Forall_cons Htt.
    assert (Htt' : status_typed (a_fill (Z.min (a_left t) (a_left m)) t)) by (apply a_fill_typed; [lia|done]).
    case_match eqn:Hmx.
    + destruct (q_match _ _ _ q) as [[[t1 s1] q1] fs1] eqn:E. simplify_eq. by eapply IH.
    + simplify_eq. split; [|done]. constructor; [|done]. apply Z.leb_gt in Hmx.
      split; [apply a_fill_typed; [lia|done]|]. by rewrite a_left_fill.
Qed.

Lemma spec_match_typed crosses sd t st t' st' fs :
  spec_match crosses sd t st = (t', st', fs) -> sides_typed st -> status_typed t ->
  sides_typed st' /\ status_typed t'.
Proof.
  intros (Hs & seq' & E & _)%spec_match_side Hst Ht.
  apply q_match_typed in E as [Hq Ht']; [|by apply Hst|done]. split; [|done]. intros sd'.
  destruct (decide (sd' = sd)) as [->|Hne]; [rewrite Hs; apply Hst|].
  by assert (sd' = opposite sd) as -> by (by destruct sd, sd').
Qed.

Lemma q_insert_typed sd t st :
  sides_typed st -> resting_typed t ->
  sides_typed (as_set_side sd (q_insert sd t (as_side sd st)) st).
Proof.
  intros Hst Ht sd'. destruct (decide (sd' = sd)) as [->|Hne].
  - assert (H : Forall resting_typed (q_insert sd t (as_side sd st)))
      by (rewrite q_insert_perm; constructor; [done|apply Hst]). by destruct sd.
  - pose proof (Hst sd') as H. by destruct sd, sd'.
Qed.

Lemma spec_limit_typed max sd v t st st' r :
  spec_limit max sd v t st = (st', r) -> sides_typed st -> status_typed t -> sides_typed st'.
Proof.
  unfold spec_limit. intros H Hst Ht. destruct (a_quantity t <=? 0); [by simplify_eq|].
  destruct (spec_match (limit_crosses max sd v) sd t st) as [[t1 st1] fs] eqn:E.
  apply spec_match_typed in E as [Hst1 Ht1]; [|done..].
  destruct (Z.ltb_spec 0 (a_left t1)); [|by simplify_eq].
  destruct v; simplify_eq; [by apply q_insert_typed|done].
Qed.

Lemma spec_market_typed sd t st st' r :
  spec_market sd t st = (st', r) -> sides_typed st -> status_typed t -> sides_typed st'.
Proof.
  unfold spec_market. intros H Hst Ht. destruct (a_quantity t <=? 0); [by simplify_eq|].
  destruct (spec_match (fun _ => true) sd t st) as [[t1 st1] fs] eqn:E.
  apply spec_match_typed in E as [Hst1 _]; [|done..]. by simplify_eq.
Qed.

Lemma spec_cancel_typed id st st' r : spec_cancel id st = (st', r) -> sides_typed st -> sides_typed st'.
Proof.
  unfold spec_cancel. intros H Hst. destruct (named id st); simplify_eq; [|done].
  intros []; cbn; apply Forall_forall; intros a [_ Ha]%list_elem_of_filter;
    [pose proof (Hst Bid) as Hq|pose proof (Hst Ask) as Hq]; rewrite Forall_forall in Hq; by apply Hq.
Qed.
End specification.

Section engine.
Context {DA : DecimalApi} {DL : DecimalLaws DA} {UA : UuidApi} {SA : SlabApi} {SL : SlabLaws SA}.
Context (lot : Z) (Hlot : 0 <= lot <= 28).

(** A submission is of a new order, as every producer of the program makes it. *)
Definition new_order (c : command) : Prop :=
  match c with
  | Submit o => order_ok lot o /\ o_status o = Open /\ lots lot (o_filled o) = 0
  | CancelId _ => True
  end.

Lemma new_order_ok c : new_order c -> command_ok lot c.
Proof. destruct c; [intros (? & ? & _); split; [done|by left]|done]. Qed.

Lemma spec_run_typed cs st st' rs :
  Forall new_order cs -> spec_run lot cs st = (st', rs) -> sides_typed st -> sides_typed st'.
Proof.
  intros Hcs. revert st rs. induction Hcs as [|c cs Hc _ IH]; intros st rs H Hst; [by cbn in H; simplify_eq|].
  cbn in H. destruct (spec_step lot c st) as [st1 r] eqn:E. destruct (spec_run lot cs st1) as [st2 rs'] eqn:E2.
  simplify_eq. eapply IH; [done|]. destruct c as [o|id]; [|by eapply spec_cancel_typed].
  assert (Ht : status_typed (abs_order lot o)).
  { destruct Hc as (_ & Ho & Hf). split; cbn; rewrite Hf; [done|by rewrite Ho]. }
  cbn in E. unfold spec_process in E. destruct (o_order_type o).
  - by eapply spec_limit_typed.
  - by eapply spec_market_typed.
Qed.

(** C16. Statuses are well typed. After any sequence of submissions of new orders (with
    distinct ids and amounts on the grid) and cancellations, every order on the book is
    [Open] and has nothing filled, or is [PartiallyFilled] and has a part filled that is
    positive and less than its quantity; none is [Filled] or [Cancelled]. *)
Theorem resting_orders_well_typed (market : string) (cs : list command) :
  Forall new_order cs -> NoDup (omap submitted cs) ->
  exists eng rs, engine_run (MatchingEngine_new market) cs = Ret (eng, rs) /\
    forall sd o, o ∈ queue sd (eng_book eng) ->
      (o_status o = Open /\ lots lot (o_filled o) = 0 /\ 0 < lots lot (o_quantity o)) \/
      (o_status o = PartiallyFilled /\ 0 < lots lot (o_filled o) < lots lot (o_quantity o)).
Proof.
  intros Hcs Hnd. destruct (engine_new_spec lot Hlot market) as [E Hs].
  destruct (engine_run_refines lot Hlot _ cs (engine_new_inv lot market) Hs book_new_indexed)
    as (eng & rs & Hr & Hsp); [|done| |].
  - eapply Forall_impl; [exact Hcs|]. apply new_order_ok.
  - intros id _. rewrite E. unfold named. rewrite bool_decide_eq_true. apply not_elem_of_nil.
  - exists eng, rs. split; [done|]. intros sd o Ho. rewrite E in Hsp.
    apply spec_run_typed in Hsp; [|done|by intros []; constructor].
    specialize (Hsp sd). rewrite as_side_abs, Forall_forall in Hsp.
    destruct (Hsp (abs_order lot o)) as [[H0 Hst] Hl]; [by apply list_elem_of_fmap_2|].
    specialize (Hst Hl). cbn in H0, Hst. rewrite a_left_abs in Hl. unfold lots_left in Hl.
    destruct (Z.eqb_spec (lots lot (o_filled o)) 0); [left|right]; split_and!; try done; lia.
Qed.
End engine.

Lemma resting_orders_well_typed_witness :
  let cs := [Submit (limit 1 Bid 1000 400); Submit (limit 2 Ask 1000 100); Submit (limit 3 Ask 1010 50);
             CancelId (oid 3)] in
  exists eng rs, engine_run (MatchingEngine_new "SOL-USDC") cs = Ret (eng, rs) /\
    forall sd o, o ∈ queue sd (eng_book eng) ->
      (o_status o = Open /\ lots 2 (o_filled o) = 0 /\ 0 < lots 2 (o_quantity o)) \/
      (o_status o = PartiallyFilled /\ 0 < lots 2 (o_filled o) < lots 2 (o_quantity o)).
Proof.
  apply (resting_orders_well_typed 2 ltac:(lia) "SOL-USDC"
    [Submit (limit 1 Bid 1000 400); Submit (limit 2 Ask 1000 100); Submit (limit 3 Ask 1010 50);
     CancelId (oid 3)]).
  - repeat constructor; apply order_ok_sound; vm_compute; reflexivity.
  - apply (bool_decide_unpack _). vm_compute. exact I.
Defined.
