(* ===== verification/BookProps.v ===== *)
(** * Properties of the order book

    The contract of each public operation of [OrderBook] on every branch: time
    priority of insertions, cancellation, the best prices, level depths,
    [pop_front], and what happens to an order whose id is submitted twice. *)

From S2P Require Import Prelude External BTreeMap Types OrderBook Levels PriceTime BookFacts BookOps Matching Concrete MatchingRefine EngineFacts Runs Samples.

(** ** Properties *)

Section properties.
Context {DA : DecimalApi} {DL : DecimalLaws DA} {UA : UuidApi}
  {SA : SlabApi} {SL : SlabLaws SA}.
Context (lot : Z).

Implicit Types (b : OrderBook) (o : Order).

(** The branches on which [insert_order] refuses an order. *)
Definition insert_refused o : option InsertError :=
  match o_price o with
  | None => Some MarketOrderNotAllowed
  | Some _ => if dec_le (o_quantity o) dec_ZERO then Some InsertInvalidQuantity else None
  end.

(** C24. [insert_order] on every branch. An order without a price or with a
    quantity that is not positive is refused and the book is unchanged.
    Otherwise it gets a vacant key and time priority: it goes behind every order
    of its side whose price is at least as good and before every worse one; the
    other side and all other orders stay as they are. *)
Theorem insert_order_time_priority b o :
  book_wf b ->
  match insert_refused o with
  | Some e => insert_order b o = Ret (b, Err e)
  | None =>
      exists k b' q1 q2, insert_order b o = Ret (b', Ok k) /\ book_wf b' /\
        get_order b k = None /\
        (forall j, get_order b' j = if decide (j = k) then Some o else get_order b j) /\
        abs_queue lot (o_side o) b = q1 ++ q2 /\
        abs_queue lot (o_side o) b' = q1 ++ abs_order lot o :: q2 /\
        Forall (fun a => rank (o_side o) (a_price a) <= rank (o_side o) (price_val (o_price o))) q1 /\
        Forall (fun a => rank (o_side o) (price_val (o_price o)) < rank (o_side o) (a_price a)) q2 /\
        queue (opposite (o_side o)) b' = queue (opposite (o_side o)) b
  end.
Proof.
  intros Hwf. unfold insert_refused. destruct (o_price o) as [p|] eqn:Hp; [|by apply insert_order_market].
  destruct (dec_le _ _) eqn:Hq; [by eapply insert_order_quantity|].
  destruct (insert_order_ok lot b o p Hwf Hp Hq) as (k & b' & E & Hwf' & Hn & Hg & _ & Habs & Hoth).
  pose proof (abs_queue_sorted lot (o_side o) b Hwf) as Hs.
  assert (Hsplit : forall q, q_sorted (o_side o) q -> exists q1 q2, q = q1 ++ q2 /\
    Forall (fun a => rank (o_side o) (a_price a) <= rank (o_side o) (price_val (o_price o))) q1 /\
    Forall (fun a => rank (o_side o) (price_val (o_price o)) < rank (o_side o) (a_price a)) q2).
  { induction 1 as [|a q Hs' (q1 & q2 & -> & H1 & H2) Hx]; [by exists [], []|].
    destruct (decide (rank (o_side o) (a_price a) <= rank (o_side o) (price_val (o_price o)))).
    - exists (a :: q1), q2. split_and!; [done|by constructor|done].
    - exists [], (a :: q1 ++ q2). split_and!; [done|constructor|]. constructor; [lia|].
      eapply Forall_impl; [exact Hx|]. cbn. intros; lia. }
  destruct (Hsplit _ Hs) as (q1 & q2 & Eq & H1 & H2). rewrite Hp in H1, H2.
  exists k, b', q1, q2. split_and!; try done.
  - rewrite Habs, Eq. apply q_insert_split; cbn; by rewrite Hp.
  - apply Hoth. by destruct (o_side o).
Qed.

(** C25. [cancel_order] on every branch: an unknown id is [NotFound], a completed
    order is [AlreadyComplete], both without effect; otherwise exactly the named
    order leaves its queue, the slab and the index, the orders around it keep
    their places, and the other side is untouched. *)
Theorem cancel_order_contract b id :
  book_wf b ->
  match ob_index b !! id with
  | None => cancel_order b id = Ret (b, Err (NotFound id))
  | Some k =>
      exists o, get_order b k = Some o /\ o_id o = id /\
        if is_complete o then cancel_order b id = Ret (b, Err (AlreadyComplete id))
        else exists b' q1 q2, cancel_order b id = Ret (b', Ok tt) /\ book_wf b' /\
          (forall j, get_order b' j = if decide (j = k) then None else get_order b j) /\
          ob_index b' = delete id (ob_index b) /\
          queue (o_side o) b = q1 ++ o :: q2 /\ queue (o_side o) b' = q1 ++ q2 /\
          queue (opposite (o_side o)) b' = queue (opposite (o_side o)) b
  end.
Proof.
  intros Hwf. destruct (ob_index b !! id) as [k|] eqn:Hk; [|by apply cancel_order_not_found].
  destruct (wf_index b Hwf id k Hk) as (o & Hg & Hid). exists o. split; [done|]. split; [done|].
  destruct (is_complete o) eqn:Hc; [by eapply cancel_order_complete|].
  destruct (cancel_order_ok b id k o Hwf Hk Hg Hc) as (b' & q1 & q2 & E & Hwf' & H1 & H2 & H3 & H4 & H5).
  exists b', q1, q2. split_and!; try done. apply H5. by destruct (o_side o).
Qed.

(** C26. The best price of a side is the price of the first order of its queue and
    no resting order of the side has a better one (the lowest ask, the highest
    bid); it is [None] exactly when the side has no order. *)
Theorem best_price_extremal sd b :
  book_wf b ->
  (best_price sd b = None <-> abs_queue lot sd b = []) /\
  (forall p, best_price sd b = Some p ->
     (exists a q, abs_queue lot sd b = a :: q /\ a_price a = dec_val p) /\
     Forall (fun a => rank sd (dec_val p) <= rank sd (a_price a)) (abs_queue lot sd b)).
Proof.
  intros Hwf. pose proof (best_price_queue lot sd b Hwf) as E.
  pose proof (abs_queue_sorted lot sd b Hwf) as Hs.
  destruct (abs_queue lot sd b) as [|a q]; destruct (best_price sd b) as [p|]; cbn in E; try done.
  injection E as E. split; [done|]. intros p' [= <-]. split; [by exists a, q|].
  apply StronglySorted_inv in Hs as [_ Hs]. rewrite E. by constructor.
Qed.

(** [level_depth] counts the resting orders of the side at that price, whatever
    scale the price is written with, and 0 when there is no level. *)
Theorem level_depth_counts sd b (p : Price) :
  book_wf b ->
  level_depth b sd p = length (filter (fun a => a_price a = dec_val p) (abs_queue lot sd b)).
Proof.
  apply level_depth_abs.
Qed.

(** [pop_front] at the best price removes exactly the order at the front of the
    side: from the queue, the slab and the index. *)
Theorem pop_front_removes_best sd b p :
  book_wf b -> best_price sd b = Some p ->
  exists k o, best_front sd b = Some k /\ get_order b k = Some o /\
    queue sd b = o :: queue sd (pop_front b sd p) /\ book_wf (pop_front b sd p) /\
    get_order (pop_front b sd p) k = None /\
    ob_index (pop_front b sd p) = delete (o_id o) (ob_index b) /\
    queue (opposite sd) (pop_front b sd p) = queue (opposite sd) b.
Proof.
  intros Hwf Hp. destruct (best_cases sd b Hwf) as [(E & _)|(p' & k & l & e2 & E & Hk & Hl & He)];
    [congruence|]. assert (p' = p) as -> by congruence.
  assert (Hen : exists o, slab_get (ob_orders b) k = Some o).
  { pose proof (sw_entries _ _ _ (wf_side b Hwf sd)) as Hes. rewrite He in Hes.
    apply Forall_cons in Hes as [(o & q & Hg & _) _]. by exists o. }
  destruct Hen as [o Hg].
  destruct (pop_front_ok b sd p k l o e2 Hwf Hl Hg He) as (Hw & Hget & Hi & _ & Hq & Hoth).
  exists k, o. split_and!; try done; [|apply Hoth; by destruct sd].
  unfold get_order. by rewrite Hget, decide_True.
Qed.

(** C38. Submitting an id that already rests (a redelivered message) overwrites the
    index: cancelling the id removes the second order, cancelling it again is
    [NotFound], and the first order keeps resting. *)
Theorem duplicate_id_orphans_first b o o0 k0 :
  book_wf b -> get_order b k0 = Some o0 -> o_id o0 = o_id o ->
  insert_refused o = None -> is_complete o = false ->
  exists k b1 b2, insert_order b o = Ret (b1, Ok k) /\
    cancel_order b1 (o_id o) = Ret (b2, Ok tt) /\
    get_order b2 k = None /\ get_order b2 k0 = Some o0 /\
    cancel_order b2 (o_id o) = Ret (b2, Err (NotFound (o_id o))).
Proof.
  intros Hwf Hg0 Hid Hr Hc. unfold insert_refused in Hr.
  destruct (o_price o) as [p|] eqn:Hp; [|done]. destruct (dec_le _ _) eqn:Hq; [done|].
  destruct (insert_order_ok lot b o p Hwf Hp Hq) as (k & b1 & E & Hwf1 & Hn & Hg & Hi & _).
  assert (Hk : ob_index b1 !! o_id o = Some k) by (rewrite Hi; apply lookup_insert_eq).
  assert (Hgk : slab_get (ob_orders b1) k = Some o) by (by rewrite Hg, decide_True).
  destruct (cancel_order_ok b1 _ k o Hwf1 Hk Hgk Hc) as (b2 & q1 & q2 & E2 & _ & Hg2 & Hi2 & _).
  exists k, b1, b2. split; [done|]. split; [done|]. unfold get_order in *.
  rewrite !Hg2, decide_True by done. split; [done|].
  assert (k0 <> k) by (intros ->; congruence).
  split; [by rewrite decide_False, Hg, decide_False|].
  apply cancel_order_not_found. rewrite Hi2. apply lookup_delete_eq.
Qed.
End properties.

(** ** Witnesses *)

Definition sample_book : OrderBook := eng_book sample_engine.

Lemma sample_book_wf : book_wf sample_book.
Proof. exact (inv_wf _ _ sample_inv). Qed.

Lemma insert_order_time_priority_witness :
  exists k b' q1 q2, insert_order sample_book (limit 9 Ask 1000 100) = Ret (b', Ok k) /\ book_wf b' /\
    get_order sample_book k = None /\
    (forall j, get_order b' j =
       if decide (j = k) then Some (limit 9 Ask 1000 100) else get_order sample_book j) /\
    abs_queue 2 Ask sample_book = q1 ++ q2 /\
    abs_queue 2 Ask b' = q1 ++ abs_order 2 (limit 9 Ask 1000 100) :: q2 /\
    Forall (fun a => a_price a <= price_val (Some (dec 1000 2))) q1 /\
    Forall (fun a => price_val (Some (dec 1000 2)) < a_price a) q2 /\
    queue Bid b' = queue Bid sample_book.
Proof. exact (insert_order_time_priority 2 sample_book (limit 9 Ask 1000 100) sample_book_wf). Defined.

Lemma cancel_order_contract_witness :
  exists o, get_order sample_book 2 = Some o /\ o_id o = oid 3 /\
    if is_complete o then cancel_order sample_book (oid 3) = Ret (sample_book, Err (AlreadyComplete (oid 3)))
    else exists b' q1 q2, cancel_order sample_book (oid 3) = Ret (b', Ok tt) /\ book_wf b' /\
      (forall j, get_order b' j = if decide (j = 2%nat) then None else get_order sample_book j) /\
      ob_index b' = delete (oid 3) (ob_index sample_book) /\
      queue (o_side o) sample_book = q1 ++ o :: q2 /\ queue (o_side o) b' = q1 ++ q2 /\
      queue (opposite (o_side o)) b' = queue (opposite (o_side o)) sample_book.
Proof. exact (cancel_order_contract sample_book (oid 3) sample_book_wf). Defined.

Lemma best_price_extremal_witness :
  (best_price Ask sample_book = None <-> abs_queue 2 Ask sample_book = []) /\
  (forall p, best_price Ask sample_book = Some p ->
     (exists a q, abs_queue 2 Ask sample_book = a :: q /\ a_price a = dec_val p) /\
     Forall (fun a => dec_val p <= a_price a) (abs_queue 2 Ask sample_book)).
Proof. exact (best_price_extremal 2 Ask sample_book sample_book_wf). Defined.

(** The price is written with another scale than the orders' prices. *)
Lemma level_depth_counts_witness :
  level_depth sample_book Ask (dec 10 0) = 2%nat /\
  level_depth sample_book Ask (dec 10 0) =
    length (filter (fun a => a_price a = dec_val (dec 10 0)) (abs_queue 2 Ask sample_book)).
Proof.
  split; [vm_compute; reflexivity|exact (level_depth_counts 2 Ask sample_book (dec 10 0) sample_book_wf)].
Defined.

Lemma pop_front_removes_best_witness :
  exists k o, best_front Bid sample_book = Some k /\ get_order sample_book k = Some o /\
    queue Bid sample_book = o :: queue Bid (pop_front sample_book Bid (dec 990 2)) /\
    book_wf (pop_front sample_book Bid (dec 990 2)) /\
    get_order (pop_front sample_book Bid (dec 990 2)) k = None /\
    ob_index (pop_front sample_book Bid (dec 990 2)) = delete (o_id o) (ob_index sample_book) /\
    queue Ask (pop_front sample_book Bid (dec 990 2)) = queue Ask sample_book.
Proof.
  apply (pop_front_removes_best Bid sample_book (dec 990 2) sample_book_wf). reflexivity.
Defined.

Lemma duplicate_id_orphans_first_witness :
  exists k b1 b2, insert_order sample_book (limit 1 Ask 1020 700) = Ret (b1, Ok k) /\
    cancel_order b1 (oid 1) = Ret (b2, Ok tt) /\
    get_order b2 k = None /\ get_order b2 0 = Some (limit 1 Ask 1000 300) /\
    cancel_order b2 (oid 1) = Ret (b2, Err (NotFound (oid 1))).
Proof.
  apply (duplicate_id_orphans_first 2 sample_book (limit 1 Ask 1020 700) (limit 1 Ask 1000 300) 0
    sample_book_wf); reflexivity.
Defined.
