(* ===== verification/Snapshot.v ===== *)
(** * Snapshots of the book

    [snapshot.rs] of the [clob-engine] crate: the portable form of a book and its
    encoding. Orders are written in the order of their slab keys and restored by
    inserting them again, so time priority within a level survives only when it
    agrees with the order of the keys. *)

From S2P Require Import Prelude External BTreeMap Types OrderBook Levels PriceTime BookFacts BookOps Matching MatchingRefine EngineFacts.
From Stdlib Require Import Strings.Byte.

(** ** Data and operations *)

Section snapshot.
Context {DA : DecimalApi} {UA : UuidApi} {SA : SlabApi}.

Record SnapshotOrder := mkSnapshotOrder {
  so_id : OrderId;
  so_market_id : string;
  so_side : Side;
  so_order_type : OrderType;
  so_price : Decimal;
  so_quantity : Decimal;
  so_filled : Decimal;
  so_status : OrderStatus;
  so_sequence : Z
}.

Record BookSnapshot := mkBookSnapshot {
  bs_market_id : string;
  bs_sequence : Z;
  bs_orders : list SnapshotOrder
}.

(** The body of the loop of [serialize_book]; the default decimal is zero. *)
Definition snapshot_order (order : Order) : SnapshotOrder :=
  {| so_id := o_id order; so_market_id := o_market_id order; so_side := o_side order;
     so_order_type := o_order_type order; so_price := default dec_ZERO (o_price order);
     so_quantity := o_quantity order; so_filled := o_filled order;
     so_status := o_status order; so_sequence := o_sequence order |}.

Definition book_snapshot (book : OrderBook) (market_id : string) (sequence : Z) : BookSnapshot :=
  {| bs_market_id := market_id; bs_sequence := sequence;
     bs_orders := (fun kv => snapshot_order kv.2) <$> slab_iter (ob_orders book) |}.

(** The order the loop of [deserialize_book] builds. *)
Definition restore_order (so : SnapshotOrder) : Order :=
  {| o_id := so_id so; o_market_id := so_market_id so; o_side := so_side so;
     o_order_type := so_order_type so; o_price := Some (so_price so);
     o_quantity := so_quantity so; o_filled := so_filled so;
     o_status := so_status so; o_sequence := so_sequence so |}.

Fixpoint restore_book (sos : list SnapshotOrder) (book : OrderBook) : outcome OrderBook :=
  match sos with
  | [] => Ret book
  | so :: sos =>
      let order := restore_order so in
      if is_complete order then restore_book sos book
      else
        let! (book, _) := insert_order book order in
        restore_book sos book
  end.

Context {PC : Postcard BookSnapshot}.

(** [serialize_book]; [None] is the codec's error. *)
Definition serialize_book (book : OrderBook) (market_id : string) (sequence : Z) :
    option (list byte) :=
  to_allocvec (book_snapshot book market_id sequence).

(** [deserialize_book] *)
Definition deserialize_book (bytes : list byte) : outcome (option (OrderBook * BookSnapshot)) :=
  match from_bytes bytes with
  | None => Ret None
  | Some snapshot =>
      let! book := restore_book (bs_orders snapshot) OrderBook_new in
      Ret (Some (book, snapshot))
  end.
End snapshot.

Arguments BookSnapshot : clear implicits.
Arguments BookSnapshot {DA UA}.
Arguments SnapshotOrder : clear implicits.
Arguments SnapshotOrder {DA UA}.

(** ** Restoring by insertion *)

Section restore.
Context {DA : DecimalApi} {DL : DecimalLaws DA} {UA : UuidApi}
  {SA : SlabApi} {SL : SlabLaws SA}.
Context (lot : Z).

Implicit Types (b : OrderBook) (o : Order) (os : list Order).

(** An order a snapshot gives back as it was. *)
Definition portable o : Prop :=
  is_Some (o_price o) /\ dec_le (o_quantity o) dec_ZERO = false /\ is_complete o = false.

Lemma restore_snapshot_order o : is_Some (o_price o) -> restore_order (snapshot_order o) = o.
Proof. intros [p Hp]. destruct o. cbn in *. by rewrite Hp. Qed.

(** The queue of a side after inserting [os] one by one. *)
Definition insert_all sd os (q : list aorder) : list aorder :=
  foldl (fun q o => q_insert sd (abs_order lot o) q) q (filter (fun o => o_side o = sd) os).

Lemma restore_step sd b b' o :
  abs_queue lot (o_side o) b' = q_insert (o_side o) (abs_order lot o) (abs_queue lot (o_side o) b) ->
  (forall sd, sd <> o_side o -> queue sd b' = queue sd b) ->
  abs_queue lot sd b' = insert_all sd [o] (abs_queue lot sd b).
Proof.
  intros Hq Hoth. unfold insert_all. rewrite filter_cons. case_decide as Hs; cbn.
  - by rewrite <-Hs.
  - unfold abs_queue. by rewrite Hoth.
Qed.

Lemma insert_all_cons sd o os q :
  insert_all sd (o :: os) q = insert_all sd os (insert_all sd [o] q).
Proof. unfold insert_all. rewrite !filter_cons. by case_decide. Qed.

Lemma restore_book_portable os b :
  book_wf b -> Forall portable os ->
  exists b', restore_book (snapshot_order <$> os) b = Ret b' /\ book_wf b' /\
    (forall sd, abs_queue lot sd b' = insert_all sd os (abs_queue lot sd b)) /\
    (forall P : Order -> Prop, Forall P os -> book_all P b -> book_all P b').
Proof.
  intros Hwf Hos. revert b Hwf. induction Hos as [|o os (Hp & Hq & Hc) Hos IH]; intros b Hwf.
  - exists b. split_and!; auto.
  - cbn [fmap list_fmap restore_book]. rewrite restore_snapshot_order, Hc by done.
    destruct Hp as [p Hp].
    destruct (insert_order_ok lot b o p Hwf Hp Hq) as (k & b1 & -> & Hwf1 & _ & Hg & _ & Habs & Hoth).
    cbn [obind]. destruct (IH b1 Hwf1) as (b' & -> & Hwf' & Hqs & HP). exists b'.
    split_and!; try done.
    + intros sd. rewrite Hqs, insert_all_cons. f_equal. by apply restore_step.
    + intros P [Ho Hall]%Forall_cons Hb. apply HP; [done|]. intros j o'. rewrite Hg.
      case_decide; [by intros [= <-]|apply Hb].
Qed.

(** Restoring never fails: what cannot rest is skipped, and the result is a
    well-formed book of orders that are not complete. *)
Lemma restore_book_total (sos : list SnapshotOrder) b :
  book_wf b -> book_all (fun o => is_complete o = false) b ->
  exists b', restore_book sos b = Ret b' /\ book_wf b' /\
    book_all (fun o => is_complete o = false) b'.
Proof.
  revert b. induction sos as [|so sos IH]; intros b Hwf Hall; [by exists b|].
  cbn [restore_book]. destruct (is_complete (restore_order so)) eqn:Hc; [by apply IH|].
  destruct (dec_le (o_quantity (restore_order so)) dec_ZERO) eqn:Hq.
  - rewrite (insert_order_quantity _ _ (so_price so)) by done. by apply IH.
  - destruct (insert_order_ok lot b (restore_order so) (so_price so) Hwf eq_refl Hq)
      as (k & b1 & -> & Hwf1 & _ & Hg & _). cbn [obind]. apply IH; [done|].
    intros j o'. rewrite Hg. case_decide; [by intros [= <-]|apply Hall].
Qed.

Lemma insert_all_perm sd os q :
  insert_all sd os q ≡ₚ (abs_order lot <$> filter (fun o => o_side o = sd) os) ++ q.
Proof.
  unfold insert_all. revert q. induction (filter _ os) as [|o os' IH]; intros q; cbn; [done|].
  rewrite IH, q_insert_perm. symmetry. apply Permutation_middle.
Qed.

(** ** The orders of a side, by key and by priority *)

Definition keyed_queue sd b : list (nat * Order) :=
  omap (fun k => pair k <$> slab_get (ob_orders b) k) (entries sd (side_map sd b)).*2.

Definition keyed_slab sd b : list (nat * Order) :=
  filter (fun kv => o_side kv.2 = sd) (slab_iter (ob_orders b)).

Lemma keyed_queue_orders sd b : (keyed_queue sd b).*2 = queue sd b.
Proof.
  unfold keyed_queue, queue. induction ((entries sd (side_map sd b)).*2) as [|k ks IH]; [done|].
  cbn. destruct (slab_get (ob_orders b) k); cbn; by rewrite <-IH.
Qed.

Lemma slab_by_key b : StronglySorted (fun a c => (a.1 < c.1)%nat) (slab_iter (ob_orders b)).
Proof. apply slab_iter_sorted. Qed.

Lemma sorted_filter {A : Type} (R : A -> A -> Prop) (P : A -> Prop) `{!forall x, Decision (P x)} (l : list A) :
  StronglySorted R l -> StronglySorted R (filter P l).
Proof.
  induction 1 as [|x l Hs IH Hx]; [constructor|]. rewrite filter_cons. case_decide; [|done].
  constructor; [done|]. rewrite Forall_forall in *. intros y [_ Hy]%list_elem_of_filter. by apply Hx.
Qed.

Lemma sorted_keys_nodup {A : Type} (l : list (nat * A)) :
  StronglySorted (fun a c => (a.1 < c.1)%nat) l -> NoDup l.*1.
Proof.
  induction 1 as [|[k a] l Hs IH Hx]; [constructor|]. cbn. constructor; [|done].
  rewrite Forall_forall in Hx. intros (kv & E & Hin)%list_elem_of_fmap. apply Hx in Hin.
  cbn in *. lia.
Qed.

(** Both list every resting order of the side once. *)
Lemma keyed_perm sd b : book_wf b -> keyed_slab sd b ≡ₚ keyed_queue sd b.
Proof.
  intros Hwf. destruct (wf_side b Hwf sd) as [_ _ Hes Hnd]. unfold keyed_queue.
  assert (Hk : (keyed_slab sd b).*1 ≡ₚ (entries sd (side_map sd b)).*2).
  { apply NoDup_Permutation; [|done|].
    - apply sorted_keys_nodup, sorted_filter, slab_by_key.
    - intros k. split.
      + intros ([k' o] & -> & [Ho Hin]%list_elem_of_filter)%list_elem_of_fmap. cbn in *.
        apply slab_iter_elem in Hin. rewrite <-Ho. by eapply wf_cover.
      + intros Hk. destruct (entry_ok_key _ _ _ _ Hes Hk) as (o & Hg & Ho).
        apply list_elem_of_fmap. exists (k, o). split; [done|]. apply list_elem_of_filter.
        split; [done|]. by apply slab_iter_elem. }
  rewrite <-Hk. clear Hk.
  assert (Hget : Forall (fun kv => slab_get (ob_orders b) kv.1 = Some kv.2) (keyed_slab sd b)).
  { apply Forall_forall. intros [k o] [_ Hin]%list_elem_of_filter. by apply slab_iter_elem. }
  induction Hget as [|[k o] l Hg _ IH]; [done|]. cbn in *. rewrite Hg. cbn. by rewrite <-IH.
Qed.

Lemma slab_side_orders sd b :
  filter (fun o => o_side o = sd) ((slab_iter (ob_orders b)).*2) = (keyed_slab sd b).*2.
Proof.
  unfold keyed_slab. induction (slab_iter (ob_orders b)) as [|[k o] l IH]; [done|].
  cbn [fmap list_fmap snd]. rewrite !filter_cons. cbn [snd]. by case_decide; cbn [fmap list_fmap snd]; rewrite IH.
Qed.

(** ** Stability *)

(** Better price first, at one price smaller key first. *)
Definition by_key sd (x y : nat * aorder) : Prop :=
  rank sd (a_price x.2) < rank sd (a_price y.2) \/
  (rank sd (a_price x.2) = rank sd (a_price y.2) /\ (x.1 < y.1)%nat).

(** Inserting in the order of the keys yields the order by price and key. *)
Lemma insert_stable sd (l q : list (nat * aorder)) :
  StronglySorted (fun a c => (a.1 < c.1)%nat) l -> l ≡ₚ q -> StronglySorted (by_key sd) q ->
  foldl (fun q a => q_insert sd a q) [] l.*2 = q.*2.
Proof.
  revert q. induction l as [|x l IH] using rev_ind; intros q Hl Hp Hq.
  - by apply Permutation_nil_l in Hp as <-.
  - rewrite fmap_app, foldl_app. cbn. apply StronglySorted_app in Hl as (Hlx & Hl & _).
    assert (Hx : x ∈ q) by (rewrite <-Hp; set_solver).
    apply list_elem_of_split in Hx as (q1 & q2 & ->).
    rewrite <-Permutation_cons_append, <-Permutation_middle in Hp.
    apply (Permutation_cons_inv (a:=x)) in Hp.
    apply StronglySorted_app in Hq as (H12 & H1 & [H2 Hx]%StronglySorted_inv).
    rewrite Forall_forall in Hx.
    rewrite (IH (q1 ++ q2) Hl Hp) by
      (apply StronglySorted_app_2; [intros y z Hy Hz; apply H12; set_solver|done..]).
    rewrite !fmap_app. cbn. apply q_insert_split; apply Forall_fmap, Forall_forall; intros y Hy; cbn.
    + destruct (H12 y x Hy ltac:(set_solver)) as [H|[H _]]; lia.
    + assert (Hl' : y ∈ l) by (rewrite Hp; set_solver).
      specialize (Hlx y x Hl' ltac:(set_solver)). cbn in Hlx.
      destruct (Hx y Hy) as [H|[_ H]]; lia.
Qed.
End restore.
