(* ===== verification/Codec.v ===== *)
(** * A concrete codec

    An instance of the [postcard] interface for every countable type, and the
    countability of the types the program encodes: orders, fills and snapshots.
    The witnesses use it; the properties hold for every codec with its law. *)

From S2P Require Import Prelude External BTreeMap Types OrderBook Concrete Snapshot.
From Stdlib Require Import Strings.Byte Eqdep_dec.

(** ** Bits as bytes *)

Fixpoint bits (p : positive) : list byte :=
  match p with
  | xH => []
  | xO p => x00 :: bits p
  | xI p => x01 :: bits p
  end.

Fixpoint unbits (l : list byte) : positive :=
  match l with
  | [] => xH
  | x00 :: l => xO (unbits l)
  | _ :: l => xI (unbits l)
  end.

Lemma unbits_bits (p : positive) : unbits (bits p) = p.
Proof. induction p as [p IH|p IH|]; cbn; by rewrite ?IH. Qed.

#[export] Instance countable_postcard (A : Type) `{Countable A} : Postcard A := {|
  to_allocvec := fun a => Some (bits (encode a));
  from_bytes := fun l => decode (unbits l)
|}.

#[export] Instance countable_postcard_laws (A : Type) `{Countable A} :
  PostcardLaws A (countable_postcard A).
Proof. intros a b [= <-]. cbn. by rewrite unbits_bits, decode_encode. Qed.

(** ** Countable data *)

#[export] Instance Side_countable : Countable Side :=
  inj_countable' (fun s => match s with Bid => true | Ask => false end)
    (fun b : bool => if b then Bid else Ask) ltac:(by intros []).

#[export] Instance OrderType_countable : Countable OrderType :=
  inj_countable' (fun s => match s with Limit => true | Market => false end)
    (fun b : bool => if b then Limit else Market) ltac:(by intros []).

#[export] Instance OrderStatus_countable : Countable OrderStatus :=
  inj_countable'
    (fun s => match s with Open => (true, true) | PartiallyFilled => (true, false)
                         | Filled => (false, true) | Cancelled => (false, false) end)
    (fun b : bool * bool => match b with (true, true) => Open | (true, false) => PartiallyFilled
                         | (false, true) => Filled | (false, false) => Cancelled end)
    ltac:(by intros []).

#[export] Instance Dec_eq_dec : EqDecision Dec.t.
Proof.
  intros [m s w] [m' s' w']. destruct (decide (m = m')) as [->|]; [|right; congruence].
  destruct (decide (s = s')) as [->|]; [left|right; congruence].
  f_equal. apply UIP_dec. apply Bool.bool_dec.
Defined.

#[export] Instance Dec_countable : Countable Dec.t.
Proof.
  refine (inj_countable (fun d => (Dec.mant d, Dec.sc d)) (fun ms => Dec.make ms.1 ms.2) _).
  intros [m s w]. cbn. unfold Dec.make. destruct (Bool.bool_dec (Dec.ok m s) true) as [w'|]; [|done].
  f_equal. f_equal. apply UIP_dec. apply Bool.bool_dec.
Defined.

#[export] Instance Decimal_eq_dec : EqDecision (Decimal (DecimalApi := dec_api)) := Dec_eq_dec.
#[export] Instance Decimal_countable : Countable (Decimal (DecimalApi := dec_api)) := Dec_countable.

#[export] Instance Order_eq_dec : EqDecision (Order (DA := dec_api) (UA := uuid_api)).
Proof. solve_decision. Defined.

#[export] Instance Order_countable : Countable (Order (DA := dec_api) (UA := uuid_api)).
Proof.
  refine (inj_countable'
    (fun o => (o_id o, o_market_id o, o_side o, o_order_type o, o_price o, o_quantity o,
               o_filled o, o_status o, o_sequence o))
    (fun '(i, m, sd, ty, p, q, f, st, n) => mkOrder i m sd ty p q f st n) _).
  by intros [].
Defined.

#[export] Instance Fill_eq_dec : EqDecision (Fill (DA := dec_api) (UA := uuid_api)).
Proof. solve_decision. Defined.

#[export] Instance Fill_countable : Countable (Fill (DA := dec_api) (UA := uuid_api)).
Proof.
  refine (inj_countable'
    (fun f => (f_maker_order_id f, f_taker_order_id f, f_price f, f_quantity f, f_sequence f))
    (fun '(m, t, p, q, n) => mkFill m t p q n) _).
  by intros [].
Defined.

#[export] Instance SnapshotOrder_eq_dec : EqDecision (SnapshotOrder (DA := dec_api) (UA := uuid_api)).
Proof. solve_decision. Defined.

#[export] Instance SnapshotOrder_countable : Countable (SnapshotOrder (DA := dec_api) (UA := uuid_api)).
Proof.
  refine (inj_countable'
    (fun o => (so_id o, so_market_id o, so_side o, so_order_type o, so_price o, so_quantity o,
               so_filled o, so_status o, so_sequence o))
    (fun '(i, m, sd, ty, p, q, f, st, n) => mkSnapshotOrder i m sd ty p q f st n) _).
  by intros [].
Defined.

#[export] Instance BookSnapshot_eq_dec : EqDecision (BookSnapshot (DA := dec_api) (UA := uuid_api)).
Proof. solve_decision. Defined.

#[export] Instance BookSnapshot_countable : Countable (BookSnapshot (DA := dec_api) (UA := uuid_api)).
Proof.
  refine (inj_countable'
    (fun s => (bs_market_id s, bs_sequence s, bs_orders s))
    (fun '(m, n, os) => mkBookSnapshot m n os) _).
  by intros [].
Defined.
