(* ===== verification/SnapshotProps.v ===== *)
(** * Properties of snapshots

    What a book keeps when it is serialized and restored, what it may lose, and
    that restoring never fails on any input. *)

From S2P Require Import Prelude External BTreeMap Types OrderBook Levels PriceTime BookFacts BookOps Matching Concrete MatchingRefine EngineFacts Runs Samples Snapshot Codec.
From Stdlib Require Import Strings.Byte.

(** ** Helper facts *)

Section facts.
Context {DA : DecimalApi} {DL : DecimalLaws DA} {UA : UuidApi}
  {SA : SlabApi} {SL : SlabLaws SA}.
Context (lot : Z) (Hlot : 0 <= lot <= 28).

Implicit Types (b : OrderBook) (o : Order).

(** Two sorted queues of the same orders agree on the best price. *)
Lemma head_sorted_perm sd (q q' : list aorder) :
  q_sorted sd q -> q_sorted sd q' -> q ≡ₚ q' -> a_price <$> head q = a_price <$> head q'.
Proof.
  intros Hs Hs' Hp. destruct q as [|a q]; [by apply Permutation_nil_l in Hp as <-|].
  destruct q' as [|a' q']; [by apply Permutation_nil_r in Hp|].
  apply StronglySorted_inv in Hs as [_ Hs]. apply StronglySorted_inv in Hs' as [_ Hs'].
  rewrite Forall_forall in Hs, Hs'.
  assert (H1 : a' ∈ a :: q) by (rewrite Hp; by left).
  assert (H2 : a ∈ a' :: q') by (rewrite <-Hp; by left).
  cbn. f_equal. apply elem_of_cons in H1 as [->|H1]; [done|].
  apply elem_of_cons in H2 as [->|H2]; [done|].
  apply Hs in H1. apply Hs' in H2. destruct sd; cbn in *; lia.
Qed.

(** The resting orders a snapshot carries. *)
Definition snapshot_ok b : Prop :=
  book_wf b /\ book_all (resting_ok lot) b /\ book_all (fun o => is_complete o = false) b.

Lemma resting_portable b k o :
  snapshot_ok b -> slab_get (ob_orders b) k = Some o -> portable o.
Proof.
  intros (Hwf & Hall & Hlive) Hg. destruct (wf_entry b k o Hwf Hg) as (_ & _ & q & _ & _ & Hq & _).
  split_and!; [by exists q| |by eapply Hlive]. apply Hall in Hg as [(Ha & _ & H0) Hlt].
  rewrite (dec_le_ZERO_lots lot) by done. apply Z.leb_gt. lia.
Qed.

Lemma slab_orders_portable b : snapshot_ok b -> Forall portable (slab_iter (ob_orders b)).*2.
Proof.
  intros Hok. apply Forall_fmap, Forall_forall. intros [k o] Hin.
  apply slab_iter_elem in Hin. by eapply resting_portable.
Qed.

Context {PC : Postcard BookSnapshot} {PL : PostcardLaws _ PC}.

(** Decoding the encoding of a book restores its orders in the order of their keys. *)
Lemma deserialize_serialized b market seq bytes :
  snapshot_ok b -> serialize_book b market seq = Some bytes ->
  exists b', deserialize_book bytes = Ret (Some (b', book_snapshot b market seq)) /\
    snapshot_ok b' /\
    forall sd, abs_queue lot sd b' = insert_all lot sd (slab_iter (ob_orders b)).*2 [].
Proof.
  intros Hok Hb. unfold serialize_book in Hb. apply postcard_roundtrip in Hb.
  unfold deserialize_book. rewrite Hb. unfold book_snapshot at 1. cbn [bs_orders].
  assert (E : forall l : list (nat * Order),
    (fun kv => snapshot_order kv.2) <$> l = snapshot_order <$> l.*2)
    by (intros l; by rewrite <-list_fmap_compose).
  rewrite E. clear E.
  destruct (restore_book_portable lot _ _ book_new_wf (slab_orders_portable b Hok))
    as (b' & -> & Hwf' & Hq & HP).
  exists b'. split; [done|]. destruct Hok as (Hwf & Hall & Hlive).
  assert (Hin : forall P : Order -> Prop, book_all P b -> book_all P b').
  { intros P H. apply HP.
    - apply Forall_fmap, Forall_forall. intros [k o] Hin. apply slab_iter_elem in Hin. by eapply H.
    - intros k o. cbn. by rewrite slab_get_new. }
  split; [split_and!; [done|by apply Hin..]|].
  intros sd. rewrite Hq. unfold abs_queue. by rewrite queue_new.
Qed.

Lemma insert_all_slab sd b :
  insert_all lot sd (slab_iter (ob_orders b)).*2 [] =
  foldl (fun q a => q_insert sd a q) [] (prod_map id (abs_order lot) <$> keyed_slab sd b).*2.
Proof.
  unfold insert_all. rewrite slab_side_orders. generalize (@nil aorder).
  induction (keyed_slab sd b) as [|[k o] l IH]; intros q; [done|]. cbn. apply IH.
Qed.

(** When keys grow with arrival within every price, insertion by key rebuilds the
    queues. *)
Lemma insert_all_by_key sd b :
  book_wf b -> StronglySorted (by_key sd) (prod_map id (abs_order lot) <$> keyed_queue sd b) ->
  insert_all lot sd (slab_iter (ob_orders b)).*2 [] = abs_queue lot sd b.
Proof.
  intros Hwf Hs. rewrite insert_all_slab.
  rewrite (insert_stable sd _ (prod_map id (abs_order lot) <$> keyed_queue sd b)); [| | |done].
  - unfold abs_queue. rewrite <-keyed_queue_orders, <-!list_fmap_compose. done.
  - pose proof (sorted_filter _ (fun kv : nat * Order => o_side kv.2 = sd) _ (slab_by_key b)) as H.
    fold (keyed_slab sd b) in H. revert H. generalize (keyed_slab sd b). clear.
    induction 1 as [|kv l Hs IH Hx]; [constructor|]. cbn. constructor; [done|].
    apply Forall_fmap. by eapply Forall_impl.
  - by rewrite keyed_perm.
Qed.
End facts.

(** ** Slab keys *)

Section keys.
Context {DA : DecimalApi} {DL : DecimalLaws DA} {UA : UuidApi}
  {SA : SlabApi} {SL : SlabLaws SA}.

Implicit Types (b : OrderBook) (o : Order).

(** The slab [insert_order] leaves, and the one [cancel_order] leaves. *)
Lemma insert_order_slab b o k b' :
  insert_order b o = Ret (b', Ok k) -> slab_insert (ob_orders b) o = (k, ob_orders b').
Proof.
  unfold insert_order. destruct (o_price o); [|done]. destruct (dec_le _ _); [done|].
  destruct (slab_insert (ob_orders b) o) as [k' s]. intros H. inv_bind H. simplify_eq.
  by rewrite ob_orders_set_side.
Qed.

Lemma cancel_order_slab b id b' :
  cancel_order b id = Ret (b', Ok tt) ->
  exists k s v, ob_index b !! id = Some k /\ slab_try_remove s k = Some (v, ob_orders b').
Proof.
  unfold cancel_order. destruct (ob_index b !! id) as [k|]; [|done]. intros H. inv_bind H.
  destruct (is_complete a); [done|]. destruct (o_price a); [|done]. inv_bind H. simplify_eq.
  destruct a0 as [v s']. exists k. cbn.
  match goal with X : or_panic (slab_try_remove ?s k) = _ |- _ =>
    exists s, v; split; [done|]; destruct (slab_try_remove s k) as [[]|]; by simplify_eq/= end.
Qed.

(** The content of a slab, listed by key. *)
Lemma slab_iter_is (s : Slab Order) (l : list (nat * Order)) :
  StronglySorted (fun a c => (fst a < fst c)%nat) l ->
  (forall k o, slab_get s k = Some o <-> (k, o) ∈ l) -> slab_iter s = l.
Proof.
  intros Hl Hg. pose proof (slab_iter_sorted s) as Hs.
  eapply StronglySorted_unique_strong; [|exact Hs|exact Hl|].
  - intros [k1 o1] [k2 o2] _ _ H1 H2. cbn in *. lia.
  - apply NoDup_Permutation.
    + eapply NoDup_fmap_1, (sorted_keys_nodup (A := Order)). exact Hs.
    + eapply NoDup_fmap_1, (sorted_keys_nodup (A := Order)). exact Hl.
    + intros [k o]. by rewrite slab_iter_elem, Hg.
Qed.

Lemma queue_single b k o :
  book_wf b -> (forall j o', slab_get (ob_orders b) j = Some o' <-> j = k /\ o' = o) ->
  queue (o_side o) b = [o].
Proof.
  intros Hwf Hg. pose proof (keyed_perm (o_side o) b Hwf) as Hp. unfold keyed_slab in Hp.
  rewrite (slab_iter_is _ [(k, o)]) in Hp.
  - rewrite filter_cons_True, <-keyed_queue_orders in * by done.
    apply (fmap_Permutation snd) in Hp. by apply Permutation_singleton_l in Hp.
  - repeat constructor.
  - intros j o'. rewrite Hg, list_elem_of_singleton. naive_solver.
Qed.
End keys.

(** ** Properties *)

Section properties.
Context {DA : DecimalApi} {DL : DecimalLaws DA} {UA : UuidApi}
  {SA : SlabApi} {SL : SlabLaws SA}
  {PC : Postcard BookSnapshot} {PL : PostcardLaws _ PC}.
Context (lot : Z) (Hlot : 0 <= lot <= 28).

Implicit Types (b : OrderBook) (o : Order).

(** C8. A snapshot round trip keeps the market and sequence it was taken with and
    the book as a set of orders: each side has the same orders, the same best
    price and the same depth at every price, and the restored book is one the
    engine can run on. *)
Theorem snapshot_roundtrip b (market : string) (seq : Z) (bytes : list byte) :
  snapshot_ok lot b -> serialize_book b market seq = Some bytes ->
  exists b' snap, deserialize_book bytes = Ret (Some (b', snap)) /\
    bs_market_id snap = market /\ bs_sequence snap = seq /\
    engine_inv lot (set_book b' (MatchingEngine_new market)) /\
    forall sd, abs_queue lot sd b' ≡ₚ abs_queue lot sd b /\
      dec_val <$> best_price sd b' = dec_val <$> best_price sd b /\
      forall p, level_depth b' sd p = level_depth b sd p.
Proof.
  intros Hok Hb. destruct (deserialize_serialized lot Hlot b market seq bytes Hok Hb) as (b' & E & Hok' & Hq).
  exists b', (book_snapshot b market seq). split; [done|]. split; [done|]. split; [done|].
  destruct Hok as (Hwf & _), Hok' as (Hwf' & Hall' & _). split; [done|]. intros sd.
  assert (Hp : abs_queue lot sd b' ≡ₚ abs_queue lot sd b).
  { rewrite Hq, insert_all_perm, app_nil_r, slab_side_orders, (keyed_perm sd b Hwf).
    by rewrite keyed_queue_orders. }
  split; [done|]. rewrite !(best_price_queue lot) by done. split.
  - apply (head_sorted_perm sd); [by apply abs_queue_sorted..|done].
  - intros p. rewrite !(level_depth_abs lot) by done. by rewrite Hp.
Qed.

(** A round trip keeps time priority, the queues being equal and not only the
    same orders, whenever within every price the slab keys grow with arrival. *)
Theorem snapshot_keeps_priority b (market : string) (seq : Z) (bytes : list byte) :
  snapshot_ok lot b -> serialize_book b market seq = Some bytes ->
  (forall sd, StronglySorted (by_key sd) (prod_map id (abs_order lot) <$> keyed_queue sd b)) ->
  exists b' snap, deserialize_book bytes = Ret (Some (b', snap)) /\
    forall sd, abs_queue lot sd b' = abs_queue lot sd b.
Proof.
  intros Hok Hb Hs. destruct (deserialize_serialized lot Hlot b market seq bytes Hok Hb) as (b' & E & _ & Hq).
  eexists b', _. split; [exact E|]. intros sd. rewrite Hq. apply insert_all_by_key; [apply Hok|apply Hs].
Qed.

(** Restoring is total: whatever bytes are read, the answer is the codec's
    error or a well-formed book without completed orders; nothing panics. *)
Theorem deserialize_book_total (bytes : list byte) :
  deserialize_book bytes = Ret None \/
  exists b snap, deserialize_book bytes = Ret (Some (b, snap)) /\ book_wf b /\
    book_all (fun o => is_complete o = false) b.
Proof.
  unfold deserialize_book. destruct (from_bytes bytes) as [snap|]; [right|by left].
  destruct (restore_book_total lot (bs_orders snap) OrderBook_new book_new_wf) as (b & -> & Hwf & Hall).
  - intros k o. cbn. by rewrite slab_get_new.
  - by exists b, snap.
Qed.

(** A slab key used twice: after inserting [x] and [a], cancelling [x] and inserting
    [c], the orders [c] and [a] have the keys 0 and 1. *)
Lemma reused_key_book (x a c : Order) :
  portable x -> portable a -> portable c -> o_id a <> o_id x -> o_side a = o_side c ->
  exists k1 k2 k3 b1 b2 b3 b, insert_order OrderBook_new x = Ret (b1, Ok k1) /\
    insert_order b1 a = Ret (b2, Ok k2) /\ cancel_order b2 (o_id x) = Ret (b3, Ok tt) /\
    insert_order b3 c = Ret (b, Ok k3) /\ book_wf b /\
    slab_iter (ob_orders b) = [(0%nat, c); (1%nat, a)] /\
    abs_queue lot (o_side c) b = q_insert (o_side c) (abs_order lot c) [abs_order lot a].
Proof.
  intros ([px Hpx] & Hqx & Hcx) ([pa Hpa] & Hqa & Hca) ([pc Hpc] & Hqc & Hcc) Hid Hsd.
  destruct (insert_order_ok lot OrderBook_new x px book_new_wf Hpx Hqx)
    as (k1 & b1 & E1 & Hwf1 & _ & Hg1 & Hi1 & _).
  destruct (insert_order_ok lot b1 a pa Hwf1 Hpa Hqa) as (k2 & b2 & E2 & Hwf2 & _ & Hg2 & Hi2 & _).
  pose proof (insert_order_slab _ _ _ _ E1) as S1. pose proof (insert_order_slab _ _ _ _ E2) as S2.
  assert (K1 : k1 = 0%nat) by (exact (slab_insert_seq [] x k1 _ S1)).
  assert (K2 : k2 = 1%nat).
  { apply (slab_insert_seq [x] a k2 (ob_orders b2)). unfold slab_of_list. cbn. cbn in S1.
    by rewrite S1. }
  assert (Hx : slab_get (ob_orders b2) k1 = Some x).
  { rewrite Hg2, decide_False, Hg1, decide_True by congruence. done. }
  assert (Hix : ob_index b2 !! o_id x = Some k1).
  { rewrite Hi2, lookup_insert_ne, Hi1 by done. apply lookup_insert_eq. }
  destruct (cancel_order_ok b2 (o_id x) k1 x Hwf2 Hix Hx Hcx) as (b3 & _ & _ & E3 & Hwf3 & Hg3 & _).
  destruct (insert_order_ok lot b3 c pc Hwf3 Hpc Hqc) as (k3 & b & E4 & Hwf & _ & Hg & _ & Hq & _).
  assert (K3 : k3 = k1).
  { destruct (cancel_order_slab _ _ _ E3) as (k & s & v & Hk & Hr).
    pose proof (insert_order_slab _ _ _ _ E4) as S4. rewrite Hix in Hk. injection Hk as <-.
    by eapply slab_insert_reuse. }
  subst k1 k2 k3. exists 0%nat, 1%nat, 0%nat, b1, b2, b3, b. do 5 (split; [done|]).
  assert (Hg0 : forall j, slab_get (ob_orders (OrderBook_new : OrderBook)) j = None)
    by (intros j; apply slab_get_new).
  split.
  - apply slab_iter_is; [by repeat constructor|]. intros j o.
    rewrite Hg, Hg3, Hg2, Hg1, Hg0, elem_of_cons, list_elem_of_singleton.
    repeat case_decide; naive_solver.
  - rewrite Hq. f_equal. unfold abs_queue. rewrite <-Hsd, (queue_single b3 1 a Hwf3); [done|].
    intros j o. rewrite Hg3, Hg2, Hg1, Hg0. repeat case_decide; naive_solver.
Qed.

(** C27. Time priority is lost when a slab key is reused: after inserting [x] and
    [a], cancelling [x] and inserting [c] at [a]'s price, [a] is ahead of [c] in
    the book, but [c] occupies the lower key, so the book restored from a
    snapshot has [c] ahead of [a]. *)
Theorem snapshot_inverts_priority (x a c : Order) :
  portable x -> portable a -> portable c ->
  resting_ok lot a -> resting_ok lot c -> o_id a <> o_id x ->
  o_side a = o_side c -> o_price a = o_price c ->
  exists k1 k2 k3 b1 b2 b3 b, insert_order OrderBook_new x = Ret (b1, Ok k1) /\
    insert_order b1 a = Ret (b2, Ok k2) /\ cancel_order b2 (o_id x) = Ret (b3, Ok tt) /\
    insert_order b3 c = Ret (b, Ok k3) /\
    abs_queue lot (o_side c) b = [abs_order lot a; abs_order lot c] /\
    forall market seq bytes, serialize_book b market seq = Some bytes ->
      exists b' snap, deserialize_book bytes = Ret (Some (b', snap)) /\
        abs_queue lot (o_side c) b' = [abs_order lot c; abs_order lot a].
Proof.
  intros Hx Ha Hc Hra Hrc Hid Hsd Hp.
  destruct (reused_key_book x a c Hx Ha Hc Hid Hsd)
    as (k1 & k2 & k3 & b1 & b2 & b3 & b & E1 & E2 & E3 & E4 & Hwf & Hit & Hq).
  exists k1, k2, k3, b1, b2, b3, b. do 4 (split; [done|]).
  assert (Hins : forall u v, a_price u = a_price v -> q_insert (o_side c) v [u] = [u; v]).
  { intros u v E. cbn. rewrite E. by rewrite Z.ltb_irrefl. }
  split; [rewrite Hq; apply Hins; cbn; by rewrite Hp|].
  assert (Hok : snapshot_ok lot b).
  { split; [done|]. split; intros j o Hg; apply slab_iter_elem in Hg; rewrite Hit in Hg;
      apply elem_of_cons in Hg as [[= -> ->]|[= -> ->]%list_elem_of_singleton]; try done;
      [apply Hc|apply Ha]. }
  intros market seq bytes Hb.
  destruct (deserialize_serialized lot Hlot b market seq bytes Hok Hb) as (b' & E & _ & Hq').
  eexists b', _. split; [exact E|]. rewrite Hq', Hit. unfold insert_all. cbn [fmap list_fmap snd].
  rewrite !filter_cons, Hsd, !decide_True by done. cbn [foldl filter list_filter].
  apply Hins. cbn. by rewrite Hp.
Qed.
End properties.

(** ** Witnesses *)

Definition sample_bytes : list byte :=
  default [] (serialize_book (eng_book sample_engine) "SOL/USDC" 5).

Lemma sample_snapshot_ok : snapshot_ok 2 (eng_book sample_engine).
Proof.
  split_and!; [apply sample_inv|apply sample_inv|].
  apply (run_engine_live 2 sample_commands); [lia|vm_compute; reflexivity].
Qed.

Lemma snapshot_roundtrip_witness :
  exists b' snap, deserialize_book sample_bytes = Ret (Some (b', snap)) /\
    bs_market_id snap = "SOL/USDC" /\ bs_sequence snap = 5 /\
    engine_inv 2 (set_book b' (MatchingEngine_new "SOL/USDC")) /\
    forall sd, abs_queue 2 sd b' ≡ₚ abs_queue 2 sd (eng_book sample_engine) /\
      dec_val <$> best_price sd b' = dec_val <$> best_price sd (eng_book sample_engine) /\
      forall p, level_depth b' sd p = level_depth (eng_book sample_engine) sd p.
Proof.
  apply (snapshot_roundtrip 2 ltac:(lia) (eng_book sample_engine) "SOL/USDC" 5 sample_bytes
    sample_snapshot_ok). reflexivity.
Defined.

Lemma snapshot_keeps_priority_witness :
  exists b' snap, deserialize_book sample_bytes = Ret (Some (b', snap)) /\
    forall sd, abs_queue 2 sd b' = abs_queue 2 sd (eng_book sample_engine).
Proof.
  apply (snapshot_keeps_priority 2 ltac:(lia) (eng_book sample_engine) "SOL/USDC" 5 sample_bytes
    sample_snapshot_ok); [reflexivity|].
  intros [|]; vm_compute; repeat first [apply SSorted_nil | apply SSorted_cons | apply Forall_nil_2
    | apply Forall_cons_2]; (left; reflexivity) || (right; split; [reflexivity|lia]).
Defined.

Lemma snapshot_inverts_priority_witness :
  exists k1 k2 k3 b1 b2 b3 b, insert_order OrderBook_new (limit 1 Ask 990 100) = Ret (b1, Ok k1) /\
    insert_order b1 (limit 2 Ask 1000 100) = Ret (b2, Ok k2) /\
    cancel_order b2 (oid 1) = Ret (b3, Ok tt) /\
    insert_order b3 (limit 3 Ask 1000 100) = Ret (b, Ok k3) /\
    abs_queue 2 Ask b = [abs_order 2 (limit 2 Ask 1000 100); abs_order 2 (limit 3 Ask 1000 100)] /\
    forall market seq bytes, serialize_book b market seq = Some bytes ->
      exists b' snap, deserialize_book bytes = Ret (Some (b', snap)) /\
        abs_queue 2 Ask b' = [abs_order 2 (limit 3 Ask 1000 100); abs_order 2 (limit 2 Ask 1000 100)].
Proof.
  assert (H : forall n p, portable (limit n Ask p 100)) by (intros n p; split_and!; [by eexists|reflexivity..]).
  assert (R : forall n p, resting_ok 2 (limit n Ask p 100)).
  { intros n p. split; [by apply order_ok_sound|reflexivity]. }
  apply (snapshot_inverts_priority 2 ltac:(lia) (limit 1 Ask 990 100) (limit 2 Ask 1000 100)
    (limit 3 Ask 1000 100) (H _ _) (H _ _) (H _ _) (R _ _) (R _ _)); done.
Defined.

Lemma deserialize_book_total_witness :
  deserialize_book (sample_bytes ++ [x00]) = Ret None \/
  exists b snap, deserialize_book (sample_bytes ++ [x00]) = Ret (Some (b, snap)) /\ book_wf b /\
    book_all (fun o => is_complete o = false) b.
Proof. exact (deserialize_book_total 2 (sample_bytes ++ [x00])). Defined.
