(* ===== verification/Tests.v ===== *)
(** * The program's own unit tests, on the model

    Every [#[test]] of the [clob-engine] crate as a computation on the definitions: it
    returns when its assertions hold and panics otherwise. The ids that
    [Uuid::new_v4] draws are arguments. [unit_tests_pass] evaluates all of them with the
    instances of [Concrete]. *)

From S2P Require Import Prelude External BTreeMap Types OrderBook Levels PriceTime BookFacts BookOps Matching Concrete Snapshot Codec.
From Stdlib Require Import Strings.Byte.

(** ** Assertions *)

Definition assert (b : bool) : outcome unit := if b then Ret tt else Panic.

(** [unwrap] and [expect] *)
Definition unwrap {A E : Type} (r : result A E) : outcome A :=
  match r with Ok a => Ret a | Err _ => Panic end.

Fixpoint each {A : Type} (test : A -> outcome unit) (cases : list A) : outcome unit :=
  match cases with
  | [] => Ret tt
  | c :: cases => let! _ := test c in each test cases
  end.

(** Encoding then decoding; the assertions look at both values. *)
Definition round_trip {A : Type} {P : Postcard A} (check : A -> A -> bool) (a : A) : outcome unit :=
  let! encoded := or_panic (to_allocvec a) in
  let! decoded := or_panic (from_bytes encoded) in
  assert (check a decoded).

Definition contains (s part : string) : bool :=
  match String.index 0 part s with Some _ => true | None => false end.

Section tests.
Context {DA : DecimalApi} {UA : UuidApi} {SA : SlabApi}.

(** [==] on decimals and on options of them. *)
Definition dec_eqb (a b : Decimal) : bool := match dec_cmp a b with Eq => true | _ => false end.

Definition opt_dec_eqb (a b : option Decimal) : bool :=
  match a, b with
  | Some a, Some b => dec_eqb a b
  | None, None => true
  | _, _ => false
  end.

(** The literal [dec!(n)] of an integer. *)
Definition lit (n : Z) : Decimal := dec_new n 0.

Definition is_none {A : Type} (o : option A) : bool := match o with None => true | Some _ => false end.

(** ** orderbook.rs *)

Definition book_limit (id : Uuid) (side : Side) (price qty : Decimal) (seq : Z) : Order :=
  {| o_id := id; o_market_id := "SOL-USDC"; o_side := side; o_order_type := Limit;
     o_price := Some price; o_quantity := qty; o_filled := dec_ZERO; o_status := Open;
     o_sequence := seq |}.

(** [book.insert_order(order).expect("insert")] *)
Definition expect_insert (b : OrderBook) (o : Order) : outcome OrderBook :=
  let! (b, r) := insert_order b o in
  let! _ := unwrap r in Ret b.

Definition insert_bid_and_ask (id1 id2 : Uuid) : outcome unit :=
  let! book := expect_insert OrderBook_new (book_limit id1 Bid (lit 100) (lit 1) 1) in
  let! book := expect_insert book (book_limit id2 Ask (lit 101) (lit 1) 2) in
  let! _ := assert (opt_dec_eqb (best_bid book) (Some (lit 100))) in
  assert (opt_dec_eqb (best_ask book) (Some (lit 101))).

Definition best_bid_is_highest (id1 id2 id3 : Uuid) : outcome unit :=
  let! book := expect_insert OrderBook_new (book_limit id1 Bid (lit 99) (lit 1) 1) in
  let! book := expect_insert book (book_limit id2 Bid (lit 101) (lit 1) 2) in
  let! book := expect_insert book (book_limit id3 Bid (lit 100) (lit 1) 3) in
  assert (opt_dec_eqb (best_bid book) (Some (lit 101))).

Definition best_ask_is_lowest (id1 id2 id3 : Uuid) : outcome unit :=
  let! book := expect_insert OrderBook_new (book_limit id1 Ask (lit 102) (lit 1) 1) in
  let! book := expect_insert book (book_limit id2 Ask (lit 100) (lit 1) 2) in
  let! book := expect_insert book (book_limit id3 Ask (lit 101) (lit 1) 3) in
  assert (opt_dec_eqb (best_ask book) (Some (lit 100))).

Definition cancel_removes_from_level (id : Uuid) : outcome unit :=
  let! book := expect_insert OrderBook_new (book_limit id Bid (lit 100) (lit 5) 1) in
  let! (book, r) := cancel_order book id in
  let! _ := unwrap r in
  let! _ := assert (opt_dec_eqb (best_bid book) None) in
  assert (Nat.eqb (level_depth book Bid (lit 100)) 0).

Definition cancel_not_found_errors (id : Uuid) : outcome unit :=
  let! (_, result) := cancel_order OrderBook_new id in
  assert (match result with Err (NotFound _) => true | _ => false end).

Definition level_depth_multiple_orders (id1 id2 id3 : Uuid) : outcome unit :=
  let! book := expect_insert OrderBook_new (book_limit id1 Ask (lit 100) (lit 1) 1) in
  let! book := expect_insert book (book_limit id2 Ask (lit 100) (lit 2) 2) in
  let! book := expect_insert book (book_limit id3 Ask (lit 100) (lit 3) 3) in
  assert (Nat.eqb (level_depth book Ask (lit 100)) 3).

Definition empty_book_returns_none : outcome unit :=
  let book := OrderBook_new in
  let! _ := assert (opt_dec_eqb (best_bid book) None) in
  assert (opt_dec_eqb (best_ask book) None).

Definition market_order_insert_rejected (id : Uuid) : outcome unit :=
  let order := {| o_id := id; o_market_id := "SOL-USDC"; o_side := Bid; o_order_type := Market;
                  o_price := None; o_quantity := lit 1; o_filled := dec_ZERO; o_status := Open;
                  o_sequence := 1 |} in
  let! (_, result) := insert_order OrderBook_new order in
  assert (match result with Err MarketOrderNotAllowed => true | _ => false end).

(** ** matching.rs *)

Definition limit_order (id : Uuid) (side : Side) (price qty : Decimal) (seq : Z) : Order :=
  {| o_id := id; o_market_id := "SOL-USDC"; o_side := side; o_order_type := Limit;
     o_price := Some price; o_quantity := qty; o_filled := dec_ZERO; o_status := Open;
     o_sequence := seq |}.

Definition market_order (id : Uuid) (side : Side) (qty : Decimal) (seq : Z) : Order :=
  {| o_id := id; o_market_id := "SOL-USDC"; o_side := side; o_order_type := Market;
     o_price := None; o_quantity := qty; o_filled := dec_ZERO; o_status := Open;
     o_sequence := seq |}.

(** [eng.process_order(order).unwrap()] *)
Definition unwrap_process (eng : MatchingEngine) (o : Order) : outcome (MatchingEngine * ProcessResult) :=
  let! (eng, r) := process_order eng o in
  let! res := unwrap r in Ret (eng, res).

(** [match result { ProcessResult::Fills(fills) => ..., _ => panic! }] *)
Definition expect_fills (r : ProcessResult) (check : list Fill -> outcome unit) : outcome unit :=
  match r with Fills fills => check fills | _ => Panic end.

(** [fills[i]] *)
Definition nth_fill (fills : list Fill) (i : nat) : outcome Fill := or_panic (fills !! i).

Definition new_engine : MatchingEngine := MatchingEngine_new "SOL-USDC".

Definition limit_bid_matches_resting_ask (id1 id2 : Uuid) : outcome unit :=
  let! (eng, _) := unwrap_process new_engine (limit_order id1 Ask (lit 100) (lit 5) 1) in
  let! (_, result) := unwrap_process eng (limit_order id2 Bid (lit 100) (lit 5) 2) in
  expect_fills result (fun fills =>
    let! _ := assert (Nat.eqb (length fills) 1) in
    let! fill := nth_fill fills 0 in
    let! _ := assert (dec_eqb (f_price fill) (lit 100)) in
    assert (dec_eqb (f_quantity fill) (lit 5))).

Definition no_match_when_spread_exists (id1 id2 : Uuid) : outcome unit :=
  let! (eng, _) := unwrap_process new_engine (limit_order id1 Ask (lit 101) (lit 5) 1) in
  let! (eng, result) := unwrap_process eng (limit_order id2 Bid (lit 99) (lit 5) 2) in
  let! _ := assert (match result with Resting => true | _ => false end) in
  let! _ := assert (opt_dec_eqb (best_bid (eng_book eng)) (Some (lit 99))) in
  assert (opt_dec_eqb (best_ask (eng_book eng)) (Some (lit 101))).

Definition partial_fill_leaves_remainder_resting (id1 id2 : Uuid) : outcome unit :=
  let! (eng, _) := unwrap_process new_engine (limit_order id1 Ask (lit 100) (lit 3) 1) in
  let! (eng, result) := unwrap_process eng (limit_order id2 Bid (lit 100) (lit 5) 2) in
  expect_fills result (fun fills =>
    let! _ := assert (Nat.eqb (length fills) 1) in
    let! fill := nth_fill fills 0 in
    let! _ := assert (dec_eqb (f_quantity fill) (lit 3)) in
    let! _ := assert (opt_dec_eqb (best_bid (eng_book eng)) (Some (lit 100))) in
    assert (Nat.eqb (level_depth (eng_book eng) Bid (lit 100)) 1)).

Definition market_order_sweeps_multiple_levels (id1 id2 id3 id4 : Uuid) : outcome unit :=
  let! (eng, _) := unwrap_process new_engine (limit_order id1 Ask (lit 100) (lit 2) 1) in
  let! (eng, _) := unwrap_process eng (limit_order id2 Ask (lit 101) (lit 2) 2) in
  let! (eng, _) := unwrap_process eng (limit_order id3 Ask (lit 102) (lit 2) 3) in
  let! (eng, result) := unwrap_process eng (market_order id4 Bid (lit 6) 4) in
  let! _ := expect_fills result (fun fills =>
    let! _ := assert (Nat.eqb (length fills) 3) in
    let! fill := nth_fill fills 0 in
    let! _ := assert (dec_eqb (f_price fill) (lit 100)) in
    let! fill := nth_fill fills 1 in
    let! _ := assert (dec_eqb (f_price fill) (lit 101)) in
    let! fill := nth_fill fills 2 in
    assert (dec_eqb (f_price fill) (lit 102))) in
  assert (opt_dec_eqb (best_ask (eng_book eng)) None).

Definition market_order_partial_sweep_when_insufficient_liquidity (id1 id2 : Uuid) : outcome unit :=
  let! (eng, _) := unwrap_process new_engine (limit_order id1 Ask (lit 100) (lit 2) 1) in
  let! (_, result) := unwrap_process eng (market_order id2 Bid (lit 10) 2) in
  expect_fills result (fun fills =>
    let! _ := assert (Nat.eqb (length fills) 1) in
    let! fill := nth_fill fills 0 in
    assert (dec_eqb (f_quantity fill) (lit 2))).

Definition price_time_priority_respected (id1 id2 id3 id4 : Uuid) : outcome unit :=
  let! (eng, _) := unwrap_process new_engine (limit_order id1 Ask (lit 100) (lit 1) 1) in
  let! (eng, _) := unwrap_process eng (limit_order id2 Ask (lit 100) (lit 1) 2) in
  let! (eng, _) := unwrap_process eng (limit_order id3 Ask (lit 100) (lit 1) 3) in
  let! (_, result) := unwrap_process eng (limit_order id4 Bid (lit 100) (lit 1) 4) in
  expect_fills result (fun fills =>
    let! fill := nth_fill fills 0 in
    assert (bool_decide (f_maker_order_id fill = id1))).

Definition fill_price_is_maker_price (id1 id2 : Uuid) : outcome unit :=
  let! (eng, _) := unwrap_process new_engine (limit_order id1 Ask (lit 100) (lit 5) 1) in
  let! (_, result) := unwrap_process eng (limit_order id2 Bid (lit 105) (lit 5) 2) in
  expect_fills result (fun fills =>
    let! fill := nth_fill fills 0 in
    assert (dec_eqb (f_price fill) (lit 100))).

Definition cancel_resting_order (id : Uuid) : outcome unit :=
  let! (eng, _) := unwrap_process new_engine (limit_order id Ask (lit 100) (lit 5) 1) in
  let! (eng, r) := cancel eng id in
  let! result := unwrap r in
  let! _ := assert (match result with ResCancelled => true | _ => false end) in
  assert (opt_dec_eqb (best_ask (eng_book eng)) None).

Fixpoint run_orders (eng : MatchingEngine) (all_fills : list Fill) (orders : list Order) :
    outcome (list Fill) :=
  match orders with
  | [] => Ret all_fills
  | order :: orders =>
      let! (eng, r) := process_order eng order in
      run_orders eng (match r with Ok (Fills f) => all_fills ++ f | _ => all_fills end) orders
  end.

Definition run_sequence (orders : list Order) : outcome (list Fill) := run_orders new_engine [] orders.

Definition determinism_same_inputs_same_fills (id1 id2 id3 : Uuid) : outcome unit :=
  let orders := [limit_order id1 Ask (lit 100) (lit 3) 1; limit_order id2 Ask (lit 101) (lit 2) 2;
                 limit_order id3 Bid (lit 101) (lit 4) 3] in
  let! fills_a := run_sequence orders in
  let! fills_b := run_sequence orders in
  let! _ := assert (Nat.eqb (length fills_a) (length fills_b)) in
  each (fun x : Fill * Fill =>
    let! _ := assert (dec_eqb (f_price x.1) (f_price x.2)) in
    assert (dec_eqb (f_quantity x.1) (f_quantity x.2))) (zip fills_a fills_b).

(** [iter().map(|f| f.quantity).sum()] *)
Definition sum_quantities (fills : list Fill) : outcome Decimal :=
  foldl (fun acc f => let! acc := acc in or_panic (dec_add acc (f_quantity f))) (Ret dec_ZERO) fills.

Definition invariant_no_order_filled_beyond_quantity (id1 id2 : Uuid) : outcome unit :=
  each (fun case : Z * Z =>
    let ask_qty := lit case.1 in
    let bid_qty := lit case.2 in
    let! (eng, _) := unwrap_process new_engine (limit_order id1 Ask (lit 100) ask_qty 1) in
    let! (_, result) := unwrap_process eng (limit_order id2 Bid (lit 100) bid_qty 2) in
    match result with
    | Fills fills =>
        let! total := sum_quantities fills in
        let! _ := assert (dec_le total ask_qty) in
        assert (dec_le total bid_qty)
    | _ => Ret tt
    end) [(1, 1); (5, 3); (3, 5); (10, 10); (1, 100); (100, 1); (7, 7)].

Definition invariant_book_bid_ask_never_cross (id1 id2 : Uuid) : outcome unit :=
  each (fun case : Z * Z =>
    let bp := lit case.1 in
    let ap := lit case.2 in
    let! (eng, _) := process_order new_engine (limit_order id1 Bid bp (lit 1) 1) in
    let! (eng, _) := process_order eng (limit_order id2 Ask ap (lit 1) 2) in
    match best_bid (eng_book eng), best_ask (eng_book eng) with
    | Some best_bid, Some best_ask => assert (dec_lt best_bid best_ask)
    | _, _ => Ret tt
    end) [(99, 101); (50, 50); (1, 200); (100, 100); (75, 76)].

(** The asks of a case: [n] of two units at one price. *)
Fixpoint insert_asks (id : nat -> Uuid) (n i : nat) (eng : MatchingEngine) : outcome MatchingEngine :=
  match n with
  | O => Ret eng
  | S n =>
      let! (eng, _) := unwrap_process eng (limit_order (id i) Ask (lit 100) (lit 2) (Z.of_nat i + 1)) in
      insert_asks id n (S i) eng
  end.

Definition invariant_fill_quantity_always_positive (id : nat -> Uuid) : outcome unit :=
  each (fun case : nat * Z =>
    let! eng := insert_asks id case.1 0 new_engine in
    let! (_, result) :=
      unwrap_process eng (market_order (id case.1) Bid (lit case.2) (Z.of_nat case.1 + 1)) in
    match result with
    | Fills fills => each (fun fill => assert (dec_gt (f_quantity fill) dec_ZERO)) fills
    | _ => Ret tt
    end) [(1%nat, 1); (1%nat, 10); (3%nat, 5); (5%nat, 50); (2%nat, 1)].

(** ** snapshot.rs *)

Section snapshots.
Context {PC : Postcard BookSnapshot}.

Definition snapshot_limit (id : Uuid) (side : Side) (price qty : Decimal) (seq : Z) : Order :=
  {| o_id := id; o_market_id := "SOL-USDC"; o_side := side; o_order_type := Limit;
     o_price := Some price; o_quantity := qty; o_filled := dec_ZERO; o_status := Open;
     o_sequence := seq |}.

(** [deserialize_book(&bytes).expect("deserialize")] *)
Definition expect_deserialize (bytes : list byte) : outcome (OrderBook * BookSnapshot) :=
  let! r := deserialize_book bytes in or_panic r.

Definition snapshot_round_trip_empty_book : outcome unit :=
  let book := OrderBook_new in
  let! bytes := or_panic (serialize_book book "SOL-USDC" 0) in
  let! (restored, meta) := expect_deserialize bytes in
  let! _ := assert (String.eqb (bs_market_id meta) "SOL-USDC") in
  let! _ := assert (bs_sequence meta =? 0) in
  let! _ := assert (opt_dec_eqb (best_bid restored) None) in
  assert (opt_dec_eqb (best_ask restored) None).

Definition snapshot_round_trip_with_orders (id1 id2 id3 : Uuid) : outcome unit :=
  let! book := expect_insert OrderBook_new (snapshot_limit id1 Bid (lit 100) (lit 5) 1) in
  let! book := expect_insert book (snapshot_limit id2 Bid (lit 99) (lit 3) 2) in
  let! book := expect_insert book (snapshot_limit id3 Ask (lit 101) (lit 2) 3) in
  let! bytes := or_panic (serialize_book book "SOL-USDC" 42) in
  let! (restored, meta) := expect_deserialize bytes in
  let! _ := assert (bs_sequence meta =? 42) in
  let! _ := assert (opt_dec_eqb (best_bid restored) (Some (lit 100))) in
  assert (opt_dec_eqb (best_ask restored) (Some (lit 101))).

Definition snapshot_excludes_cancelled_orders (id : Uuid) : outcome unit :=
  let! book := expect_insert OrderBook_new (snapshot_limit id Bid (lit 100) (lit 5) 1) in
  let! (book, r) := cancel_order book id in
  let! _ := unwrap r in
  let! bytes := or_panic (serialize_book book "SOL-USDC" 10) in
  let! (restored, _) := expect_deserialize bytes in
  assert (opt_dec_eqb (best_bid restored) None).

Definition snapshot_state_identical_after_round_trip (id1 id2 : Uuid) : outcome unit :=
  let! book := expect_insert OrderBook_new (snapshot_limit id1 Bid (lit 100) (lit 10) 1) in
  let! book := expect_insert book (snapshot_limit id2 Ask (lit 102) (lit 5) 2) in
  let! bytes := or_panic (serialize_book book "SOL-USDC" 99) in
  let! (restored, _) := expect_deserialize bytes in
  let! _ := assert (opt_dec_eqb (best_bid book) (best_bid restored)) in
  let! _ := assert (opt_dec_eqb (best_ask book) (best_ask restored)) in
  let! _ := assert (Nat.eqb (level_depth book Bid (lit 100)) (level_depth restored Bid (lit 100))) in
  assert (Nat.eqb (level_depth book Ask (lit 102)) (level_depth restored Ask (lit 102))).
End snapshots.

(** ** order.rs *)

Definition make_limit_order (id : Uuid) : Order :=
  {| o_id := id; o_market_id := "SOL-USDC"; o_side := Bid; o_order_type := Limit;
     o_price := Some (dec_new 15000 2); o_quantity := dec_new 100 1; o_filled := dec_ZERO;
     o_status := Open; o_sequence := 1 |}.

Definition make_market_order (id : Uuid) : Order :=
  {| o_id := id; o_market_id := "SOL-USDC"; o_side := Ask; o_order_type := Market; o_price := None;
     o_quantity := dec_new 50 1; o_filled := dec_ZERO; o_status := Open; o_sequence := 2 |}.

Section orders.
Context {PO : Postcard Order}.

Definition limit_order_bincode_round_trip (id : Uuid) : outcome unit :=
  round_trip (fun order decoded =>
    bool_decide (o_id order = o_id decoded) && opt_dec_eqb (o_price order) (o_price decoded) &&
    dec_eqb (o_quantity order) (o_quantity decoded) &&
    bool_decide (o_status order = o_status decoded)) (make_limit_order id).

Definition market_order_bincode_round_trip (id : Uuid) : outcome unit :=
  round_trip (fun order decoded =>
    bool_decide (o_id order = o_id decoded) && opt_dec_eqb (o_price order) (o_price decoded))
    (make_market_order id).
End orders.

Definition remaining_quantity (id : Uuid) : outcome unit :=
  let! r := remaining (set_filled (dec_new 30 1) (make_limit_order id)) in
  assert (dec_eqb r (dec_new 70 1)).

Definition is_complete_filled (id : Uuid) : outcome unit :=
  assert (is_complete (set_status Filled (make_limit_order id))).

Definition is_complete_cancelled (id : Uuid) : outcome unit :=
  assert (is_complete (set_status Cancelled (make_limit_order id))).

Definition is_not_complete_open (id : Uuid) : outcome unit :=
  assert (negb (is_complete (make_limit_order id))).

(** ** events.rs *)

Definition make_fill (id1 id2 : Uuid) : Fill :=
  {| f_maker_order_id := id1; f_taker_order_id := id2; f_price := dec_new 10050 2;
     f_quantity := dec_new 20 1; f_sequence := 42 |}.

Definition fill_bincode_round_trip {PF : Postcard Fill} (id1 id2 : Uuid) : outcome unit :=
  round_trip (fun fill decoded =>
    bool_decide (f_maker_order_id fill = f_maker_order_id decoded) &&
    dec_eqb (f_price fill) (f_price decoded) && dec_eqb (f_quantity fill) (f_quantity decoded))
    (make_fill id1 id2).

Section events.
Context {PE : Postcard OrderEvent}.

Definition order_placed_bincode_round_trip (id : Uuid) : outcome unit :=
  round_trip (fun _ _ => true)
    (OrderPlaced id "SOL-USDC" Bid Limit (Some (dec_new 1500 1)) (dec_new 50 1) 1).

Definition order_cancelled_bincode_round_trip (id : Uuid) : outcome unit :=
  round_trip (fun _ _ => true) (OrderCancelled id 2).

Definition order_filled_bincode_round_trip (id1 id2 : Uuid) : outcome unit :=
  round_trip (fun _ _ => true) (OrderFilled (make_fill id1 id2)).

Definition order_partially_filled_bincode_round_trip (id1 id2 : Uuid) : outcome unit :=
  round_trip (fun _ _ => true) (OrderPartiallyFilled (make_fill id1 id2)).
End events.

(** ** types.rs *)

Definition price_bincode_round_trip {PD : Postcard Decimal} : outcome unit :=
  round_trip dec_eqb (dec_new 12345678901 8).

Definition quantity_bincode_round_trip {PD : Postcard Decimal} : outcome unit :=
  round_trip dec_eqb (dec_new 999900000001 8).

Definition order_id_bincode_round_trip {PU : Postcard Uuid} (id : Uuid) : outcome unit :=
  round_trip (fun a b => bool_decide (a = b)) id.

Definition side_bincode_round_trip {PS : Postcard Side} : outcome unit :=
  each (round_trip (fun a b => bool_decide (a = b))) [Bid; Ask].

Definition order_type_bincode_round_trip {PT : Postcard OrderType} : outcome unit :=
  each (round_trip (fun a b => bool_decide (a = b))) [Limit; Market].

(** ** error.rs *)

Definition order_not_found_display (id : Uuid) : outcome unit :=
  assert (contains (EngineError_to_string (OrderNotFound id)) (uuid_to_string id)).

Definition missing_limit_price_display : outcome unit :=
  assert (negb (String.eqb (EngineError_to_string MissingLimitPrice) "")).
End tests.

(** ** All of them *)

#[export] Instance OrderEvent_eq_dec : EqDecision (OrderEvent (DA := dec_api) (UA := uuid_api)).
Proof. solve_decision. Defined.

#[export] Instance OrderEvent_countable : Countable (OrderEvent (DA := dec_api) (UA := uuid_api)).
Proof.
  refine (inj_countable'
    (fun e => match e with
              | OrderPlaced i m sd ty p q n => inl (i, m, sd, ty, p, q, n)
              | OrderCancelled i n => inr (inl (i, n))
              | OrderFilled f => inr (inr (true, f))
              | OrderPartiallyFilled f => inr (inr (false, f))
              end)
    (fun x => match x with
              | inl (i, m, sd, ty, p, q, n) => OrderPlaced i m sd ty p q n
              | inr (inl (i, n)) => OrderCancelled i n
              | inr (inr (true, f)) => OrderFilled f
              | inr (inr (false, f)) => OrderPartiallyFilled f
              end) _).
  by intros [].
Defined.

Section all.
#[local] Existing Instances dec_api uuid_api slab_api.

Definition orderbook_tests : list (outcome unit) :=
  [insert_bid_and_ask 1%N 2%N; best_bid_is_highest 1%N 2%N 3%N; best_ask_is_lowest 1%N 2%N 3%N;
   cancel_removes_from_level 1%N; cancel_not_found_errors 1%N; level_depth_multiple_orders 1%N 2%N 3%N;
   empty_book_returns_none; market_order_insert_rejected 1%N].

Definition matching_tests : list (outcome unit) :=
  [limit_bid_matches_resting_ask 1%N 2%N; no_match_when_spread_exists 1%N 2%N;
   partial_fill_leaves_remainder_resting 1%N 2%N; market_order_sweeps_multiple_levels 1%N 2%N 3%N 4%N;
   market_order_partial_sweep_when_insufficient_liquidity 1%N 2%N;
   price_time_priority_respected 1%N 2%N 3%N 4%N; fill_price_is_maker_price 1%N 2%N;
   cancel_resting_order 1%N; determinism_same_inputs_same_fills 1%N 2%N 3%N;
   invariant_no_order_filled_beyond_quantity 1%N 2%N; invariant_book_bid_ask_never_cross 1%N 2%N;
   invariant_fill_quantity_always_positive N.of_nat].

Definition snapshot_tests : list (outcome unit) :=
  [snapshot_round_trip_empty_book; snapshot_round_trip_with_orders 1%N 2%N 3%N;
   snapshot_excludes_cancelled_orders 1%N; snapshot_state_identical_after_round_trip 1%N 2%N].

Definition type_tests : list (outcome unit) :=
  [limit_order_bincode_round_trip 1%N; market_order_bincode_round_trip 1%N; remaining_quantity 1%N;
   is_complete_filled 1%N; is_complete_cancelled 1%N; is_not_complete_open 1%N;
   fill_bincode_round_trip 1%N 2%N; order_placed_bincode_round_trip 1%N;
   order_cancelled_bincode_round_trip 1%N; order_filled_bincode_round_trip 1%N 2%N;
   order_partially_filled_bincode_round_trip 1%N 2%N; price_bincode_round_trip;
   quantity_bincode_round_trip; order_id_bincode_round_trip 1%N; side_bincode_round_trip;
   order_type_bincode_round_trip; order_not_found_display 1%N; missing_limit_price_display].

(** Every unit test of the engine passes on the model. *)
Theorem unit_tests_pass :
  Forall (fun test => test = Ret tt) (orderbook_tests ++ matching_tests ++ snapshot_tests ++ type_tests).
Proof. repeat (apply Forall_cons; split; [vm_compute; reflexivity|]). constructor. Qed.
End all.
