(* ===== verification/Text.v ===== *)
(** * Strings of the standard library

    What the program uses of [str]: [to_lowercase] before a comparison with
    ASCII words, and [parse] to unsigned integers, with the environment look-up
    that falls back to a default. *)

From S2P Require Import Prelude.
From Stdlib Require Import Ascii String.

(** ** to_lowercase

    Strings are UTF-8 bytes. ASCII letters are lowered, and so is U+212A (the
    Kelvin sign, bytes E2 84 AA), the only other character whose lower case is an
    ASCII letter alone. The lower case of any other character contains a byte
    that is not ASCII, so leaving it as it is changes no comparison with an ASCII
    word. *)

Definition lower_ascii (c : ascii) : ascii :=
  let n := nat_of_ascii c in
  if Nat.leb 65 n && Nat.leb n 90 then ascii_of_nat (n + 32) else c.

Fixpoint to_lowercase (s : string) : string :=
  match s with
  | EmptyString => EmptyString
  | String "226" (String "132" (String "170" s)) => String "k" (to_lowercase s)
  | String c s => String (lower_ascii c) (to_lowercase s)
  end.

(** ** parse *)

Definition digit_val (c : ascii) : option Z :=
  let n := nat_of_ascii c in
  if Nat.leb 48 n && Nat.leb n 57 then Some (Z.of_nat n - 48) else None.

(** The digits of [s] after the value [acc]; [None] on a bad digit or overflow. *)
Fixpoint parse_digits (max acc : Z) (s : string) : option Z :=
  match s with
  | EmptyString => Some acc
  | String c s =>
      match digit_val c with
      | Some d => let acc := 10 * acc + d in if acc <=? max then parse_digits max acc s else None
      | None => None
      end
  end.

(** [str::parse] for an unsigned type whose greatest value is [max]. *)
Definition parse_unsigned (max : Z) (s : string) : option Z :=
  match s with
  | EmptyString => None
  | String "+" EmptyString => None
  | String "+" s => parse_digits max 0 s
  | s => parse_digits max 0 s
  end.

Definition u64_max : Z := 2 ^ 64 - 1.
Definition u16_max : Z := 2 ^ 16 - 1.

(** [std::env::var(key).ok().and_then(|v| v.parse().ok()).unwrap_or(default)] *)
Definition env_unsigned (max : Z) (env : string -> option string) (key : string) (d : Z) : Z :=
  default d (env key ≫= parse_unsigned max).

(** ** Facts *)

Lemma parse_digits_bound (max acc n : Z) (s : string) :
  0 <= acc <= max -> parse_digits max acc s = Some n -> 0 <= n <= max.
Proof.
  revert acc. induction s as [|c s IH]; intros acc Hacc; cbn [parse_digits].
  - by intros [= <-].
  - destruct (digit_val c) as [d|] eqn:Hd; [|done].
    destruct (Z.leb_spec (10 * acc + d) max) as [Hle|]; [|done]. apply IH.
    unfold digit_val in Hd. case_match eqn:Hc; [|done]. apply andb_prop in Hc as [Hc _].
    apply Nat.leb_le in Hc. injection Hd as <-. lia.
Qed.

Lemma parse_unsigned_bound (max n : Z) (s : string) :
  0 <= max -> parse_unsigned max s = Some n -> 0 <= n <= max.
Proof.
  intros Hm. unfold parse_unsigned. intros H.
  repeat (case_match; try done); by apply parse_digits_bound in H.
Qed.

(** A parameter read from the environment is always a value of its type. *)
Lemma env_unsigned_bound (max d : Z) env key :
  0 <= d <= max -> 0 <= env_unsigned max env key d <= max.
Proof.
  intros Hd. unfold env_unsigned. destruct (env key) as [s|]; cbn; [|done].
  destruct (parse_unsigned max s) as [n|] eqn:E; cbn; [|done].
  apply parse_unsigned_bound in E; lia.
Qed.

Lemma digit_val_pretty (n : N) : (n < 10)%N -> digit_val (pretty_N_char n) = Some (Z.of_N n).
Proof.
  intros H.
  assert (Hall : Forall (fun i => digit_val (pretty_N_char (N.of_nat i)) = Some (Z.of_nat i)) (seq 0 10))
    by (repeat constructor).
  rewrite Forall_forall in Hall. specialize (Hall (N.to_nat n) ltac:(apply elem_of_seq; lia)).
  by rewrite N2Nat.id, N_nat_Z in Hall.
Qed.

Lemma parse_digits_go (max : Z) (n : N) (s : string) :
  Z.of_N n <= max -> parse_digits max 0 (pretty_N_go n s) = parse_digits max (Z.of_N n) s.
Proof.
  revert s. induction (N.lt_wf_0 n) as [n _ IH]. intros s Hn.
  destruct (decide (n = 0%N)) as [->|Hne]; [by rewrite pretty_N_go_0|].
  rewrite pretty_N_go_step by lia. rewrite IH.
  - cbn [parse_digits]. rewrite digit_val_pretty by (apply N.mod_lt; lia).
    replace (10 * Z.of_N (n / 10) + Z.of_N (n mod 10)) with (Z.of_N n).
    + by rewrite (proj2 (Z.leb_le _ _)).
    + rewrite (N.div_mod n 10) at 1 by lia. lia.
  - apply N.div_lt; lia.
  - etransitivity; [|exact Hn]. apply N2Z.inj_le, N.Div0.div_le_upper_bound. lia.
Qed.

Lemma pretty_N_go_head (n : N) (s : string) :
  (0 < n)%N -> exists c s', pretty_N_go n s = String c s' /\ is_Some (digit_val c).
Proof.
  revert s. induction (N.lt_wf_0 n) as [n _ IH]. intros s Hn. rewrite pretty_N_go_step by done.
  destruct (decide (n / 10 = 0)%N) as [E|E].
  - rewrite E, pretty_N_go_0. eexists _, _. split; [done|].
    rewrite digit_val_pretty by (apply N.mod_lt; lia). done.
  - apply IH; [apply N.div_lt; lia|by apply N.neq_0_lt_0].
Qed.

(** Printing a number and parsing it gives it back. *)
Lemma parse_unsigned_pretty (max : Z) (n : N) :
  Z.of_N n <= max -> parse_unsigned max (pretty n) = Some (Z.of_N n).
Proof.
  intros Hn. destruct (decide (n = 0%N)) as [->|Hne].
  - cbn. by destruct max.
  - assert (E : pretty n = pretty_N_go n "").
    { unfold pretty, pretty_N. by rewrite decide_False. }
    rewrite E. destruct (pretty_N_go_head n "") as (c & s' & Eg & Hd); [lia|].
    transitivity (parse_digits max 0 (pretty_N_go n "")); [|by rewrite parse_digits_go].
    rewrite Eg. unfold parse_unsigned. destruct Hd as [d Hd].
    destruct c as [[] [] [] [] [] [] [] []]; done.
Qed.
