(* ===== verification/Mock.v ===== *)
(** * The Yellowstone mock

    The [yellowstone-mock] crate: configuration from the environment, the
    generated updates, and the server's streaming task. Random draws, the clock
    and the state of the client's channel are inputs of the definitions. *)

From S2P Require Import Prelude Text.
From Stdlib Require Import Strings.Byte.

(** ** config.rs *)

Record Config := mkConfig {
  stream_rate_per_second : Z;
  payload_size_bytes : Z;
  simulate_disconnects : bool;
  disconnect_interval_s : Z;
  port : Z
}.

Definition env_u64 (env : string -> option string) (key : string) (d : Z) : Z :=
  env_unsigned u64_max env key d.

(** [usize] has 64 bits on the deployment targets. *)
Definition env_usize (env : string -> option string) (key : string) (d : Z) : Z :=
  env_unsigned u64_max env key d.

Definition env_bool (env : string -> option string) (key : string) (d : bool) : bool :=
  match env key with
  | Some v =>
      let v := to_lowercase v in
      String.eqb v "true" || String.eqb v "1" || String.eqb v "yes"
  | None => d
  end.

Definition env_u16 (env : string -> option string) (key : string) (d : Z) : Z :=
  env_unsigned u16_max env key d.

(** [Config::from_env] *)
Definition from_env (env : string -> option string) : Config :=
  {| stream_rate_per_second := env_u64 env "STREAM_RATE_PER_SECOND" 1000;
     payload_size_bytes := env_usize env "PAYLOAD_SIZE_BYTES" 512;
     simulate_disconnects := env_bool env "SIMULATE_DISCONNECTS" false;
     disconnect_interval_s := env_u64 env "DISCONNECT_INTERVAL_S" 30;
     port := env_u16 env "GRPC_PORT" 10000 |}.

(** ** generator.rs

    The fields of the protobuf message that the program sets or reads. *)

Record Timestamp := mkTimestamp { ts_seconds : Z; ts_nanos : Z }.

Record TransactionUpdate := mkTransactionUpdate {
  tx_signature : list byte;
  tx_is_vote : bool;
  tx_index : Z;
  tx_slot : Z
}.

Record SubscribeUpdate := mkSubscribeUpdate {
  su_filters : list string;
  su_created_at : option Timestamp;
  su_transaction : option TransactionUpdate
}.

(** [generate_update]; [draw] gives the bytes of the generator, [index] and [slot]
    its two draws of 64 bits. *)
Definition generate_update (draw : nat -> byte) (index slot : Z) (_payload_size_bytes : Z) :
    SubscribeUpdate :=
  {| su_filters := ["orders"]; su_created_at := None;
     su_transaction := Some {| tx_signature := draw <$> seq 0 64; tx_is_vote := false;
                               tx_index := index; tx_slot := slot |} |}.

(** ** server.rs *)

(** The pause between two updates, in nanoseconds. *)
Definition interval_ns (cfg : Config) : Z :=
  if stream_rate_per_second cfg =? 0 then 1000000
  else 1000000000 / stream_rate_per_second cfg.

(** The age at which a connection is dropped, in nanoseconds. *)
Definition disconnect_after (cfg : Config) : option Z :=
  if simulate_disconnects cfg then Some (disconnect_interval_s cfg * 1000000000) else None.

(** What one turn of the loop sees: the age of the connection, the update it
    generates, whether the channel accepts it. *)
Record turn := mkTurn { t_elapsed : Z; t_update : SubscribeUpdate; t_accepted : bool }.

Inductive stream_state := Streaming | Disconnected | ReceiverGone.

(** The streaming task over the given turns: what was sent, the counter, and
    whether and why it stopped. *)
Fixpoint subscribe_loop (limit : option Z) (count : Z) (turns : list turn) :
    list SubscribeUpdate * Z * stream_state :=
  match turns with
  | [] => ([], count, Streaming)
  | t :: turns =>
      if (match limit with Some l => l <=? t_elapsed t | None => false end)
      then ([], count, Disconnected)
      else if t_accepted t then
        let '(sent, n, st) := subscribe_loop limit (u64_add count 1) turns in
        (t_update t :: sent, n, st)
      else ([], count, ReceiverGone)
  end.

Definition subscribe (cfg : Config) (turns : list turn) :
    list SubscribeUpdate * Z * stream_state :=
  subscribe_loop (disconnect_after cfg) 0 turns.

(** The unary calls of the service: [ping] echoes its count, the others are not
    implemented. *)
Inductive rpc :=
| PingRequest (count : Z) | GetLatestBlockhash | GetBlockHeight | GetSlot
| IsBlockhashValid | GetVersion | SubscribeReplayInfo | SubscribeDeshred.

Inductive rpc_status := Unimplemented.

Definition call (r : rpc) : result Z rpc_status :=
  match r with
  | PingRequest count => Ok count
  | GetLatestBlockhash | GetBlockHeight | GetSlot | IsBlockhashValid | GetVersion
  | SubscribeReplayInfo | SubscribeDeshred => Err Unimplemented
  end.

(** ** Properties *)

(** Whether a turn sends its update. *)
Definition goes_on (limit : option Z) (t : turn) : bool :=
  t_accepted t && match limit with Some l => t_elapsed t <? l | None => true end.

Fixpoint while_true {A : Type} (f : A -> bool) (l : list A) : list A :=
  match l with
  | [] => []
  | x :: l => if f x then x :: while_true f l else []
  end.

Lemma subscribe_loop_spec (limit : option Z) (count : Z) (turns : list turn) :
  u64_ok count ->
  exists n st, subscribe_loop limit count turns =
    (t_update <$> while_true (goes_on limit) turns, n, st) /\
    n = u64_add count (Z.of_nat (length (while_true (goes_on limit) turns))) /\
    (st = Streaming <-> while_true (goes_on limit) turns = turns) /\
    (limit = None -> st <> Disconnected).
Proof.
  revert count. induction turns as [|t turns IH]; intros count Hc.
  - eexists _, _. split; [done|]. split; [|done]. cbn. rewrite u64_add_small; unfold u64_ok in Hc; lia.
  - cbn [subscribe_loop while_true].
    assert (E : match limit with Some l => l <=? t_elapsed t | None => false end =
      negb (match limit with Some l => t_elapsed t <? l | None => true end)).
    { destruct limit as [l|]; [|done]. by rewrite Z.leb_antisym. }
    assert (G : goes_on limit t =
      t_accepted t && match limit with Some l => t_elapsed t <? l | None => true end) by done.
    rewrite E, G.
    assert (Hstop : u64_add count (Z.of_nat 0) = count).
    { rewrite u64_add_small; unfold u64_ok in Hc; lia. }
    destruct (match limit with Some l => t_elapsed t <? l | None => true end) eqn:Hl; cbn [negb].
    + rewrite andb_true_r. destruct (t_accepted t).
      * destruct (IH (u64_add count 1)) as (n & st & -> & -> & Hst & Hn); [auto with clob|].
        eexists _, st. split; [done|]. rewrite u64_add_assoc. split; [f_equal; cbn; lia|].
        split; [|done]. rewrite Hst. split; [by intros ->|congruence].
      * eexists _, _. split; [done|]. split; [exact (eq_sym Hstop)|]. by split.
    + rewrite andb_false_r. eexists _, _. split; [done|]. split; [exact (eq_sym Hstop)|].
      split; [done|]. by intros ->.
Qed.

(** The mock sends exactly the updates of the turns before the first one that
      is past the disconnect limit or whose receiver is gone, in order; its
      counter is their number; and it never simulates a disconnect unless the
      configuration asks for it. *)
Theorem mock_stream_sends_prefix (cfg : Config) (turns : list turn) :
  exists n st, subscribe cfg turns =
    (t_update <$> while_true (goes_on (disconnect_after cfg)) turns, n, st) /\
    n = u64_add 0 (Z.of_nat (length (while_true (goes_on (disconnect_after cfg)) turns))) /\
    (st = Streaming <-> while_true (goes_on (disconnect_after cfg)) turns = turns) /\
    (simulate_disconnects cfg = false -> st <> Disconnected).
Proof.
  destruct (subscribe_loop_spec (disconnect_after cfg) 0 turns) as (n & st & E & Hn & Hst & Hd);
    [split; [done|reflexivity]|].
  exists n, st. split_and!; try done. intros Hs. apply Hd. unfold disconnect_after. by rewrite Hs.
Qed.

(** The environment that spells out a configuration. *)
Definition to_env (cfg : Config) (key : string) : option string :=
  if String.eqb key "STREAM_RATE_PER_SECOND" then Some (pretty (Z.to_N (stream_rate_per_second cfg)))
  else if String.eqb key "PAYLOAD_SIZE_BYTES" then Some (pretty (Z.to_N (payload_size_bytes cfg)))
  else if String.eqb key "SIMULATE_DISCONNECTS"
    then Some (if simulate_disconnects cfg then "TRUE" else "FALSE")
  else if String.eqb key "DISCONNECT_INTERVAL_S" then Some (pretty (Z.to_N (disconnect_interval_s cfg)))
  else if String.eqb key "GRPC_PORT" then Some (pretty (Z.to_N (port cfg)))
  else None.

Record config_ok (cfg : Config) : Prop := {
  rate_ok : 0 <= stream_rate_per_second cfg <= u64_max;
  payload_ok : 0 <= payload_size_bytes cfg <= u64_max;
  interval_ok : 0 <= disconnect_interval_s cfg <= u64_max;
  port_ok : 0 <= port cfg <= u16_max
}.

Lemma env_unsigned_pretty (max d n : Z) env key :
  0 <= n <= max -> env key = Some (pretty (Z.to_N n)) -> env_unsigned max env key d = n.
Proof.
  intros Hn He. unfold env_unsigned. rewrite He. cbn. rewrite parse_unsigned_pretty by lia.
  cbn. lia.
Qed.

(** Every configuration can be given through the environment: reading the
      printed values back yields the configuration; and whatever the environment
      holds, every field read is a value of its type. *)
Theorem config_from_env_roundtrip (cfg : Config) (env : string -> option string) :
  config_ok cfg -> from_env (to_env cfg) = cfg /\ config_ok (from_env env).
Proof.
  intros [H1 H2 H3 H4]. split.
  - unfold from_env, env_u64, env_usize, env_u16, env_bool.
    rewrite (env_unsigned_pretty u64_max 1000 (stream_rate_per_second cfg)) by done.
    rewrite (env_unsigned_pretty u64_max 512 (payload_size_bytes cfg)) by done.
    rewrite (env_unsigned_pretty u64_max 30 (disconnect_interval_s cfg)) by done.
    rewrite (env_unsigned_pretty u16_max 10000 (port cfg)) by done.
    destruct cfg as [r p [] i pt]; reflexivity.
  - split; apply env_unsigned_bound; unfold u64_max, u16_max; lia.
Qed.

(** ** Witnesses *)

Lemma config_from_env_roundtrip_witness :
  from_env (to_env (mkConfig 250 64 true 9 7000)) = mkConfig 250 64 true 9 7000 /\
  config_ok (from_env (fun _ => Some "70000")).
Proof.
  apply (config_from_env_roundtrip (mkConfig 250 64 true 9 7000) (fun _ => Some "70000")).
  split; vm_compute; split; discriminate.
Defined.
