(* ===== verification/Processor.v ===== *)
(** * The engine thread

    [ingest/processor.rs]: the order built from a stream update, and the thread
    that owns the matching engine. The thread receives orders, answers with
    effects (fills and book updates sent, snapshots saved) and ends when its
    input closes. [follower.rs]: the thread that only replays. *)

From S2P Require Import Prelude External BTreeMap Types OrderBook Matching Snapshot Text Mock Runs.
From Stdlib Require Import Strings.Byte.

Definition MARKET_ID : string := "SOL/USDC".

(** ** Data *)

Section processor.
Context {DA : DecimalApi} {UA : UuidApi} {SA : SlabApi} {PC : Postcard BookSnapshot}.

Record BookUpdate := mkBookUpdate {
  bu_market_id : string;
  bu_best_bid : option Decimal;
  bu_best_ask : option Decimal
}.

(** [map_update_to_order]: [counter] is the static counter before the call, [id]
    the fresh uuid; the nanoseconds are a 32-bit integer cast to [u64]. *)
Definition map_update_to_order (counter : Z) (id : Uuid) (update : SubscribeUpdate) :
    Z * Order :=
  let seq := counter in
  let slot :=
    match su_created_at update with
    | Some t => i64_as_u64 (ts_nanos t)
    | None => seq
    end in
  let '(side, price) :=
    if Z.rem seq 2 =? 0 then (Bid, dec_new 101 0) else (Ask, dec_new 100 0) in
  (u64_add counter 1,
   {| o_id := id; o_market_id := MARKET_ID; o_side := side; o_order_type := Limit;
      o_price := Some price; o_quantity := dec_new 1 0; o_filled := dec_ZERO;
      o_status := Open; o_sequence := slot |}).

(** ** The engine thread *)

(** What the thread does to the outside. A saved snapshot carries the Kafka offset
    of the last order and the number of orders processed. *)
Inductive effect :=
| SendFill (fill : Fill)
| SendBookUpdate (update : BookUpdate)
| SaveRaw (payload : list byte) (offset : Z) (sequence : Z)
| SerializeFailed.

(** The variables of the thread's closure and the health flag it writes. *)
Record EngineThread := mkThread {
  th_engine : MatchingEngine;
  th_processed : Z;
  th_last_offset : Z;
  th_engine_alive : bool
}.

(** How many more fills the fill channel takes before its receiver is dropped;
    [None] when it is never dropped. A full channel only makes the thread wait. *)
Abbreviation room := (option nat).

(** The loop that sends the fills: those sent, the room left, and whether all
    were sent. *)
Fixpoint send_fills (fills : list Fill) (r : room) : list effect * room * bool :=
  match fills with
  | [] => ([], r, true)
  | fill :: fills =>
      match r with
      | Some O => ([], r, false)
      | _ =>
          let r := match r with Some (S n) => Some n | _ => r end in
          let '(sent, r, ok) := send_fills fills r in
          (SendFill fill :: sent, r, ok)
      end
  end.

Definition set_alive (a : bool) (th : EngineThread) : EngineThread :=
  {| th_engine := th_engine th; th_processed := th_processed th;
     th_last_offset := th_last_offset th; th_engine_alive := a |}.

(** [BookUpdate] after an order that was answered with fills. *)
Definition book_update (eng : MatchingEngine) : BookUpdate :=
  {| bu_market_id := MARKET_ID; bu_best_bid := best_bid (eng_book eng);
     bu_best_ask := best_ask (eng_book eng) |}.

(** The snapshot block at the end of a turn; [processed % 0] panics. *)
Definition snapshot_block (snapshot_every : Z) (eng : MatchingEngine)
    (processed last_offset : Z) : outcome (list effect) :=
  if snapshot_every =? 0 then Panic
  else if Z.rem processed snapshot_every =? 0 then
    Ret [match serialize_book (eng_book eng) MARKET_ID processed with
         | Some bytes => SaveRaw bytes last_offset processed
         | None => SerializeFailed
         end]
  else Ret [].

(** A turn up to the snapshot: the match, the fills and the book update sent, the room
    left, and [false] when the fill channel is closed. *)
Definition turn_deliver (th : EngineThread) (order : Order) (r : room) :
    outcome (MatchingEngine * list effect * room * bool) :=
  let! (eng, res) := process_order (th_engine th) order in
  let '(sent, r, ok, had_fills) :=
    match res with
    | Ok (Fills fills) =>
        let '(sent, r, ok) := send_fills fills r in (sent, r, ok, true)
    | Ok Resting | Ok ResCancelled | Err _ => ([], r, true, false)
    end in
  Ret (eng, sent ++ (if ok && had_fills then [SendBookUpdate (book_update eng)] else []), r, ok).

(** One turn of the loop for a received order; [false] when the thread returned
    because the fill channel is closed. *)
Definition turn_order (snapshot_every : Z) (th : EngineThread) (order : Order) (r : room) :
    outcome (EngineThread * list effect * room * bool) :=
  let last_offset := u64_as_i64 (o_sequence order) in
  let! (eng, sent, r, ok) := turn_deliver th order r in
  if negb ok then
    Ret ({| th_engine := eng; th_processed := th_processed th;
            th_last_offset := last_offset; th_engine_alive := false |}, sent, r, false)
  else
    let processed := u64_add (th_processed th) 1 in
    let! snaps := snapshot_block snapshot_every eng processed last_offset in
    Ret ({| th_engine := eng; th_processed := processed; th_last_offset := last_offset;
            th_engine_alive := th_engine_alive th |},
         sent ++ snaps, r, true).

(** The loop over the orders received until the order channel closes. *)
Fixpoint thread_loop (snapshot_every : Z) (th : EngineThread) (orders : list Order) (r : room) :
    outcome (EngineThread * list effect) :=
  match orders with
  | [] => Ret (set_alive false th, [])
  | order :: orders =>
      let! (th, effs, r, go) := turn_order snapshot_every th order r in
      if (go : bool) then
        let! (th, effs') := thread_loop snapshot_every th orders r in
        Ret (th, effs ++ effs')
      else Ret (th, effs)
  end.

(** What the loop has done to the outside when it ends, also when it ends in a panic: a
    turn that panics in its snapshot has delivered before. *)
Fixpoint loop_effects (snapshot_every : Z) (th : EngineThread) (orders : list Order) (r : room) :
    list effect :=
  match orders with
  | [] => []
  | order :: orders =>
      match turn_order snapshot_every th order r with
      | Ret (th, effs, r, true) => effs ++ loop_effects snapshot_every th orders r
      | Ret (_, effs, _, false) => effs
      | _ => match turn_deliver th order r with Ret (_, sent, _, _) => sent | _ => [] end
      end
  end.

(** Restoring the book from the snapshot the process loaded; on a codec error
    the engine starts empty. The engine's own counter is not restored. *)
Definition restore_engine (initial_snap : option BookSnapshot) : outcome MatchingEngine :=
  let engine := MatchingEngine_new MARKET_ID in
  match initial_snap with
  | None => Ret engine
  | Some snap =>
      match to_allocvec snap with
      | None => Ret engine
      | Some bytes =>
          let! d := deserialize_book bytes in
          match d with
          | Some (book, _) => Ret (set_book book engine)
          | None => Ret engine
          end
      end
  end.

(** [start_engine_thread]; the capacity of the order channel only makes senders
    wait. *)
Definition engine_thread (env : string -> option string) (initial_snap : option BookSnapshot)
    (orders : list Order) (r : room) : outcome (EngineThread * list effect) :=
  let snapshot_every := env_unsigned u64_max env "SNAPSHOT_EVERY" 10000 in
  let! engine := restore_engine initial_snap in
  thread_loop snapshot_every
    {| th_engine := engine; th_processed := 0; th_last_offset := 0; th_engine_alive := true |}
    orders r.

(** ** The follower

    Every turn first reads [is_leader]; then an order is received, the wait
    times out, or the channel is closed. *)

Inductive follower_input := FOrder (order : Order) | FTimeout | FDisconnected.

Inductive follower_end := StillRunning | Promoted | ChannelClosed.

(** The variables of the follower's closure and the health flag it writes. *)
Record Follower := mkFollower {
  fo_engine : MatchingEngine;
  fo_processed : Z;
  fo_engine_alive : bool
}.

Fixpoint follower_loop (fo : Follower) (turns : list (bool * follower_input)) :
    outcome (Follower * follower_end) :=
  match turns with
  | [] => Ret (fo, StillRunning)
  | (is_leader, input) :: turns =>
      if (is_leader : bool) then Ret (fo, Promoted)
      else
        match input with
        | FOrder order =>
            let! (eng, _) := process_order (fo_engine fo) order in
            follower_loop {| fo_engine := eng; fo_processed := u64_add (fo_processed fo) 1;
                             fo_engine_alive := fo_engine_alive fo |} turns
        | FTimeout => follower_loop fo turns
        | FDisconnected =>
            Ret ({| fo_engine := fo_engine fo; fo_processed := fo_processed fo;
                    fo_engine_alive := false |}, ChannelClosed)
        end
  end.

(** [start_follower_engine] *)
Definition start_follower_engine (initial_snap : option BookSnapshot)
    (turns : list (bool * follower_input)) : outcome (Follower * follower_end) :=
  let! engine := restore_engine initial_snap in
  follower_loop {| fo_engine := engine; fo_processed := 0; fo_engine_alive := true |} turns.
End processor.

Arguments effect : clear implicits.
Arguments effect {DA UA}.
Arguments EngineThread : clear implicits.
Arguments EngineThread {DA UA SA}.
Arguments BookUpdate : clear implicits.
Arguments BookUpdate {DA}.
