(* ===== verification/ProcessorProps.v ===== *)
(** * Properties of the engine thread and the follower

    The thread's effects against runs of the engine: the fills it sends, when it
    sends book updates, when it saves snapshots; and the follower's replay. *)

From S2P Require Import Prelude External BTreeMap Types OrderBook Levels PriceTime BookFacts BookOps Matching Concrete MatchingRefine EngineFacts Runs Samples EngineProps Snapshot SnapshotProps Codec Text Mock Processor.
From Stdlib Require Import Strings.Byte.

(** ** Projections of effects *)

Section effects.
Context {DA : DecimalApi} {UA : UuidApi} {SA : SlabApi}.

Definition fill_of (e : effect) : option Fill :=
  match e with SendFill f => Some f | _ => None end.

Definition update_of (e : effect) : option BookUpdate :=
  match e with SendBookUpdate u => Some u | _ => None end.

Definition save_of (e : effect) : option (Z * Z) :=
  match e with SaveRaw _ offset sequence => Some (offset, sequence) | _ => None end.

(** The fills an answer of the engine carries. *)
Definition answer_fills (r : result ProcessResult EngineError) : list Fill :=
  match r with Ok (Fills fs) => fs | _ => [] end.

Lemma send_fills_open (fs : list Fill) : send_fills fs None = (SendFill <$> fs, None, true).
Proof. induction fs as [|f fs IH]; [done|]. cbn. by rewrite IH. Qed.

Lemma send_fills_only (fs : list Fill) r :
  exists fs', (send_fills fs r).1.1 = SendFill <$> fs'.
Proof.
  revert r. induction fs as [|f fs IH]; intros r; [by exists []|]. cbn.
  destruct r as [[|n]|]; [by exists []| |].
  - destruct (IH (Some n)) as [fs' E]. destruct (send_fills fs (Some n)) as [[s r'] ok].
    exists (f :: fs'). cbn in *. by rewrite E.
  - destruct (IH None) as [fs' E]. destruct (send_fills fs None) as [[s r'] ok].
    exists (f :: fs'). cbn in *. by rewrite E.
Qed.

Lemma fills_of_sent (fs : list Fill) : omap fill_of (SendFill <$> fs) = fs.
Proof. induction fs as [|f fs IH]; [done|]. cbn. by rewrite <-IH at 2. Qed.

Lemma updates_of_sent (fs : list Fill) : omap update_of (SendFill <$> fs) = [].
Proof. by induction fs. Qed.

Lemma saves_of_sent (fs : list Fill) : omap save_of (SendFill <$> fs) = [].
Proof. by induction fs. Qed.
End effects.

Section turns.
Context {DA : DecimalApi} {UA : UuidApi} {SA : SlabApi} {PC : Postcard BookSnapshot}.
Context (every : Z) (Hevery : 0 < every).

Lemma snapshot_block_ok eng n off :
  exists effs, snapshot_block every eng n off = Ret effs /\
    omap fill_of effs = [] /\ omap update_of effs = [] /\
    ((forall snap, is_Some (to_allocvec snap)) ->
     omap save_of effs = if Z.rem n every =? 0 then [(off, n)] else []).
Proof.
  unfold snapshot_block. rewrite (proj2 (Z.eqb_neq every 0)) by lia.
  destruct (Z.rem n every =? 0); [|by exists []]. eexists. split; [done|].
  unfold serialize_book. destruct (to_allocvec _) eqn:E; split_and!; try done.
  intros Ht. destruct (Ht (book_snapshot (eng_book eng) MARKET_ID n)). congruence.
Qed.

(** A turn with an open fill channel, from the engine's answer. *)
Lemma turn_open th (o : Order) eng r :
  process_order (th_engine th) o = Ret (eng, r) ->
  exists effs, turn_order every th o None =
      Ret ({| th_engine := eng; th_processed := u64_add (th_processed th) 1;
              th_last_offset := u64_as_i64 (o_sequence o);
              th_engine_alive := th_engine_alive th |}, effs, None, true) /\
    omap fill_of effs = answer_fills r /\
    omap update_of effs = match r with Ok (Fills _) => [book_update eng] | _ => [] end /\
    ((forall snap, is_Some (to_allocvec snap)) ->
     omap save_of effs =
       if Z.rem (u64_add (th_processed th) 1) every =? 0
       then [(u64_as_i64 (o_sequence o), u64_add (th_processed th) 1)] else []).
Proof.
  intros E. unfold turn_order, turn_deliver. rewrite E. cbn [obind].
  destruct (snapshot_block_ok eng (u64_add (th_processed th) 1) (u64_as_i64 (o_sequence o)))
    as (effs & Es & Hf & Hu & Hs).
  destruct r as [[fs| |]|e]; rewrite ?send_fills_open; cbn [negb andb obind answer_fills]; rewrite Es;
    (eexists; split; [reflexivity|]); rewrite !omap_app, ?fills_of_sent, ?updates_of_sent, ?saves_of_sent,
      Hf, Hu; cbn; rewrite ?app_nil_r; auto.
Qed.

(** The engine's part of a run. *)
Lemma thread_loop_run th orders eng rs :
  engine_run (th_engine th) (Submit <$> orders) = Ret (eng, rs) ->
  exists th' effs, thread_loop every th orders None = Ret (th', effs) /\
    th_engine th' = eng /\ th_engine_alive th' = false /\
    th_processed th' = (if decide (orders = []) then th_processed th
                        else u64_add (th_processed th) (Z.of_nat (length orders))) /\
    omap fill_of effs = rs ≫= answer_fills.
Proof.
  revert th rs. induction orders as [|o orders IH]; intros th rs E.
  - cbn in E. simplify_eq. by eexists _, _.
  - cbn in E. inv_bind E. destruct a as [eng1 r]. inv_bind E. destruct a as [eng2 rs']. simplify_eq.
    match goal with X : process_order _ _ = _ |- _ =>
      destruct (turn_open th o eng1 r X) as (effs & Et & Hf & _) end.
    match goal with X : engine_run eng1 _ = _ |- _ => set (Erun := X) end.
    destruct (IH (mkThread eng1 (u64_add (th_processed th) 1) (u64_as_i64 (o_sequence o))
      (th_engine_alive th)) rs' Erun) as (th' & effs' & El & He & Ha & Hp & Hf').
    exists th', (effs ++ effs'). cbn [thread_loop]. rewrite Et. cbn [obind]. rewrite El.
    split; [done|]. split; [done|]. split; [done|]. split.
    + rewrite Hp. cbn [th_processed]. destruct orders as [|o' orders]; [done|].
      rewrite !decide_False by done. rewrite u64_add_assoc. f_equal. cbn [length]. lia.
    + rewrite omap_app, Hf, Hf'. done.
Qed.
End turns.

(** ** Properties *)

Section properties.
Context {DA : DecimalApi} {DL : DecimalLaws DA} {UA : UuidApi}
  {SA : SlabApi} {SL : SlabLaws SA} {PC : Postcard BookSnapshot}.

(** C12. The engine thread implements the engine: on any sequence of orders, with
    an open fill channel and a positive snapshot period, it processes all of
    them, sends exactly the fills of the engine's answers in their order, counts
    every order, and reports itself dead only when its input closes. *)
Theorem thread_sends_engine_fills (lot every : Z) (th : EngineThread) (orders : list Order) :
  0 <= lot <= 28 -> 0 < every -> engine_inv lot (th_engine th) ->
  spec_inv (abs_engine lot (th_engine th)) -> Forall (command_ok lot) (Submit <$> orders) ->
  u64_ok (th_processed th) ->
  exists th' effs rs, thread_loop every th orders None = Ret (th', effs) /\
    engine_run (th_engine th) (Submit <$> orders) = Ret (th_engine th', rs) /\
    omap fill_of effs = rs ≫= answer_fills /\
    th_processed th' = u64_add (th_processed th) (Z.of_nat (length orders)) /\
    th_engine_alive th' = false.
Proof.
  intros Hlot Hevery Hinv Hs Hcs Hu.
  destruct (engine_run_inv lot Hlot (th_engine th) _ Hinv Hs Hcs) as (eng & rs & E & _ & _).
  destruct (thread_loop_run every Hevery th orders eng rs E) as (th' & effs & El & <- & Ha & Hp & Hf).
  exists th', effs, rs. split_and!; try done. rewrite Hp. case_decide as Hn; [|done]. subst orders.
  cbn. rewrite u64_add_small; unfold u64_ok in Hu; lia.
Qed.

(** C29. A book update is sent after an order exactly when the engine answered it
    with fills (a market order that found no maker included), and it carries the
    best prices of the book after that order. An order that rests, and so may
    change the best price, sends none. *)
Theorem book_update_only_after_fills (every : Z) th (o : Order) th' effs r :
  0 < every -> turn_order every th o None = Ret (th', effs, r, true) ->
  exists res, process_order (th_engine th) o = Ret (th_engine th', res) /\
    omap update_of effs =
      match res with
      | Ok (Fills _) =>
          [{| bu_market_id := MARKET_ID; bu_best_bid := best_bid (eng_book (th_engine th'));
              bu_best_ask := best_ask (eng_book (th_engine th')) |}]
      | _ => []
      end.
Proof.
  intros Hevery H. destruct (process_order (th_engine th) o) as [[eng res]| |] eqn:E;
    [|unfold turn_order, turn_deliver in H; rewrite E in H; done..].
  destruct (turn_open every Hevery th o eng res E) as (effs' & Et & _ & Hu & _).
  rewrite Et in H. simplify_eq. by exists res.
Qed.

(** The saves a run is expected to make: after every [every]th order, with its
    offset and its number. *)
Fixpoint expected_saves (every n : Z) (orders : list Order) : list (Z * Z) :=
  match orders with
  | [] => []
  | o :: orders =>
      (if Z.rem (n + 1) every =? 0 then [(u64_as_i64 (o_sequence o), n + 1)] else []) ++
      expected_saves every (n + 1) orders
  end.

(** Snapshots are saved after every [every]th order and only then, each with
    the offset of the last order processed and the number of orders processed. *)
Theorem thread_saves_periodically (every : Z) th (orders : list Order) th' effs :
  0 < every -> (forall snap : BookSnapshot, is_Some (to_allocvec snap)) ->
  0 <= th_processed th -> th_processed th + Z.of_nat (length orders) < u64_modulus ->
  thread_loop every th orders None = Ret (th', effs) ->
  omap save_of effs = expected_saves every (th_processed th) orders.
Proof.
  intros Hevery Ht. revert th effs. induction orders as [|o orders IH]; intros th effs H0 Hn H.
  - cbn in H. by simplify_eq.
  - cbn [thread_loop] in H. destruct (process_order (th_engine th) o) as [[eng res]| |] eqn:E;
      [|unfold turn_order, turn_deliver in H; rewrite E in H; done..].
    destruct (turn_open every Hevery th o eng res E) as (effs1 & Et & _ & _ & Hs).
    rewrite Et in H. cbn [obind] in H. inv_bind H. destruct a as [th2 effs2]. simplify_eq.
    rewrite omap_app, (Hs Ht). cbn [expected_saves]. cbn [length] in Hn.
    rewrite u64_add_small by lia. f_equal.
    match goal with X : thread_loop _ _ _ _ = _ |- _ => apply IH in X end; cbn [th_processed] in *;
      rewrite u64_add_small in * by lia; [done|lia|lia].
Qed.

(** When the loop returns, its effects are those collected on the way. *)
Lemma loop_effects_returned (every : Z) th (orders : list Order) r th' effs :
  thread_loop every th orders r = Ret (th', effs) -> loop_effects every th orders r = effs.
Proof.
  revert th r effs. induction orders as [|o orders IH]; intros th r effs H; cbn in *; [by simplify_eq|].
  destruct (turn_order every th o r) as [[[[th1 e1] r1] []]| |]; cbn in H; try done; [|by simplify_eq].
  destruct (thread_loop every th1 orders r1) as [[th2 e2]| |] eqn:E; [|done..].
  cbn in H. simplify_eq. by rewrite (IH _ _ _ E).
Qed.

(** A snapshot period of zero, which the environment can ask for, makes the thread
    panic at the first order it processes, after it sent the fills of that order. *)
Theorem zero_period_panics th (o : Order) orders eng res :
  process_order (th_engine th) o = Ret (eng, res) ->
  thread_loop 0 th (o :: orders) None = Panic /\
  omap fill_of (loop_effects 0 th (o :: orders) None) = answer_fills res.
Proof.
  intros E. cbn. unfold turn_order, turn_deliver. rewrite E. cbn.
  destruct res as [[fs| |]|e]; rewrite ?send_fills_open; cbn; try done.
  by rewrite omap_app, fills_of_sent, app_nil_r.
Qed.

(** The orders a follower received. *)
Definition received (turns : list (bool * follower_input)) : list Order :=
  omap (fun t => match t.2 with FOrder o => Some o | _ => None end) turns.

(** C28. The follower keeps the leader's book: as long as it is not promoted and
    its channel is open, timeouts or not, its engine is the engine after the
    orders it received, and it has counted them. *)
Theorem follower_replays (fo : Follower) (turns : list (bool * follower_input)) eng rs :
  Forall (fun t => t.1 = false /\ t.2 <> FDisconnected) turns ->
  u64_ok (fo_processed fo) ->
  engine_run (fo_engine fo) (Submit <$> received turns) = Ret (eng, rs) ->
  follower_loop fo turns =
    Ret ({| fo_engine := eng;
            fo_processed := u64_add (fo_processed fo) (Z.of_nat (length (received turns)));
            fo_engine_alive := fo_engine_alive fo |}, StillRunning).
Proof.
  intros Ht. revert fo rs. induction Ht as [|[l i] turns [Hl Hd] Ht IH]; intros fo rs Hu E.
  - cbn in E. simplify_eq. cbn [received omap list_omap length follower_loop].
    change (Z.of_nat (length (received []))) with 0.
    rewrite u64_add_small by (unfold u64_ok in Hu; lia).
    rewrite Z.add_0_r. by destruct fo.
  - cbn in Hl, Hd. subst l. cbn [follower_loop]. destruct i as [o| |]; [|by eapply IH|done].
    cbn in E. inv_bind E. destruct a as [eng1 r]. inv_bind E. destruct a as [eng2 rs']. simplify_eq.
    match goal with X : process_order _ _ = _ |- _ => rewrite X end. cbn [obind].
    erewrite IH; [|apply u64_add_ok|eassumption]. cbn [fo_processed fo_engine_alive].
    rewrite u64_add_assoc.
    change (length (received ((false, FOrder o) :: turns))) with (S (length (received turns))).
    do 4 f_equal. lia.
Qed.
End properties.

(** ** Witnesses *)

Definition sample_thread : EngineThread := mkThread sample_engine 41 40 true.

Definition sample_orders : list Order :=
  [limit 6 Bid 1000 400; limit 7 Ask 1020 100; market 8 Ask 900].

Lemma sample_spec_inv : spec_inv (abs_engine 2 sample_engine).
Proof. apply run_engine_inv; [lia|vm_compute; reflexivity]. Qed.

Lemma thread_sends_engine_fills_witness :
  exists th' effs rs, thread_loop 2 sample_thread sample_orders None = Ret (th', effs) /\
    engine_run sample_engine (Submit <$> sample_orders) = Ret (th_engine th', rs) /\
    omap fill_of effs = rs ≫= answer_fills /\
    th_processed th' = u64_add 41 3 /\ th_engine_alive th' = false.
Proof.
  apply (thread_sends_engine_fills 2 2 sample_thread sample_orders); [lia|lia| | | |].
  - exact sample_inv.
  - exact sample_spec_inv.
  - apply commands_ok_sound. vm_compute. reflexivity.
  - vm_compute. split; [discriminate|reflexivity].
Defined.

(** The outcome of a turn, by name. *)
Definition turn_of (o : Order) : EngineThread * list effect :=
  match turn_order 2 sample_thread o None with
  | Ret (th, effs, _, _) => (th, effs)
  | _ => (sample_thread, [])
  end.

Lemma turn_of_eq (o : Order) :
  match turn_order 2 sample_thread o None with Ret (_, _, None, true) => true | _ => false end = true ->
  turn_order 2 sample_thread o None = Ret ((turn_of o).1, (turn_of o).2, None, true).
Proof.
  unfold turn_of. destruct (turn_order 2 sample_thread o None) as [[[[th effs] [n|]] []]| |]; done.
Qed.

Lemma book_update_only_after_fills_witness :
  exists res, process_order sample_engine (limit 7 Ask 1020 100) =
      Ret (th_engine (turn_of (limit 7 Ask 1020 100)).1, res) /\
    omap update_of (turn_of (limit 7 Ask 1020 100)).2 =
      match res with
      | Ok (Fills _) =>
          [{| bu_market_id := MARKET_ID;
              bu_best_bid := best_bid (eng_book (th_engine (turn_of (limit 7 Ask 1020 100)).1));
              bu_best_ask := best_ask (eng_book (th_engine (turn_of (limit 7 Ask 1020 100)).1)) |}]
      | _ => []
      end.
Proof.
  apply (book_update_only_after_fills 2 sample_thread (limit 7 Ask 1020 100) _ _ None); [lia|].
  apply turn_of_eq. vm_compute. reflexivity.
Defined.

Definition sample_loop : EngineThread * list effect :=
  returned (sample_thread, []) (thread_loop 2 sample_thread sample_orders None).

Lemma sample_loop_eq : thread_loop 2 sample_thread sample_orders None = Ret (sample_loop.1, sample_loop.2).
Proof. rewrite <-surjective_pairing. apply returned_eq. vm_compute. reflexivity. Qed.

Lemma thread_saves_periodically_witness :
  omap save_of sample_loop.2 = expected_saves 2 41 sample_orders /\
  expected_saves 2 41 sample_orders = [(0, 42); (0, 44)].
Proof.
  split; [|reflexivity].
  apply (thread_saves_periodically 2 sample_thread sample_orders sample_loop.1);
    [lia|intros snap; by eexists|vm_compute; discriminate|vm_compute; reflexivity|exact sample_loop_eq].
Defined.

Lemma zero_period_panics_witness :
  thread_loop 0 sample_thread [limit 7 Ask 1020 100] None = Panic /\
  omap fill_of (loop_effects 0 sample_thread [limit 7 Ask 1020 100] None) =
    answer_fills (returned (sample_engine, Ok Resting)
      (process_order sample_engine (limit 7 Ask 1020 100))).2.
Proof.
  pose (res := returned (sample_engine, Ok Resting) (process_order sample_engine (limit 7 Ask 1020 100))).
  apply (zero_period_panics sample_thread (limit 7 Ask 1020 100) [] res.1 res.2).
  rewrite <-surjective_pairing. apply returned_eq. vm_compute. reflexivity.
Defined.

Definition sample_turns : list (bool * follower_input) :=
  [(false, FOrder (limit 6 Bid 1000 400)); (false, FTimeout); (false, FOrder (market 8 Ask 900))].

Lemma follower_replays_witness :
  exists eng, follower_loop (mkFollower sample_engine 7 true) sample_turns =
    Ret (mkFollower eng (u64_add 7 2) true, StillRunning).
Proof.
  pose (res := returned (sample_engine, []) (engine_run sample_engine (Submit <$> received sample_turns))).
  exists res.1. apply (follower_replays (mkFollower sample_engine 7 true) sample_turns res.1 res.2).
  - by repeat constructor.
  - vm_compute. split; [discriminate|reflexivity].
  - rewrite <-surjective_pairing. apply returned_eq. vm_compute. reflexivity.
Defined.
