(* ===== verification/Kafka.v ===== *)
(** * The Kafka clients

    [kafka/consumer.rs], [kafka/producer.rs] and [kafka/fill_publisher.rs]: the
    records that are written, the consumer's loop from the [orders-in] topic to
    the engine's channel, and the offsets a restarted consumer asks for. The
    broker is third-party: what it delivers is an input. *)

From S2P Require Import Prelude External Types OrderBook Matching Concrete Samples Snapshot Codec.
From Stdlib Require Import Strings.Byte.

Definition TOPIC_ORDERS_IN : string := "orders-in".
Definition TOPIC_FILLS_OUT : string := "fills-out".

(** A record handed to a producer. *)
Record record := mkRecord { r_topic : string; r_key : string; r_payload : list byte }.

(** A message of a partition. *)
Record message := mkMessage {
  m_partition : Z;
  m_offset : Z;
  m_payload : option (list byte)
}.

Section kafka.
Context {DA : DecimalApi} {UA : UuidApi} {PO : Postcard Order} {PF : Postcard Fill}.

Inductive publish_error := SerializeError | SendError.

(** [KafkaProducer::send_order]: the record that is sent, and the answer when the
    broker acknowledges it or not. *)
Definition order_record (order : Order) : option record :=
  match to_allocvec order with
  | Some payload =>
      Some {| r_topic := TOPIC_ORDERS_IN; r_key := uuid_to_string (o_id order);
              r_payload := payload |}
  | None => None
  end.

Definition send_order (acknowledged : bool) (order : Order) :
    option record * result unit publish_error :=
  match order_record order with
  | None => (None, Err SerializeError)
  | Some r => (Some r, if acknowledged then Ok tt else Err SendError)
  end.

(** [FillPublisher::send_fill]: keyed by the maker. *)
Definition fill_record (fill : Fill) : option record :=
  match to_allocvec fill with
  | Some payload =>
      Some {| r_topic := TOPIC_FILLS_OUT; r_key := uuid_to_string (f_maker_order_id fill);
              r_payload := payload |}
  | None => None
  end.

Definition send_fill (acknowledged : bool) (fill : Fill) :
    option record * result unit publish_error :=
  match fill_record fill with
  | None => (None, Err SerializeError)
  | Some r => (Some r, if acknowledged then Ok tt else Err SendError)
  end.

(** ** The consumer *)

(** [seek_to]: every partition of the topic is assigned at the same offset.
    [topics] is the broker's metadata, [None] when it cannot be fetched. *)
Definition seek_to (topics : option (list (string * list Z))) (start_offset : Z) :
    option (list (Z * Z)) :=
  match topics with
  | None => None
  | Some ts =>
      match List.find (fun t : string * list Z => String.eqb (fst t) TOPIC_ORDERS_IN) ts with
      | None => None
      | Some topic => Some ((fun partition => (partition, start_offset)) <$> snd topic)
      end
  end.

Inductive stream_item := ReceiveError | Received (msg : message).

(** What the consumer does to the outside. *)
Inductive consumer_effect :=
| SendOrder (order : Order)
| CommitMessage (partition offset : Z)
| SetLag (partition lag : Z).

Record ConsumerState := mkConsumer { c_count : Z; c_kafka_ready : bool }.

Inductive consumer_end := StreamEnded | EngineGone.

(** The lag sample, taken when the counter is a multiple of 1000 and the broker
    answers with the high watermark. *)
Definition sample_lag (count : Z) (msg : message) (high : option Z) : list consumer_effect :=
  if Z.rem count 1000 =? 0 then
    match high with
    | Some h => [SetLag (m_partition msg) (Z.max (h - m_offset msg - 1) 0)]
    | None => []
    end
  else [].

Definition commit_message (msg : message) : consumer_effect :=
  CommitMessage (m_partition msg) (m_offset msg).

(** The loop of [KafkaConsumer::run]. [high] is the watermark the broker would
    answer with for a message; [accepts] is the number of orders the engine's
    channel still takes, [None] when it stays open. *)
Fixpoint consumer_run (high : message -> option Z) (st : ConsumerState)
    (items : list stream_item) (accepts : option nat) :
    ConsumerState * list consumer_effect * consumer_end :=
  match items with
  | [] => (st, [], StreamEnded)
  | ReceiveError :: items => consumer_run high st items accepts
  | Received msg :: items =>
      match m_payload msg with
      | None =>
          let '(st, effs, e) := consumer_run high st items accepts in
          (st, commit_message msg :: effs, e)
      | Some payload =>
          match from_bytes payload with
          | Some order =>
              let order := set_sequence (i64_as_u64 (m_offset msg)) order in
              match accepts with
              | Some O => (st, [], EngineGone)
              | _ =>
                  let accepts := match accepts with Some (S n) => Some n | _ => accepts end in
                  let count := u64_add (c_count st) 1 in
                  let '(st, effs, e) := consumer_run high (mkConsumer count true) items accepts in
                  (st, SendOrder order :: commit_message msg ::
                       sample_lag count msg (high msg) ++ effs, e)
              end
          | None =>
              let lag := sample_lag (c_count st) msg (high msg) in
              let '(st, effs, e) :=
                consumer_run high (mkConsumer (c_count st) true) items accepts in
              (st, commit_message msg :: lag ++ effs, e)
          end
      end
  end.

(** ** Facts *)

(** The order a message carries, as the engine receives it. *)
Definition carried (msg : message) : option Order :=
  match m_payload msg with
  | Some payload =>
      match from_bytes payload with
      | Some order => Some (set_sequence (i64_as_u64 (m_offset msg)) order)
      | None => None
      end
  | None => None
  end.

Definition order_of (e : consumer_effect) : option Order :=
  match e with SendOrder o => Some o | _ => None end.

Definition message_of (i : stream_item) : option message :=
  match i with Received m => Some m | ReceiveError => None end.

Lemma lag_effect count msg h e : e ∈ sample_lag count msg h -> exists p l, e = SetLag p l.
Proof.
  unfold sample_lag. case_match; [|set_solver]. case_match; [|set_solver].
  intros ->%list_elem_of_singleton. eauto.
Qed.

Lemma lag_no_order count msg h : omap order_of (sample_lag count msg h) = [].
Proof. unfold sample_lag. by repeat case_match. Qed.

(** A commit inside a block of effects that starts with a block of lag samples. *)
Lemma commit_after_lag count msg h effs e1 p off e2 :
  sample_lag count msg h ++ effs = e1 ++ CommitMessage p off :: e2 ->
  exists e1', e1 = sample_lag count msg h ++ e1' /\ effs = e1' ++ CommitMessage p off :: e2.
Proof.
  intros E. unfold sample_lag in *. destruct (Z.rem count 1000 =? 0); [|by exists e1].
  destruct h; [|by exists e1]. destruct e1 as [|x e1]; [done|].
  cbn in E. injection E as <- E. by exists e1.
Qed.

(** The effects [e1] delivered the orders of the messages up to the one committed. *)
Definition delivered (msgs : list message) (e1 : list consumer_effect) (p off : Z) : Prop :=
  exists ms1 m ms2, msgs = ms1 ++ m :: ms2 /\ m_partition m = p /\ m_offset m = off /\
    omap order_of e1 = omap carried (ms1 ++ [m]).

Lemma delivered_here msg msgs e1 :
  omap order_of e1 = omap carried [msg] ->
  delivered (msg :: msgs) e1 (m_partition msg) (m_offset msg).
Proof. intros H. by exists [], msg, msgs. Qed.

Lemma delivered_later msg msgs pre e1 p off :
  omap order_of pre = omap carried [msg] -> delivered msgs e1 p off ->
  delivered (msg :: msgs) (pre ++ e1) p off.
Proof.
  intros Hpre (ms1 & m & ms2 & -> & Hp & Ho & Hc). exists (msg :: ms1), m, ms2. split_and!; try done.
  rewrite omap_app, Hpre, Hc. change (msg :: ms1) with ([msg] ++ ms1).
  by rewrite <-app_assoc, (omap_app _ [msg]).
Qed.

Lemma carried_eq msg :
  carried msg = payload ← m_payload msg; o ← from_bytes payload;
                Some (set_sequence (i64_as_u64 (m_offset msg)) o).
Proof. unfold carried. destruct (m_payload msg) as [b|]; [|done]. cbn. by destruct (from_bytes b). Qed.

(** The effects of one message: its order, its commit, the lag sample. *)
Lemma delivered_block msg msgs sent lag effs e1 p off e2 :
  (sent ++ commit_message msg :: lag) ++ effs = e1 ++ CommitMessage p off :: e2 ->
  omap order_of sent = omap carried [msg] ->
  sent = [] \/ (exists o, sent = [SendOrder o]) ->
  (exists count h, lag = sample_lag count msg h) \/ lag = [] ->
  (forall e1', effs = e1' ++ CommitMessage p off :: e2 -> delivered msgs e1' p off) ->
  delivered (msg :: msgs) e1 p off.
Proof.
  intros E Hsent Hone Hlag IH. rewrite <-app_assoc in E. cbn [app] in E. unfold commit_message in *.
  assert (Hcut : (e1 = sent /\ p = m_partition msg /\ off = m_offset msg) \/
    exists t, e1 = sent ++ commit_message msg :: t /\ lag ++ effs = t ++ CommitMessage p off :: e2).
  { destruct Hone as [->|[o ->]]; [|destruct e1 as [|y e1]; [done|injection E as <- E]];
      (destruct e1 as [|z t]; [left; by injection E as <- <- _|injection E as <- E; right; by exists t]). }
  destruct Hcut as [(-> & -> & ->)|(t & -> & Et)]; [by apply delivered_here|].
  assert (Ht : exists t', t = lag ++ t' /\ effs = t' ++ CommitMessage p off :: e2).
  { destruct Hlag as [(count & h & ->)| ->]; [by eapply commit_after_lag|by exists t]. }
  destruct Ht as (t' & -> & Et'). rewrite app_comm_cons, app_assoc.
  apply delivered_later; [|by apply IH]. rewrite omap_app, Hsent. cbn.
  destruct Hlag as [(count & h & ->)| ->]; [rewrite lag_no_order|]; by rewrite app_nil_r.
Qed.

(** Whatever the channel does, a message is committed only after the orders of
    all messages before it and its own order went to the engine. *)
Lemma commit_after_delivery high items :
  forall st accepts st' effs e e1 p off e2,
  consumer_run high st items accepts = (st', effs, e) ->
  effs = e1 ++ CommitMessage p off :: e2 ->
  delivered (omap message_of items) e1 p off.
Proof.
  induction items as [|[|msg] items IH]; intros st accepts st' effs e e1 p off e2 H ->.
  - cbn in H. injection H as _ H _. by destruct e1.
  - by eapply IH.
  - cbn [consumer_run] in H. cbn [omap list_omap message_of].
    pose proof (carried_eq msg) as Hcar.
    destruct (m_payload msg) as [payload|]; cbn in Hcar;
      [destruct (from_bytes payload) as [o|]; cbn in Hcar|].
    + destruct accepts as [[|n]|]; [injection H as _ H _; by destruct e1| |];
        destruct (consumer_run high _ items _) as [[st1 effs1] en] eqn:Hr; injection H as _ H _;
        (eapply (delivered_block _ _ [SendOrder _] _ effs1);
          [exact H|cbn; by rewrite Hcar|by right; eexists|left; eauto|];
         intros e1' ->; eapply IH; [exact Hr|done]).
    + destruct (consumer_run high _ items _) as [[st1 effs1] en] eqn:Hr; injection H as _ H _.
      eapply (delivered_block _ _ [] _ effs1); [exact H|cbn; by rewrite Hcar|by left|left; eauto|].
      intros e1' ->. eapply IH; [exact Hr|done].
    + destruct (consumer_run high _ items _) as [[st1 effs1] en] eqn:Hr; injection H as _ H _.
      eapply (delivered_block _ _ [] [] effs1); [exact H|cbn; by rewrite Hcar|by left|by right|].
      intros e1' ->. eapply IH; [exact Hr|done].
Qed.

(** With an open channel every order is delivered, once and in order, and counted. *)
Lemma consumer_open high items st :
  u64_ok (c_count st) ->
  exists st' effs, consumer_run high st items None = (st', effs, StreamEnded) /\
    omap order_of effs = omap carried (omap message_of items) /\
    c_count st' = u64_add (c_count st)
      (Z.of_nat (length (omap carried (omap message_of items)))).
Proof.
  revert st. induction items as [|[|msg] items IH]; intros st Hst.
  - eexists _, _. split; [done|]. split; [done|].
    change (Z.of_nat (length (omap carried (omap message_of [])))) with 0.
    rewrite u64_add_small; unfold u64_ok in Hst; lia.
  - by apply IH.
  - cbn [consumer_run omap list_omap message_of].
    assert (Hcar : carried msg = match m_payload msg with
      | Some payload => match from_bytes payload with
                        | Some o => Some (set_sequence (i64_as_u64 (m_offset msg)) o)
                        | None => None end
      | None => None end) by done.
    destruct (m_payload msg) as [payload|]; [destruct (from_bytes payload) as [o|]|]; rewrite Hcar.
    + destruct (IH (mkConsumer (u64_add (c_count st) 1) true) (u64_add_ok _ _))
        as (st' & effs & -> & Ho & Hc).
      eexists _, _. split; [done|]. cbn. rewrite omap_app, lag_no_order. cbn. split; [by f_equal|].
      rewrite Hc. cbn [c_count]. rewrite u64_add_assoc. f_equal. lia.
    + destruct (IH (mkConsumer (c_count st) true) Hst) as (st' & effs & -> & Ho & Hc).
      eexists _, _. split; [done|]. cbn. by rewrite omap_app, lag_no_order.
    + destruct (IH st Hst) as (st' & effs & -> & Ho & Hc). by eexists _, _.
Qed.
End kafka.

(** ** Properties *)

Section properties.
Context {DA : DecimalApi} {UA : UuidApi} {PO : Postcard Order}.

(** C13. The consumer delivers at least once: wherever an offset is committed, the
    orders of every message up to and including that one have already gone to
    the engine, in stream order, numbered by their offsets (also when the engine
    goes away); and with an open channel every order of the stream is delivered
    exactly once and counted. *)
Theorem consumer_commits_after_delivery (high : message -> option Z) (st : ConsumerState)
    (items : list stream_item) (accepts : option nat) :
  u64_ok (c_count st) ->
  (forall st' effs e e1 p off e2,
     consumer_run high st items accepts = (st', effs, e) ->
     effs = e1 ++ CommitMessage p off :: e2 ->
     exists ms1 m ms2, omap message_of items = ms1 ++ m :: ms2 /\
       m_partition m = p /\ m_offset m = off /\ omap order_of e1 = omap carried (ms1 ++ [m])) /\
  (exists st' effs, consumer_run high st items None = (st', effs, StreamEnded) /\
     omap order_of effs = omap carried (omap message_of items) /\
     c_count st' = u64_add (c_count st)
       (Z.of_nat (length (omap carried (omap message_of items))))).
Proof.
  intros Hst. split; [|by apply consumer_open].
  intros st' effs e e1 p off e2. apply commit_after_delivery.
Qed.

Context {PL : PostcardLaws _ PO}.

(** C30. An order survives the topic: what [send_order] publishes, read back from
    a partition at any offset, is the same order but for its sequence, which is
    the offset; and the engine thread recovers that offset from it. *)
Theorem order_survives_topic (order : Order) (r : record) (partition offset : Z) :
  i64_ok offset -> order_record order = Some r ->
  exists order', carried (mkMessage partition offset (Some (r_payload r))) = Some order' /\
    set_sequence (o_sequence order) order' = order /\
    u64_as_i64 (o_sequence order') = offset /\
    r_topic r = TOPIC_ORDERS_IN /\ r_key r = uuid_to_string (o_id order).
Proof.
  intros Ho Hr. unfold order_record in Hr. destruct (to_allocvec order) as [b|] eqn:E; [|done].
  simplify_eq. apply postcard_roundtrip in E. eexists. unfold carried. cbn. rewrite E.
  split_and!; try done.
  - by destruct order.
  - cbn. by apply i64_u64_roundtrip.
Qed.
End properties.

(** ** Witnesses *)

Definition payload_of (o : Order) : list byte := default [] (to_allocvec o).

(** An order, a message without payload, a receive error, garbage, an order of
    another partition. *)
Definition sample_items : list stream_item :=
  [Received (mkMessage 0 7 (Some (payload_of (limit 1 Bid 1000 100))));
   Received (mkMessage 0 8 None); ReceiveError;
   Received (mkMessage 0 9 (Some [x00; x01]));
   Received (mkMessage 1 3 (Some (payload_of (market 2 Ask 50))))].

Lemma consumer_commits_after_delivery_witness :
  (forall st' effs e e1 p off e2,
     consumer_run (fun _ => Some 12) (mkConsumer 999 false) sample_items (Some 1%nat) = (st', effs, e) ->
     effs = e1 ++ CommitMessage p off :: e2 ->
     exists ms1 m ms2, omap message_of sample_items = ms1 ++ m :: ms2 /\
       m_partition m = p /\ m_offset m = off /\ omap order_of e1 = omap carried (ms1 ++ [m])) /\
  (exists st' effs, consumer_run (fun _ => Some 12) (mkConsumer 999 false) sample_items None =
       (st', effs, StreamEnded) /\
     omap order_of effs = omap carried (omap message_of sample_items) /\
     c_count st' = u64_add 999 (Z.of_nat (length (omap carried (omap message_of sample_items))))).
Proof.
  apply (consumer_commits_after_delivery (fun _ => Some 12) (mkConsumer 999 false) sample_items (Some 1%nat)).
  vm_compute. split; [discriminate|reflexivity].
Defined.

Lemma order_survives_topic_witness :
  exists order', carried (mkMessage 2 31 (Some (payload_of (limit 1 Bid 1000 100)))) = Some order' /\
    set_sequence 0 order' = limit 1 Bid 1000 100 /\ u64_as_i64 (o_sequence order') = 31 /\
    TOPIC_ORDERS_IN = TOPIC_ORDERS_IN /\ uuid_to_string (oid 1) = uuid_to_string (oid 1).
Proof.
  apply (order_survives_topic (limit 1 Bid 1000 100)
    (mkRecord TOPIC_ORDERS_IN (uuid_to_string (oid 1)) (payload_of (limit 1 Bid 1000 100))) 2 31).
  - unfold i64_ok. lia.
  - reflexivity.
Defined.
