(* ===== verification/Recovery.v ===== *)
(** * Snapshots in the database, and recovery

    [persistence/snapshot.rs] and the start of [main.rs]: the row a snapshot is
    stored in, loading it when the process starts, and the offset the consumer
    resumes from. *)

From S2P Require Import Prelude External BTreeMap Types OrderBook Levels PriceTime BookFacts BookOps Matching Concrete MatchingRefine EngineFacts Runs Samples Snapshot SnapshotProps Codec Text Mock Processor Kafka.
From Stdlib Require Import Strings.Byte.

(** ** The snapshots table *)

Section store.
Context {DA : DecimalApi} {UA : UuidApi} {SA : SlabApi} {PC : Postcard BookSnapshot}.

Record SnapshotRow := mkRow {
  sr_sequence : Z;
  sr_state : list byte;
  sr_kafka_offset : Z
}.

(** The table: [market_id] is unique, so an insertion of an existing market
    updates its row. *)
Abbreviation snapshots_table := (gmap string SnapshotRow).

(** [SnapshotStore::save_raw]; [executed] is whether the database ran the
    statement. *)
Definition save_raw (market_id : string) (executed : bool) (payload : list byte)
    (kafka_offset sequence : Z) (t : snapshots_table) : snapshots_table * result unit unit :=
  if executed then
    (<[market_id := {| sr_sequence := u64_as_i64 sequence; sr_state := payload;
                       sr_kafka_offset := kafka_offset |}]> t, Ok tt)
  else (t, Err tt).

Inductive load_error := QueryFailed | DecodeFailed.

(** [SnapshotStore::load]; decoding also rebuilds the book, which is dropped. *)
Definition load (market_id : string) (queried : bool) (t : snapshots_table) :
    outcome (result (option (BookSnapshot * Z)) load_error) :=
  if negb queried then Ret (Err QueryFailed)
  else
    match t !! market_id with
    | None => Ret (Ok None)
    | Some row =>
        let! d := deserialize_book (sr_state row) in
        match d with
        | None => Ret (Err DecodeFailed)
        | Some (_, snapshot) => Ret (Ok (Some (snapshot, sr_kafka_offset row)))
        end
    end.

(** The first part of [main]: the snapshot to restore, the offset to resume from
    and the health flag [snapshot_loaded]. *)
Definition initial_state (loaded : option (BookSnapshot * Z)) : option BookSnapshot * Z * bool :=
  let '(initial_book, start_offset) :=
    match loaded with
    | Some (snap, offset) => (Some snap, i64_add offset 1)
    | None => (None, 0)
    end in
  (initial_book, start_offset, match initial_book with Some _ => true | None => false end).
End store.

(** ** Numbering of fills is irrelevant to matching *)

Section renumbering.
Context {UA : UuidApi}.

Definition same_trade (f g : afill) : Prop :=
  af_maker f = af_maker g /\ af_taker f = af_taker g /\ af_price f = af_price g /\
  af_quantity f = af_quantity g.

Definition same_answer (r r' : result aresult aerror) : Prop :=
  match r, r' with
  | Ok (AFills fs), Ok (AFills gs) => Forall2 same_trade fs gs
  | _, _ => r = r'
  end.

(** The same queues, whatever the counter. *)
Definition same_queues (st st' : astate) : Prop :=
  as_bids st = as_bids st' /\ as_asks st = as_asks st'.

Lemma q_match_renumber crosses (t : aorder) seq q t' s1 q' fs seq2 :
  q_match crosses t seq q = (t', s1, q', fs) ->
  exists s2 gs, q_match crosses t seq2 q = (t', s2, q', gs) /\ Forall2 same_trade fs gs.
Proof.
  revert t seq seq2 t' s1 q' fs. induction q as [|m q IH]; intros t seq seq2 t' s1 q' fs.
  - intros [= <- <- <- <-]. by exists seq2, [].
  - cbn [q_match]. case_match; [intros [= <- <- <- <-]; by exists seq2, []|]. case_match.
    + destruct (q_match _ _ (u64_add seq 1) q) as [[[t1 u1] q1] fs1] eqn:E. intros [= <- <- <- <-].
      destruct (IH _ _ (u64_add seq2 1) _ _ _ _ E) as (s2 & gs & -> & Hf).
      eexists s2, (_ :: gs). split; [done|]. constructor; [by split_and!|done].
    + intros [= <- <- <- <-]. eexists _, [_]. split; [done|]. repeat constructor.
Qed.

Lemma spec_match_renumber crosses sd t st t' st1 fs st2 :
  spec_match crosses sd t st = (t', st1, fs) -> same_queues st st2 ->
  exists st1' gs, spec_match crosses sd t st2 = (t', st1', gs) /\ same_queues st1 st1' /\
    Forall2 same_trade fs gs.
Proof.
  unfold spec_match. intros H [Hb Ha].
  assert (E : as_side (opposite sd) st2 = as_side (opposite sd) st) by (by destruct sd).
  rewrite E. destruct (q_match crosses t (as_sequence st) _) as [[[t1 s1] q1] fs1] eqn:Em.
  simplify_eq. destruct (q_match_renumber _ _ _ _ _ _ _ _ (as_sequence st2) Em) as (s2 & gs & -> & Hf).
  eexists _, gs. split; [done|]. split; [|done]. by destruct sd; split.
Qed.

Lemma same_queues_set sd q st st' :
  same_queues st st' -> same_queues (as_set_side sd q st) (as_set_side sd q st').
Proof. intros [Hb Ha]. by destruct sd; split. Qed.

Lemma spec_limit_renumber max sd limit (t : aorder) st st1 r st2 :
  spec_limit max sd limit t st = (st1, r) -> same_queues st st2 ->
  exists st1' r', spec_limit max sd limit t st2 = (st1', r') /\ same_queues st1 st1' /\ same_answer r r'.
Proof.
  unfold spec_limit. intros H Hs. destruct (a_quantity t <=? 0); [simplify_eq; by eexists _, _|].
  destruct (spec_match _ _ _ st) as [[t1 u1] fs] eqn:E.
  destruct (spec_match_renumber _ _ _ _ _ _ _ _ E Hs) as (u1' & gs & -> & Hu & Hf).
  destruct (0 <? a_left t1); [|simplify_eq; by eexists _, _].
  destruct limit; simplify_eq; [|by eexists _, _]. eexists _, _. split; [done|].
  assert (Eq : as_side sd u1' = as_side sd u1) by (by destruct Hu, sd). rewrite Eq.
  split; [by apply same_queues_set|]. by destruct Hf; [|constructor].
Qed.

Lemma spec_market_renumber sd (t : aorder) st st1 r st2 :
  spec_market sd t st = (st1, r) -> same_queues st st2 ->
  exists st1' r', spec_market sd t st2 = (st1', r') /\ same_queues st1 st1' /\ same_answer r r'.
Proof.
  unfold spec_market. intros H Hs. destruct (a_quantity t <=? 0); [simplify_eq; by eexists _, _|].
  destruct (spec_match _ _ _ st) as [[t1 u1] fs] eqn:E.
  destruct (spec_match_renumber _ _ _ _ _ _ _ _ E Hs) as (u1' & gs & -> & Hu & Hf).
  simplify_eq. by eexists _, _.
Qed.
End renumbering.

Section runs.
Context {DA : DecimalApi} {DL : DecimalLaws DA} {UA : UuidApi}
  {SA : SlabApi} {SL : SlabLaws SA}.
Context (lot : Z) (Hlot : 0 <= lot <= 28).

(** Two engines with the same queues answer the same orders with the same trades
    and keep the same queues. *)
Lemma engine_run_same_queues eng1 eng2 (orders : list Order) :
  engine_inv lot eng1 -> engine_inv lot eng2 ->
  same_queues (abs_engine lot eng1) (abs_engine lot eng2) ->
  Forall (order_ok lot) orders ->
  exists eng1' rs1 eng2' rs2, engine_run eng1 (Submit <$> orders) = Ret (eng1', rs1) /\
    engine_run eng2 (Submit <$> orders) = Ret (eng2', rs2) /\
    same_queues (abs_engine lot eng1') (abs_engine lot eng2') /\
    Forall2 (fun r r' => same_answer (abs_result lot r) (abs_result lot r')) rs1 rs2.
Proof.
  intros Hi1 Hi2 Hs Hos. revert eng1 eng2 Hi1 Hi2 Hs.
  induction Hos as [|o orders Ho Hos IH]; intros eng1 eng2 Hi1 Hi2 Hs.
  - eexists eng1, [], eng2, []. by split_and!.
  - destruct (process_order_post lot Hlot eng1 o Hi1 Ho) as (e1 & r1 & E1 & Hi1' & Hp1 & _).
    destruct (process_order_post lot Hlot eng2 o Hi2 Ho) as (e2 & r2 & E2 & Hi2' & Hp2 & _).
    assert (H : same_queues (abs_engine lot e1) (abs_engine lot e2) /\
      same_answer (abs_result lot r1) (abs_result lot r2)).
    { unfold spec_process in *. destruct (o_order_type o).
      - destruct (spec_limit_renumber _ _ _ _ _ _ _ _ Hp1 Hs) as (st & r & E & ? & ?). rewrite E in Hp2. by simplify_eq.
      - destruct (spec_market_renumber _ _ _ _ _ _ Hp1 Hs) as (st & r & E & ? & ?). rewrite E in Hp2. by simplify_eq. }
    destruct H as [Hs' Ha].
    destruct (IH e1 e2 Hi1' Hi2' Hs') as (e1' & rs1 & e2' & rs2 & R1 & R2 & Hq & Hr).
    eexists e1', (r1 :: rs1), e2', (r2 :: rs2). cbn. rewrite E1, E2. cbn. rewrite R1, R2.
    split_and!; [done..|]. by constructor.
Qed.
End runs.

(** ** Properties *)

Section properties.
Context {DA : DecimalApi} {DL : DecimalLaws DA} {UA : UuidApi}
  {SA : SlabApi} {SL : SlabLaws SA}
  {PC : Postcard BookSnapshot} {PL : PostcardLaws _ PC}.
Context (lot : Z) (Hlot : 0 <= lot <= 28).

(** What a restarted process starts from: the snapshot of the engine that crashed, the
    offset after its last order, an engine with the same queues. *)
Lemma restored_engine (eng1 : MatchingEngine) (n : Z) (bytes : list byte) (t : gmap string SnapshotRow) :
  engine_inv lot eng1 -> book_all (fun o => is_complete o = false) (eng_book eng1) ->
  (forall sd, StronglySorted (by_key sd) (prod_map id (abs_order lot) <$> keyed_queue sd (eng_book eng1))) ->
  0 < n < 2 ^ 63 -> serialize_book (eng_book eng1) MARKET_ID n = Some bytes ->
  exists snap eng2,
    load MARKET_ID true (save_raw MARKET_ID true bytes (n - 1) n t).1 = Ret (Ok (Some (snap, n - 1))) /\
    initial_state (Some (snap, n - 1)) = (Some snap, n, true) /\
    restore_engine (Some snap) = Ret eng2 /\ eng_sequence eng2 = 0 /\
    engine_inv lot eng2 /\ same_queues (abs_engine lot eng1) (abs_engine lot eng2).
Proof.
  intros Hinv Hlive Hs Hn Hb.
  assert (Hok : snapshot_ok lot (eng_book eng1)) by (split_and!; [apply Hinv..|done]).
  destruct (deserialize_serialized lot Hlot _ _ _ _ Hok Hb) as (b' & E & (Hwf' & Hall' & _) & Hq).
  set (snap := book_snapshot (eng_book eng1) MARKET_ID n) in *.
  set (eng2 := set_book b' (MatchingEngine_new MARKET_ID)).
  assert (Hq' : forall sd, abs_queue lot sd b' = abs_queue lot sd (eng_book eng1)).
  { intros sd. rewrite Hq. apply insert_all_by_key; [apply Hinv|apply Hs]. }
  exists snap, eng2. split_and!; try done.
  - unfold load, save_raw. cbn [negb fst]. rewrite lookup_insert_eq. cbn [sr_state]. by rewrite E.
  - unfold initial_state. rewrite i64_add_small by (unfold i64_ok; lia). do 3 f_equal. lia.
  - unfold restore_engine. unfold serialize_book in Hb. fold snap in Hb. rewrite Hb, E. done.
  - split; cbn [abs_engine as_bids as_asks eng2 eng_book set_book]; by rewrite Hq'.
Qed.

(** C7. Recovery is exact on one partition when slab keys agree with priority. The
    engine crashes after [n] orders, the last at offset [n - 1], with a snapshot
    saved after them. The restarted process loads it, resumes at offset [n], and
    on the remaining orders makes the trades the uninterrupted engine would have
    made and ends with the same queues. Only the numbering differs: the counter
    of fills restarts at zero. *)
Theorem recovery_resumes_exactly (eng1 : MatchingEngine) (n : Z) (bytes : list byte)
    (t : gmap string SnapshotRow) (post : list Order) :
  engine_inv lot eng1 -> book_all (fun o => is_complete o = false) (eng_book eng1) ->
  (forall sd, StronglySorted (by_key sd) (prod_map id (abs_order lot) <$> keyed_queue sd (eng_book eng1))) ->
  0 < n < 2 ^ 63 -> serialize_book (eng_book eng1) MARKET_ID n = Some bytes ->
  Forall (order_ok lot) post ->
  exists snap eng2 eng1' rs1 eng2' rs2,
    load MARKET_ID true (save_raw MARKET_ID true bytes (n - 1) n t).1 = Ret (Ok (Some (snap, n - 1))) /\
    initial_state (Some (snap, n - 1)) = (Some snap, n, true) /\
    restore_engine (Some snap) = Ret eng2 /\ eng_sequence eng2 = 0 /\
    engine_run eng1 (Submit <$> post) = Ret (eng1', rs1) /\
    engine_run eng2 (Submit <$> post) = Ret (eng2', rs2) /\
    same_queues (abs_engine lot eng1') (abs_engine lot eng2') /\
    Forall2 (fun r r' => same_answer (abs_result lot r) (abs_result lot r')) rs1 rs2.
Proof.
  intros Hinv Hlive Hs Hn Hb Hpost.
  destruct (restored_engine eng1 n bytes t Hinv Hlive Hs Hn Hb)
    as (snap & eng2 & Hload & Hinit & Hrest & H0 & Hinv2 & Hsame).
  destruct (engine_run_same_queues lot Hlot eng1 eng2 post Hinv Hinv2 Hsame Hpost)
    as (eng1' & rs1 & eng2' & rs2 & R1 & R2 & Hq & Ha).
  by exists snap, eng2, eng1', rs1, eng2', rs2.
Qed.

(** What a broker delivers after [assign]: messages of the assigned partitions,
    none before the offset assigned to its partition. *)
Definition delivered_from (assignment : list (Z * Z)) (ms : list message) : Prop :=
  forall m, m ∈ ms -> exists offset, (m_partition m, offset) ∈ assignment /\ offset <= m_offset m.

(** C34. With several partitions a restart loses orders. The snapshot records the
    offset of the last message of one partition, and the restarted consumer
    seeks every partition past that offset; so a message of another partition
    with a lower offset that was not consumed before the crash is not consumed
    after it either. *)
Theorem restart_skips_unread_messages (snap : BookSnapshot) (last lost : message)
    (topics : list (string * list Z)) (assignment : list (Z * Z)) (before after : list message) :
  i64_ok (m_offset last + 1) ->
  seek_to (Some topics) (initial_state (Some (snap, m_offset last))).1.2 = Some assignment ->
  delivered_from assignment after ->
  m_offset lost <= m_offset last -> lost ∉ before ->
  lost ∉ before ++ after.
Proof.
  intros Ho Hs Hd Hl Hb [H|H]%elem_of_app; [done|]. apply Hd in H as (off & Hin & Hle).
  unfold seek_to in Hs. destruct (List.find _ topics) as [topic|]; [|done]. simplify_eq.
  apply list_elem_of_fmap in Hin as (p & [= _ ->] & _).
  cbn in Hle. rewrite i64_add_small in Hle by done. lia.
Qed.
End properties.

(** ** Witnesses *)

Definition sample_state_bytes : list byte :=
  default [] (serialize_book (eng_book sample_engine) MARKET_ID 5).

Lemma recovery_resumes_exactly_witness :
  exists snap eng2 eng1' rs1 eng2' rs2,
    load MARKET_ID true (save_raw MARKET_ID true sample_state_bytes (5 - 1) 5 ∅).1 =
      Ret (Ok (Some (snap, 5 - 1))) /\
    initial_state (Some (snap, 5 - 1)) = (Some snap, 5, true) /\
    restore_engine (Some snap) = Ret eng2 /\ eng_sequence eng2 = 0 /\
    engine_run sample_engine (Submit <$> [limit 6 Bid 1000 400; market 7 Ask 450]) = Ret (eng1', rs1) /\
    engine_run eng2 (Submit <$> [limit 6 Bid 1000 400; market 7 Ask 450]) = Ret (eng2', rs2) /\
    same_queues (abs_engine 2 eng1') (abs_engine 2 eng2') /\
    Forall2 (fun r r' => same_answer (abs_result 2 r) (abs_result 2 r')) rs1 rs2.
Proof.
  apply (recovery_resumes_exactly 2 ltac:(lia) sample_engine 5 sample_state_bytes ∅).
  - exact sample_inv.
  - apply (run_engine_live 2 sample_commands); [lia|vm_compute; reflexivity].
  - intros [|]; vm_compute; repeat first [apply SSorted_nil | apply SSorted_cons | apply Forall_nil_2
      | apply Forall_cons_2]; (left; reflexivity) || (right; split; [reflexivity|lia]).
  - lia.
  - reflexivity.
  - repeat constructor; apply order_ok_sound; vm_compute; reflexivity.
Defined.

(** Four partitions; the last order before the crash was the sixth of partition 0,
    and the second of partition 1 was still unread. *)
Lemma restart_skips_unread_messages_witness :
  let before := [mkMessage 1 0 None; mkMessage 0 5 None] in
  let after := [mkMessage 0 6 None; mkMessage 1 6 None] in
  mkMessage 1 1 None ∉ before ++ after.
Proof.
  apply (restart_skips_unread_messages (mkBookSnapshot MARKET_ID 6 []) (mkMessage 0 5 None) (mkMessage 1 1 None)
    [("orders-in", [0; 1; 2; 3])] [(0, 6); (1, 6); (2, 6); (3, 6)]).
  - unfold i64_ok. cbn. lia.
  - reflexivity.
  - intros m Hm. exists 6. set_solver.
  - cbn. lia.
  - set_solver.
Defined.
