(* ===== verification/Persistence.v ===== *)
(** * Fills and orders in the database

    [persistence/fills.rs]: the writer that batches fills, and
    [persistence/orders.rs]: the upsert of an order. A statement either runs or
    fails; the tables are what the statements make of them. *)

From S2P Require Import Prelude External Types Matching Concrete Text Samples.
From Stdlib Require Import Strings.Byte.

(** ** fills.rs *)

Section fills.
Context {DA : DecimalApi} {NC : NumericColumn DA} {UA : UuidApi}.

Record FillRow := mkFillRow {
  fr_id : Uuid;
  fr_maker_order_id : Uuid;
  fr_taker_order_id : Uuid;
  fr_price : Decimal;
  fr_quantity : Decimal;
  fr_sequence : Z
}.

(** The six column vectors [insert_batch] binds. *)
Record columns := mkColumns {
  ids : list Uuid;
  maker_order_ids : list Uuid;
  taker_order_ids : list Uuid;
  prices : list Decimal;
  quantities : list Decimal;
  sequences : list Z
}.

Definition no_columns : columns := mkColumns [] [] [] [] [] [].

(** The body of the loop over the batch; [id] is a fresh uuid. *)
Definition push_fill (cs : columns) (id : Uuid) (fill : Fill) : columns :=
  {| ids := ids cs ++ [id];
     maker_order_ids := maker_order_ids cs ++ [f_maker_order_id fill];
     taker_order_ids := taker_order_ids cs ++ [f_taker_order_id fill];
     prices := prices cs ++ [f_price fill];
     quantities := quantities cs ++ [f_quantity fill];
     sequences := sequences cs ++ [u64_as_i64 (f_sequence fill)] |}.

(** [fresh n] is the [n]th uuid the process draws. *)
Fixpoint push_fills (fresh : nat -> Uuid) (n : nat) (batch : list Fill) (cs : columns) : columns :=
  match batch with
  | [] => cs
  | fill :: batch => push_fills fresh (S n) batch (push_fill cs (fresh n) fill)
  end.

(** The [SELECT UNNEST...] of columns of one length: a row per position. *)
Definition unnest_row (cs : columns) (i : nat) : option FillRow :=
  match ids cs !! i, maker_order_ids cs !! i, taker_order_ids cs !! i, prices cs !! i,
        quantities cs !! i, sequences cs !! i with
  | Some a, Some b, Some c, Some d, Some e, Some f => Some (mkFillRow a b c d e f)
  | _, _, _, _, _, _ => None
  end.

Definition unnest (cs : columns) : list FillRow := omap (unnest_row cs) (seq 0 (length (ids cs))).

(** A row as its columns keep it. *)
Definition column_row (r : FillRow) : FillRow :=
  {| fr_id := fr_id r; fr_maker_order_id := fr_maker_order_id r;
     fr_taker_order_id := fr_taker_order_id r; fr_price := numeric_20_8 (fr_price r);
     fr_quantity := numeric_20_8 (fr_quantity r); fr_sequence := fr_sequence r |}.

(** [ON CONFLICT DO NOTHING] on the primary key. *)
Definition insert_row (t : list FillRow) (r : FillRow) : list FillRow :=
  if decide (fr_id r ∈ fr_id <$> t) then t else t ++ [column_row r].

(** [insert_batch] *)
Definition insert_batch (fresh : nat -> Uuid) (n : nat) (batch : list Fill) (t : list FillRow) :
    list FillRow :=
  foldl insert_row t (unnest (push_fills fresh n batch no_columns)).

(** The writer: its buffer, the uuids drawn so far and the table. *)
Record FillWriter := mkWriter {
  w_buf : list Fill;
  w_drawn : nat;
  w_table : list FillRow
}.

(** [flush]: the buffer is drained before the statement runs, so a failed
    statement drops the batch. *)
Definition flush (fresh : nat -> Uuid) (executed : bool) (w : FillWriter) : FillWriter :=
  let batch := w_buf w in
  {| w_buf := []; w_drawn := (w_drawn w + length batch)%nat;
     w_table := if executed then insert_batch fresh (w_drawn w) batch (w_table w)
                else w_table w |}.

(** What [select!] picks: a fill, the end of the channel, or the tick; with each
    whether the database would run a statement at that time. *)
Inductive writer_event := GotFill (fill : Fill) (executed : bool)
  | ChannelEnd (executed : bool) | TimerTick (executed : bool).

(** One turn of [FillWriter::run]; [false] when the writer returns. *)
Definition writer_step (fresh : nat -> Uuid) (batch_size : nat) (w : FillWriter)
    (e : writer_event) : FillWriter * bool :=
  match e with
  | GotFill fill executed =>
      let w := {| w_buf := w_buf w ++ [fill]; w_drawn := w_drawn w; w_table := w_table w |} in
      (if Nat.leb batch_size (length (w_buf w)) then flush fresh executed w else w, true)
  | ChannelEnd executed =>
      (match w_buf w with [] => w | _ :: _ => flush fresh executed w end, false)
  | TimerTick executed =>
      (match w_buf w with [] => w | _ :: _ => flush fresh executed w end, true)
  end.

Fixpoint writer_run (fresh : nat -> Uuid) (batch_size : nat) (w : FillWriter)
    (es : list writer_event) : FillWriter :=
  match es with
  | [] => w
  | e :: es =>
      let '(w, go) := writer_step fresh batch_size w e in
      if (go : bool) then writer_run fresh batch_size w es else w
  end.

(** [FillWriter::new] *)
Definition flush_ms_of (env : string -> option string) : Z :=
  env_unsigned u64_max env "DB_FLUSH_MS" 50.

Definition batch_size_of (env : string -> option string) : Z :=
  env_unsigned u64_max env "DB_BATCH_SIZE" 500.

(** [FillWriter::run] of the writer the environment configures: [interval] panics when
    the period is zero, before any fill is received. *)
Definition start_writer (fresh : nat -> Uuid) (env : string -> option string) (w : FillWriter)
    (es : list writer_event) : outcome FillWriter :=
  if flush_ms_of env =? 0 then Panic
  else Ret (writer_run fresh (Z.to_nat (batch_size_of env)) w es).

(** ** The rows of a batch *)

Definition fill_row (id : Uuid) (fill : Fill) : FillRow :=
  mkFillRow id (f_maker_order_id fill) (f_taker_order_id fill) (f_price fill)
    (f_quantity fill) (u64_as_i64 (f_sequence fill)).

Definition batch_rows (fresh : nat -> Uuid) (n : nat) (batch : list Fill) : list FillRow :=
  imap (fun i fill => fill_row (fresh (n + i)%nat) fill) batch.

(** Columns that hold exactly [rows]. *)
Definition columns_of (rows : list FillRow) : columns :=
  mkColumns (fr_id <$> rows) (fr_maker_order_id <$> rows) (fr_taker_order_id <$> rows)
    (fr_price <$> rows) (fr_quantity <$> rows) (fr_sequence <$> rows).

Lemma unnest_columns (rows : list FillRow) : unnest (columns_of rows) = rows.
Proof.
  unfold unnest. cbn [ids columns_of]. rewrite length_fmap.
  assert (E : omap (unnest_row (columns_of rows)) (seq 0 (length rows)) =
    omap (fun i => rows !! i) (seq 0 (length rows))).
  { apply omap_ext_in. intros i _. unfold unnest_row, columns_of. cbn.
    rewrite !list_lookup_fmap. destruct (rows !! i) as [[]|]; done. }
  rewrite E. clear E. induction rows as [|r rows IH] using rev_ind; [done|].
  rewrite length_app, seq_app, omap_app. cbn [length seq plus]. f_equal.
  - rewrite <-IH at 2. apply omap_ext_in. intros i Hi%elem_of_seq. apply lookup_app_l. lia.
  - cbn. by rewrite list_lookup_middle.
Qed.

Lemma push_fills_columns fresh n batch rows :
  push_fills fresh n batch (columns_of rows) = columns_of (rows ++ batch_rows fresh n batch).
Proof.
  revert n rows. induction batch as [|f batch IH]; intros n rows; cbn.
  - by rewrite app_nil_r.
  - assert (E : push_fill (columns_of rows) (fresh n) f = columns_of (rows ++ [fill_row (fresh n) f])).
    { unfold push_fill, columns_of. cbn. by rewrite !fmap_app. }
    rewrite E, IH, <-app_assoc. cbn. rewrite Nat.add_0_r. do 3 f_equal.
    apply imap_ext. intros i x _. cbn. f_equal. f_equal. lia.
Qed.

Lemma column_rows_id (rows : list FillRow) : fr_id <$> (column_row <$> rows) = fr_id <$> rows.
Proof. by rewrite <-list_fmap_compose. Qed.

(** Rows with fresh ids are appended as their columns keep them. *)
Lemma insert_rows_fresh (t rows : list FillRow) :
  NoDup (fr_id <$> (t ++ rows)) -> foldl insert_row t rows = t ++ (column_row <$> rows).
Proof.
  revert t. induction rows as [|r rows IH]; intros t Hnd; cbn; [by rewrite app_nil_r|].
  unfold insert_row at 2. rewrite decide_False.
  - rewrite IH; [by rewrite <-app_assoc|]. rewrite !fmap_app in *. by rewrite <-app_assoc.
  - rewrite fmap_app in Hnd. intros Hin. eapply NoDup_app_disjoint; [exact Hnd|exact Hin|].
    cbn. set_solver.
Qed.

Lemma insert_batch_rows fresh n batch (t : list FillRow) :
  NoDup (fr_id <$> (t ++ batch_rows fresh n batch)) ->
  insert_batch fresh n batch t = t ++ (column_row <$> batch_rows fresh n batch).
Proof.
  intros Hnd. unfold insert_batch. change no_columns with (columns_of []).
  rewrite push_fills_columns, unnest_columns. by apply insert_rows_fresh.
Qed.

(** ** Runs of the writer *)

Context (fresh : nat -> Uuid) (fresh_inj : forall i j, fresh i = fresh j -> i = j).

(** The fill a row stores. *)
Definition stored (r : FillRow) : Uuid * Uuid * Decimal * Decimal * Z :=
  (fr_maker_order_id r, fr_taker_order_id r, fr_price r, fr_quantity r, fr_sequence r).

(** A fill as the columns keep it: amounts with eight decimals, a signed number. *)
Definition fields (f : Fill) : Uuid * Uuid * Decimal * Decimal * Z :=
  (f_maker_order_id f, f_taker_order_id f, numeric_20_8 (f_price f),
   numeric_20_8 (f_quantity f), u64_as_i64 (f_sequence f)).

(** The ids of the table are the ones drawn for it. *)
Definition ids_drawn (w : FillWriter) : Prop :=
  NoDup (fr_id <$> w_table w) /\
  forall r, r ∈ w_table w -> exists i, (i < w_drawn w)%nat /\ fr_id r = fresh i.

Lemma batch_rows_stored n batch :
  stored <$> (column_row <$> batch_rows fresh n batch) = fields <$> batch.
Proof.
  unfold batch_rows. revert n. induction batch as [|f batch IH]; intros n; [done|]. cbn.
  f_equal. rewrite <-(IH (S n)). do 2 f_equal. apply imap_ext. intros i x _. cbn. do 2 f_equal. lia.
Qed.

Lemma batch_row_id n batch r :
  r ∈ batch_rows fresh n batch -> exists i, (i < length batch)%nat /\ fr_id r = fresh (n + i)%nat.
Proof.
  unfold batch_rows. intros (i & f & -> & Hi)%elem_of_lookup_imap.
  exists i. split; [by apply lookup_lt_Some in Hi|done].
Qed.

Lemma batch_rows_nodup n batch : NoDup (fr_id <$> batch_rows fresh n batch).
Proof.
  revert n. induction batch as [|f batch IH]; intros n; [constructor|]. cbn. constructor.
  - intros (r & E & Hr)%list_elem_of_fmap. apply elem_of_lookup_imap in Hr as (i & x & -> & _).
    cbn in E. apply fresh_inj in E. lia.
  - replace (imap _ batch) with (batch_rows fresh (S n) batch); [apply IH|].
    unfold batch_rows. apply imap_ext. intros i x _. cbn. f_equal. f_equal. lia.
Qed.

Lemma flush_stores executed w :
  ids_drawn w ->
  ids_drawn (flush fresh executed w) /\ w_buf (flush fresh executed w) = [] /\
  stored <$> w_table (flush fresh executed w) =
    (stored <$> w_table w) ++ (if executed then fields <$> w_buf w else []).
Proof.
  intros [Hnd Hid]. unfold flush. destruct executed; cbn.
  - assert (Hnew : NoDup (fr_id <$> (w_table w ++ batch_rows fresh (w_drawn w) (w_buf w)))).
    { rewrite fmap_app. apply NoDup_app. split; [done|]. split; [|apply batch_rows_nodup].
      intros x (r & -> & Hr)%list_elem_of_fmap (r' & E & Hr')%list_elem_of_fmap.
      apply Hid in Hr as (i & Hi & Ei). apply batch_row_id in Hr' as (j & _ & Ej).
      rewrite Ei, Ej in E. apply fresh_inj in E. lia. }
    rewrite insert_batch_rows by done. split; [|split; [done|]].
    + split; [cbn [w_table]; by rewrite fmap_app, column_rows_id, <-fmap_app|].
      intros r [Hr|(r' & -> & Hr)%list_elem_of_fmap]%elem_of_app.
      * apply Hid in Hr as (i & Hi & Ei). exists i. cbn. split; [lia|done].
      * apply batch_row_id in Hr as (j & Hj & Ej). eexists. cbn. split; [|exact Ej]. lia.
    + by rewrite fmap_app, batch_rows_stored.
  - split; [|split; [done|by rewrite app_nil_r]]. split; [done|]. intros r Hr.
    apply Hid in Hr as (i & Hi & Ei). exists i. cbn. split; [lia|done].
Qed.

(** The fills received up to the end of the channel. *)
Fixpoint received (es : list writer_event) : list Fill :=
  match es with
  | GotFill f _ :: es => f :: received es
  | TimerTick _ :: es => received es
  | ChannelEnd _ :: _ | [] => []
  end.

(** The outcome of a run: the batches flushed, each with whether it was stored. *)
Definition accounted (batch_size : nat) (w w' : FillWriter) (fs : list Fill) : Prop :=
  exists batches : list (list Fill * bool),
    w_buf w ++ fs = concat batches.*1 ++ w_buf w' /\
    stored <$> w_table w' = (stored <$> w_table w) ++
      (fields <$> concat (List.filter snd batches).*1) /\
    Forall (fun b => 0 < length b.1 <= Nat.max 1 batch_size)%nat batches.

Lemma accounted_flush batch_size w executed :
  ids_drawn w -> (0 < length (w_buf w) <= Nat.max 1 batch_size)%nat ->
  accounted batch_size w (flush fresh executed w) [].
Proof.
  intros Hd Hl. destruct (flush_stores executed w Hd) as (_ & Hb & Hs).
  exists [(w_buf w, executed)]. rewrite Hb, Hs. cbn. rewrite !app_nil_r.
  split; [done|]. split; [|by constructor]. destruct executed; cbn; by rewrite ?app_nil_r.
Qed.

Lemma accounted_trans batch_size w1 w2 w3 fs1 fs2 :
  accounted batch_size w1 w2 fs1 -> accounted batch_size w2 w3 fs2 ->
  accounted batch_size w1 w3 (fs1 ++ fs2).
Proof.
  intros (b1 & E1 & T1 & F1) (b2 & E2 & T2 & F2). exists (b1 ++ b2).
  split; [|split; [|by apply Forall_app]].
  - by rewrite app_assoc, E1, <-app_assoc, E2, fmap_app, concat_app, app_assoc.
  - by rewrite T2, T1, List.filter_app, fmap_app, concat_app, fmap_app, app_assoc.
Qed.

Lemma accounted_refl batch_size w : accounted batch_size w w [].
Proof. exists []. cbn. by rewrite !app_nil_r. Qed.

Lemma writer_step_ok batch_size w e :
  ids_drawn w -> (length (w_buf w) < Nat.max 1 batch_size)%nat ->
  let w' := (writer_step fresh batch_size w e).1 in
  ids_drawn w' /\ (length (w_buf w') < Nat.max 1 batch_size)%nat /\
  accounted batch_size w w' (match e with GotFill f _ => [f] | _ => [] end) /\
  (match e with ChannelEnd _ => w_buf w' = [] | _ => True end).
Proof.
  intros Hd Hl. destruct e as [f ex|ex|ex]; cbn.
  - set (w1 := mkWriter (w_buf w ++ [f]) (w_drawn w) (w_table w)).
    assert (Hd1 : ids_drawn w1) by exact Hd.
    assert (H1 : accounted batch_size w w1 [f]).
    { exists []. cbn. by rewrite app_nil_r. }
    assert (Hlen : length (w_buf w ++ [f]) = S (length (w_buf w))) by (rewrite length_app; cbn; lia).
    destruct (Nat.leb_spec batch_size (length (w_buf w ++ [f]))).
    + destruct (flush_stores ex w1 Hd1) as (Hd2 & Hb & _). split_and!; try done.
      * rewrite Hb. cbn. lia.
      * rewrite <-(app_nil_r [f]). eapply accounted_trans; [exact H1|].
        apply accounted_flush; [done|]. cbn. lia.
    + split_and!; try done. cbn. lia.
  - destruct (w_buf w) as [|f buf] eqn:E; [split_and!; [done|rewrite E; cbn; lia|apply accounted_refl|done]|].
    destruct (flush_stores ex w Hd) as (Hd2 & Hb & _). split_and!; try done.
    + rewrite Hb. cbn. lia.
    + apply accounted_flush; [done|]. rewrite E. cbn in *. lia.
  - destruct (w_buf w) as [|f buf] eqn:E; [split_and!; [done|rewrite E; cbn; lia|apply accounted_refl|done]|].
    destruct (flush_stores ex w Hd) as (Hd2 & Hb & _). split_and!; try done.
    + rewrite Hb. cbn. lia.
    + apply accounted_flush; [done|]. rewrite E. cbn in *. lia.
Qed.

(** A run, from any buffer below the batch size. *)
Lemma writer_run_ok (batch_size : nat) (w : FillWriter) (es : list writer_event) :
  ids_drawn w -> (length (w_buf w) < Nat.max 1 batch_size)%nat ->
  let w' := writer_run fresh batch_size w es in
  accounted batch_size w w' (received es) /\
  (length (w_buf w') < Nat.max 1 batch_size)%nat /\
  ((exists ex, ChannelEnd ex ∈ es) -> w_buf w' = []).
Proof.
  revert w. induction es as [|e es IH]; intros w Hd Hl.
  - cbn. split; [apply accounted_refl|]. split; [done|]. intros [ex H]. set_solver.
  - destruct (writer_step_ok batch_size w e Hd Hl) as (Hd1 & Hl1 & Ha & He). cbn [writer_run].
    destruct e as [f ex|ex|ex]; cbn in *.
    + destruct (IH _ Hd1 Hl1) as (Ha2 & Hl2 & He2). split; [|split; [done|]].
      * by eapply (accounted_trans _ _ _ _ [f]).
      * intros [x Hx]. apply He2. exists x. set_solver.
    + split; [exact Ha|]. by split.
    + destruct (IH _ Hd1 Hl1) as (Ha2 & Hl2 & He2). split; [|split; [done|]].
      * by eapply (accounted_trans _ _ _ _ []).
      * intros [x Hx]. apply He2. exists x. set_solver.
Qed.

(** C14. Every fill the writer received is in exactly one batch or still in the
    buffer, in order; the table gains, in order and once, the fills of the
    batches whose statement ran, as its columns keep them, and nothing of the
    others; batches are never empty nor larger than the batch size (one, for a
    size of zero); and when the channel has ended the buffer is empty. *)
Theorem fill_writer_accounts_for_all (batch_size : nat) (w : FillWriter) (es : list writer_event) :
  ids_drawn w -> (length (w_buf w) < Nat.max 1 batch_size)%nat ->
  let w' := writer_run fresh batch_size w es in
  accounted batch_size w w' (received es) /\
  (length (w_buf w') < Nat.max 1 batch_size)%nat /\
  ((exists ex, ChannelEnd ex ∈ es) -> w_buf w' = []).
Proof. apply writer_run_ok. Qed.

(** A flush period of zero, which the environment can ask for, ends the writer before
    it received a fill. *)
Lemma zero_flush_panics (env : string -> option string) (w : FillWriter) (es : list writer_event) :
  env "DB_FLUSH_MS" = Some "0" -> start_writer fresh env w es = Panic.
Proof. intros E. unfold start_writer, flush_ms_of, env_unsigned. by rewrite E. Qed.
End fills.

(** ** orders.rs *)

Section orders.
Context {DA : DecimalApi} {NC : NumericColumn DA} {UA : UuidApi}.

Record OrderRow := mkOrderRow {
  or_market_id : string;
  or_side : string;
  or_price : option Decimal;
  or_quantity : Decimal;
  or_status : string;
  or_sequence : Z
}.

(** The derived [Debug] text of a side and of a status. *)
Definition debug_side (s : Side) : string := match s with Bid => "Bid" | Ask => "Ask" end.

Definition debug_status (s : OrderStatus) : string :=
  match s with
  | Open => "Open" | PartiallyFilled => "PartiallyFilled"
  | Filled => "Filled" | Cancelled => "Cancelled"
  end.

(** [OrderWriter::upsert]: a known id only has its status updated. *)
Definition upsert (order : Order) (t : gmap Uuid OrderRow) : gmap Uuid OrderRow :=
  let side := to_lowercase (debug_side (o_side order)) in
  let status := to_lowercase (debug_status (o_status order)) in
  let row :=
    match t !! o_id order with
    | Some row =>
        {| or_market_id := or_market_id row; or_side := or_side row; or_price := or_price row;
           or_quantity := or_quantity row; or_status := status; or_sequence := or_sequence row |}
    | None =>
        {| or_market_id := o_market_id order; or_side := side;
           or_price := numeric_20_8 <$> o_price order;
           or_quantity := numeric_20_8 (o_quantity order); or_status := status;
           or_sequence := u64_as_i64 (o_sequence order) |}
    end in
  <[o_id order := row]> t.
End orders.

(** ** Witnesses *)

Definition sample_fill (m t : N) (qty seq : Z) : Fill :=
  {| f_maker_order_id := oid m; f_taker_order_id := oid t; f_price := dec 1000 2;
     f_quantity := dec qty 2; f_sequence := seq |}.

Definition number_ids (n : nat) : Uuid := N.of_nat n.

(** Two fills flushed by size in a statement that fails, one flushed at the end. *)
Definition sample_events : list writer_event :=
  [GotFill (sample_fill 1 6 100 1) true; TimerTick true; GotFill (sample_fill 2 6 50 2) true;
   GotFill (sample_fill 3 6 25 3) false; GotFill (sample_fill 4 7 10 4) true; ChannelEnd true].

Lemma fill_writer_accounts_for_all_witness :
  let w := mkWriter [] 0 [] in
  let w' := writer_run number_ids 2 w sample_events in
  accounted 2 w w' (received sample_events) /\ (length (w_buf w') < 2)%nat /\
  ((exists ex, ChannelEnd ex ∈ sample_events) -> w_buf w' = []).
Proof.
  apply (fill_writer_accounts_for_all number_ids ltac:(intros i j; apply Nat2N.inj) 2 (mkWriter [] 0 [])).
  - split; [constructor|]. intros r Hr. set_solver.
  - cbn. lia.
Defined.
