(* ===== verification/Leader.v ===== *)
(** * Leader election and health

    [leader.rs]: the Kubernetes lease a process acquires and renews, and the loop
    that publishes its role; [health.rs] and the [/healthz] decision. Times are
    nanoseconds. The API server is third-party: an interface with the documented
    effect of creating and merge-patching one object. *)

From S2P Require Import Prelude.

Definition LEASE_DURATION_SECS : Z := 15.
Definition RENEW_INTERVAL_SECS : Z := 5.
Definition RETRY_INTERVAL_SECS : Z := 3.

(** ** The lease object *)

Record LeaseSpec := mkLease {
  holder_identity : option string;
  lease_duration_seconds : option Z;
  acquire_time : option Z;
  renew_time : option Z;
  lease_transitions : option Z
}.

(** The fields of the merge patch. *)
Record LeasePatch := mkPatch {
  p_holderIdentity : string;
  p_leaseDurationSeconds : Z;
  p_renewTime : Z;
  p_leaseTransitions : Z
}.

(** A merge patch replaces the fields it names. *)
Definition merge (p : LeasePatch) (l : LeaseSpec) : LeaseSpec :=
  {| holder_identity := Some (p_holderIdentity p);
     lease_duration_seconds := Some (p_leaseDurationSeconds p);
     acquire_time := acquire_time l;
     renew_time := Some (p_renewTime p);
     lease_transitions := Some (p_leaseTransitions p) |}.

(** The API server: reading the lease, creating it, patching it; a request that is
    refused gives [None]. *)
Class LeaseApi := {
  Cluster : Type;
  lease_get : Cluster -> option LeaseSpec;
  lease_create : Cluster -> LeaseSpec -> option Cluster;
  lease_patch : Cluster -> LeasePatch -> option Cluster
}.

Class LeaseLaws (API : LeaseApi) : Prop := {
  create_effect (c c' : Cluster) (s : LeaseSpec) :
    lease_create c s = Some c' -> lease_get c = None /\ lease_get c' = Some s;
  patch_effect (c c' : Cluster) (p : LeasePatch) :
    lease_patch c p = Some c' ->
    exists l, lease_get c = Some l /\ lease_get c' = Some (merge p l);
  (** nothing but a missing object makes the server refuse a patch *)
  patch_accepted (c : Cluster) (p : LeasePatch) :
    is_Some (lease_get c) -> is_Some (lease_patch c p)
}.

(** ** try_acquire_or_renew *)

(** [MicroTime] keeps microseconds. *)
Definition micro_time (now : Z) : Z := now / 1000 * 1000.

(** [i32] addition of the transition counter. *)
Definition i32_add (a b : Z) : Z :=
  let n := (a + b) mod 2 ^ 32 in if n <? 2 ^ 31 then n else n - 2 ^ 32.

(** [now.signed_duration_since(t).num_seconds() > duration]; a lease that was never
    renewed is expired. *)
Definition expired (now : Z) (l : LeaseSpec) : bool :=
  match renew_time l with
  | Some t => default LEASE_DURATION_SECS (lease_duration_seconds l) <? Z.quot (now - t) 1000000000
  | None => true
  end.

Definition we_hold (identity : string) (l : LeaseSpec) : bool :=
  String.eqb (default "" (holder_identity l)) identity.

(** What the lease that was read asks for. *)
Inductive lease_plan := Create (s : LeaseSpec) | Take (p : LeasePatch) | Leave.

Definition plan (identity : string) (now : Z) (existing : option LeaseSpec) : lease_plan :=
  match existing with
  | None =>
      Create {| holder_identity := Some identity;
                lease_duration_seconds := Some LEASE_DURATION_SECS;
                acquire_time := Some (micro_time now); renew_time := Some (micro_time now);
                lease_transitions := Some 0 |}
  | Some l =>
      if we_hold identity l || expired now l then
        Take {| p_holderIdentity := identity; p_leaseDurationSeconds := LEASE_DURATION_SECS;
                p_renewTime := micro_time now;
                p_leaseTransitions := i32_add (default 0 (lease_transitions l))
                                        (if we_hold identity l then 0 else 1) |}
      else Leave
  end.

(** ** The elector *)

(** What the elector changes: its flag [is_leader], [lease_healthy] of the shared
    health state, and the [role] label of its own pod. The namespace only selects
    the API endpoints; the identity is an argument of [try_acquire_or_renew]. *)
Record LeaderElector := mkElector {
  le_is_leader : bool;
  le_lease_healthy : bool;
  le_pod_label : string
}.

(** [LeaderElector::new], with a fresh health state, on a pod labelled [label]. *)
Definition LeaderElector_new (label : string) : LeaderElector := mkElector false false label.

(** [patch_pod_label]: a client is made and the label of the pod patched; when either
    fails ([patched] is false) the label stays. *)
Definition patch_pod_label (patched : bool) (role label : string) : string * result unit unit :=
  if patched then (role, Ok tt) else (label, Err tt).

(** One turn of [LeaderElector::run]: the answer of [try_acquire_or_renew] ([Err] for
    any failed request), and whether the label patch would succeed (a failed one is only
    reported). *)
Definition elector_step (st : LeaderElector) (answer : result bool unit) (label_ok : bool) :
    LeaderElector :=
  match answer with
  | Ok true =>
      if le_is_leader st then st
      else {| le_is_leader := true; le_lease_healthy := true;
              le_pod_label := (patch_pod_label label_ok "leader" (le_pod_label st)).1 |}
  | Ok false =>
      if le_is_leader st then
        {| le_is_leader := false; le_lease_healthy := false;
           le_pod_label := (patch_pod_label label_ok "follower" (le_pod_label st)).1 |}
      else st
  | Err _ =>
      {| le_is_leader := false; le_lease_healthy := le_lease_healthy st;
         le_pod_label := le_pod_label st |}
  end.

(** The pause after a turn, in seconds. *)
Definition pause_after (answer : result bool unit) : Z :=
  match answer with Ok true => RENEW_INTERVAL_SECS | _ => RETRY_INTERVAL_SECS end.

Fixpoint elector_run (st : LeaderElector) (turns : list (result bool unit * bool)) : LeaderElector :=
  match turns with
  | [] => st
  | (answer, label_ok) :: turns => elector_run (elector_step st answer label_ok) turns
  end.

Section api.
Context {LA : LeaseApi}.

(** The request that carries a plan out, and the answer. *)
Definition carry_out (c : Cluster) (pl : lease_plan) : Cluster * result bool unit :=
  match pl with
  | Create s =>
      match lease_create c s with Some c' => (c', Ok true) | None => (c, Err tt) end
  | Take p =>
      match lease_patch c p with Some c' => (c', Ok true) | None => (c, Err tt) end
  | Leave => (c, Ok false)
  end.

(** [try_acquire_or_renew] when nothing happens between its read and its write. *)
Definition try_acquire_or_renew (identity : string) (now : Z) (c : Cluster) :
    Cluster * result bool unit :=
  carry_out c (plan identity now (lease_get c)).

Context {LL : LeaseLaws LA}.

Lemma acquired_lease identity now c c' :
  try_acquire_or_renew identity now c = (c', Ok true) ->
  exists l, lease_get c' = Some l /\ holder_identity l = Some identity /\
    lease_duration_seconds l = Some LEASE_DURATION_SECS /\ renew_time l = Some (micro_time now).
Proof.
  unfold try_acquire_or_renew, plan. destruct (lease_get c) as [l|] eqn:E.
  - destruct (_ || _); cbn; [|done]. destruct (lease_patch c _) as [c1|] eqn:Ep; [|done].
    intros [= <-]. apply patch_effect in Ep as (l0 & _ & ->). by eexists.
  - cbn. destruct (lease_create c _) as [c1|] eqn:Ec; [|done].
    intros [= <-]. apply create_effect in Ec as [_ ->]. by eexists.
Qed.

(** C31. The lease excludes: after a process acquired or renewed it at [t], any
    other process that tries before [t] plus 16 seconds, the lease not having
    changed, is refused and changes nothing; from then on it takes the lease
    over. *)
Theorem lease_excludes_until_expiry (a b : string) (t now : Z) (c c' c2 : Cluster) :
  a <> b -> t <= now -> try_acquire_or_renew a t c = (c', Ok true) ->
  lease_get c2 = lease_get c' ->
  (now < micro_time t + 16 * 1000000000 -> try_acquire_or_renew b now c2 = (c2, Ok false)) /\
  (micro_time t + 16 * 1000000000 <= now ->
     exists c3 l, try_acquire_or_renew b now c2 = (c3, Ok true) /\
       lease_get c3 = Some l /\ holder_identity l = Some b).
Proof.
  intros Hab Hle Ha Hc. apply acquired_lease in Ha as (l & Hl & Hh & Hd & Hr).
  rewrite Hl in Hc. unfold try_acquire_or_renew. rewrite Hc. unfold plan, we_hold, expired.
  rewrite Hh, Hd, Hr. cbn [from_option id]. rewrite (proj2 (String.eqb_neq a b)) by done.
  assert (Hm : micro_time t <= t) by (unfold micro_time; pose proof (Z.mul_div_le t 1000); lia).
  rewrite Z.quot_div_nonneg by lia. cbn [orb]. split; intros Hn.
  - destruct (Z.ltb_spec LEASE_DURATION_SECS ((now - micro_time t) / 1000000000)) as [H|H]; [|done].
    exfalso. assert ((now - micro_time t) / 1000000000 < 16); [|unfold LEASE_DURATION_SECS in *; lia].
    apply Z.div_lt_upper_bound; lia.
  - assert (H : 16 <= (now - micro_time t) / 1000000000) by (apply Z.div_le_lower_bound; lia).
    rewrite (proj2 (Z.ltb_lt _ _)) by (unfold LEASE_DURATION_SECS; lia).
    cbn [carry_out]. destruct (patch_accepted c2
      (mkPatch b LEASE_DURATION_SECS (micro_time now) (i32_add (default 0 (lease_transitions l)) 1)))
      as [c3 Hp]; [by rewrite Hc|].
    rewrite Hp. apply patch_effect in Hp as (l0 & _ & H3). eexists c3, _. split; [done|].
    split; [exact H3|done].
Qed.

(** C36. Reading and writing are separate requests without a precondition, so two
    processes that both read the same expired lease both become leader: each
    patch succeeds and each answer is [Ok true], although the object ends up
    naming only the second. *)
Theorem expired_lease_elects_two (a b : string) (now1 now2 : Z) (c : Cluster) (l : LeaseSpec) :
  lease_get c = Some l -> expired now1 l = true -> expired now2 l = true ->
  exists c1 c2, carry_out c (plan a now1 (lease_get c)) = (c1, Ok true) /\
    carry_out c1 (plan b now2 (lease_get c)) = (c2, Ok true) /\
    option_bind _ _ holder_identity (lease_get c2) = Some b /\
    forall st, le_is_leader (elector_step st (Ok true) true) = true.
Proof.
  intros Hl H1 H2. rewrite Hl. unfold plan. rewrite H1, H2, !orb_true_r. cbn [carry_out].
  match goal with |- exists _ _, match lease_patch c ?p with _ => _ end = _ /\ _ =>
    destruct (patch_accepted c p) as [c1 Hc1]; [by rewrite Hl|] end.
  pose proof Hc1 as (l1 & _ & Hl1)%patch_effect.
  match goal with |- context [mkPatch b ?d ?r ?n] =>
    destruct (patch_accepted c1 (mkPatch b d r n)) as [c2 Hc2]; [by rewrite Hl1|] end.
  exists c1, c2. rewrite Hc1, Hc2. split; [done|]. split; [done|].
  apply patch_effect in Hc2 as (l2 & _ & ->). split; [done|].
  intros st. unfold elector_step. destruct (le_is_leader st) eqn:E; [by rewrite E|done].
Qed.
End api.

(** Every run keeps a leader's lease healthy. *)
Lemma elector_step_healthy st answer label_ok :
  (le_is_leader st = true -> le_lease_healthy st = true) ->
  let st' := elector_step st answer label_ok in
  (le_is_leader st' = true -> le_lease_healthy st' = true) /\
  (le_is_leader st' = true <-> answer = Ok true).
Proof.
  intros H. destruct answer as [[]|[]]; cbn; destruct (le_is_leader st) eqn:E; cbn; rewrite ?E; auto;
    split; naive_solver.
Qed.

(** C37. A process believes it is the leader exactly when its last attempt succeeded;
    but after a failed request it keeps reporting a healthy lease and the label
    of a leader for as long as it stays a follower, since the turn that fails
    clears the flag without the transition that would clear the other two. *)
Theorem lease_error_leaves_stale_role (st : LeaderElector) (turns : list (result bool unit * bool)) :
  (le_is_leader st = true -> le_lease_healthy st = true) ->
  (forall answer label_ok,
     le_is_leader (elector_step (elector_run st turns) answer label_ok) = true <-> answer = Ok true) /\
  (Forall (fun turn => turn.1 <> Ok true) turns ->
     elector_run (elector_step st (Err tt) true) turns =
       {| le_is_leader := false; le_lease_healthy := le_lease_healthy st;
          le_pod_label := le_pod_label st |}).
Proof.
  intros H. split.
  - revert st H. induction turns as [|[an ok] turns IH]; intros st H answer label_ok.
    + by apply elector_step_healthy.
    + cbn. apply IH. by apply elector_step_healthy.
  - cbn. induction 1 as [|[[[]|[]] ok] turns Hne _ IH]; cbn in *; done.
Qed.

(** ** health.rs *)

Record HealthState := mkHealth {
  engine_alive : bool;
  snapshot_loaded : bool;
  lease_healthy : bool;
  kafka_ready : bool
}.

(** [HealthState::new] *)
Definition HealthState_new : HealthState := mkHealth false false false false.

Definition is_ready (h : HealthState) : bool := engine_alive h && lease_healthy h && kafka_ready h.

Definition is_live (h : HealthState) : bool := engine_alive h.

(** The instances of the program: one lease object, or none. *)
#[export] Instance single_lease : LeaseApi := {|
  Cluster := option LeaseSpec;
  lease_get := fun c => c;
  lease_create := fun c s => match c with None => Some (Some s) | Some _ => None end;
  lease_patch := fun c p => match c with Some l => Some (Some (merge p l)) | None => None end
|}.

#[export] Instance single_lease_laws : LeaseLaws single_lease.
Proof.
  split; cbn.
  - intros [l|] c' s H; by simplify_eq.
  - intros [l|] c' p H; simplify_eq. by exists l.
  - intros [l|] p [? H]; [|done]. by exists (Some (merge p l)).
Qed.

(** ** Witnesses *)

Definition sample_cluster : option LeaseSpec :=
  (try_acquire_or_renew (LA := single_lease) "pod-a" 1000000500 None).1.

Lemma lease_excludes_until_expiry_witness :
  (5000000000 < micro_time 1000000500 + 16 * 1000000000 ->
     try_acquire_or_renew (LA := single_lease) "pod-b" 5000000000 sample_cluster = (sample_cluster, Ok false)) /\
  (micro_time 1000000500 + 16 * 1000000000 <= 5000000000 ->
     exists c3 l, try_acquire_or_renew (LA := single_lease) "pod-b" 5000000000 sample_cluster = (c3, Ok true) /\
       lease_get (LeaseApi := single_lease) c3 = Some l /\ holder_identity l = Some "pod-b").
Proof.
  apply (lease_excludes_until_expiry (LA := single_lease) "pod-a" "pod-b" 1000000500 5000000000
    None sample_cluster sample_cluster); [done|lia|reflexivity|reflexivity].
Defined.

Lemma expired_lease_elects_two_witness :
  exists c1 c2 : Cluster (LeaseApi := single_lease),
    carry_out sample_cluster (plan "pod-b" 20000000000 sample_cluster) = (c1, Ok true) /\
    carry_out c1 (plan "pod-c" 20000300000 sample_cluster) = (c2, Ok true) /\
    option_bind _ _ holder_identity (lease_get c2) = Some "pod-c" /\
    forall st, le_is_leader (elector_step st (Ok true) true) = true.
Proof.
  apply (expired_lease_elects_two (LA := single_lease) "pod-b" "pod-c" 20000000000 20000300000
    sample_cluster (default (mkLease None None None None None) sample_cluster)); reflexivity.
Defined.

Lemma lease_error_leaves_stale_role_witness :
  (forall answer label_ok, le_is_leader (elector_step (elector_run (mkElector true true "leader")
       [(Ok false, true)]) answer label_ok) = true <-> answer = Ok true) /\
  (Forall (fun turn : result bool unit * bool => turn.1 <> Ok true) [(Ok false, true)] ->
     elector_run (elector_step (mkElector true true "leader") (Err tt) true) [(Ok false, true)] =
       mkElector false true "leader").
Proof.
  apply (lease_error_leaves_stale_role (mkElector true true "leader") [(Ok false, true)]). done.
Defined.
