(* ===== verification/Execution.v ===== *)
(** * Executions of a transition relation

    Invariants along the executions of a relation and what every execution
    eventually reaches; the theorems on several processes ([Cluster]) are stated
    with them. *)

From S2P Require Import Prelude.

Section execution.
Context {State : Type} (R : State -> State -> Prop).

(** A predicate that steps preserve holds wherever an execution gets to. *)
Lemma rtc_invariant (I : State -> Prop) (s s' : State) :
  (forall s s', I s -> R s s' -> I s') -> I s -> rtc R s s' -> I s'.
Proof. intros Hstep Hs H. induction H as [|s1 s2 s3 H12 _ IH]; eauto. Qed.

(** Every execution from the state reaches the predicate after finitely many steps,
    and none gets stuck before. *)
Inductive eventually (P : State -> Prop) (s : State) : Prop :=
| ev_now : P s -> eventually P s
| ev_step : (exists s', R s s') -> (forall s', R s s' -> eventually P s') -> eventually P s.

Lemma eventually_mono (P Q : State -> Prop) (s : State) :
  (forall s, P s -> Q s) -> eventually P s -> eventually Q s.
Proof.
  intros H. induction 1 as [s Hs|s Hex _ IH]; [by apply ev_now, H|by apply ev_step].
Qed.

Lemma eventually_trans (P Q : State -> Prop) (s : State) :
  eventually P s -> (forall s, P s -> eventually Q s) -> eventually Q s.
Proof.
  intros H HPQ. induction H as [s Hs|s Hex _ IH]; [by apply HPQ|by apply ev_step].
Qed.

(** A bounded measure that every step inside an invariant decreases. *)
Lemma eventually_measure (I P : State -> Prop) (m : State -> Z) (s : State) :
  (forall s, I s -> 0 <= m s) ->
  (forall s, I s -> exists s', R s s') ->
  (forall s s', I s -> R s s' -> P s' \/ (I s' /\ m s' < m s)) ->
  I s -> eventually P s.
Proof.
  intros Hm Hex Hstep. remember (Z.to_nat (m s)) as n eqn:En. revert s En.
  induction (lt_wf n) as [n _ IH]. intros s -> Hs. apply ev_step; [by apply Hex|].
  intros s' Hs'. destruct (Hstep s s' Hs Hs') as [HP|[HI Hlt]]; [by apply ev_now|].
  eapply IH; [|done|done]. pose proof (Hm s' HI). lia.
Qed.

(** The meaning over an infinite execution. *)
Lemma eventually_run (P : State -> Prop) (run : nat -> State) :
  (forall n, R (run n) (run (S n))) -> eventually P (run 0%nat) -> exists n, P (run n).
Proof.
  intros Hrun. enough (H : forall s, eventually P s -> forall n, run n = s -> exists n, P (run n))
    by (intros H0; exact (H _ H0 0%nat eq_refl)).
  induction 1 as [s Hs|s _ _ IH]; intros n <-; [by exists n|].
  exact (IH (run (S n)) (Hrun n) (S n) eq_refl).
Qed.
End execution.

(** Fewer steps, at least one of them in every state, reach as much. *)
Lemma eventually_restrict {State : Type} (R R' : State -> State -> Prop) (P : State -> Prop) (s : State) :
  (forall s s', R' s s' -> R s s') -> (forall s, (exists s', R s s') -> exists s', R' s s') ->
  eventually R P s -> eventually R' P s.
Proof.
  intros Hsub Hex. induction 1 as [s Hs|s H _ IH]; [by apply ev_now|].
  apply ev_step; [by apply Hex|]. eauto.
Qed.
