(* ===== verification/Cluster.v ===== *)
(** * Several processes and one lease

    What [main.rs] does with the elector of [leader.rs]: it starts the elector, waits
    four seconds, runs as leader or as follower, and a follower that is promoted
    ends so that Kubernetes restarts it. The processes share the lease and a clock;
    each takes steps of its own, one request at a time. *)

From S2P Require Import Prelude Leader Execution.

Definition second : Z := 1000000000.

Section cluster.
Context {LA : LeaseApi}.

(** ** One process *)

(** Where the elector's task stands. [Reading now] has taken the time [now] and sent
    its read; [Writing pl since] has sent the request of the plan [pl] at [since]. *)
Inductive elector_task :=
| Connecting (since : Z)
| Sleeping (wake : Z)
| Reading (now : Z)
| Writing (pl : lease_plan) (since : Z)
| Exited.

(** Where [main] stands after it spawned the elector: asleep until [branch_at],
    inside [run_leader], or inside [run_follower], asleep until [poll_at]. *)
Inductive main_task :=
| Booting (branch_at : Z)
| RunLeader
| RunFollower (poll_at : Z).

Record process := mkProcess {
  pr_elector : LeaderElector;
  pr_task : elector_task;
  pr_main : main_task
}.

(** A pod keeps its name and label while its process is down. *)
Inductive pod := Down (since : Z) (label : string) | Up (pr : process).

(** What can happen to the elector: its client is made or not, its pause ends, its
    read is answered or fails, its write reaches the server or not and is answered
    or not; the patch of its label, when the turn ends with one, succeeds or not. The
    time the label patch takes counts with the pause that follows it. *)
Inductive elector_action :=
| Connect (ok : bool)
| Begin
| Read (answered label_ok : bool)
| Write (reached answered label_ok : bool).

Definition set_task (task : elector_task) (pr : process) : process :=
  {| pr_elector := pr_elector pr; pr_task := task; pr_main := pr_main pr |}.

(** The end of a turn: the role follows the answer, then the task sleeps. *)
Definition settle (t : Z) (answer : result bool unit) (label_ok : bool) (pr : process) : process :=
  {| pr_elector := elector_step (pr_elector pr) answer label_ok;
     pr_task := Sleeping (t + pause_after answer * second);
     pr_main := pr_main pr |}.

(** [LeaderElector::run] of the pod named [id], one request at a time, at time [t]
    with the lease [c]. A refused lease needs no write. *)
Definition elector_act (id : string) (a : elector_action) (t : Z) (c : Cluster) (pr : process) :
    option (process * Cluster) :=
  match a, pr_task pr with
  | Connect ok, Connecting _ => Some (set_task (if ok then Sleeping t else Exited) pr, c)
  | Begin, Sleeping wake => if wake <=? t then Some (set_task (Reading t) pr, c) else None
  | Read true label_ok, Reading now =>
      Some (match plan id now (lease_get c) with
            | Leave => settle t (Ok false) label_ok pr
            | pl => set_task (Writing pl t) pr
            end, c)
  | Read false label_ok, Reading _ => Some (settle t (Err tt) label_ok pr, c)
  | Write reached answered label_ok, Writing pl _ =>
      let '(c', answer) := if reached : bool then carry_out c pl else (c, Err tt) in
      Some (settle t (if answered : bool then answer else Err tt) label_ok pr, c')
  | _, _ => None
  end.

(** [main] from the spawn of the elector on, in a pod labelled [label]. *)
Definition spawn (t : Z) (label : string) : process :=
  {| pr_elector := LeaderElector_new label; pr_task := Connecting t;
     pr_main := Booting (t + 4 * second) |}.

(** The branch after the pause; the first turn of [run_follower] sleeps. *)
Definition branch (t : Z) (pr : process) : option process :=
  match pr_main pr with
  | Booting at_ =>
      if at_ <=? t then
        Some {| pr_elector := pr_elector pr; pr_task := pr_task pr;
                pr_main := if le_is_leader (pr_elector pr) then RunLeader
                           else RunFollower (t + 2 * second) |}
      else None
  | _ => None
  end.

(** One turn of the loop that ends [run_follower]: a promoted process exits. *)
Definition watch_promotion (t : Z) (pr : process) : option pod :=
  match pr_main pr with
  | RunFollower at_ =>
      if at_ <=? t then
        Some (if le_is_leader (pr_elector pr) then Down t (le_pod_label (pr_elector pr))
              else Up {| pr_elector := pr_elector pr; pr_task := pr_task pr;
                         pr_main := RunFollower (t + 2 * second) |})
      else None
  | _ => None
  end.

(** ** Pods *)

(** [Exit applied]: the process ends, by a crash, by the end of the ingest stream or
    by an error of [main]; [applied] when a write it had sent still takes effect. *)
Inductive pod_action :=
| Start
| Elector (a : elector_action)
| Branch
| Poll
| Exit (applied : bool).

Definition pod_act (id : string) (a : pod_action) (t : Z) (c : Cluster) (p : pod) :
    option (pod * Cluster) :=
  match a, p with
  | Start, Down _ label => Some (Up (spawn t label), c)
  | Elector a, Up pr =>
      match elector_act id a t c pr with Some (pr, c) => Some (Up pr, c) | None => None end
  | Branch, Up pr => match branch t pr with Some pr => Some (Up pr, c) | None => None end
  | Poll, Up pr => match watch_promotion t pr with Some p => Some (p, c) | None => None end
  | Exit applied, Up pr =>
      Some (Down t (le_pod_label (pr_elector pr)),
            match pr_task pr with
            | Writing pl _ => if applied : bool then (carry_out c pl).1 else c
            | _ => c
            end)
  | _, _ => None
  end.

(** ** The cluster *)

Record world := mkWorld { clock : Z; lease : Cluster; pods : gmap string pod }.

Inductive action := Tick (d : Z) | At (id : string) (a : pod_action).

Definition act (a : action) (w : world) : option world :=
  match a with
  | Tick d =>
      if 0 <? d then Some {| clock := clock w + d; lease := lease w; pods := pods w |} else None
  | At id a =>
      match pods w !! id with
      | Some p =>
          match pod_act id a (clock w) (lease w) p with
          | Some (p, c) => Some {| clock := clock w; lease := c; pods := <[id := p]> (pods w) |}
          | None => None
          end
      | None => None
      end
  end.

Definition step (w w' : world) : Prop := exists a, act a w = Some w'.

(** A sequence of actions. *)
Fixpoint acts (l : list action) (w : world) : option world :=
  match l with
  | [] => Some w
  | a :: l => match act a w with Some w => acts l w | None => None end
  end.

(** ** What is observed of a pod *)

(** The process is up and its flag says it leads. *)
Definition believes (p : pod) : bool :=
  match p with Up pr => le_is_leader (pr_elector pr) | Down _ _ => false end.

(** The process is inside [run_leader]: it runs the engine, publishes fills and
    writes snapshots. *)
Definition leading (p : pod) : bool :=
  match p with Up (mkProcess _ _ RunLeader) => true | _ => false end.

(** A request of the elector is under way. *)
Definition attempting (p : pod) : bool :=
  match p with
  | Up pr => match pr_task pr with Reading _ | Writing _ _ => true | _ => false end
  | Down _ _ => false
  end.
End cluster.

Arguments process : clear implicits.
Arguments world : clear implicits.
Arguments world {LA}.
