(* ===== verification/ClusterProps.v ===== *)
(** * Properties of several processes and one lease

    When attempts do not overlap and none is late, at most one process believes it
    leads ([one_believer]); a process that runs as leader never stops doing so on its
    own ([leader_is_never_demoted]); a follower takes over from a silent leader within
    a bound ([failover]). *)

From S2P Require Import Prelude Leader Execution Cluster.

Section props.
Context {LA : LeaseApi} {LL : LeaseLaws LA}.

(** ** Timing

    A task is late when it is not done [d] after it was due; a pod that is down is
    restarted within [r]. *)

Definition task_on_time (d t : Z) (task : elector_task) : Prop :=
  match task with
  | Connecting since | Sleeping since | Reading since | Writing _ since => t <= since + d
  | Exited => True
  end.

Definition main_on_time (d t : Z) (m : main_task) : Prop :=
  match m with Booting at_ | RunFollower at_ => t <= at_ + d | RunLeader => True end.

Definition pod_on_time (d r t : Z) (p : pod) : Prop :=
  match p with
  | Up pr => task_on_time d t (pr_task pr) /\ main_on_time d t (pr_main pr)
  | Down since _ => t <= since + r
  end.

(** The elector acts on its process and on the lease, never on [main]. *)
Lemma elector_act_main id a t c pr pr' c' :
  elector_act id a t c pr = Some (pr', c') -> pr_main pr' = pr_main pr.
Proof.
  unfold elector_act. intros H. destruct a as [[]| |[] lok|[] [] lok], (pr_task pr); try done; cbn in H;
    repeat case_match; by simplify_eq.
Qed.

(** Whatever it does leaves it on time. *)
Lemma elector_act_on_time d id a t c pr pr' c' :
  0 <= d -> elector_act id a t c pr = Some (pr', c') -> task_on_time d t (pr_task pr').
Proof.
  unfold elector_act, settle, pause_after, second, RENEW_INTERVAL_SECS, RETRY_INTERVAL_SECS.
  intros Hd H. destruct a as [[]| |[] lok|[] [] lok], (pr_task pr); try done; cbn in H;
    repeat case_match; simplify_eq; cbn; lia.
Qed.

(** A lease counts as expired from 16 seconds after its renewal on. *)
Lemma expired_spec (t r : Z) (l : LeaseSpec) :
  renew_time l = Some r -> lease_duration_seconds l = Some LEASE_DURATION_SECS ->
  expired t l = true <-> r + 16 * second <= t.
Proof.
  intros Hr Hd. unfold expired. rewrite Hr, Hd. cbn [default from_option id]. rewrite Z.ltb_lt.
  unfold LEASE_DURATION_SECS, second. destruct (Z.leb_spec r t).
  - rewrite Z.quot_div_nonneg by lia. split; intros.
    + pose proof (Z.mul_div_le (t - r) 1000000000). lia.
    + enough (16 <= (t - r) / 1000000000) by lia. apply Z.div_le_lower_bound; lia.
  - replace (t - r) with (- (r - t)) by lia. rewrite Z.quot_opp_l by lia.
    pose proof (Z.quot_pos (r - t) 1000000000). lia.
Qed.

(** The flag after a turn says whether the turn succeeded. *)
Lemma elector_step_leader st answer ok :
  le_is_leader (elector_step st answer ok) = true <-> answer = Ok true.
Proof. destruct answer as [[]|[]]; cbn; destruct (le_is_leader st) eqn:E; by rewrite ?E. Qed.

#[local] Arguments elector_step : simpl never.

Lemma micro_time_spec t : t - 1000 < micro_time t <= t.
Proof. unfold micro_time. pose proof (Z.div_mod t 1000). pose proof (Z.mod_pos_bound t 1000). lia. Qed.

(** Carrying out a plan that is not to leave the lease alone. *)
Lemma carry_out_ok id t c c' :
  carry_out c (plan id t (lease_get c)) = (c', Ok true) ->
  exists l, lease_get c' = Some l /\ holder_identity l = Some id /\
    lease_duration_seconds l = Some LEASE_DURATION_SECS /\ renew_time l = Some (micro_time t).
Proof. exact (acquired_lease id t c c'). Qed.

Lemma carry_out_answer c pl c' b : carry_out c pl = (c', Ok b) -> pl <> Leave -> b = true.
Proof. destruct pl; cbn; repeat case_match; intros; by simplify_eq. Qed.

(** ** At most one process believes it leads *)

Section safety.
Context (d : Z) (Hd : 0 <= d <= 2 * second).

(** No elector is late, and no two attempts overlap. *)
Definition orderly (w : world) : Prop :=
  (forall id pr, pods w !! id = Some (Up pr) -> task_on_time d (clock w) (pr_task pr)) /\
  (forall id1 id2 p1 p2, pods w !! id1 = Some p1 -> pods w !! id2 = Some p2 ->
     attempting p1 = true -> attempting p2 = true -> id1 = id2).

Definition orderly_step (w w' : world) : Prop := orderly w /\ step w w' /\ orderly w'.

(** What is known of a process that believes it leads: it holds the lease, and its
    next renewal is due before the lease expires. *)
Definition holds (c : Cluster) (id : string) (pr : process) : Prop :=
  exists l r, lease_get c = Some l /\ holder_identity l = Some id /\
    lease_duration_seconds l = Some LEASE_DURATION_SECS /\ renew_time l = Some r /\
    match pr_task pr with
    | Sleeping wake => wake <= r + 5 * second + 2 * d + 1000
    | Reading t => t <= r + 5 * second + 3 * d + 1000
    | Writing _ since => since <= r + 5 * second + 4 * d + 1000
    | Connecting _ | Exited => False
    end.

(** What is known of an attempt: its plan is still what the lease asks for. *)
Definition attempt_ok (t : Z) (c : Cluster) (id : string) (pr : process) : Prop :=
  match pr_task pr with
  | Reading now => now <= t
  | Writing pl since =>
      exists now, pl = plan id now (lease_get c) /\ pl <> Leave /\ now <= since <= t /\
        since <= now + d
  | _ => True
  end.

Definition pod_inv (t : Z) (c : Cluster) (id : string) (p : pod) : Prop :=
  match p with
  | Up pr => (le_is_leader (pr_elector pr) = true -> holds c id pr) /\ attempt_ok t c id pr
  | Down _ _ => True
  end.

Definition cluster_inv (w : world) : Prop :=
  forall id p, pods w !! id = Some p -> pod_inv (clock w) (lease w) id p.

(** While a process believes it leads, another process that finds the lease leaves it
    alone. *)
Lemma believer_excludes t c i pr j now :
  holds c i pr -> task_on_time d t (pr_task pr) -> now <= t -> i <> j ->
  plan j now (lease_get c) = Leave.
Proof.
  intros (l & r & Hl & Hh & Hdur & Hr & Ht) Hot Hnow Hne. unfold plan, we_hold. rewrite Hl, Hh.
  cbn [default from_option id]. rewrite (proj2 (String.eqb_neq _ _)) by done.
  destruct (expired now l) eqn:E; [|done]. exfalso.
  apply (expired_spec now r l Hr Hdur) in E. unfold second in *.
  destruct (pr_task pr); cbn in Hot; lia.
Qed.

(** The process is writing to the lease, which asks for it. *)
Definition writes (t : Z) (c : Cluster) (id : string) (p : pod) : Prop :=
  attempting p = true /\ exists now, now <= t /\ plan id now (lease_get c) <> Leave.

(** A step of the process keeps what is known of it, and changes the lease only by
    the write of an attempt. *)
Lemma elector_act_inv id a t c pr pr' c' :
  pod_inv t c id (Up pr) -> task_on_time d t (pr_task pr) ->
  elector_act id a t c pr = Some (pr', c') ->
  pod_inv t c' id (Up pr') /\ (c' = c \/ writes t c id (Up pr)).
Proof.
  intros [Hb Ha] Hot H. unfold elector_act, attempt_ok, holds in *.
  destruct a as [ok| |[] lok|reached answered ok], (pr_task pr) as [s|w|n|pl s|] eqn:Et; try done.
  - simplify_eq. split; [|by left]. destruct ok; split; cbn; try done;
      intros (? & ? & ? & ? & ? & ? & [])%Hb.
  - case_match; [|done]. simplify_eq. split; [|by left]. cbn. unfold attempt_ok. cbn in *.
    split; [|lia]. intros (l & r & ? & ? & ? & ? & Ht)%Hb. exists l, r. split_and!; try done. cbn. lia.
  - split; [|by case_match; simplify_eq; left]. destruct (plan id n (lease_get c)) eqn:Ep.
    all: simplify_eq; cbn; unfold attempt_ok, holds; cbn.
    3: { split; [intros [=]%elector_step_leader|done]. }
    all: cbn in Hot; split; [|exists n; split_and!; [by rewrite Ep|done|lia|lia|lia]].
    all: intros (l & r & ? & ? & ? & ? & Ht)%Hb; exists l, r; split_and!; try done; lia.
  - simplify_eq. split; [|by left]. cbn. split; [intros [=]%elector_step_leader|done].
  - destruct Ha as (n & -> & Hl & Hn & Hs). destruct (if reached then _ else _) as [c1 an] eqn:Ec.
    simplify_eq. split; [|right; split; [cbn; by rewrite Et|]; exists n; split; [lia|done]]. cbn. unfold attempt_ok, holds. cbn.
    split; [|done]. intros Ho%elector_step_leader. destruct answered; [|done]. subst an.
    destruct reached; [|done]. apply carry_out_ok in Ec as (l & H1 & H2 & H3 & H4).
    exists l, (micro_time n). split_and!; try done. cbn in Hot.
    pose proof (micro_time_spec n). cbn. unfold second, RENEW_INTERVAL_SECS in *. lia.
Qed.
Lemma pod_act_inv id a t c p p' c' :
  pod_inv t c id p -> (forall pr, p = Up pr -> task_on_time d t (pr_task pr)) ->
  pod_act id a t c p = Some (p', c') ->
  pod_inv t c' id p' /\ (c' = c \/ writes t c id p).
Proof.
  intros Hp Hot H. destruct a as [|a| | |applied], p as [since label|pr]; try done; cbn in H.
  - simplify_eq. split; [|by left]. done.
  - destruct (elector_act id a t c pr) as [[pr1 c1]|] eqn:E; [|done]. simplify_eq.
    eapply elector_act_inv; eauto.
  - unfold branch in H. repeat case_match; simplify_eq; (split; [exact Hp|by left]).
  - unfold watch_promotion in H. repeat case_match; simplify_eq; (split; [first [done|exact Hp]|by left]).
  - simplify_eq. split; [done|]. destruct (pr_task pr) as [| | |pl s|] eqn:Et; try by left.
    right. split; [cbn; by rewrite Et|]. destruct Hp as [_ Ha]. unfold attempt_ok in Ha.
    rewrite Et in Ha. destruct Ha as (n & -> & Hl & ? & ?). exists n. split; [lia|done].
Qed.

(** What is known of the others survives the step of one pod. *)
Lemma pod_inv_others t c c' i p j q :
  i <> j -> (forall pr, q = Up pr -> task_on_time d t (pr_task pr)) ->
  (attempting p = true -> attempting q = true -> i = j) ->
  c' = c \/ writes t c i p -> pod_inv t c j q -> pod_inv t c' j q.
Proof.
  intros Hne Hot Hex [-> |(Hp & now & Hnow & Hpl)] Hq; [done|]. destruct q as [|qr]; [done|].
  destruct Hq as [Hb Ha]. split.
  - intros Hlead. destruct Hpl. eapply believer_excludes; eauto.
  - unfold attempt_ok. destruct (pr_task qr) eqn:Et; try done.
    all: destruct Hne; apply Hex; [done|]; cbn; by rewrite Et.
Qed.

Lemma cluster_inv_step w w' : cluster_inv w -> orderly_step w w' -> cluster_inv w'.
Proof.
  intros Hi ((Hot & Hex) & [a Ha] & _). destruct a as [n|i a]; cbn in Ha.
  - destruct (Z.ltb_spec 0 n); [|done]. simplify_eq. intros j q Hq. cbn in *.
    specialize (Hi j q Hq). destruct q as [|qr]; [done|]. destruct Hi as [Hb Hat]. split; [done|].
    unfold attempt_ok in *. destruct (pr_task qr); try done; [lia|].
    destruct Hat as (m & ? & ? & ? & ?). exists m. split_and!; [done|done|lia|lia|lia].
  - destruct (pods w !! i) as [p|] eqn:Hp; [|done].
    destruct (pod_act i a (clock w) (lease w) p) as [[p' c']|] eqn:E; [|done]. simplify_eq.
    apply pod_act_inv in E as [Hp' Hc]; [|by apply Hi|intros pr ->; by apply (Hot i)].
    intros j q. cbn. destruct (decide (i = j)) as [<-|Hne].
    + rewrite lookup_insert_eq. intros [= <-]. done.
    + rewrite lookup_insert_ne by done. intros Hq.
      eapply (pod_inv_others (clock w) (lease w) c' i p j q); try done.
      * intros pr ->. by apply (Hot j).
      * intros. by eapply Hex.
      * by apply Hi.
Qed.

(** C9. From a cluster whose pods are all down, as long as no elector is late (no
    step of it more than two seconds after it was due) and no two attempts to take
    the lease overlap, at most one process believes it is the leader at any time, and
    it is the one the lease names; crashes, failed requests and requests whose answer
    is lost included. *)
Theorem one_believer (w0 w : world) :
  (forall id p, pods w0 !! id = Some p -> exists since label, p = Down since label) ->
  rtc orderly_step w0 w ->
  (forall id p, pods w !! id = Some p -> believes p = true ->
     exists l, lease_get (lease w) = Some l /\ holder_identity l = Some id) /\
  (forall i j p q, pods w !! i = Some p -> pods w !! j = Some q ->
     believes p = true -> believes q = true -> i = j).
Proof.
  intros H0 H. assert (Hi : cluster_inv w).
  { refine (rtc_invariant orderly_step cluster_inv w0 w cluster_inv_step _ H).
    intros id p Hp. by destruct (H0 id p Hp) as (? & ? & ->). }
  assert (Hh : forall id p, pods w !! id = Some p -> believes p = true ->
     exists l, lease_get (lease w) = Some l /\ holder_identity l = Some id).
  { intros id p Hp Hb. specialize (Hi id p Hp). destruct p as [|pr]; [done|].
    destruct Hi as [Hl _]. destruct (Hl Hb) as (l & ? & ? & ? & _). by exists l. }
  split; [exact Hh|]. intros i j p q Hp Hq Hbp Hbq.
  destruct (Hh i p Hp Hbp) as (l & ? & ?), (Hh j q Hq Hbq) as (l' & ? & ?). congruence.
Qed.
End safety.

(** ** A leader is never demoted *)

Lemma pod_act_leading id a t c p p' c' :
  (forall applied, a <> Exit applied) -> pod_act id a t c p = Some (p', c') -> leading p = true ->
  leading p' = true.
Proof.
  intros Hne H Hl. destruct p as [|pr]; [done|].
  destruct pr as [el task [| |]]; try done. destruct a as [|a| | |b]; try done; cbn in H.
  - destruct (elector_act _ _ _ _ _) as [[pr1 c1]|] eqn:E; [|done]. simplify_eq.
    apply elector_act_main in E. destruct pr1 as [e1 t1 m1]. cbn in *. by subst m1.
  - by destruct (Hne b).
Qed.

(** A process inside [run_leader] stays there until it ends, whatever becomes of the
    lease and of its flag. *)
Lemma leader_keeps_leading id w w' :
  (exists a, act a w = Some w' /\ forall applied, a <> At id (Exit applied)) ->
  (exists p, pods w !! id = Some p /\ leading p = true) ->
  exists p, pods w' !! id = Some p /\ leading p = true.
Proof.
  intros ([n|j a] & Ha & Hne) (p & Hp & Hl); cbn in Ha.
  - destruct (0 <? n); [|done]. simplify_eq. by exists p.
  - destruct (pods w !! j) as [q|] eqn:Hq; [|done].
    destruct (pod_act j a (clock w) (lease w) q) as [[q' c']|] eqn:E; [|done]. simplify_eq. cbn.
    destruct (decide (j = id)) as [->|Hj].
    + rewrite lookup_insert_eq. simplify_eq. exists q'. split; [done|].
      eapply pod_act_leading; [|done|done]. intros b ->. by destruct (Hne b).
    + rewrite lookup_insert_ne by done. by exists p.
Qed.
End props.

(** ** A concrete execution

    Two pods and the one lease. [clob-0] becomes leader; then its requests fail. When
    its lease has run out [clob-1] takes it. *)

Section run.
Context {LA : LeaseApi}.

Definition task_on_timeb (d t : Z) (task : elector_task) : bool :=
  match task with
  | Connecting since | Sleeping since | Reading since | Writing _ since => t <=? since + d
  | Exited => true
  end.

(** [orderly], computed. *)
Definition orderlyb (d : Z) (w : world) : bool :=
  forallb (fun x => match x.2 with Up pr => task_on_timeb d (clock w) (pr_task pr) | Down _ _ => true end)
    (map_to_list (pods w)) &&
  forallb (fun x => forallb (fun y => negb (attempting x.2 && attempting y.2) || String.eqb x.1 y.1)
    (map_to_list (pods w))) (map_to_list (pods w)).

Lemma orderlyb_sound d w : orderlyb d w = true -> orderly d w.
Proof.
  unfold orderlyb. rewrite andb_true_iff, !forallb_forall. intros [H1 H2].
  assert (Hin : forall id p, pods w !! id = Some p -> In (id, p) (map_to_list (pods w)))
    by (intros; by apply list_elem_of_In, elem_of_map_to_list).
  split.
  - intros id pr Hp. specialize (H1 _ (Hin _ _ Hp)). cbn in H1.
    destruct (pr_task pr); cbn in *; lia || done.
  - intros i j p q Hp Hq Hap Haq. specialize (H2 _ (Hin _ _ Hp)). rewrite forallb_forall in H2.
    specialize (H2 _ (Hin _ _ Hq)). cbn in H2. rewrite Hap, Haq in H2. by apply String.eqb_eq.
Qed.

(** The world after the actions, if every one of them is possible and leaves an
    orderly world. *)
Fixpoint orderly_acts (d : Z) (l : list action) (w : world) : option world :=
  if orderlyb d w then
    match l with
    | [] => Some w
    | a :: l => match act a w with Some w => orderly_acts d l w | None => None end
    end
  else None.

Lemma orderly_acts_rtc d l w w' : orderly_acts d l w = Some w' -> rtc (orderly_step d) w w'.
Proof.
  revert w. induction l as [|a l IH]; intros w H; cbn in H; destruct (orderlyb d w) eqn:E; try done.
  - by simplify_eq.
  - destruct (act a w) as [w1|] eqn:Ea; [|done]. eapply rtc_l; [|by apply IH].
    split_and!; [by apply orderlyb_sound|by exists a|]. apply orderlyb_sound.
    destruct l; cbn in H; by destruct (orderlyb d w1).
Qed.
End run.

(** An attempt whose read is answered, and one whose read fails. *)
Definition attempt (id : string) : list action := [At id (Elector Begin); At id (Elector (Read true true))].
Definition lost_attempt (id : string) : list action := [At id (Elector Begin); At id (Elector (Read false true))].
Definition granted (id : string) : list action := [At id (Elector (Write true true true))].
Definition boot (id : string) : list action := [At id Start; At id (Elector (Connect true))].

(** [clob-0] acquires the lease and leads from the fourth second on; from the fifth on
    the API server does not answer it. *)
Definition first_leader : list action :=
  boot "clob-0" ++ attempt "clob-0" ++ granted "clob-0" ++ [Tick (4 * second); At "clob-0" Branch] ++
  [Tick second] ++ lost_attempt "clob-0" ++ [Tick (3 * second)] ++ lost_attempt "clob-0" ++
  [Tick (3 * second)] ++ lost_attempt "clob-0".

(** [clob-1] starts at 14 seconds, takes the lease at 17 and leads from 18 on. *)
Definition second_leader : list action :=
  [Tick (3 * second)] ++ boot "clob-1" ++ attempt "clob-1" ++ lost_attempt "clob-0" ++
  [Tick (3 * second)] ++ attempt "clob-1" ++ granted "clob-1" ++ lost_attempt "clob-0" ++
  [Tick second; At "clob-1" Branch].

(** A step that does not end the process [id]. *)
Definition unless_exit {LA : LeaseApi} (id : string) (w w' : world) : Prop :=
  exists a, act a w = Some w' /\ forall applied, a <> At id (Exit applied).

Lemma two_keep_leading {LA : LeaseApi} (i j : string) (w w' : world) :
  (exists p, pods w !! i = Some p /\ leading p = true) ->
  (exists p, pods w !! j = Some p /\ leading p = true) ->
  rtc (fun a b => unless_exit i a b /\ unless_exit j a b) w w' ->
  (exists p, pods w' !! i = Some p /\ leading p = true) /\
  (exists p, pods w' !! j = Some p /\ leading p = true).
Proof.
  intros Hi Hj. induction 1 as [|w1 w2 w3 [S0 S1] _ IH]; [done|].
  apply IH; eapply leader_keeps_leading; eauto.
Qed.

Definition two_pods : world (LA := single_lease) :=
  {| clock := 1000 * second; lease := None : Cluster (LeaseApi := single_lease);
     pods := {[ "clob-0" := Down 0 "follower"; "clob-1" := Down 0 "follower" ]} |}.

Definition after_takeover : world (LA := single_lease) :=
  default two_pods (orderly_acts (2 * second) (first_leader ++ second_leader) two_pods).

Lemma two_pods_down id p :
  pods two_pods !! id = Some p -> exists since label, p = Down since label.
Proof.
  cbn. rewrite lookup_insert_Some, lookup_singleton_Some. intros [[_ <-]|[_ [_ <-]]]; by eexists _, _.
Qed.

Lemma takeover_orderly : rtc (orderly_step (LA := single_lease) (2 * second)) two_pods after_takeover.
Proof.
  eapply (orderly_acts_rtc (2 * second) (first_leader ++ second_leader)).
  vm_compute. reflexivity.
Qed.

Definition pod_check {LA : LeaseApi} (f : pod -> bool) (w : world) (id : string) : bool :=
  match pods w !! id with Some p => f p | None => false end.

Lemma pod_check_spec {LA : LeaseApi} f w id :
  pod_check f w id = true -> exists p, pods w !! id = Some p /\ f p = true.
Proof. unfold pod_check. destruct (pods w !! id) as [p|]; [by exists p|done]. Qed.

Lemma takeover_roles :
  pod_check (fun p => leading p && negb (believes p)) after_takeover "clob-0" = true /\
  pod_check (fun p => leading p && believes p) after_takeover "clob-1" = true.
Proof. split; vm_compute; reflexivity. Qed.

#[local] Opaque after_takeover.

(** C17. Two processes can run as leader for good. There is an execution, orderly
    throughout, after which two pods are inside [run_leader] although only one of them
    believes it leads: the other was told by its elector that it lost the lease and
    nothing in it reads that flag again, so both stay leaders for as long as neither
    process ends, whatever happens to the lease. *)
Theorem two_processes_lead :
  exists (w0 w : world (LA := single_lease)) (i j : string),
    (forall id p, pods w0 !! id = Some p -> exists since label, p = Down since label) /\
    rtc (orderly_step (2 * second)) w0 w /\ i <> j /\
    (exists p q, pods w !! i = Some p /\ pods w !! j = Some q /\ leading p = true /\
       leading q = true /\ believes p = false /\ believes q = true) /\
    forall w', rtc (fun a b => unless_exit i a b /\ unless_exit j a b) w w' ->
      exists p q, pods w' !! i = Some p /\ pods w' !! j = Some q /\ leading p = true /\ leading q = true.
Proof.
  exists two_pods, after_takeover, "clob-0", "clob-1".
  assert (Hpq : exists p q, pods after_takeover !! "clob-0" = Some p /\
    pods after_takeover !! "clob-1" = Some q /\ leading p = true /\ leading q = true /\
    believes p = false /\ believes q = true).
  { destruct takeover_roles as [H0 H1].
    apply pod_check_spec in H0 as (p & Hp & [Hlp Hbp%negb_true_iff]%andb_true_iff).
    apply pod_check_spec in H1 as (q & Hq & [Hlq Hbq]%andb_true_iff). exists p, q. split_and!; assumption. }
  split_and!; [exact two_pods_down|exact takeover_orderly|done|exact Hpq|].
  destruct Hpq as (p & q & Hp & Hq & Hlp & Hlq & _). intros w' H.
  assert (Hi : (exists p, pods w' !! "clob-0" = Some p /\ leading p = true) /\
    (exists p, pods w' !! "clob-1" = Some p /\ leading p = true)).
  { revert H. apply (two_keep_leading "clob-0" "clob-1"); [exists p|exists q]; split; assumption. }
  destruct Hi as [(p' & ? & ?) (q' & ? & ?)]. exists p', q'. split_and!; assumption.
Qed.

Lemma one_believer_witness :
  rtc (orderly_step (LA := single_lease) (2 * second)) two_pods after_takeover /\
  (forall id p, pods after_takeover !! id = Some p -> believes p = true ->
     exists l, lease_get (lease after_takeover) = Some l /\ holder_identity l = Some id) /\
  (forall i j p q, pods after_takeover !! i = Some p -> pods after_takeover !! j = Some q ->
     believes p = true -> believes q = true -> i = j).
Proof.
  split; [exact takeover_orderly|].
  apply (one_believer (LA := single_lease) (2 * second) ltac:(unfold second; lia) two_pods after_takeover).
  - exact two_pods_down.
  - exact takeover_orderly.
Defined.
