(* ===== verification/Failover.v ===== *)
(** * Failover

    A follower whose requests succeed takes over from a leader that has gone silent,
    within a bound on the time: the lease expires, the follower acquires it, exits,
    is restarted, renews the lease and runs as leader. One lemma per stage, composed
    with [eventually_trans]. *)

From S2P Require Import Prelude Leader Execution Cluster ClusterProps.

#[local] Arguments elector_step : simpl never.

(** The actions of a pod whose requests succeed and whose process does not fail. *)
Definition succeeds (a : pod_action) : bool :=
  match a with
  | Start | Branch | Poll | Elector Begin => true
  | Elector (Connect ok) | Elector (Read ok _) => ok
  | Elector (Write reached answered _) => reached && answered
  | Exit _ => false
  end.

Section failover.
Context {LA : LeaseApi} {LL : LeaseLaws LA}.
Context (b : string) (d r : Z) (Hd : 0 <= d < second) (Hr : 0 <= r).

(** Only the pod [b] acts; time passes while nothing of it is late. *)
Definition lone_step (w w' : world) : Prop :=
  (exists n, act (Tick n) w = Some w' /\
     forall p, pods w' !! b = Some p -> pod_on_time d r (clock w') p) \/
  (exists a, succeeds a = true /\ act (At b a) w = Some w').

(** ** The view of one pod *)

Definition viewed (I : Z -> Cluster -> pod -> Prop) (w : world) : Prop :=
  exists p, pods w !! b = Some p /\ I (clock w) (lease w) p.

Definition measured (mu : Z -> pod -> Z) (w : world) : Z :=
  match pods w !! b with Some p => mu (clock w) p | None => 0 end.

(** Nothing is late, or something that is due can be done. *)
Lemma pod_progress t c p :
  pod_on_time d r t p ->
  (exists a x, succeeds a = true /\ pod_act b a t c p = Some x) \/ pod_on_time d r (t + 1) p.
Proof.
  intros Hot. destruct p as [since label|[el task m]]; [left; by exists Start; eexists|].
  assert (Hm : (exists a x, succeeds a = true /\ pod_act b a t c (Up (mkProcess el task m)) = Some x) \/
    main_on_time d (t + 1) m).
  { destruct m as [at_| |at_]; [|by right|]; destruct (Z.leb_spec at_ t) as [H|H].
    all: try (right; cbn; lia); left.
    - exists Branch. eexists. split; [done|]. cbn. unfold branch. cbn.
      by rewrite (proj2 (Z.leb_le _ _) H).
    - exists Poll. eexists. split; [done|]. cbn. unfold watch_promotion. cbn.
      by rewrite (proj2 (Z.leb_le _ _) H). }
  destruct Hm as [Hm|Hm]; [by left|]. destruct task as [s|w|n|pl s|].
  - left. exists (Elector (Connect true)). by eexists.
  - destruct (Z.leb_spec w t) as [H|H]; [left|right; split; [cbn; lia|done]].
    exists (Elector Begin). eexists. split; [done|]. cbn. by rewrite (proj2 (Z.leb_le _ _) H).
  - left. exists (Elector (Read true true)). by eexists.
  - left. exists (Elector (Write true true true)). cbn. destruct (carry_out c pl). by eexists.
  - by right.
Qed.

Lemma pod_act_on_time a t c p p' c' :
  pod_act b a t c p = Some (p', c') -> pod_on_time d r t p -> pod_on_time d r t p'.
Proof.
  intros H Hot. destruct a as [|a| | |applied], p as [since label|pr]; try done; cbn in H.
  - simplify_eq. cbn. unfold second in *. lia.
  - destruct (elector_act _ _ _ _ _) as [[pr1 c1]|] eqn:E; [|done]. simplify_eq. destruct Hot as [_ Hm].
    split; [eapply elector_act_on_time; [|done]; lia|]. by rewrite (elector_act_main _ _ _ _ _ _ _ E).
  - unfold branch in H. destruct Hot as [Ht _]. repeat case_match; simplify_eq; split; cbn; try done.
    unfold second in *. lia.
  - unfold watch_promotion in H. destruct Hot as [Ht _]. repeat case_match; simplify_eq; cbn; [lia|].
    split; [done|]. cbn. unfold second in *. lia.
  - simplify_eq. cbn. lia.
Qed.

(** A stage of the failover: an invariant of the pod and a measure of the time and of
    the steps that are left. *)
Lemma stage (I J : Z -> Cluster -> pod -> Prop) (mu : Z -> pod -> Z) (w : world) :
  (forall t c p, I t c p -> 0 <= mu t p) ->
  (forall t c p, I t c p -> pod_on_time d r t p) ->
  (forall t n c p, I t c p -> 0 < n -> pod_on_time d r (t + n) p ->
     I (t + n) c p /\ mu (t + n) p < mu t p) ->
  (forall t c p a p' c', I t c p -> succeeds a = true -> pod_act b a t c p = Some (p', c') ->
     pod_on_time d r t p' -> J t c' p' \/ (I t c' p' /\ mu t p' < mu t p)) ->
  viewed I w -> eventually lone_step (viewed J) w.
Proof.
  intros Hmu Hot Htick Hact. apply (eventually_measure _ (viewed I) _ (measured mu)).
  - intros v (p & Hp & HI). unfold measured. rewrite Hp. by eapply Hmu.
  - intros v (p & Hp & HI). destruct (pod_progress (clock v) (lease v) p) as [(a & [p' c'] & Hs & Ha)|Ht].
    + by eapply Hot.
    + eexists. right. exists a. split; [done|]. cbn. by rewrite Hp, Ha.
    + eexists. left. exists 1. split; [done|]. cbn. intros q Hq. by simplify_eq.
  - intros v v' (p & Hp & HI) [(n & Ha & Hn)|(a & Hs & Ha)]; cbn in Ha.
    + destruct (Z.ltb_spec 0 n) as [H0|]; [|done]. simplify_eq. cbn in Hn. right.
      destruct (Htick _ n _ _ HI H0 (Hn p Hp)) as [HI' Hlt].
      split; [by exists p|]. unfold measured. cbn. by rewrite Hp.
    + rewrite Hp in Ha. destruct (pod_act _ _ _ _ _) as [[p' c']|] eqn:E; [|done]. simplify_eq.
      destruct (Hact _ _ _ _ _ _ HI Hs E) as [HJ|[HI' Hlt]].
      * eapply pod_act_on_time; [done|by eapply Hot].
      * left. exists p'. cbn. by rewrite lookup_insert_eq.
      * right. split; [exists p'; cbn; by rewrite lookup_insert_eq|].
        unfold measured. cbn. by rewrite lookup_insert_eq, Hp.
Qed.
(** ** The elector of the pod *)

(** A write under way puts the name of the pod on the lease. *)
Definition ours (task : elector_task) : Prop :=
  match task with
  | Writing pl _ => exists patch, pl = Take patch /\ p_holderIdentity patch = b
  | Exited => False
  | _ => True
  end.

(** No stamp of the task lies in the future, no pause is longer than five seconds. *)
Definition stamped (t : Z) (task : elector_task) : Prop :=
  match task with
  | Connecting s | Reading s | Writing _ s => s <= t
  | Sleeping wake => wake <= t + 5 * second
  | Exited => False
  end.

(** When the attempt under way is over at the latest. *)
Definition attempt_due (task : elector_task) : Z :=
  match task with
  | Connecting s => s + 4 * d
  | Sleeping wake => wake + 3 * d
  | Reading s => s + 2 * d
  | Writing _ s => s + d
  | Exited => 0
  end.

(** Every step of the elector moves it forward. *)
Definition progress (task : elector_task) : Z :=
  match task with
  | Connecting s => 4 * s
  | Sleeping wake => 4 * wake + 1
  | Reading s => 4 * s + 2
  | Writing _ s => 4 * s + 3
  | Exited => 0
  end.

Definition held (c : Cluster) : Prop :=
  exists l, lease_get c = Some l /\ holder_identity l = Some b.

Lemma stamped_progress t task : stamped t task -> progress task <= 4 * (t + 5 * second) + 3.
Proof. destruct task; cbn; unfold second in *; lia. Qed.

Lemma stamped_later t n task : 0 < n -> stamped t task -> stamped (t + n) task.
Proof. destruct task; cbn; lia. Qed.

Lemma on_time_due t task : ours task -> task_on_time d t task -> t <= attempt_due task.
Proof. destruct task; cbn; [lia..|done]. Qed.

(** A step of the elector goes on with its attempt, finds that the lease is to be
    left alone, or acquires it. *)
Lemma elector_succeeds a t c l pr pr' c' :
  lease_get c = Some l -> ours (pr_task pr) -> stamped t (pr_task pr) ->
  task_on_time d t (pr_task pr) -> succeeds (Elector a) = true ->
  elector_act b a t c pr = Some (pr', c') ->
  ours (pr_task pr') /\ stamped t (pr_task pr') /\ progress (pr_task pr) < progress (pr_task pr') /\
  pr_main pr' = pr_main pr /\
  ((c' = c /\ pr_elector pr' = pr_elector pr /\
      attempt_due (pr_task pr') <= attempt_due (pr_task pr)) \/
   (c' = c /\ (exists lok, pr' = settle t (Ok false) lok pr) /\
      exists n, pr_task pr = Reading n /\ plan b n (Some l) = Leave) \/
   (held c' /\ le_is_leader (pr_elector pr') = true)).
Proof.
  intros Hl Ho Hst Hot Hs H. unfold elector_act, succeeds in *. unfold second in *.
  destruct a as [[]| |[] lok|[] [] lok], (pr_task pr) as [s|w|n|pl s|] eqn:Et; try done; cbn in *.
  - simplify_eq. cbn. unfold second. split_and!; try done; [lia|lia|]. left.
    split_and!; [done|done|lia].
  - destruct (Z.leb_spec w t); [|done]. simplify_eq. cbn. split_and!; try done; [lia|].
    left. split_and!; [done|done|lia].
  - rewrite Hl in H. destruct (plan b n (Some l)) as [sp|patch|] eqn:Ep; simplify_eq; cbn.
    + cbn in Ep. by destruct (_ || _).
    + split_and!; try done; [|lia|].
      * exists patch. split; [done|]. cbn in Ep. by destruct (_ || _); simplify_eq.
      * left. split_and!; [done|done|lia].
    + unfold second, RETRY_INTERVAL_SECS. split_and!; try done; [lia|lia|]. right. left.
      split_and!; [done|by exists lok|by exists n].
  - destruct Ho as (patch & -> & Hb). destruct (patch_accepted c patch) as [c1 Hc]; [by rewrite Hl|].
    cbn in H. rewrite Hc in H. simplify_eq. cbn. unfold second, RENEW_INTERVAL_SECS.
    split_and!; try done; [lia|]. right. right. split; [|by apply elector_step_leader].
    apply patch_effect in Hc as (l0 & _ & Hc). eexists. split; [exact Hc|]. cbn. by rewrite Hb.
Qed.

(** While the pod holds the lease, every attempt is granted. *)
Lemma held_plan c l n : lease_get c = Some l -> held c -> plan b n (Some l) <> Leave.
Proof.
  intros Hl (l' & Hl' & Hh). simplify_eq. cbn. unfold we_hold. rewrite Hh. cbn.
  by rewrite String.eqb_refl.
Qed.

(** ** The stages *)

Section stages.
Context (l0 : LeaseSpec) (t0 : Z).
Context (Hrenew : renew_time l0 = Some t0)
  (Hdur : lease_duration_seconds l0 = Some LEASE_DURATION_SECS).
(** From [e] on the lease has expired. *)
Context (e : Z) (He : t0 + 16 * second <= e).

(** When the lease is acquired, the follower exits, and the new process runs as
    leader, at the latest. *)
Definition acquired_by : Z := e + 3 * second + 4 * d.
Definition exited_by : Z := acquired_by + 2 * second + d.
Definition leading_by : Z := exited_by + r + 4 * second + d.

(** A process runs as follower: it waits for the lease or holds it. *)
Definition following (t : Z) (c : Cluster) (p : pod) : Prop :=
  exists pr poll, p = Up pr /\ pr_main pr = RunFollower poll /\ pod_on_time d r t p /\
    ours (pr_task pr) /\ stamped t (pr_task pr) /\ poll <= t + 2 * second /\
    ((le_is_leader (pr_elector pr) = false /\ lease_get c = Some l0 /\
        attempt_due (pr_task pr) <= acquired_by) \/
     (le_is_leader (pr_elector pr) = true /\ held c /\ poll <= acquired_by + 2 * second)).

(** It has exited; the lease names it. *)
Definition exited (t : Z) (c : Cluster) (p : pod) : Prop :=
  exists since label, p = Down since label /\ since <= exited_by /\ t <= since + r /\ held c.

(** Its successor waits for four seconds, in which it renews the lease. *)
Definition booting (t : Z) (c : Cluster) (p : pod) : Prop :=
  exists pr s, p = Up pr /\ s <= exited_by + r /\ pr_main pr = Booting (s + 4 * second) /\
    pod_on_time d r t p /\ ours (pr_task pr) /\ stamped t (pr_task pr) /\ held c /\
    (le_is_leader (pr_elector pr) = true \/ attempt_due (pr_task pr) <= s + 4 * d).

Definition took_over (t : Z) (c : Cluster) (p : pod) : Prop :=
  leading p = true /\ t <= leading_by.

Definition following_left (t : Z) (p : pod) : Z :=
  match p with
  | Up (mkProcess _ task (RunFollower poll)) =>
      (exited_by - t) + (4 * (exited_by + 5 * second) + 3 - progress task) +
      (exited_by + 2 * second - poll)
  | _ => 0
  end.

Definition booting_left (t : Z) (p : pod) : Z :=
  match p with
  | Up pr => (leading_by - t) + (4 * (leading_by + 5 * second) + 3 - progress (pr_task pr))
  | Down _ _ => 0
  end.

Lemma following_bound t c p : following t c p -> t <= exited_by.
Proof.
  intros (pr & poll & -> & Hm & [Ht Hmt] & Ho & _ & _ & H). rewrite Hm in Hmt. cbn in Hmt.
  pose proof (on_time_due t _ Ho Ht). unfold exited_by, second in *.
  destruct H as [(_ & _ & ?)|(_ & _ & ?)]; lia.
Qed.

(** An attempt that found the lease held leaves time for the next one. *)
Lemma left_alone t n pr lok :
  plan b n (Some l0) = Leave -> t <= n + d ->
  le_is_leader (pr_elector (settle t (Ok false) lok pr)) = false /\
  attempt_due (pr_task (settle t (Ok false) lok pr)) <= acquired_by.
Proof.
  intros Hplan Ht. split.
  - cbn. destruct (le_is_leader (elector_step _ _ _)) eqn:E; [|done]. by apply elector_step_leader in E.
  - cbn in Hplan. destruct (expired n l0) eqn:Eex; [by rewrite orb_true_r in Hplan|].
    assert (Hn : ~ t0 + 16 * second <= n)
      by (intros Hn; apply (expired_spec n t0 l0 Hrenew Hdur) in Hn; congruence).
    cbn. unfold acquired_by, second, RETRY_INTERVAL_SECS in *. lia.
Qed.

(** The elector of a process that runs as follower. *)
Lemma following_elector t c pr a pr' c' :
  following t c (Up pr) -> succeeds (Elector a) = true ->
  elector_act b a t c pr = Some (pr', c') -> pod_on_time d r t (Up pr') ->
  following t c' (Up pr') /\ following_left t (Up pr') < following_left t (Up pr).
Proof.
  intros (pr0 & poll & [= <-] & Hm & [Ht Hmt] & Ho & Hs & Hp & H) Hsu E Hot.
  assert (Hl : exists l, lease_get c = Some l) by
    (destruct H as [(_ & ? & _)|(_ & (l & ? & _) & _)]; by eexists).
  destruct Hl as [l Hl].
  destruct (elector_succeeds a t c l pr pr' c' Hl Ho Hs Ht Hsu E) as (Ho' & Hs' & Hlt & Hm' & Hcase).
  split; [|destruct pr as [el task m], pr' as [el1 task1 m1]; cbn in *; subst m m1; lia].
  exists pr', poll. rewrite Hm', Hm. split_and!; try done.
  destruct Hcase as [(-> & He' & Hdue)|[(-> & [lok ->] & n & Htask & Hplan)|[Hh Hlead]]].
  - rewrite He'. destruct H as [(? & ? & ?)|H]; [left; split_and!; try done; lia|by right].
  - destruct H as [(Hf & Hl0 & Hdue)|(_ & Hh & _)]; [|by destruct (held_plan c l n Hl Hh)].
    rewrite Hl in Hl0. simplify_eq. rewrite Htask in Ht.
    destruct (left_alone t n pr lok Hplan Ht) as [? ?]. by left.
  - right. split_and!; [done|done|]. destruct H as [(_ & _ & Hdue)|(_ & _ & H)]; [|done].
    pose proof (on_time_due t _ Ho Ht). lia.
Qed.

(** The loop that watches for the promotion. *)
Lemma following_poll t c pr p' :
  following t c (Up pr) -> watch_promotion t pr = Some p' ->
  exited t c p' \/ (following t c p' /\ following_left t p' < following_left t (Up pr)).
Proof.
  intros (pr0 & poll & [= <-] & Hm & [Ht Hmt] & Ho & Hs & Hp & H) Ha.
  unfold watch_promotion in Ha. rewrite Hm in Ha, Hmt. cbn in Hmt.
  destruct (Z.leb_spec poll t) as [Hle|]; [|done].
  destruct (le_is_leader (pr_elector pr)) eqn:Ef; simplify_eq.
  - left. destruct H as [(? & _)|(_ & Hh & Hpoll)]; [done|].
    eexists _, _. split_and!; [done| |lia|done]. unfold exited_by. lia.
  - right. destruct pr as [el task m]. cbn in *. subst m. split; [|unfold second; lia].
    eexists _, _. split_and!; try done; [split; [done|cbn; unfold second in *; lia]|].
    left. cbn. rewrite Ef. by destruct H as [?|(? & _)].
Qed.

Lemma following_exits (w : world) :
  viewed following w -> eventually (lone_step) (viewed exited) w.
Proof.
  apply (stage following exited following_left).
  - intros t c p H. pose proof (following_bound t c p H) as Hb.
    destruct H as ([el task m] & poll & -> & Hm & _ & _ & Hs & Hp & _). cbn in *. subst m.
    pose proof (stamped_progress t task Hs). unfold second in *. lia.
  - by intros t c p (pr & poll & -> & _ & H & _).
  - intros t n c p ([el task m] & poll & -> & Hm & _ & Ho & Hs & Hp & H) Hn Hot. cbn in *. subst m.
    split; [|lia]. exists (mkProcess el task (RunFollower poll)), poll.
    split_and!; try done; [by apply stamped_later|lia].
  - intros t c p a p' c' H Hsu Ha Hot. pose proof H as (pr & poll & -> & Hm & _).
    destruct a as [|a| | |]; try done; cbn in Ha.
    + destruct (elector_act b a t c pr) as [[pr1 c1]|] eqn:E; [|done]. simplify_eq. right.
      by eapply following_elector.
    + unfold branch in Ha. by rewrite Hm in Ha.
    + destruct (watch_promotion t pr) as [p1|] eqn:E; [|done]. simplify_eq. by eapply following_poll.
Qed.

Lemma exited_restarts (w : world) : viewed exited w -> eventually lone_step (viewed booting) w.
Proof.
  apply (stage exited booting
    (fun t p => match p with Down since _ => since + r - t | Up _ => 0 end)).
  - intros t c p (since & label & -> & _ & Hb & _). lia.
  - intros t c p (since & label & -> & _ & Hb & _). exact Hb.
  - intros t n c p (since & label & -> & Hs & Hb & Hh) Hn Hot. split; [|lia].
    by exists since, label.
  - intros t c p a p' c' (since & label & -> & Hs & Hb & Hh) Hsu Ha Hot.
    destruct a; try done. cbn in Ha. simplify_eq. left. exists (spawn t label), t.
    split_and!; try done; [lia|cbn; lia|]. right. cbn. lia.
Qed.

Lemma booting_leads (w : world) : viewed booting w -> eventually lone_step (viewed took_over) w.
Proof.
  assert (Hbound : forall t c p, booting t c p -> t <= leading_by).
  { intros t c p (pr & s & -> & Hs & Hm & [_ Hmt] & _). rewrite Hm in Hmt. cbn in Hmt.
    unfold leading_by. lia. }
  apply (stage booting took_over booting_left).
  - intros t c p H. pose proof (Hbound t c p H). destruct H as (pr & s & -> & _ & _ & _ & _ & Hst & _).
    apply stamped_progress in Hst. cbn. unfold second in *. lia.
  - by intros t c p (pr & s & -> & _ & _ & H & _).
  - intros t n c p (pr & s & -> & Hs & Hm & _ & Ho & Hst & Hh & Hd') Hn Hot. split; [|cbn; lia].
    exists pr, s. split_and!; try done. by apply stamped_later.
  - intros t c p a p' c' H Hsu Ha Hot. pose proof (Hbound t c p H) as Hb.
    destruct H as (pr & s & -> & Hs & Hm & [Ht Hmt] & Ho & Hst & Hh & Hdue).
    destruct a as [|a| | |]; try done; cbn in Ha.
    + destruct (elector_act b a t c pr) as [[pr1 c1]|] eqn:E; [|done]. simplify_eq. right.
      pose proof Hh as (l & Hl & _).
      destruct (elector_succeeds a t c l pr pr1 c' Hl Ho Hst Ht Hsu E)
        as (Ho' & Hst' & Hlt & Hm' & Hcase).
      split; [|cbn; lia]. exists pr1, s. rewrite Hm', Hm. split_and!; try done.
      * destruct Hcase as [(-> & _)|[(-> & _)|[? _]]]; done.
      * destruct Hcase as [(-> & He' & Hle)|[(-> & _ & n & _ & Hplan)|[_ Hlead]]].
        -- rewrite He'. destruct Hdue; [by left|right; lia].
        -- by destruct (held_plan c l n Hl Hh).
        -- by left.
    + unfold branch in Ha. rewrite Hm in Ha. destruct (Z.leb_spec (s + 4 * second) t); [|done].
      simplify_eq. left. split; [|done]. destruct Hdue as [->|Hdue]; [done|].
      pose proof (on_time_due t _ Ho Ht). unfold second in *. lia.
    + unfold watch_promotion in Ha. by rewrite Hm in Ha.
Qed.
End stages.

(** C10. Failover. Let the lease have been renewed last at [t0], and let [b] run as
    follower, none of its tasks late. If from now on the other processes are silent
    and the requests of [b] succeed, every step of it at most [d] (below one second)
    after it was due and its pod restarted within [r], then whatever the scheduling
    [b] runs as leader at the latest 25 seconds plus [6 d + r] after [t0], or 9
    seconds plus as much after now when the lease has already expired. *)
Theorem failover (w : world) (pr : process) (l : LeaseSpec) (t0 wake poll : Z) :
  lease_get (lease w) = Some l -> renew_time l = Some t0 ->
  lease_duration_seconds l = Some LEASE_DURATION_SECS ->
  pods w !! b = Some (Up pr) -> le_is_leader (pr_elector pr) = false ->
  pr_task pr = Sleeping wake -> wake <= clock w + RETRY_INTERVAL_SECS * second ->
  pr_main pr = RunFollower poll -> poll <= clock w + 2 * second ->
  pod_on_time d r (clock w) (Up pr) ->
  eventually lone_step (fun w' => exists p, pods w' !! b = Some p /\ leading p = true /\
    clock w' <= Z.max (clock w) (t0 + 16 * second) + 9 * second + 6 * d + r) w.
Proof.
  intros Hl Hr0 Hdur Hp Hf Ht Hw Hm Hpoll Hot.
  set (e := Z.max (clock w) (t0 + 16 * second)).
  eapply eventually_trans; [apply (following_exits l t0 Hr0 Hdur e)|]; [unfold e; lia| |].
  - exists (Up pr). split; [done|]. exists pr, poll. rewrite Ht.
    unfold acquired_by, RETRY_INTERVAL_SECS, second in *. split_and!; try done; [cbn; unfold second; lia|].
    left. split_and!; [done|done|]. cbn. unfold e, second. lia.
  - intros w1 H1. eapply eventually_trans; [by apply (exited_restarts e)|].
    intros w2 H2. eapply eventually_mono; [|by apply (booting_leads e)].
    intros w3 (p & Hp3 & Hlead & Ht3). exists p. split_and!; [done|done|].
    unfold leading_by, exited_by, acquired_by in Ht3. lia.
Qed.
End failover.

(** ** A concrete cluster: [clob-0] holds the lease and is silent *)

Definition held_lease : LeaseSpec :=
  mkLease (Some "clob-0") (Some 15) (Some (990 * second)) (Some (1000 * second)) (Some 0).

Definition waiting : process :=
  mkProcess (LeaderElector_new "follower") (Sleeping (1003 * second)) (RunFollower (1002 * second)).

Definition silent_leader : world (LA := single_lease) :=
  {| clock := 1001 * second; lease := Some held_lease : Cluster (LeaseApi := single_lease);
     pods := {[ "clob-1" := Up waiting ]} |}.

Lemma failover_witness :
  eventually (lone_step (LA := single_lease) "clob-1" (second / 2) (3 * second))
    (fun w' => exists p, pods w' !! "clob-1" = Some p /\ leading p = true /\
       clock w' <= Z.max (clock silent_leader) (1000 * second + 16 * second) + 9 * second +
         6 * (second / 2) + 3 * second) silent_leader.
Proof.
  apply (failover (LA := single_lease) "clob-1" (second / 2) (3 * second) ltac:(by vm_compute)
    ltac:(by vm_compute) silent_leader waiting held_lease (1000 * second) (1003 * second)
    (1002 * second)); try reflexivity; vm_compute; [discriminate|discriminate|].
  repeat split; discriminate.
Defined.
