(* ===== verification/Handlers.v ===== *)
(** * The HTTP handlers

    [handlers/orders.rs], [handlers/markets.rs] and [handlers/health.rs]: what each
    endpoint answers, as a function of the request, the answers of the database,
    of Redis and of Kafka, and the health flags. *)

From S2P Require Import Prelude External Types OrderBook Matching Text Leader Kafka Samples Concrete Codec PriceTime BookFacts BookOps MatchingRefine EngineFacts Runs EngineProps.
From Stdlib Require Import Strings.Byte.

(** ** Responses *)

#[local] Set Warnings "-register-all".

Inductive json :=
| JNull | JBool (b : bool) | JInt (n : Z) | JString (s : string)
| JArray (l : list json) | JObject (fields : list (string * json)).

Record HttpResponse := mkResponse { status : Z; body : json }.

Definition HttpOk (b : json) : HttpResponse := mkResponse 200 b.
Definition BadRequest (b : json) : HttpResponse := mkResponse 400 b.
Definition NotFoundResponse (b : json) : HttpResponse := mkResponse 404 b.
Definition InternalServerError (b : json) : HttpResponse := mkResponse 500 b.
Definition NotImplemented (b : json) : HttpResponse := mkResponse 501 b.
Definition ServiceUnavailable (b : json) : HttpResponse := mkResponse 503 b.

Definition error_body (message : string) : json := JObject [("error", JString message)].

Section handlers.
Context {DA : DecimalApi} {UA : UuidApi} {PO : Postcard Order}.

(** A decimal is written as a string. *)
Definition json_decimal (d : Decimal) : json := JString (dec_to_string d).
Definition json_uuid (id : Uuid) : json := JString (uuid_to_string id).
Definition json_option {A : Type} (f : A -> json) (o : option A) : json :=
  match o with Some a => f a | None => JNull end.

(** ** orders.rs *)

Record PlaceOrderRequest := mkRequest {
  rq_market_id : string;
  rq_side : string;
  rq_order_type : string;
  rq_price : option Decimal;
  rq_quantity : Decimal
}.

Definition parse_side (s : string) : option Side :=
  let s := to_lowercase s in
  if String.eqb s "bid" || String.eqb s "buy" then Some Bid
  else if String.eqb s "ask" || String.eqb s "sell" then Some Ask
  else None.

Definition parse_order_type (s : string) : option OrderType :=
  let s := to_lowercase s in
  if String.eqb s "limit" then Some Limit
  else if String.eqb s "market" then Some Market
  else None.

(** [place_order]: the record published, if any, and the response. [id] is the
    fresh uuid, [acknowledged] whether the broker takes the record. *)
Definition place_order (id : Uuid) (acknowledged : bool) (rq : PlaceOrderRequest) :
    option record * HttpResponse :=
  match parse_side (rq_side rq) with
  | None => (None, BadRequest (error_body "invalid side"))
  | Some side =>
      match parse_order_type (rq_order_type rq) with
      | None => (None, BadRequest (error_body "invalid order_type"))
      | Some order_type =>
          if match order_type, rq_price rq with Limit, None => true | _, _ => false end
          then (None, BadRequest (error_body "price required for limit orders"))
          else if dec_le (rq_quantity rq) dec_ZERO
          then (None, BadRequest (error_body "quantity must be positive"))
          else
            let order :=
              {| o_id := id; o_market_id := rq_market_id rq; o_side := side;
                 o_order_type := order_type; o_price := rq_price rq;
                 o_quantity := rq_quantity rq; o_filled := dec_ZERO; o_status := Open;
                 o_sequence := 0 |} in
            let '(sent, answer) := send_order acknowledged order in
            (sent, match answer with
                   | Ok _ => HttpOk (JObject [("id", json_uuid id)])
                   | Err _ => InternalServerError (error_body "failed to publish order")
                   end)
      end
  end.

(** A row of the [orders] table. *)
Record order_row := mkOrderQuery {
  q_id : Uuid;
  q_market_id : string;
  q_side : string;
  q_price : option Decimal;
  q_quantity : Decimal;
  q_status : string;
  q_sequence : Z
}.

(** [get_order]: [row] is the answer of the query, [None] also when it failed. *)
Definition get_order_handler (row : option order_row) : HttpResponse :=
  match row with
  | None => NotFoundResponse (error_body "order not found")
  | Some q =>
      HttpOk (JObject [("id", json_uuid (q_id q)); ("market_id", JString (q_market_id q));
        ("side", JString (q_side q)); ("price", json_option json_decimal (q_price q));
        ("quantity", json_decimal (q_quantity q)); ("status", JString (q_status q));
        ("sequence", JInt (q_sequence q))])
  end.

(** [cancel_order]: not implemented, for every id. *)
Definition cancel_order_handler (id : Uuid) : HttpResponse :=
  NotImplemented (JObject [("error", JString "cancel not yet implemented"); ("id", json_uuid id)]).

(** ** markets.rs *)

(** [get_book]: [redis] is [None] when no connection could be made, and otherwise
    gives the answer to a [GET]; a failed [GET] reads as no value. *)
Definition get_book (redis : option (string -> option (option string))) (market_id : string) :
    HttpResponse :=
  match redis with
  | None => ServiceUnavailable (error_body "cache unavailable")
  | Some get =>
      let bid := default None (get ("book:" +:+ market_id +:+ ":best_bid")) in
      let ask := default None (get ("book:" +:+ market_id +:+ ":best_ask")) in
      HttpOk (JObject [("market_id", JString market_id); ("best_bid", json_option JString bid);
        ("best_ask", json_option JString ask)])
  end.

(** A row of the query of [get_trades]. *)
Record trade_row := mkTrade { t_id : Uuid; t_price : Decimal; t_quantity : Decimal; t_sequence : Z }.

(** [get_trades]: [rows] is the answer of the query, [None] when it failed. *)
Definition get_trades (rows : option (list trade_row)) (market_id : string) : HttpResponse :=
  let trades :=
    (fun t => JObject [("id", json_uuid (t_id t)); ("price", json_decimal (t_price t));
       ("quantity", json_decimal (t_quantity t)); ("sequence", JInt (t_sequence t))])
    <$> default [] rows in
  HttpOk (JObject [("market_id", JString market_id); ("trades", JArray trades)]).
End handlers.

(** ** health.rs *)

Definition health (db_ok : bool) : HttpResponse :=
  HttpOk (JObject [("status", JString (if db_ok then "ok" else "degraded")); ("db", JBool db_ok)]).

Definition healthz (db_ok : bool) (h : HealthState) : HttpResponse :=
  let ready := db_ok && engine_alive h && lease_healthy h && kafka_ready h in
  let b := JObject [("ready", JBool ready); ("db", JBool db_ok);
    ("engine_alive", JBool (engine_alive h)); ("lease_healthy", JBool (lease_healthy h));
    ("kafka_ready", JBool (kafka_ready h)); ("snapshot_loaded", JBool (snapshot_loaded h))] in
  if ready then HttpOk b else ServiceUnavailable b.

(** ** Properties *)

Section properties.
Context {DA : DecimalApi} {DL : DecimalLaws DA} {UA : UuidApi}
  {PO : Postcard Order} {PL : PostcardLaws _ PO} {SA : SlabApi} {SL : SlabLaws SA}.

(** The record of a request is that of an open order with nothing filled. *)
Lemma place_order_sent (id : Uuid) (acknowledged : bool) (rq : PlaceOrderRequest) r response :
  place_order id acknowledged rq = (Some r, response) ->
  exists o, order_record o = Some r /\ o_id o = id /\ o_quantity o = rq_quantity rq /\
    o_filled o = dec_ZERO /\ o_status o = Open.
Proof.
  unfold place_order, send_order. intros H. repeat case_match; simplify_eq; eexists; eauto 6.
Qed.

(** The words of a request, compared in lower case. *)
Inductive side_word : string -> Side -> Prop :=
| word_bid : side_word "bid" Bid
| word_buy : side_word "buy" Bid
| word_ask : side_word "ask" Ask
| word_sell : side_word "sell" Ask.

Inductive type_word : string -> OrderType -> Prop :=
| word_limit : type_word "limit" Limit
| word_market : type_word "market" Market.

(** [o] is the order the request asks for: a well-formed request has one, any other
    has none. *)
Record order_for (id : Uuid) (rq : PlaceOrderRequest) (o : Order) : Prop := {
  of_id : o_id o = id;
  of_market : o_market_id o = rq_market_id rq;
  of_side : side_word (to_lowercase (rq_side rq)) (o_side o);
  of_type : type_word (to_lowercase (rq_order_type rq)) (o_order_type o);
  of_price : o_price o = rq_price rq;
  of_priced : o_order_type o = Limit -> is_Some (rq_price rq);
  of_quantity : o_quantity o = rq_quantity rq;
  of_positive : dec_le (rq_quantity rq) dec_ZERO = false;
  of_new : o_filled o = dec_ZERO /\ o_status o = Open /\ o_sequence o = 0
}.

Lemma parse_side_word (s : string) (sd : Side) : parse_side s = Some sd <-> side_word (to_lowercase s) sd.
Proof.
  unfold parse_side. split.
  - repeat case_match; intros [= <-]; rewrite ?orb_true_iff, ?String.eqb_eq in *; subst;
      match goal with X : _ \/ _ |- _ => destruct X as [->| ->] end; constructor.
  - by inversion 1.
Qed.

Lemma parse_order_type_word (s : string) (ty : OrderType) :
  parse_order_type s = Some ty <-> type_word (to_lowercase s) ty.
Proof.
  unfold parse_order_type. split; [|by inversion 1].
  repeat case_match; intros [= <-]; rewrite ?String.eqb_eq in *;
    match goal with X : to_lowercase s = _ |- _ => rewrite X end; constructor.
Qed.

(** A well-formed request is published. *)
Lemma place_order_for (id : Uuid) (acknowledged : bool) (rq : PlaceOrderRequest) (o : Order) :
  order_for id rq o ->
  place_order id acknowledged rq =
    (order_record o,
     if acknowledged && bool_decide (is_Some (order_record o))
     then HttpOk (JObject [("id", json_uuid id)])
     else InternalServerError (error_body "failed to publish order")).
Proof.
  intros [Hid Hm Hs%parse_side_word Ht%parse_order_type_word Hp Hl Hq Hz (Hf & Hst & Hsq)].
  unfold place_order. rewrite Hs, Ht, Hz.
  replace (match o_order_type o, rq_price rq with Limit, None => true | _, _ => false end) with false
    by (destruct (o_order_type o), (rq_price rq); try done; by destruct (Hl eq_refl)).
  replace (mkOrder _ _ _ _ _ _ _ _ _) with o by (destruct o; cbn in *; congruence).
  unfold send_order. destruct (order_record o); [|by rewrite andb_false_r]. by destruct acknowledged.
Qed.

(** Any other request is refused. *)
Lemma place_order_refuses (id : Uuid) (acknowledged : bool) (rq : PlaceOrderRequest) :
  (forall o, ~ order_for id rq o) ->
  exists m, place_order id acknowledged rq = (None, BadRequest (error_body m)) /\
    m ∈ ["invalid side"; "invalid order_type"; "price required for limit orders";
         "quantity must be positive"].
Proof.
  intros Hno. unfold place_order.
  destruct (parse_side (rq_side rq)) as [sd|] eqn:Hs; [|eexists; split; [done|set_solver]].
  destruct (parse_order_type (rq_order_type rq)) as [ty|] eqn:Ht; [|eexists; split; [done|set_solver]].
  destruct (match ty, rq_price rq with Limit, None => true | _, _ => false end) eqn:Hp;
    [eexists; split; [done|set_solver]|].
  destruct (dec_le (rq_quantity rq) dec_ZERO) eqn:Hq; [eexists; split; [done|set_solver]|].
  destruct (Hno (mkOrder id (rq_market_id rq) sd ty (rq_price rq) (rq_quantity rq) dec_ZERO Open 0)).
  apply parse_side_word in Hs. apply parse_order_type_word in Ht. split; try done.
  cbn. intros ->. by destruct (rq_price rq).
Qed.

(** The engine accepts the order a request asks for, whatever offset numbers it. *)
Lemma order_for_accepted (lot n : Z) (id : Uuid) (rq : PlaceOrderRequest) (o : Order) :
  0 <= lot <= 28 -> order_for id rq o -> amount lot (rq_quantity rq) ->
  accepted lot (set_sequence n o) /\ command_ok lot (Submit (set_sequence n o)).
Proof.
  intros Hlot [_ _ _ _ Hp Hl Hq Hz (Hf & Hst & _)] Ha.
  rewrite (dec_le_ZERO_lots lot) in Hz by done. apply Z.leb_gt in Hz.
  assert (Hok : order_ok lot (set_sequence n o)).
  { split_and!; cbn; rewrite ?Hq, ?Hf; [done|auto with clob|].
    unfold lots. by rewrite dec_units_ZERO. }
  split; [split_and!; [done|cbn; by rewrite Hq|cbn; by rewrite Hp]|].
  split; [done|]. cbn. rewrite Hst. by left.
Qed.

(** C15. [place_order] publishes exactly the well-formed requests, and what it publishes
    the engine accepts. A request is well-formed when its side is one of bid, buy,
    ask and sell and its type one of limit and market, in any case, a limit order has a
    price, and the quantity is positive. Then the record of that order, and no other, is
    handed to the broker, the answer is 200 with the id when the broker takes it and 500
    otherwise; the record decodes, at any offset of any partition, to the order with the
    offset for its number; and every engine that satisfies its invariant answers that
    order, its quantity on the grid, with [Ok]. Any other request is answered with 400
    and one of four messages, and nothing is published. *)
Theorem place_order_publishes_accepted (id : Uuid) (acknowledged : bool) (rq : PlaceOrderRequest) :
  (forall o, order_for id rq o ->
     place_order id acknowledged rq =
       (order_record o,
        if acknowledged && bool_decide (is_Some (order_record o))
        then HttpOk (JObject [("id", json_uuid id)])
        else InternalServerError (error_body "failed to publish order")) /\
     (forall r partition offset, order_record o = Some r ->
        carried (mkMessage partition offset (Some (r_payload r))) =
          Some (set_sequence (i64_as_u64 offset) o)) /\
     (forall lot offset eng, 0 <= lot <= 28 -> amount lot (rq_quantity rq) -> engine_inv lot eng ->
        command_ok lot (Submit (set_sequence (i64_as_u64 offset) o)) /\
        exists eng' res, process_order eng (set_sequence (i64_as_u64 offset) o) = Ret (eng', Ok res))) /\
  ((forall o, ~ order_for id rq o) ->
     exists m, place_order id acknowledged rq = (None, BadRequest (error_body m)) /\
       m ∈ ["invalid side"; "invalid order_type"; "price required for limit orders";
            "quantity must be positive"]).
Proof.
  split; [|apply place_order_refuses]. intros o Ho. split; [by apply place_order_for|]. split.
  - intros r partition offset. unfold order_record, carried.
    destruct (to_allocvec o) as [b|] eqn:E; [|done]. intros [= <-]. cbn.
    by rewrite (postcard_roundtrip _ _ E).
  - intros lot offset eng Hlot Ha Hinv.
    destruct (order_for_accepted lot (i64_as_u64 offset) id rq o Hlot Ho Ha) as [Hacc Hc].
    split; [done|].
    destruct (process_accepted lot Hlot eng _ Hinv Hacc) as (eng' & res & _ & E & _). eauto.
Qed.
End properties.

(** C40. [/healthz] answers 200 exactly when the database answers and the flags make
    the process ready. A process that never held the lease is never ready,
    whatever the other checks say: a follower answers 503 from its start on. *)
Theorem healthz_follower_unavailable (db_ok : bool) (h : HealthState) (label : string)
    (turns : list (result bool unit * bool)) :
  Forall (fun turn => turn.1 <> Ok true) turns ->
  lease_healthy h = le_lease_healthy (elector_run (LeaderElector_new label) turns) ->
  (forall db h', status (healthz db h') = 200 <-> db = true /\ is_ready h' = true) /\
  status (healthz db_ok h) = 503.
Proof.
  intros Ht Hl. split.
  - intros db h'. unfold healthz, is_ready.
    destruct db, (engine_alive h'), (lease_healthy h'), (kafka_ready h'); cbn; naive_solver.
  - assert (E : elector_run (LeaderElector_new label) turns = LeaderElector_new label).
    { clear Hl. induction Ht as [|[[[]|[]] ok] turns Hne _ IH]; cbn in *; done. }
    rewrite E in Hl. cbn in Hl. unfold healthz. rewrite Hl.
    by rewrite andb_false_r, andb_false_l.
Qed.

(** ** Witnesses *)

Definition sell_request : PlaceOrderRequest := mkRequest "SOL-USDC" "SELL" "Market" None (dec 400 2).

Definition sell_order : Order := market 6 Ask 400.

Lemma sell_order_for : order_for (oid 6) sell_request sell_order.
Proof. split; try done; constructor. Qed.

Lemma free_request : forall o, ~ order_for (oid 6) (mkRequest "SOL-USDC" "buy" "limit" None (dec 400 2)) o.
Proof.
  intros o [_ _ _ Ht _ Hp _ _ _]. cbn in Ht, Hp.
  destruct (o_order_type o); [by destruct (Hp eq_refl)|inversion Ht].
Qed.

(** A market sell is published, answered with 200 and accepted by the engine; a limit
    order without a price is refused. *)
Lemma place_order_publishes_accepted_witness :
  (exists r, place_order (oid 6) true sell_request =
       (Some r, HttpOk (JObject [("id", json_uuid (oid 6))])) /\
     carried (mkMessage 0 7 (Some (r_payload r))) = Some (set_sequence 7 sell_order)) /\
  (exists eng' res, process_order sample_engine (set_sequence 7 sell_order) = Ret (eng', Ok res)) /\
  (exists m, place_order (oid 6) true (mkRequest "SOL-USDC" "buy" "limit" None (dec 400 2)) =
     (None, BadRequest (error_body m))).
Proof.
  destruct (place_order_publishes_accepted (oid 6) true sell_request) as [Hyes _].
  destruct (Hyes sell_order sell_order_for) as (Hp & Hc & Hacc).
  split; [|split].
  - destruct (order_record sell_order) as [r|] eqn:E; [|vm_compute in E; discriminate].
    exists r. split; [exact Hp|]. apply (Hc r 0 7 eq_refl).
  - refine (proj2 (Hacc 2 7 sample_engine _ _ sample_inv)); [lia|]. split; vm_compute; [discriminate|reflexivity].
  - destruct (place_order_publishes_accepted (oid 6) true
      (mkRequest "SOL-USDC" "buy" "limit" None (dec 400 2))) as [_ Hno].
    destruct (Hno free_request) as (m & E & _). exists m. exact E.
Defined.

Lemma healthz_follower_unavailable_witness :
  (forall db h', status (healthz db h') = 200 <-> db = true /\ is_ready h' = true) /\
  status (healthz true (mkHealth true true false true)) = 503.
Proof.
  apply (healthz_follower_unavailable true (mkHealth true true false true) "follower"
    [(Ok false, true); (Err tt, true)]); [by repeat constructor|reflexivity].
Defined.
