(* ===== verification/Streams.v ===== *)
(** * Tasks between the engine and the outside

    [ingest/yellowstone.rs]: the task that turns stream updates into orders on the
    topic; the tasks of [run_leader] in [main.rs] that carry book updates and fills
    away from the engine; [ws/broadcast.rs] and [handlers/ws.rs]: the WebSocket
    sessions. *)

From S2P Require Import Prelude External BTreeMap Types OrderBook Levels PriceTime BookFacts BookOps Matching Concrete MatchingRefine EngineFacts Runs Samples EngineProps Snapshot Codec Text Mock Processor ProcessorProps Kafka Persistence Handlers.
From Stdlib Require Import Strings.Byte.

(** ** yellowstone.rs *)

Section ingest.
Context {DA : DecimalApi} {UA : UuidApi} {PO : Postcard Order}.

(** What the Geyser endpoint answers to [run_ingestor]: the address does not parse,
    nothing listens there, the subscription is refused, or a stream, each item of
    which is an update or an error. *)
Inductive geyser :=
| InvalidEndpoint
| Unreachable
| Refused
| Subscribed (items : list (option SubscribeUpdate)).

(** The loop over the stream: [fresh n] is the uuid drawn for the [n]th update and
    [acks n] whether the broker takes its record. A record that is not taken is
    only reported; an error of the stream ends the loop. *)
Fixpoint ingest_updates (fresh : nat -> Uuid) (acks : nat -> bool) (n : nat) (counter : Z)
    (items : list (option SubscribeUpdate)) : list record :=
  match items with
  | [] => []
  | None :: _ => []
  | Some update :: items =>
      let '(counter, order) := map_update_to_order counter (fresh n) update in
      let '(sent, _) := send_order (acks n) order in
      (match sent with Some r => [r] | None => [] end) ++
      ingest_updates fresh acks (S n) counter items
  end.

(** The records published and what [run_ingestor] returns, which is what the process
    ends with. *)
Definition run_ingestor (fresh : nat -> Uuid) (acks : nat -> bool) (counter : Z) (server : geyser) :
    list record * result unit string :=
  match server with
  | InvalidEndpoint => ([], Err "invalid endpoint")
  | Unreachable => ([], Err "failed to connect to yellowstone mock")
  | Refused => ([], Err "subscribe RPC failed")
  | Subscribed items => (ingest_updates fresh acks 0 counter items, Ok tt)
  end.
End ingest.

(** ** The tasks of [run_leader] *)

Section fanout.
Context {DA : DecimalApi} {UA : UuidApi} {PF : Postcard Fill}.

(** [FillBroadcast::publish]: the message of a fill. *)
Definition fill_message (fill : Fill) : json :=
  JObject [("maker_order_id", json_uuid (f_maker_order_id fill));
           ("taker_order_id", json_uuid (f_taker_order_id fill));
           ("price", JString (dec_to_string (f_price fill)));
           ("quantity", JString (dec_to_string (f_quantity fill)));
           ("sequence", JInt (f_sequence fill))].

(** Where the fill task sends a fill. *)
Inductive sink_effect :=
| Broadcast (message : json)
| PublishFill (r : option record)
| CachePush (fill : Fill)
| DbSend (fill : Fill).

(** What the fill task finds when it polls the engine's channel: a fill, and
    whether the database channel still takes it; nothing yet; or the end. Failed
    publications and cache writes are only reported. *)
Inductive fill_poll := PolledFill (fill : Fill) (db_open : bool) | PollEmpty | PollDisconnected.

Fixpoint fill_task (polls : list fill_poll) : list sink_effect :=
  match polls with
  | [] => []
  | PolledFill fill db_open :: polls =>
      [Broadcast (fill_message fill); PublishFill (fill_record fill); CachePush fill] ++
      (if (db_open : bool) then DbSend fill :: fill_task polls else [])
  | PollEmpty :: polls => fill_task polls
  | PollDisconnected :: _ => []
  end.

Inductive book_poll := PolledUpdate (u : BookUpdate) | BookEmpty | BookDisconnected.

(** The book task: every update is written to the cache. *)
Fixpoint book_task (polls : list book_poll) : list BookUpdate :=
  match polls with
  | [] => []
  | PolledUpdate u :: polls => u :: book_task polls
  | BookEmpty :: polls => book_task polls
  | BookDisconnected :: _ => []
  end.

Definition db_of (e : sink_effect) : option Fill :=
  match e with DbSend f => Some f | _ => None end.

Definition broadcast_of (e : sink_effect) : option json :=
  match e with Broadcast m => Some m | _ => None end.

Definition published_of (e : sink_effect) : option (option record) :=
  match e with PublishFill r => Some r | _ => None end.

Definition polled (p : fill_poll) : option Fill :=
  match p with PolledFill f _ => Some f | _ => None end.

(** With the database channel open every fill reaches every sink, in order. *)
Lemma fill_task_open (polls : list fill_poll) :
  Forall (fun p => p <> PollDisconnected /\ forall f, p <> PolledFill f false) polls ->
  omap db_of (fill_task polls) = omap polled polls /\
  omap broadcast_of (fill_task polls) = fill_message <$> omap polled polls /\
  omap published_of (fill_task polls) = fill_record <$> omap polled polls.
Proof.
  induction 1 as [|p polls [Hd Hc] _ (IH1 & IH2 & IH3)]; [done|].
  destruct p as [f []| |]; [|by destruct (Hc f)|done|done].
  cbn [fill_task omap list_omap polled app db_of broadcast_of published_of fmap list_fmap].
  by rewrite IH1, IH2, IH3.
Qed.
End fanout.

Arguments fill_poll : clear implicits.
Arguments fill_poll {DA UA}.

(** ** WebSocket sessions *)

(** How sending a text ended: in time, with an error, or too late. *)
Inductive send_outcome := SendDone | SendFailed | SendTimedOut.

(** What [select!] picks: something from the broadcast channel, or from the client. *)
Inductive ws_input :=
| RxMessage (message : string) (outcome : send_outcome)
| RxLagged (n : Z)
| RxClosed
| ClientPing (bytes : list byte) (pong_ok : bool)
| ClientClose
| ClientGone
| ClientOther.

Inductive ws_effect := Text (message : string) | Pong (bytes : list byte) | CloseSession
  | GaugeIncrement | GaugeDecrement.

(** One turn of the session; [false] when the task returned. *)
Definition ws_step (i : ws_input) : list ws_effect * bool :=
  match i with
  | RxMessage message SendDone => ([Text message], true)
  | RxMessage _ SendFailed => ([CloseSession; GaugeDecrement], false)
  | RxMessage _ SendTimedOut => ([CloseSession; GaugeDecrement], false)
  | RxLagged _ => ([CloseSession; GaugeDecrement], false)
  | RxClosed => ([GaugeDecrement], false)
  | ClientPing bytes true => ([Pong bytes], true)
  | ClientPing _ false => ([GaugeDecrement], false)
  | ClientClose | ClientGone => ([GaugeDecrement], false)
  | ClientOther => ([], true)
  end.

Fixpoint ws_loop (inputs : list ws_input) : list ws_effect * bool :=
  match inputs with
  | [] => ([], true)
  | i :: inputs =>
      let '(effs, go) := ws_step i in
      if (go : bool) then let '(effs', st) := ws_loop inputs in (effs ++ effs', st)
      else (effs, false)
  end.

(** [ws_market]: the gauge goes up, then the session runs; [true] while it lives. *)
Definition ws_market (inputs : list ws_input) : list ws_effect * bool :=
  let '(effs, alive) := ws_loop inputs in (GaugeIncrement :: effs, alive).

Definition gauge_of (e : ws_effect) : Z :=
  match e with GaugeIncrement => 1 | GaugeDecrement => -1 | _ => 0 end.

Definition gauge (effs : list ws_effect) : Z := foldr (fun e n => gauge_of e + n) 0 effs.

Definition text_of (e : ws_effect) : option string :=
  match e with Text m => Some m | _ => None end.

(** The messages the channel gave the session, in order. *)
Definition rx_message (i : ws_input) : option string :=
  match i with RxMessage m _ => Some m | _ => None end.

Lemma gauge_app (e1 e2 : list ws_effect) : gauge (e1 ++ e2) = gauge e1 + gauge e2.
Proof.
  unfold gauge. induction e1 as [|e e1 IH]; [done|]. cbn [app foldr]. rewrite IH. lia.
Qed.

Lemma ws_step_spec (i : ws_input) :
  let '(effs, go) := ws_step i in
  gauge effs = (if go then 0 else -1) /\
  omap text_of effs = (if go then match rx_message i with Some m => [m] | None => [] end else []).
Proof. by destruct i as [m []|n| |bs []| | |]. Qed.

(** C33. A session moves the client gauge up once and down exactly once, when it
      ends, however it ends, so the gauge counts the live sessions; and what it
      writes to its client is a prefix, without gaps or repetitions, of the
      messages the broadcast channel gave it, all of them while it lives. *)
Theorem ws_gauge_counts_sessions (inputs : list ws_input) :
  let '(effs, alive) := ws_market inputs in
  gauge effs = (if alive then 1 else 0) /\
  omap text_of effs `prefix_of` omap rx_message inputs /\
  (alive = true -> omap text_of effs = omap rx_message inputs).
Proof.
  assert (H : let '(effs, alive) := ws_loop inputs in
    gauge effs = (if alive then 0 else -1) /\
    omap text_of effs `prefix_of` omap rx_message inputs /\
    (alive = true -> omap text_of effs = omap rx_message inputs)).
  { induction inputs as [|i inputs IH]; [done|]. cbn [ws_loop].
    pose proof (ws_step_spec i) as Hi. destruct (ws_step i) as [effs go]. destruct Hi as [Hg Ht].
    destruct go.
    - destruct (ws_loop inputs) as [effs' alive]. destruct IH as (Hg' & Hp & Ha).
      rewrite gauge_app, Hg, Hg', omap_app, Ht. cbn [omap list_omap].
      destruct (rx_message i); split_and!; try done.
      + cbn. by apply prefix_cons.
      + intros E. cbn. by rewrite Ha.
    - rewrite Hg, Ht. split_and!; [done|apply prefix_nil|done]. }
  unfold ws_market. destruct (ws_loop inputs) as [effs alive]. destruct H as (Hg & Hp & Ha).
  split_and!; [|done|done]. change (1 + gauge effs = if alive then 1 else 0). rewrite Hg.
  by destruct alive.
Qed.

(** ** From the engine to the database *)

Section pipeline.
Context {DA : DecimalApi} {DL : DecimalLaws DA} {NC : NumericColumn DA} {UA : UuidApi}
  {SA : SlabApi} {SL : SlabLaws SA} {PC : Postcard BookSnapshot} {PF : Postcard Fill}.
Context (fresh : nat -> Uuid) (fresh_inj : forall i j, fresh i = fresh j -> i = j).

(** The fills the writer receives. *)
Lemma received_db (es : list writer_event) (fs : list Fill) :
  Forall (fun e => exists f, e = GotFill f true \/ e = TimerTick true) es ->
  Persistence.received es = fs ->
  Persistence.received (es ++ [ChannelEnd true]) = fs.
Proof.
  intros H <-. induction H as [|e es (f & [->| ->]) _ IH]; [done| |]; cbn; by rewrite ?IH.
Qed.

(** Every batch of such a run was stored once the channel ended, or the timer ticked a
    last time. *)
Lemma all_stored (batch_size : nat) (w : FillWriter) (es : list writer_event) (final : writer_event) :
  ids_drawn fresh w -> Forall (fun e => exists f, e = GotFill f true \/ e = TimerTick true) es ->
  final = ChannelEnd true \/ final = TimerTick true ->
  let w' := writer_run fresh batch_size w (es ++ [final]) in
  stored <$> w_table w' =
    (stored <$> w_table w) ++ (fields <$> (w_buf w ++ Persistence.received es)) /\ w_buf w' = [] /\
  ids_drawn fresh w'.
Proof.
  intros Hd H Hfin. revert w Hd. induction H as [|e es (f & He) _ IH]; intros w Hd.
  - rewrite app_nil_r. destruct (flush_stores fresh fresh_inj true w Hd) as (Hd2 & Hb & Hs).
    destruct Hfin as [-> | ->]; cbn; destruct (w_buf w) as [|f buf] eqn:E; rewrite ?E, ?app_nil_r; auto.
  - cbn [app writer_run]. destruct He as [-> | ->]; cbn [writer_step Persistence.received].
    + set (w1 := mkWriter (w_buf w ++ [f]) (w_drawn w) (w_table w)).
      assert (Hd1 : ids_drawn fresh w1) by exact Hd.
      destruct (Nat.leb batch_size (length (w_buf w1))).
      * destruct (flush_stores fresh fresh_inj true w1 Hd1) as (Hd2 & Hb & Hs).
        destruct (IH _ Hd2) as (Ht & Hbuf & Hd3). rewrite Ht, Hb, Hs. split; [|done].
        cbn. rewrite !fmap_app, <-!app_assoc. done.
      * destruct (IH w1 Hd1) as (Ht & Hbuf & Hd3). rewrite Ht. split; [|done]. cbn. by rewrite <-app_assoc.
    + destruct (w_buf w) as [|g buf] eqn:E.
      * destruct (IH w Hd) as (Ht & Hbuf & Hd3). rewrite Ht, E. done.
      * destruct (flush_stores fresh fresh_inj true w Hd) as (Hd2 & Hb & Hs).
        destruct (IH _ Hd2) as (Ht & Hbuf & Hd3). rewrite Ht, Hb, Hs, E. split; [|done].
        by rewrite (fmap_app fields (g :: buf)), app_assoc.
Qed.

(** End to end: when no channel closes early and every statement runs, the
    rows the database gains are exactly the fills of the engine's answers to the
    orders, as the columns keep them, in order and once each, whatever the
    interleaving of the fill task's polls and of the writer's ticks, and the
    broadcast clients are sent the same fills. *)
Theorem fills_reach_database (lot every : Z) (th : EngineThread) (orders : list Order)
    (batch_size : nat) (w : FillWriter) (polls : list fill_poll) (es : list writer_event) :
  0 <= lot <= 28 -> 0 < every -> engine_inv lot (th_engine th) ->
  spec_inv (abs_engine lot (th_engine th)) -> Forall (command_ok lot) (Submit <$> orders) ->
  ids_drawn fresh w -> w_buf w = [] ->
  Forall (fun p => p <> PollDisconnected /\ forall f, p <> PolledFill f false) polls ->
  Forall (fun e => exists f, e = GotFill f true \/ e = TimerTick true) es ->
  exists th' effs eng rs, thread_loop every th orders None = Ret (th', effs) /\
    engine_run (th_engine th) (Submit <$> orders) = Ret (eng, rs) /\
    (omap polled polls = omap fill_of effs ->
     Persistence.received es = omap db_of (fill_task polls) ->
     let w' := writer_run fresh batch_size w (es ++ [ChannelEnd true]) in
     stored <$> w_table w' = (stored <$> w_table w) ++ (fields <$> (rs ≫= answer_fills)) /\
     w_buf w' = [] /\
     omap broadcast_of (fill_task polls) = fill_message <$> (rs ≫= answer_fills)).
Proof.
  intros Hlot Hevery Hinv Hs Hcs Hd Hb Hp He.
  destruct (engine_run_inv lot Hlot (th_engine th) _ Hinv Hs Hcs) as (eng & rs & E & _ & _).
  destruct (thread_loop_run every Hevery th orders eng rs E) as (th' & effs & El & _ & _ & _ & Hf).
  exists th', effs, eng, rs. split; [done|]. split; [done|]. intros Hpoll Hrec.
  destruct (fill_task_open polls Hp) as (H1 & H2 & _).
  destruct (all_stored batch_size w es (ChannelEnd true) Hd He) as (Ht & Hbuf & _); [by left|].
  rewrite Hb in Ht. cbn [app] in Ht. rewrite Hrec, H1, Hpoll, Hf in Ht.
  split; [exact Ht|]. split; [exact Hbuf|]. by rewrite H2, Hpoll, Hf.
Qed.
End pipeline.

(** ** Witnesses *)

Definition sample_polls : list fill_poll :=
  PollEmpty :: ((fun f => PolledFill f true) <$> omap fill_of sample_loop.2).

Definition sample_writes : list writer_event :=
  TimerTick true :: ((fun f => GotFill f true) <$> omap fill_of sample_loop.2).

Lemma fills_reach_database_witness :
  exists th' effs eng rs, thread_loop 2 sample_thread sample_orders None = Ret (th', effs) /\
    engine_run sample_engine (Submit <$> sample_orders) = Ret (eng, rs) /\
    (omap polled sample_polls = omap fill_of effs ->
     Persistence.received sample_writes = omap db_of (fill_task sample_polls) ->
     let w' := writer_run number_ids 3 (mkWriter [] 0 []) (sample_writes ++ [ChannelEnd true]) in
     stored <$> w_table w' = (stored <$> []) ++ (fields <$> (rs ≫= answer_fills)) /\
     w_buf w' = [] /\
     omap broadcast_of (fill_task sample_polls) = fill_message <$> (rs ≫= answer_fills)).
Proof.
  apply (fills_reach_database number_ids ltac:(intros i j; apply Nat2N.inj) 2 2 sample_thread
    sample_orders 3 (mkWriter [] 0 []) sample_polls sample_writes); [lia|lia| | | | | | |].
  - exact sample_inv.
  - exact sample_spec_inv.
  - apply commands_ok_sound. vm_compute. reflexivity.
  - split; [constructor|]. intros r Hr. set_solver.
  - reflexivity.
  - constructor; [done|]. apply Forall_fmap, Forall_true. done.
  - constructor; [by exists (sample_fill 1 1 1 1); right|]. apply Forall_fmap, Forall_true.
    intros f. exists f. by left.
Defined.
