(* ===== verification/Replay.v ===== *)
(** * What a replay writes again

    A process that crashed resumes from its last snapshot and replays the orders after
    it. The book it ends with is right ([Recovery]); the fills it makes on the way are
    written a second time. *)

From S2P Require Import Prelude External BTreeMap Types OrderBook Levels PriceTime BookFacts BookOps Matching Concrete MatchingRefine EngineFacts Runs Samples EngineProps Snapshot SnapshotProps Codec Text Mock Processor ProcessorProps Kafka Recovery Persistence Handlers Streams.
From Stdlib Require Import Strings.Byte.

Section runs.
Context {DA : DecimalApi} {UA : UuidApi} {SA : SlabApi}.

Lemma engine_run_app eng cs1 cs2 eng' rs :
  engine_run eng (cs1 ++ cs2) = Ret (eng', rs) ->
  exists eng1 rs1 rs2, engine_run eng cs1 = Ret (eng1, rs1) /\ engine_run eng1 cs2 = Ret (eng', rs2) /\
    rs = rs1 ++ rs2.
Proof.
  revert eng rs. induction cs1 as [|c cs1 IH]; intros eng rs H; [by exists eng, [], rs|].
  cbn [app engine_run] in H. inv_bind H. destruct a as [e r]. inv_bind H. destruct a as [e' rs'].
  simplify_eq. match goal with X : engine_run e _ = _ |- _ => apply IH in X as (e1 & rs1 & rs2 & R1 & R2 & ->) end.
  exists e1, (r :: rs1), rs2. cbn. rewrite E. cbn. by rewrite R1.
Qed.

(** Answers with the same trades carry the same trades. *)
Lemma same_answers_trades lot (rs rs' : list (result ProcessResult EngineError)) :
  Forall2 (fun r r' => same_answer (abs_result lot r) (abs_result lot r')) rs rs' ->
  Forall2 same_trade (abs_fill lot <$> (rs ≫= answer_fills)) (abs_fill lot <$> (rs' ≫= answer_fills)).
Proof.
  induction 1 as [|r r' rs rs' H _ IH]; [constructor|]. csimpl. rewrite !fmap_app. apply Forall2_app; [|done].
  destruct r as [[]|[]], r' as [[]|[]]; try done; constructor.
Qed.
End runs.

Section replay.
Context {DA : DecimalApi} {DL : DecimalLaws DA} {NC : NumericColumn DA} {UA : UuidApi}
  {SA : SlabApi} {SL : SlabLaws SA} {PC : Postcard BookSnapshot} {PL : PostcardLaws _ PC}.
Context (lot : Z) (Hlot : 0 <= lot <= 28).
Context (fresh : nat -> Uuid) (fresh_inj : forall i j, fresh i = fresh j -> i = j).

(** C21. A crash duplicates fills. Let the process crash after it handled the orders
    [mid] that came after its last snapshot and their fills reached the database. The
    restarted process resumes at the snapshot's offset, so it handles [mid] again
    before anything else, and makes every trade of [mid] again; since rows are inserted
    under ids drawn anew, [ON CONFLICT DO NOTHING] never applies, and the table ends up
    with each of these trades twice. *)
Theorem crash_duplicates_fills (eng1 : MatchingEngine) (n : Z) (bytes : list byte)
    (t : gmap string SnapshotRow) (mid post : list Order) (batch_size : nat) (w : FillWriter)
    (es1 es2 : list writer_event) :
  engine_inv lot eng1 -> book_all (fun o => is_complete o = false) (eng_book eng1) ->
  (forall sd, StronglySorted (by_key sd) (prod_map id (abs_order lot) <$> keyed_queue sd (eng_book eng1))) ->
  0 < n < 2 ^ 63 -> serialize_book (eng_book eng1) MARKET_ID n = Some bytes ->
  Forall (order_ok lot) (mid ++ post) -> ids_drawn fresh w -> w_buf w = [] ->
  Forall (fun e => exists f, e = GotFill f true \/ e = TimerTick true) (es1 ++ es2) ->
  exists snap eng2 eng1' eng2' before again rest,
    load MARKET_ID true (save_raw MARKET_ID true bytes (n - 1) n t).1 = Ret (Ok (Some (snap, n - 1))) /\
    initial_state (Some (snap, n - 1)) = (Some snap, n, true) /\ restore_engine (Some snap) = Ret eng2 /\
    engine_run eng1 (Submit <$> mid) = Ret (eng1', before) /\
    engine_run eng2 (Submit <$> (mid ++ post)) = Ret (eng2', again ++ rest) /\
    Forall2 same_trade (abs_fill lot <$> (before ≫= answer_fills)) (abs_fill lot <$> (again ≫= answer_fills)) /\
    (Persistence.received es1 = before ≫= answer_fills ->
     Persistence.received es2 = (again ++ rest) ≫= answer_fills ->
     let w1 := writer_run fresh batch_size w (es1 ++ [TimerTick true]) in
     let w2 := writer_run fresh batch_size w1 (es2 ++ [TimerTick true]) in
     stored <$> w_table w2 = (stored <$> w_table w) ++ (fields <$> (before ≫= answer_fills)) ++
       (fields <$> (again ≫= answer_fills)) ++ (fields <$> (rest ≫= answer_fills)) /\
     NoDup (fr_id <$> w_table w2)).
Proof.
  intros Hinv Hlive Hs Hn Hb Hos Hd Hbuf [He1 He2]%Forall_app.
  destruct (restored_engine lot Hlot eng1 n bytes t Hinv Hlive Hs Hn Hb)
    as (snap & eng2 & Hload & Hinit & Hrest & _ & Hinv2 & Hsame).
  destruct (engine_run_same_queues lot Hlot eng1 eng2 (mid ++ post) Hinv Hinv2 Hsame Hos)
    as (e1 & rs1 & eng2' & rs2 & R1 & R2 & _ & Ha).
  rewrite fmap_app in R1. apply engine_run_app in R1 as (eng1' & before & rs' & Rb & _ & ->).
  apply Forall2_app_inv_l in Ha as (again & rest & Hba & _ & ->).
  exists snap, eng2, eng1', eng2', before, again, rest. split_and!; try done.
  { by apply same_answers_trades. }
  intros Hr1 Hr2 w1 w2.
  destruct (all_stored fresh fresh_inj batch_size w es1 (TimerTick true) Hd He1) as (H1 & Hb1 & Hd1); [by right|].
  destruct (all_stored fresh fresh_inj batch_size w1 es2 (TimerTick true) Hd1 He2) as (H2 & _ & [Hnd _]); [by right|].
  split; [|exact Hnd]. unfold w2. rewrite H2. fold w1 in H1, Hb1. rewrite Hb1, H1, Hbuf, Hr1, Hr2.
  cbn [app]. by rewrite bind_app, fmap_app, <-app_assoc.
Qed.
End replay.

(** ** A concrete crash: two orders after the snapshot, the first of which trades *)

Definition replay_before : list (result ProcessResult EngineError) :=
  (returned (sample_engine, []) (engine_run sample_engine (Submit <$> [limit 6 Bid 1000 400]))).2.

Definition replay_after : list (result ProcessResult EngineError) :=
  match restore_engine (Some (book_snapshot (eng_book sample_engine) MARKET_ID 5)) with
  | Ret eng =>
      (returned (eng, []) (engine_run eng (Submit <$> [limit 6 Bid 1000 400; market 7 Ask 450]))).2
  | _ => []
  end.

Definition replay_writes (rs : list (result ProcessResult EngineError)) : list writer_event :=
  TimerTick true :: ((fun f => GotFill f true) <$> (rs ≫= answer_fills)).

Lemma replay_writes_ok rs :
  Forall (fun e => exists f, e = GotFill f true \/ e = TimerTick true) (replay_writes rs).
Proof.
  constructor; [by exists (sample_fill 1 1 1 1); right|]. apply Forall_fmap, Forall_true.
  intros f. exists f. by left.
Qed.

Lemma crash_duplicates_fills_witness :
  exists snap eng2 eng1' eng2' before again rest,
    load MARKET_ID true (save_raw MARKET_ID true sample_state_bytes (5 - 1) 5 ∅).1 =
      Ret (Ok (Some (snap, 5 - 1))) /\
    initial_state (Some (snap, 5 - 1)) = (Some snap, 5, true) /\ restore_engine (Some snap) = Ret eng2 /\
    engine_run sample_engine (Submit <$> [limit 6 Bid 1000 400]) = Ret (eng1', before) /\
    engine_run eng2 (Submit <$> ([limit 6 Bid 1000 400] ++ [market 7 Ask 450])) = Ret (eng2', again ++ rest) /\
    Forall2 same_trade (abs_fill 2 <$> (before ≫= answer_fills)) (abs_fill 2 <$> (again ≫= answer_fills)) /\
    (Persistence.received (replay_writes replay_before) = before ≫= answer_fills ->
     Persistence.received (replay_writes replay_after) = (again ++ rest) ≫= answer_fills ->
     let w1 := writer_run number_ids 3 (mkWriter [] 0 []) (replay_writes replay_before ++ [TimerTick true]) in
     let w2 := writer_run number_ids 3 w1 (replay_writes replay_after ++ [TimerTick true]) in
     stored <$> w_table w2 = (stored <$> []) ++ (fields <$> (before ≫= answer_fills)) ++
       (fields <$> (again ≫= answer_fills)) ++ (fields <$> (rest ≫= answer_fills)) /\
     NoDup (fr_id <$> w_table w2)).
Proof.
  apply (crash_duplicates_fills 2 ltac:(lia) number_ids ltac:(intros i j; apply Nat2N.inj) sample_engine 5
    sample_state_bytes ∅ [limit 6 Bid 1000 400] [market 7 Ask 450] 3 (mkWriter [] 0 [])
    (replay_writes replay_before) (replay_writes replay_after)).
  - exact sample_inv.
  - apply (run_engine_live 2 sample_commands); [lia|vm_compute; reflexivity].
  - intros [|]; vm_compute; repeat first [apply SSorted_nil | apply SSorted_cons | apply Forall_nil_2
      | apply Forall_cons_2]; (left; reflexivity) || (right; split; [reflexivity|lia]).
  - lia.
  - reflexivity.
  - repeat constructor; apply order_ok_sound; vm_compute; reflexivity.
  - split; [constructor|]. intros r Hr. set_solver.
  - reflexivity.
  - apply Forall_app. split; apply replay_writes_ok.
Defined.

(** The trade happened: the two runs made fills. *)
Example replay_trades :
  length (replay_before ≫= answer_fills) = 2%nat /\ length (replay_after ≫= answer_fills) = 4%nat.
Proof. vm_compute. by split. Qed.
