(* ===== verification/Metrics.v ===== *)
(** * Metrics

    [metrics.rs]: the names, and the kind and unit [register_all] describes each with;
    the samples the components record; [middleware/metrics.rs]. A sample carries the
    integer before its conversion to [f64], and a measured duration is an input. *)

From S2P Require Import Prelude External BTreeMap Types OrderBook Levels PriceTime BookFacts BookOps Matching Concrete MatchingRefine EngineFacts Runs Samples EngineProps Snapshot Codec Text Mock Processor ProcessorProps Kafka Persistence Handlers Streams.
From Stdlib Require Import Strings.Byte.

(** ** Names, kinds and units *)

Definition MATCHING_LATENCY_NS : string := "matching_latency_ns".
Definition KAFKA_CONSUMER_LAG : string := "kafka_consumer_lag".
Definition FILLS_PER_SECOND : string := "fills_total".
Definition SNAPSHOT_SIZE_BYTES : string := "snapshot_size_bytes".
Definition DB_WRITE_BATCH_SIZE : string := "db_write_batch_size".
Definition WS_CLIENT_COUNT : string := "ws_client_count".
Definition HTTP_REQUEST_LATENCY : string := "http_request_duration_ns".
Definition ENGINE_CHANNEL_DEPTH : string := "engine_channel_depth".
Definition KAFKA_PRODUCE_LATENCY_NS : string := "kafka_produce_latency_ns".
Definition DB_WRITE_LATENCY_NS : string := "db_write_latency_ns".
Definition SNAPSHOT_WRITE_LATENCY_NS : string := "snapshot_write_latency_ns".

Inductive metric_kind := Counter | Gauge | Histogram.
Inductive metric_unit := Count | Bytes | Nanoseconds.

#[global] Instance metric_kind_eq_dec : EqDecision metric_kind.
Proof. solve_decision. Defined.

(** [register_all]: what is described, in order. *)
Definition register_all : list (string * (metric_kind * metric_unit)) :=
  [(MATCHING_LATENCY_NS, (Histogram, Nanoseconds));
   (KAFKA_CONSUMER_LAG, (Gauge, Count));
   (FILLS_PER_SECOND, (Counter, Count));
   (SNAPSHOT_SIZE_BYTES, (Histogram, Bytes));
   (DB_WRITE_BATCH_SIZE, (Histogram, Count));
   (WS_CLIENT_COUNT, (Gauge, Count));
   (HTTP_REQUEST_LATENCY, (Histogram, Nanoseconds));
   (ENGINE_CHANNEL_DEPTH, (Gauge, Count));
   (KAFKA_PRODUCE_LATENCY_NS, (Histogram, Nanoseconds));
   (DB_WRITE_LATENCY_NS, (Histogram, Nanoseconds));
   (SNAPSHOT_WRITE_LATENCY_NS, (Histogram, Nanoseconds))].

(** ** Samples *)

Inductive metric_op := Increment (n : Z) | GaugeSet (v : Z) | GaugeAdd (v : Z) | Observe (v : Z).

Definition kind_of_op (op : metric_op) : metric_kind :=
  match op with
  | Increment _ => Counter
  | GaugeSet _ | GaugeAdd _ => Gauge
  | Observe _ => Histogram
  end.

Record sample := mkSample { s_name : string; s_labels : list (string * string); s_op : metric_op }.

(** A sample is of a described name and of the kind it was described with. *)
Definition well_typed (s : sample) : Prop :=
  exists u, (s_name s, (kind_of_op (s_op s), u)) ∈ register_all.

Definition histogram (name : string) (v : Z) : sample := mkSample name [] (Observe v).

(** [MetricsMiddlewareService::call]: the inner service answers [inner] after
    [elapsed] nanoseconds. A request it fails is not recorded. *)
Definition call_middleware {E : Type} (elapsed : Z) (path method : string)
    (inner : result HttpResponse E) : list sample * result HttpResponse E :=
  match inner with
  | Ok res =>
      ([mkSample HTTP_REQUEST_LATENCY
          [("path", path); ("method", method); ("status", pretty (status res))] (Observe elapsed)], Ok res)
  | Err e => ([], Err e)
  end.

(** [ws_market]: the client gauge. *)
Definition ws_sample (e : ws_effect) : list sample :=
  match e with
  | GaugeIncrement => [mkSample WS_CLIENT_COUNT [] (GaugeAdd 1)]
  | GaugeDecrement => [mkSample WS_CLIENT_COUNT [] (GaugeAdd (-1))]
  | _ => []
  end.

Section samples.
Context {DA : DecimalApi} {UA : UuidApi}.

(** [KafkaConsumer::run]: the lag of a partition. *)
Definition lag_sample (e : consumer_effect) : list sample :=
  match e with
  | SetLag partition lag =>
      [mkSample KAFKA_CONSUMER_LAG [("partition", pretty partition)] (GaugeSet lag)]
  | _ => []
  end.

Context {SA : SlabApi} {PC : Postcard BookSnapshot} {PO : Postcard Order}.

(** [KafkaProducer::send_order]: only a record the broker takes is timed. *)
Definition produce_samples (acknowledged : bool) (elapsed : Z) (order : Order) : list sample :=
  match (send_order acknowledged order).2 with
  | Ok _ => [histogram KAFKA_PRODUCE_LATENCY_NS elapsed]
  | Err _ => []
  end.

(** [FillWriter::flush] of [n] fills. *)
Definition flush_samples (n : nat) (inserted : bool) (elapsed : Z) : list sample :=
  histogram DB_WRITE_BATCH_SIZE (Z.of_nat n) ::
  (if inserted then [histogram DB_WRITE_LATENCY_NS elapsed] else []).

(** What a turn of the engine thread measures: the depth of its input, the time of the
    match and of the snapshot's write. *)
Record turn_clock := mkTurnClock { tc_depth : Z; tc_match : Z; tc_snapshot : Z }.

(** One turn of the engine thread for [order]. The counter is incremented before the
    fills are sent; when the fill channel is closed the thread returns before the
    match is timed. A turn that panics, in the match or in its snapshot, has recorded
    what came before. *)
Definition turn_samples (snapshot_every : Z) (clk : turn_clock) (th : EngineThread) (order : Order)
    (r : option nat) : list sample :=
  let depth := mkSample ENGINE_CHANNEL_DEPTH [] (GaugeSet (tc_depth clk)) in
  depth ::
  match process_order (th_engine th) order with
  | Ret (eng, res) =>
      let counted :=
        match res with
        | Ok (Fills fills) =>
            [mkSample FILLS_PER_SECOND [] (Increment (Z.of_nat (length fills)))]
        | _ => []
        end in
      let ok := match res with Ok (Fills fills) => (send_fills fills r).2 | _ => true end in
      if negb ok then counted
      else
        let processed := u64_add (th_processed th) 1 in
        counted ++ [histogram MATCHING_LATENCY_NS (tc_match clk)] ++
        match snapshot_block snapshot_every eng processed (u64_as_i64 (o_sequence order)) with
        | Ret snaps =>
            snaps ≫= fun e =>
              match e with
              | SaveRaw bytes _ _ =>
                  [histogram SNAPSHOT_SIZE_BYTES (Z.of_nat (length bytes));
                   histogram SNAPSHOT_WRITE_LATENCY_NS (tc_snapshot clk)]
              | _ => []
              end
        | _ => []
        end
  | _ => []
  end.

(** The samples of the loop, also when it ends in a panic; [clk n] is what the [n]th
    turn measures. *)
Fixpoint loop_samples (snapshot_every : Z) (clk : nat -> turn_clock) (n : nat) (th : EngineThread)
    (orders : list Order) (r : option nat) : list sample :=
  match orders with
  | [] => []
  | order :: orders =>
      turn_samples snapshot_every (clk n) th order r ++
      match turn_order snapshot_every th order r with
      | Ret (th, _, r, true) => loop_samples snapshot_every clk (S n) th orders r
      | _ => []
      end
  end.

(** What a counter has been incremented by. *)
Definition counted (name : string) (ss : list sample) : Z :=
  foldr (fun s n => match s_op s with
                    | Increment k => if String.eqb (s_name s) name then k + n else n
                    | _ => n end) 0 ss.

Lemma counted_app name s1 s2 : counted name (s1 ++ s2) = counted name s1 + counted name s2.
Proof.
  unfold counted. induction s1 as [|s s1 IH]; [done|]. cbn [app foldr].
  destruct (s_op s); rewrite IH; try done. case_match; lia.
Qed.

Lemma counted_observed name (ss : list sample) :
  (forall s, s ∈ ss -> kind_of_op (s_op s) <> Counter) -> counted name ss = 0.
Proof.
  induction ss as [|s ss IH]; intros H; [done|]. unfold counted in *. cbn [foldr].
  rewrite IH by set_solver. pose proof (H s ltac:(set_solver)). by destruct (s_op s).
Qed.
End samples.

(** ** Properties *)

Lemma registered_once : NoDup (register_all.*1).
Proof. apply (bool_decide_unpack _). vm_compute. exact I. Qed.

Lemma registered_typed name kind u labels op :
  (name, (kind, u)) ∈ register_all -> kind_of_op op = kind -> well_typed (mkSample name labels op).
Proof. intros H <-. by exists u. Qed.

Ltac typed := eapply registered_typed; [repeat constructor|done].

Section properties.
Context {DA : DecimalApi} {UA : UuidApi} {SA : SlabApi} {PC : Postcard BookSnapshot}
  {PO : Postcard Order}.

Lemma turn_samples_typed every clk th o r : Forall well_typed (turn_samples every clk th o r).
Proof.
  unfold turn_samples. constructor; [typed|].
  destruct (process_order _ _) as [[eng res]| |]; [|constructor..].
  set (c := match res with Ok (Fills fills) => _ | _ => [] end).
  assert (Hc : Forall well_typed c) by (subst c; destruct res as [[]|]; repeat constructor; typed).
  destruct (negb _); [done|]. apply Forall_app. split; [done|]. constructor; [typed|].
  destruct (snapshot_block _ _ _ _) as [snaps| |]; [|constructor..].
  apply Forall_forall. intros s (e & Hs & _)%list_elem_of_bind.
  destruct e; try by apply elem_of_nil in Hs.
  apply elem_of_cons in Hs as [->|Hs%list_elem_of_singleton]; [typed|subst; typed].
Qed.

(** C20. Instrumentation is well typed. Every name is described once, and every sample a
    component records (the middleware, a session, the consumer, the producer, the fill
    writer and the engine thread, on every branch) is of a described name and of the
    kind it was described with, so no counter is ever set and no gauge observed. *)
Theorem samples_well_typed :
  NoDup (register_all.*1) /\
  (forall E elapsed path method (inner : result HttpResponse E),
     Forall well_typed (call_middleware elapsed path method inner).1) /\
  (forall inputs, Forall well_typed ((ws_market inputs).1 ≫= ws_sample)) /\
  (forall effs, Forall well_typed (effs ≫= lag_sample)) /\
  (forall acknowledged elapsed o, Forall well_typed (produce_samples acknowledged elapsed o)) /\
  (forall n inserted elapsed, Forall well_typed (flush_samples n inserted elapsed)) /\
  (forall every clk n th orders r, Forall well_typed (loop_samples every clk n th orders r)).
Proof.
  split_and!.
  - exact registered_once.
  - intros E elapsed path method [res|e]; cbn; repeat constructor. typed.
  - intros inputs. apply Forall_forall. intros s (e & Hs & _)%list_elem_of_bind.
    destruct e; try (by apply elem_of_nil in Hs); apply list_elem_of_singleton in Hs as ->; typed.
  - intros effs. apply Forall_forall. intros s (e & Hs & _)%list_elem_of_bind.
    destruct e; try (by apply elem_of_nil in Hs). apply list_elem_of_singleton in Hs as ->. typed.
  - intros acknowledged elapsed o. unfold produce_samples.
    destruct (send_order _ _).2; repeat constructor. typed.
  - intros n [] elapsed; repeat constructor; typed.
  - intros every clk n th orders. revert n th. induction orders as [|o orders IH]; intros n th r; [by constructor|].
    cbn [loop_samples]. apply Forall_app. split; [apply turn_samples_typed|].
    destruct (turn_order _ _ _ _) as [[[[th' effs] r'] []]| |]; [apply IH|constructor..].
Qed.

Lemma turn_counted every (Hevery : 0 < every) clk th o eng res :
  process_order (th_engine th) o = Ret (eng, res) ->
  counted FILLS_PER_SECOND (turn_samples every clk th o None) = Z.of_nat (length (answer_fills res)).
Proof.
  intros E. unfold turn_samples. rewrite E.
  assert (Hok : match res with Ok (Fills fills) => (send_fills fills None).2 | _ => true end = true)
    by (destruct res as [[]|]; rewrite ?send_fills_open; done).
  rewrite Hok. cbn [negb].
  destruct (snapshot_block_ok every Hevery eng (u64_add (th_processed th) 1) (u64_as_i64 (o_sequence o)))
    as (effs & -> & _).
  rewrite (app_comm_cons _ _ (mkSample _ _ _)), counted_app, (counted_observed _ (_ ++ _)).
  - destruct res as [[fs| |]|e]; cbn; lia.
  - intros s [->%list_elem_of_singleton|(e & Hs & _)%list_elem_of_bind]%elem_of_app; [done|].
    destruct e; try by apply elem_of_nil in Hs.
    by apply elem_of_cons in Hs as [->|Hs%list_elem_of_singleton]; [|subst].
Qed.

(** The counter [fills_total] of a run is the number of fills of the engine's answers,
    the number of fills the thread sent. *)
Lemma loop_counted every (Hevery : 0 < every) clk n th orders eng rs :
  engine_run (th_engine th) (Submit <$> orders) = Ret (eng, rs) ->
  counted FILLS_PER_SECOND (loop_samples every clk n th orders None) =
    Z.of_nat (length (rs ≫= answer_fills)).
Proof.
  revert n th rs. induction orders as [|o orders IH]; intros n th rs E; cbn in E; [by simplify_eq|].
  inv_bind E. destruct a as [eng1 r]. inv_bind E. destruct a as [eng2 rs']. simplify_eq.
  match goal with X : process_order _ _ = _ |- _ =>
    pose proof (turn_counted every Hevery (clk n) th o eng1 r X) as Hc;
    destruct (turn_open every Hevery th o eng1 r X) as (effs & Et & _) end.
  cbn [loop_samples]. rewrite Et, counted_app, Hc, (IH _ _ rs') by done.
  cbn. rewrite length_app. lia.
Qed.
End properties.
