(* ===== verification/Service.v ===== *)
(** * The HTTP service

    The services [main.rs] registers for a leader and for a follower, in order, each
    with the method and the path of its handler's attribute, behind the metrics
    middleware. The web framework is third-party: how it matches a path against a
    pattern, parses an id or a body, and answers when that fails, is an interface. *)

From S2P Require Import Prelude External Types OrderBook Matching Concrete Codec Text Leader Kafka Handlers Metrics.
From Stdlib Require Import Strings.Byte.

(** ** Routes *)

Inductive HttpMethod := GET | POST | DELETE | OtherMethod (name : string).

#[global] Instance HttpMethod_eq_dec : EqDecision HttpMethod.
Proof. solve_decision. Defined.

Definition method_name (m : HttpMethod) : string :=
  match m with GET => "GET" | POST => "POST" | DELETE => "DELETE" | OtherMethod s => s end.

(** The handlers. *)
Inductive endpoint :=
| Health | PlaceOrder | GetOrder | CancelOrder | GetBook | GetTrades | WsMarket | Healthz.

#[global] Instance endpoint_eq_dec : EqDecision endpoint.
Proof. solve_decision. Defined.

(** Their attributes. *)
Definition health_route : HttpMethod * string := (GET, "/health").
Definition healthz_route : HttpMethod * string := (GET, "/healthz").
Definition place_order_route : HttpMethod * string := (POST, "/orders").
Definition get_order_route : HttpMethod * string := (GET, "/orders/{id}").
Definition cancel_order_route : HttpMethod * string := (DELETE, "/orders/{id}").
Definition get_book_route : HttpMethod * string := (GET, "/markets/{id}/book").
Definition get_trades_route : HttpMethod * string := (GET, "/markets/{id}/trades").
Definition ws_market_route : HttpMethod * string := (GET, "/ws/markets/{id}").

Definition route (e : endpoint) : HttpMethod * string :=
  match e with
  | Health => health_route
  | PlaceOrder => place_order_route
  | GetOrder => get_order_route
  | CancelOrder => cancel_order_route
  | GetBook => get_book_route
  | GetTrades => get_trades_route
  | WsMarket => ws_market_route
  | Healthz => healthz_route
  end.

(** The services of [run_leader] and of [run_follower]. *)
Definition leader_services : list endpoint :=
  [Health; PlaceOrder; GetOrder; CancelOrder; GetBook; GetTrades; WsMarket; Healthz].

Definition follower_services : list endpoint := [Health; GetBook; GetTrades; Healthz].

(** ** The framework *)

Class WebApi (DA : DecimalApi) (UA : UuidApi) := {
  (** the pattern and a path: the segment in the place of [{id}] when they match *)
  path_param : string -> string -> option string;
  uuid_of_string : string -> option Uuid;
  json_request : list byte -> option PlaceOrderRequest;
  (** the answers when no service matches, and when a parameter or a body is malformed *)
  no_service : HttpResponse;
  malformed : HttpResponse;
  (** the upgrade of a WebSocket connection *)
  handshake : HttpResponse
}.

Section service.
Context {DA : DecimalApi} {UA : UuidApi} {PO : Postcard Order} {WA : WebApi DA UA}.

(** What the stores answer to the handlers. *)
Record backend := mkBackend {
  be_db_ok : bool;
  be_order : Uuid -> option order_row;
  be_trades : option (list trade_row);
  be_redis : option (string -> option (option string));
  be_health : HealthState;
  be_fresh : Uuid;
  be_acknowledged : bool
}.

(** The first service whose method and path match. *)
Fixpoint dispatch (services : list endpoint) (m : HttpMethod) (path : string) :
    option (endpoint * string) :=
  match services with
  | [] => None
  | e :: services =>
      let next := dispatch services m path in
      if decide ((route e).1 = m) then
        match path_param (route e).2 path with Some p => Some (e, p) | None => next end
      else next
  end.

(** A handler applied to what was extracted from the request. *)
Definition handle (e : endpoint) (param : string) (body : list byte) (b : backend) :
    option record * HttpResponse :=
  match e with
  | Health => (None, health (be_db_ok b))
  | PlaceOrder =>
      match json_request body with
      | Some rq => place_order (be_fresh b) (be_acknowledged b) rq
      | None => (None, malformed)
      end
  | GetOrder =>
      (None, match uuid_of_string param with
             | Some id => get_order_handler (be_order b id)
             | None => malformed
             end)
  | CancelOrder =>
      (None, match uuid_of_string param with
             | Some id => cancel_order_handler id
             | None => malformed
             end)
  | GetBook => (None, get_book (be_redis b) param)
  | GetTrades => (None, get_trades (be_trades b) param)
  | WsMarket => (None, handshake)
  | Healthz => (None, healthz (be_db_ok b) (be_health b))
  end.

Record request := mkHttp { rq_method : HttpMethod; rq_path : string; rq_body : list byte }.

(** The application: the record a request publishes, the response, and the sample of
    the middleware. *)
Definition app (services : list endpoint) (elapsed : Z) (rq : request) (b : backend) :
    option record * HttpResponse * list sample :=
  let '(sent, res) :=
    match dispatch services (rq_method rq) (rq_path rq) with
    | Some (e, param) => handle e param (rq_body rq) b
    | None => (None, no_service)
    end in
  (sent, res,
   (call_middleware (E := unit) elapsed (rq_path rq) (method_name (rq_method rq)) (Ok res)).1).

(** ** Facts *)

Lemma dispatch_route services m path e p :
  dispatch services m path = Some (e, p) ->
  e ∈ services /\ (route e).1 = m /\ path_param (route e).2 path = Some p.
Proof.
  induction services as [|e' services IH]; [done|]. cbn.
  destruct (decide ((route e').1 = m)) as [Hm|]; [destruct (path_param (route e').2 path) eqn:Ep|].
  1: intros H; simplify_eq; split_and!; [left|done|done].
  all: intros H; apply IH in H as (? & ? & ?); split_and!; [by right|done|done].
Qed.

(** What a service with fewer handlers answers. *)
Lemma dispatch_sublist services services' m path e p :
  services' `sublist_of` services -> dispatch services m path = Some (e, p) -> e ∈ services' ->
  NoDup services -> dispatch services' m path = Some (e, p).
Proof.
  intros Hsub. induction Hsub as [|x l1 l2 Hsub IH|x l1 l2 Hsub IH]; [done| |]; cbn; intros H He Hnd.
  - apply NoDup_cons in Hnd as [Hx Hnd].
    destruct (decide ((route x).1 = m)); [destruct (path_param (route x).2 path); [done|]|].
    all: apply IH; [done| |done]; apply elem_of_cons in He as [->|?]; [|done].
    all: by apply dispatch_route in H as [? _].
  - apply NoDup_cons in Hnd as [Hx Hnd].
    destruct (decide ((route x).1 = m)); [destruct (path_param (route x).2 path)|]; try by apply IH.
    simplify_eq. destruct Hx. by eapply elem_of_sublist.
Qed.

(** C18. A follower serves reads and nothing else. It publishes no order, whatever the
    request; a request the leader would hand to one of the follower's handlers is
    answered like the leader would; and a request that is not a [GET] finds no
    service. Only [POST] requests make the leader publish. *)
Theorem follower_serves_reads (elapsed : Z) (rq : request) (b : backend) :
  (app follower_services elapsed rq b).1.1 = None /\
  (forall e p, dispatch leader_services (rq_method rq) (rq_path rq) = Some (e, p) ->
     e ∈ follower_services -> app follower_services elapsed rq b = app leader_services elapsed rq b) /\
  (rq_method rq <> GET -> (app follower_services elapsed rq b).1 = (None, no_service)) /\
  (is_Some (app leader_services elapsed rq b).1.1 -> rq_method rq = POST).
Proof.
  assert (Hfol : forall e p, dispatch follower_services (rq_method rq) (rq_path rq) = Some (e, p) ->
    rq_method rq = GET /\ (handle e p (rq_body rq) b).1 = None).
  { intros e p (He & Hm & _)%dispatch_route. unfold follower_services in He. rewrite <-Hm.
    repeat (apply elem_of_cons in He as [->|He]; [done|]). by apply elem_of_nil in He. }
  split_and!.
  - unfold app. destruct (dispatch follower_services _ _) as [[e p]|]; [|done].
    destruct (Hfol e p eq_refl) as [_ Hn]. by destruct (handle e p _ b).
  - intros e p Hd He. unfold app. rewrite Hd.
    rewrite (dispatch_sublist leader_services follower_services _ _ e p); try done.
    + apply sublist_skip, sublist_cons, sublist_cons, sublist_cons, sublist_skip, sublist_skip.
      apply sublist_cons, sublist_skip. constructor.
    + apply (bool_decide_unpack _). vm_compute. exact I.
  - intros Hm. unfold app. destruct (dispatch follower_services _ _) as [[e p]|]; [|done].
    by destruct (Hfol e p eq_refl).
  - unfold app. destruct (dispatch leader_services _ _) as [[e p]|] eqn:Ed; [|by intros []].
    apply dispatch_route in Ed as (_ & <- & _). destruct e; try by intros [].
Qed.
End service.

(** ** A concrete framework *)

Definition slash : Ascii.ascii := Ascii.ascii_of_nat 47.

(** The segments of a path, and matching with at most one [{id}] segment. *)
Fixpoint segments (s : string) : list string :=
  match s with
  | EmptyString => [EmptyString]
  | String c s =>
      match segments s with
      | x :: l => if Ascii.eqb c slash then EmptyString :: x :: l else String c x :: l
      | [] => []
      end
  end.

Fixpoint match_segments (pattern path : list string) : option string :=
  match pattern, path with
  | [], [] => Some EmptyString
  | p :: pattern, x :: path =>
      if String.eqb p "{id}" then
        if String.eqb x EmptyString then None
        else match match_segments pattern path with Some _ => Some x | None => None end
      else if String.eqb p x then match_segments pattern path else None
  | _, _ => None
  end.

#[export] Instance PlaceOrderRequest_eq_dec : EqDecision (PlaceOrderRequest (DA := dec_api)).
Proof. solve_decision. Defined.

#[export] Instance PlaceOrderRequest_countable : Countable (PlaceOrderRequest (DA := dec_api)).
Proof.
  refine (inj_countable'
    (fun r => (rq_market_id r, rq_side r, rq_order_type r, rq_price r, rq_quantity r))
    (fun '(m, sd, ty, p, q) => mkRequest m sd ty p q) _).
  by intros [].
Defined.

#[export] Instance web_api : WebApi dec_api uuid_api := {|
  path_param := fun pattern path => match_segments (segments pattern) (segments path);
  uuid_of_string := fun s => match parse_unsigned u64_max s with Some n => Some (Z.to_N n) | None => None end;
  json_request := from_bytes;
  no_service := NotFoundResponse JNull;
  malformed := BadRequest JNull;
  handshake := mkResponse 101 JNull
|}.

Definition sample_backend : backend (DA := dec_api) (UA := uuid_api) :=
  mkBackend true (fun _ => None) (Some []) (Some (fun _ => Some (Some "101"))) HealthState_new 7%N true.

Definition order_body : list byte :=
  default [] (to_allocvec (mkRequest "SOL-USDC" "BUY" "Limit" (Some (dec_new 1000 2)) (dec_new 400 2))).

(** The routes are told apart, and an order goes through. *)
Example sample_dispatches :
  ((fun x => dispatch leader_services x.1 x.2) <$>
    [(GET, "/health"); (POST, "/orders"); (GET, "/orders/12"); (DELETE, "/orders/12"); (GET, "/orders");
     (GET, "/markets/SOL/book"); (GET, "/markets/SOL/trades"); (GET, "/ws/markets/SOL"); (GET, "/healthz")]) =
  [Some (Health, ""); Some (PlaceOrder, ""); Some (GetOrder, "12"); Some (CancelOrder, "12"); None;
   Some (GetBook, "SOL"); Some (GetTrades, "SOL"); Some (WsMarket, "SOL"); Some (Healthz, "")].
Proof. vm_compute. reflexivity. Qed.

Lemma follower_serves_reads_witness :
  let rq := mkHttp GET "/markets/SOL/book" [] in
  let post := mkHttp POST "/orders" order_body in
  status (app leader_services 5 rq sample_backend).1.2 = 200 /\
  app follower_services 5 rq sample_backend = app leader_services 5 rq sample_backend /\
  (app follower_services 5 post sample_backend).1 = (None, no_service) /\
  rq_method post = POST.
Proof.
  split; [vm_compute; reflexivity|]. split; [|split].
  - apply (follower_serves_reads 5 (mkHttp GET "/markets/SOL/book" []) sample_backend) with GetBook "SOL".
    + vm_compute. reflexivity.
    + right. left.
  - apply (follower_serves_reads 5 (mkHttp POST "/orders" order_body) sample_backend). discriminate.
  - apply (follower_serves_reads 5 (mkHttp POST "/orders" order_body) sample_backend).
    apply (is_Some_alt _). vm_compute. exact I.
Defined.
