(* ===== verification/Pipeline.v ===== *)
(** * The service, end to end

    The stages composed: HTTP requests and stream updates become records of the
    topic, the consumer turns messages into orders, the engine thread answers them
    with fills, the fill task hands these to the database writer and to the
    broadcast. Whatever the interleaving, the rows of the database are the fills of the price-time
    specification for the orders in the order the consumer received them. *)

From S2P Require Import Prelude External BTreeMap Types OrderBook Levels PriceTime BookFacts BookOps Matching Concrete MatchingRefine EngineFacts Runs Samples EngineProps Snapshot Codec Text Mock Processor ProcessorProps Kafka Persistence Leader Handlers Streams Metrics Service.
From Stdlib Require Import Strings.Byte.

Section pipeline.
Context {DA : DecimalApi} {DL : DecimalLaws DA} {NC : NumericColumn DA} {UA : UuidApi}
  {SA : SlabApi} {SL : SlabLaws SA} {PC : Postcard BookSnapshot} {PF : Postcard Fill}
  {PO : Postcard Order} {PL : PostcardLaws _ PO} {WA : WebApi DA UA}.
Context (lot : Z) (Hlot : 0 <= lot <= 28).

(** ** What the producers send *)

(** The records of a sequence of HTTP requests, each with what the stores answer. *)
Definition http_records (requests : list (request * backend)) : list record :=
  omap (fun x => (app leader_services 0 x.1 x.2).1.1) requests.

(** A record carries an order the engine accepts, named by a fresh id. *)
Definition carries (id : Uuid) (r : record) : Prop :=
  exists o, from_bytes (r_payload r) = Some o /\ o_id o = id /\
    forall n, command_ok lot (Submit (set_sequence n o)).

Lemma record_carries o r :
  order_record o = Some r -> amount lot (o_quantity o) -> o_filled o = dec_ZERO -> o_status o = Open ->
  carries (o_id o) r.
Proof.
  unfold order_record. destruct (to_allocvec o) as [b|] eqn:E; [|done]. intros [= <-] Hq Hf Hs.
  exists o. split; [by apply postcard_roundtrip|]. split; [done|]. intros n.
  assert (Hz : amount lot dec_ZERO) by auto with clob.
  split; [|by left]. split_and!; cbn; rewrite ?Hf; try done. unfold lots. by rewrite dec_units_ZERO.
Qed.

Lemma http_carries (requests : list (request * backend)) :
  (forall rq b r, (rq, b) ∈ requests -> json_request (rq_body rq) = Some r -> amount lot (rq_quantity r)) ->
  exists ids, ids `sublist_of` ((fun x => be_fresh x.2) <$> requests) /\
    Forall2 carries ids (http_records requests).
Proof.
  induction requests as [|[rq b] requests IH]; intros H; [by exists []|].
  destruct IH as (ids & Hsub & Hall); [intros; eapply H; [by right|done]|].
  unfold http_records. csimpl. destruct (app leader_services 0 rq b).1.1 as [r|] eqn:E.
  2: { exists ids. split; [by apply sublist_cons|done]. }
  exists (be_fresh b :: ids). split; [by apply sublist_skip|]. constructor; [|done].
  unfold app in E. destruct (dispatch leader_services _ _) as [[e p]|]; [|done].
  destruct e; try done. cbn in E. destruct (json_request (rq_body rq)) as [q|] eqn:Eq; [|done].
  destruct (place_order (be_fresh b) (be_acknowledged b) q) as [sent resp] eqn:Ep. cbn in E. subst sent.
  apply place_order_sent in Ep as (o & Ho & <- & Hq & Hf & Hs).
  apply (record_carries o r); try done. rewrite Hq. eapply H; [by left|done].
Qed.

Lemma unit_amount : amount lot (dec_new 1 0).
Proof.
  destruct (dec_new_repr 1 0) as [Hm Hs]; [lia|lia|]. unfold amount, on_grid, dec_units. rewrite Hm, Hs.
  split; [lia|]. rewrite Z.sub_0_r, Z.mul_1_l, Z.abs_eq by (apply Z.pow_nonneg; lia).
  apply Z.le_lt_trans with (10 ^ 28); [apply Z.pow_le_mono_r; lia|by vm_compute].
Qed.

Lemma ingest_carries fresh acks n counter updates :
  exists ids, ids `sublist_of` (fresh <$> seq n (length updates)) /\
    Forall2 carries ids (ingest_updates fresh acks n counter updates).
Proof.
  revert n counter. induction updates as [|[u|] updates IH]; intros n counter; [by exists []| |].
  2: { exists []. split; [apply sublist_nil_l|constructor]. }
  cbn [ingest_updates length seq]. destruct (map_update_to_order counter (fresh n) u) as [c o] eqn:Eo.
  destruct (IH (S n) c) as (ids & Hsub & Hall). unfold send_order.
  destruct (order_record o) as [r|] eqn:Er.
  2: { exists ids. split; [by apply sublist_cons|done]. }
  exists (fresh n :: ids). split; [by apply sublist_skip|]. constructor; [|done].
  unfold map_update_to_order in Eo. destruct (if Z.rem counter 2 =? 0 then _ else _) as [sd pr].
  injection Eo as _ <-. eapply (record_carries _ r Er); try done. apply unit_amount.
Qed.

(** ** What the engine receives *)

Definition payload_of_item (i : stream_item) : option (list byte) :=
  match i with Received m => m_payload m | ReceiveError => None end.

Definition id_of_payload (b : list byte) : option Uuid :=
  o ← from_bytes b; Some (o_id o).

Lemma carried_ids (items : list stream_item) :
  o_id <$> omap carried (omap message_of items) = omap id_of_payload (omap payload_of_item items).
Proof.
  induction items as [|[|m] items IH]; [done|done|]. csimpl.
  rewrite (carried_eq m). destruct (m_payload m) as [b|]; csimpl; [|done].
  replace (id_of_payload b) with (o ← from_bytes b; Some (o_id o)) by done.
  destruct (from_bytes b) as [o|]; csimpl; [by rewrite IH|done].
Qed.

Lemma carries_ids ids rs :
  Forall2 carries ids rs -> omap id_of_payload (r_payload <$> rs) = ids.
Proof.
  induction 1 as [|id r ids rs (o & Ho & Hid & _) _ IH]; [done|]. csimpl.
  replace (id_of_payload (r_payload r)) with (Some id); [by rewrite IH|].
  unfold id_of_payload. rewrite Ho. cbn. by rewrite Hid.
Qed.

(** The orders the engine receives when what is consumed was produced. *)
Lemma consumed_ok ids rs (items : list stream_item) :
  Forall2 carries ids rs -> NoDup ids -> omap payload_of_item items ⊆+ r_payload <$> rs ->
  let orders := omap carried (omap message_of items) in
  Forall (command_ok lot) (Submit <$> orders) /\ NoDup (o_id <$> orders).
Proof.
  intros Hall Hnd Hsub. split.
  - apply Forall_fmap, Forall_forall. intros o (m & Hm & Hc)%list_elem_of_omap. cbn.
    rewrite carried_eq in Hc. destruct (m_payload m) as [b|] eqn:Eb; [|done]. cbn in Hc.
    assert (Hin : b ∈ r_payload <$> rs).
    { eapply elem_of_submseteq; [|exact Hsub]. apply list_elem_of_omap in Hm as (i & Hi & Hmi).
      apply list_elem_of_omap. exists i. split; [done|]. destruct i as [|m0]; [done|]. by injection Hmi as ->. }
    apply list_elem_of_fmap in Hin as (r & -> & Hr).
    apply list_elem_of_lookup in Hr as [k Hk].
    destruct (Forall2_lookup_r _ _ _ _ _ Hall Hk) as (id & _ & o' & Ho' & _ & Hok).
    rewrite Ho' in Hc. cbn in Hc. simplify_eq. apply Hok.
  - rewrite carried_ids. apply submseteq_Permutation in Hsub as [k Hk].
    apply (omap_Permutation id_of_payload) in Hk. rewrite (carries_ids ids rs Hall), omap_app in Hk.
    rewrite Hk in Hnd. by apply NoDup_app in Hnd as [? _].
Qed.

(** The fills of an answer of the specification. *)
Definition spec_fills (r : result aresult aerror) : list afill :=
  match r with Ok (AFills fs) => fs | _ => [] end.

Lemma abs_answer_fills (rs : list (result ProcessResult EngineError)) :
  (abs_result lot <$> rs) ≫= spec_fills = abs_fill lot <$> (rs ≫= answer_fills).
Proof.
  induction rs as [|r rs IH]; [done|]. csimpl. rewrite fmap_app, IH. f_equal.
  by destruct r as [[]|[]].
Qed.

(** The engine thread of a process that found no snapshot, against the specification. *)
Lemma engine_thread_fresh env orders :
  0 < env_unsigned u64_max env "SNAPSHOT_EVERY" 10000 ->
  Forall (command_ok lot) (Submit <$> orders) -> NoDup (o_id <$> orders) ->
  exists th effs answers, engine_thread env None orders None = Ret (th, effs) /\
    spec_run lot (Submit <$> orders) (mkState [] [] 0) = (abs_engine lot (th_engine th), answers) /\
    abs_fill lot <$> omap fill_of effs = answers ≫= spec_fills.
Proof.
  intros Hevery Hcs Hnd. destruct (engine_new_spec lot Hlot MARKET_ID) as [E Hs].
  destruct (engine_run_refines lot Hlot _ (Submit <$> orders) (engine_new_inv lot MARKET_ID) Hs
    book_new_indexed Hcs) as (eng & rs & Hr & Hsp).
  - replace (omap submitted (Submit <$> orders)) with (o_id <$> orders); [done|].
    clear. by induction orders as [|o orders IH]; [|csimpl; rewrite IH].
  - intros id _. rewrite E. unfold named. rewrite bool_decide_eq_true. apply not_elem_of_nil.
  - set (th0 := mkThread (MatchingEngine_new MARKET_ID) 0 0 true).
    destruct (thread_loop_run _ Hevery th0 orders eng rs Hr) as (th & effs & El & Heng & _ & _ & Hf).
    exists th, effs, (abs_result lot <$> rs). split; [exact El|]. split; [by rewrite Heng, <-E|].
    by rewrite Hf, abs_answer_fills.
Qed.

Context (fresh_row : nat -> Uuid) (fresh_row_inj : forall i j, fresh_row i = fresh_row j -> i = j).

(** C2. The service refines the price-time specification, end to end. Let the messages
    consumed carry, each at most once and in any order, records that HTTP requests and
    stream updates published, with distinct ids and amounts on the grid. Then the
    consumer hands an order to the engine for each of them; the thread, started
    without a snapshot, answers all of them without panic or divergence, and its book
    and its fills are those of the price-time specification run on these orders from
    the empty book; and when no channel closes early, whatever the interleaving of the
    fill task's polls and the writer's ticks, the database gains exactly the rows of
    these fills, in order and once each, and the same fills are broadcast. *)
Theorem service_refines_price_time (env : string -> option string)
    (requests : list (request * backend)) (updates : list (option SubscribeUpdate))
    (fresh : nat -> Uuid) (acks : nat -> bool) (counter : Z)
    (high : message -> option Z) (items : list stream_item)
    (batch_size : nat) (w : FillWriter) (polls : list fill_poll) (es : list writer_event) :
  0 < env_unsigned u64_max env "SNAPSHOT_EVERY" 10000 ->
  (forall rq b r, (rq, b) ∈ requests -> json_request (rq_body rq) = Some r -> amount lot (rq_quantity r)) ->
  NoDup (((fun x => be_fresh x.2) <$> requests) ++ (fresh <$> seq 0 (length updates))) ->
  omap payload_of_item items ⊆+
    r_payload <$> (http_records requests ++ (run_ingestor fresh acks counter (Subscribed updates)).1) ->
  ids_drawn fresh_row w -> w_buf w = [] ->
  Forall (fun p => p <> PollDisconnected /\ forall f, p <> PolledFill f false) polls ->
  Forall (fun e => exists f, e = GotFill f true \/ e = TimerTick true) es ->
  exists st sends orders th effs answers,
    consumer_run high (mkConsumer 0 false) items None = (st, sends, StreamEnded) /\
    orders = omap order_of sends /\ orders = omap carried (omap message_of items) /\
    engine_thread env None orders None = Ret (th, effs) /\
    spec_run lot (Submit <$> orders) (mkState [] [] 0) = (abs_engine lot (th_engine th), answers) /\
    abs_fill lot <$> omap fill_of effs = answers ≫= spec_fills /\
    (omap polled polls = omap fill_of effs ->
     Persistence.received es = omap db_of (fill_task polls) ->
     let w' := writer_run fresh_row batch_size w (es ++ [ChannelEnd true]) in
     stored <$> w_table w' = (stored <$> w_table w) ++ (fields <$> omap fill_of effs) /\
     w_buf w' = [] /\ omap broadcast_of (fill_task polls) = fill_message <$> omap fill_of effs).
Proof.
  intros Hevery Hamount Hnd Hsub Hd Hb Hp He.
  destruct (http_carries requests Hamount) as (ids1 & Hs1 & Hc1).
  destruct (ingest_carries fresh acks 0 counter updates) as (ids2 & Hs2 & Hc2).
  destruct (consumed_ok (ids1 ++ ids2) _ items (Forall2_app Hc1 Hc2)) as [Hcs Hndo];
    [|exact Hsub|].
  { eapply sublist_NoDup; [exact Hnd|]. by apply sublist_app. }
  destruct (consumer_open high items (mkConsumer 0 false)) as (st & sends & Hr & Ho & _);
    [by vm_compute|].
  destruct (engine_thread_fresh env _ Hevery Hcs Hndo) as (th & effs & answers & Ht & Hsp & Hf).
  exists st, sends, (omap order_of sends), th, effs, answers. rewrite Ho.
  split_and!; try done. intros Hpoll Hrec.
  destruct (fill_task_open polls Hp) as (H1 & H2 & _).
  destruct (all_stored fresh_row fresh_row_inj batch_size w es (ChannelEnd true) Hd He)
    as (Htab & Hbuf & _); [by left|].
  rewrite Hb in Htab. cbn [app] in Htab. rewrite Hrec, H1, Hpoll in Htab.
  split; [exact Htab|]. split; [exact Hbuf|]. by rewrite H2, Hpoll.
Qed.
End pipeline.

(** ** A concrete run: a bid and an ask over HTTP, an update of the stream *)

Definition order_request (side : string) (price quantity : Z) : request :=
  mkHttp POST "/orders"
    (default [] (to_allocvec (mkRequest "SOL/USDC" side "limit" (Some (dec_new price 2)) (dec_new quantity 2)))).

Definition backend_of (id : N) : backend (DA := dec_api) (UA := uuid_api) :=
  mkBackend true (fun _ => None) None None HealthState_new id true.

Definition sample_requests : list (request * backend (DA := dec_api) (UA := uuid_api)) :=
  [(order_request "bid" 10000 400, backend_of 11); (order_request "sell" 9900 150, backend_of 12);
   (mkHttp GET "/health" [], backend_of 13)].

Definition sample_updates : list (option SubscribeUpdate) := [Some (mkSubscribeUpdate [] None None)].

Definition stream_ids (n : nat) : N := (100 + N.of_nat n)%N.

Definition sample_records : list record :=
  http_records sample_requests ++ (run_ingestor (UA := uuid_api) stream_ids (fun _ => true) 1 (Subscribed sample_updates)).1.

(** The topic delivers the second record first, from another partition. *)
Definition sample_topic : list stream_item :=
  match sample_records with
  | [r1; r2; r3] =>
      [Received (mkMessage 1 0 (Some (r_payload r2))); ReceiveError;
       Received (mkMessage 0 0 (Some (r_payload r1))); Received (mkMessage 0 1 None);
       Received (mkMessage 0 2 (Some (r_payload r3)))]
  | _ => []
  end.

Definition no_env (_ : string) : option string := None.

Definition sample_received : list Order := omap carried (omap message_of sample_topic).

Definition sample_fills : list Fill :=
  match engine_thread no_env None sample_received None with
  | Ret (_, effs) => omap fill_of effs
  | _ => []
  end.

(** The bid is filled by the ask that was delivered first, then by the update. *)
Example sample_pipeline :
  length sample_received = 3%nat /\ length sample_fills = 2%nat.
Proof. vm_compute. by split. Qed.

Definition pipeline_polls : list fill_poll := PollEmpty :: ((fun f => PolledFill f true) <$> sample_fills).

Definition pipeline_writes : list writer_event :=
  TimerTick true :: ((fun f => GotFill f true) <$> sample_fills).

Definition amounts_okb (lot : Z) (requests : list (request * backend)) : bool :=
  forallb (fun x => match json_request (rq_body x.1) with
                    | Some r => (dec_scale (rq_quantity r) <=? lot) &&
                                (Z.abs (dec_units lot (rq_quantity r)) <? 2 ^ 96)
                    | None => true
                    end) requests.

Lemma amounts_okb_sound lot (requests : list (request * backend)) :
  amounts_okb lot requests = true ->
  forall rq b r, (rq, b) ∈ requests -> json_request (rq_body rq) = Some r -> amount lot (rq_quantity r).
Proof.
  unfold amounts_okb. rewrite forallb_forall. intros H rq b r Hin%list_elem_of_In Hr.
  specialize (H _ Hin). cbn [fst] in H. rewrite Hr in H.
  apply andb_prop in H as [?%Z.leb_le ?%Z.ltb_lt]. by split.
Qed.

#[local] Instance byte_eq_dec : EqDecision byte := Byte.byte_eq_dec.

Lemma service_refines_price_time_witness :
  exists st sends orders th effs answers,
    consumer_run (fun _ => None) (mkConsumer 0 false) sample_topic None = (st, sends, StreamEnded) /\
    orders = omap order_of sends /\ orders = sample_received /\
    engine_thread no_env None orders None = Ret (th, effs) /\
    spec_run 2 (Submit <$> orders) (mkState [] [] 0) = (abs_engine 2 (th_engine th), answers) /\
    abs_fill 2 <$> omap fill_of effs = answers ≫= spec_fills /\
    (omap polled pipeline_polls = omap fill_of effs ->
     Persistence.received pipeline_writes = omap db_of (fill_task pipeline_polls) ->
     let w' := writer_run number_ids 3 (mkWriter [] 0 []) (pipeline_writes ++ [ChannelEnd true]) in
     stored <$> w_table w' = (stored <$> []) ++ (fields <$> omap fill_of effs) /\
     w_buf w' = [] /\
     omap broadcast_of (fill_task pipeline_polls) = fill_message <$> omap fill_of effs).
Proof.
  apply (service_refines_price_time 2 ltac:(lia) number_ids ltac:(intros i j; apply Nat2N.inj) no_env
    sample_requests sample_updates stream_ids (fun _ => true) 1 (fun _ => None) sample_topic 3
    (mkWriter [] 0 []) pipeline_polls pipeline_writes).
  - vm_compute. reflexivity.
  - apply amounts_okb_sound. vm_compute. reflexivity.
  - apply (bool_decide_unpack _). vm_compute. exact I.
  - apply (bool_decide_unpack _). vm_compute. exact I.
  - split; [constructor|]. intros r Hr. set_solver.
  - reflexivity.
  - constructor; [done|]. apply Forall_fmap, Forall_true. done.
  - constructor; [eexists (default _ (head sample_fills)); by right|]. apply Forall_fmap, Forall_true.
    intros f. exists f. by left.
Unshelve.
  exact (sample_fill 1 1 1 1).
Defined.
