(* ===== verification/VecBook.v ===== *)
(** * The vector book of the benchmarks

    [benches/btreemap_vs_vec.rs] compares the order book with one whose levels
    are sorted vectors searched by bisection. The two are proved to be in lockstep:
    bisection finds what the map finds, so every insertion and cancellation
    leaves the same levels, index and slab. *)

From S2P Require Import Prelude External BTreeMap Types OrderBook Levels PriceTime BookFacts BookOps Concrete Matching MatchingRefine EngineFacts Runs Samples.

(** ** The standard library's [binary_search_by] *)

(** The loop that halves the range [base, base + size); [g i] compares the element at
    [i] with the target. *)
Fixpoint bisect (fuel : nat) (g : nat -> comparison) (base size : nat) : nat :=
  match fuel with
  | O => base
  | S fuel =>
      if Nat.leb size 1 then base
      else
        let half := Nat.div size 2 in
        let mid := (base + half)%nat in
        let base := match g mid with Gt => base | _ => mid end in
        bisect fuel g base (size - half)
  end.

(** [Ok] of the index found, [Err] of the index where the target belongs. The length
    is enough fuel: a range of more than one element shrinks. *)
Definition binary_search_by {A : Type} (f : A -> comparison) (l : list A) : result nat nat :=
  match l with
  | [] => Err 0%nat
  | _ =>
      let g i := match l !! i with Some a => f a | None => Gt end in
      let base := bisect (length l) g 0 (length l) in
      match g base with
      | Eq => Ok base
      | Lt => Err (S base)
      | Gt => Err base
      end
  end.

(** Bisection ends at the last element that is not greater than the target. *)
Lemma bisect_spec (g : nat -> comparison) (fuel base size : nat) :
  (size <= fuel)%nat -> (0 < size)%nat -> (base = 0%nat \/ g base <> Gt) ->
  (forall i, (base + size <= i)%nat -> g i = Gt) ->
  (forall i j, (i <= j)%nat -> g i = Gt -> g j = Gt) ->
  let b := bisect fuel g base size in
  (b = 0%nat \/ g b <> Gt) /\ (forall i, (b < i)%nat -> g i = Gt).
Proof.
  revert base size. induction fuel as [|fuel IH]; intros base size Hf Hs Hb Hgt Hmono; [lia|].
  cbn [bisect]. destruct (Nat.leb_spec size 1) as [H1|H1].
  - split; [done|]. intros i Hi. apply Hgt. lia.
  - assert (Hh : (0 < size / 2 < size)%nat) by (split; [apply Nat.div_str_pos|apply Nat.div_lt]; lia).
    pose proof (Nat.Div0.mul_div_le size 2) as Hd.
    destruct (g (base + size / 2)%nat) eqn:E; apply IH; try lia; try done.
    + right. by rewrite E.
    + intros i Hi. apply Hgt. lia.
    + right. by rewrite E.
    + intros i Hi. apply Hgt. lia.
    + intros i Hi. eapply Hmono; [|exact E]. lia.
Qed.

(** On a vector that is sorted around the target the search finds its place. *)
Section search.
Context {A : Type} (f : A -> comparison) (l1 mid l2 : list A).
Context (H1 : Forall (fun x => f x = Lt) l1) (H2 : Forall (fun x => f x = Gt) l2)
  (Hm : Forall (fun x => f x = Eq) mid) (Hlen : (length mid <= 1)%nat).

Definition compare_at (l : list A) (i : nat) : comparison :=
  match l !! i with Some a => f a | None => Gt end.

#[local] Abbreviation g := (compare_at (l1 ++ mid ++ l2)).

Lemma binary_search_unfold (l : list A) :
  (0 < length l)%nat ->
  binary_search_by f l =
    let base := bisect (length l) (compare_at l) 0 (length l) in
    match compare_at l base with Eq => Ok base | Lt => Err (S base) | Gt => Err base end.
Proof. by destruct l; [cbn; lia|]. Qed.

Lemma search_place (i : nat) :
  g i = if decide (i < length l1)%nat then Lt
        else if decide (i < length l1 + length mid)%nat then Eq else Gt.
Proof.
  unfold compare_at. rewrite Forall_forall in H1, H2, Hm.
  destruct (decide (i < length l1)%nat) as [Hi|Hi].
  - rewrite lookup_app_l by done. destruct (lookup_lt_is_Some_2 l1 i Hi) as [a Ha].
    rewrite Ha. apply H1. by eapply list_elem_of_lookup_2.
  - rewrite lookup_app_r by lia. case_decide as Hi2.
    + rewrite lookup_app_l by lia. destruct (lookup_lt_is_Some_2 mid (i - length l1)) as [a Ha]; [lia|].
      rewrite Ha. apply Hm. by eapply list_elem_of_lookup_2.
    + rewrite lookup_app_r by lia. destruct (l2 !! _) as [a|] eqn:Ha; [|done].
      apply H2. by eapply list_elem_of_lookup_2.
Qed.

(** On a vector sorted around the target the search finds its place. *)
Lemma binary_search_place :
  binary_search_by f (l1 ++ mid ++ l2) =
    match mid with [] => Err (length l1) | _ :: _ => Ok (length l1) end.
Proof.
  destruct (Nat.eq_dec (length (l1 ++ mid ++ l2)) 0) as [E|E].
  { apply length_zero_iff_nil, app_eq_nil in E as [-> E]. apply app_eq_nil in E as [-> ->]. done. }
  rewrite binary_search_unfold by lia. cbv zeta. set (n := length (l1 ++ mid ++ l2)) in *.
  assert (Hn : (0 < n)%nat) by lia.
  destruct (bisect_spec g n 0 n) as [Hb Hgt]; [done|done|by left| | |].
  - intros i Hi. rewrite search_place. unfold n in Hi. rewrite !length_app in Hi.
    rewrite !decide_False by lia. done.
  - intros i j Hij. rewrite !search_place. repeat case_decide; done || lia.
  - set (b := bisect n g 0 n) in *. pose proof (Hgt (S b) ltac:(lia)) as Hs.
    rewrite search_place in Hs, Hb |- *. destruct mid as [|y [|z m]]; cbn [length] in *; [| |lia];
      repeat case_decide; try done; try (f_equal; lia); destruct Hb as [Hb|Hb]; try done; f_equal; lia.
Qed.
End search.

(** ** The book *)

Section vecbook.
Context {DA : DecimalApi} {UA : UuidApi} {SA : SlabApi}.

Abbreviation LevelVec := (list (Price * Level)).

Record VecBook := mkVecBook {
  vb_orders : Slab Order;
  vb_index : gmap Uuid SlabKey;
  vb_bids : LevelVec;
  vb_asks : LevelVec
}.

Definition VecBook_new : VecBook := mkVecBook slab_new ∅ [] [].

Definition search (price : Price) (levels : LevelVec) : result nat nat :=
  binary_search_by (fun pl => dec_cmp pl.1 price) levels.

Definition vb_levels (sd : Side) (b : VecBook) : LevelVec :=
  match sd with Bid => vb_bids b | Ask => vb_asks b end.

Definition set_vb_levels (sd : Side) (l : LevelVec) (b : VecBook) : VecBook :=
  match sd with
  | Bid => mkVecBook (vb_orders b) (vb_index b) l (vb_asks b)
  | Ask => mkVecBook (vb_orders b) (vb_index b) (vb_bids b) l
  end.

(** [levels[i].1.push_back(key)], or a new level at [i]. *)
Definition vec_push (price : Price) (key : SlabKey) (levels : LevelVec) : LevelVec :=
  match search price levels with
  | Ok i => alter (fun pl => (pl.1, pl.2 ++ [key])) i levels
  | Err i => take i levels ++ (price, [key]) :: drop i levels
  end.

(** [VecBook::insert] *)
Definition vec_insert (b : VecBook) (order : Order) : outcome VecBook :=
  match o_price order with
  | None => Ret b
  | Some price =>
      let id := o_id order in
      let '(key, s) := slab_insert (vb_orders b) order in
      let b := mkVecBook s (<[id := key]> (vb_index b)) (vb_bids b) (vb_asks b) in
      let! o := or_panic (slab_get (vb_orders b) key) in
      Ret (set_vb_levels (o_side o) (vec_push price key (vb_levels (o_side o) b)) b)
  end.

(** The last part of [VecBook::cancel]: the key leaves its level, and an empty
    level leaves the vector. *)
Definition vec_drop (price : Price) (key : SlabKey) (levels : LevelVec) : LevelVec :=
  match search price levels with
  | Ok i =>
      match levels !! i with
      | Some (p, level) =>
          match filter (fun k => k <> key) level with
          | [] => delete i levels
          | level' => <[i := (p, level')]> levels
          end
      | None => levels
      end
  | Err _ => levels
  end.

(** [VecBook::cancel] *)
Definition vec_cancel (b : VecBook) (id : OrderId) : VecBook :=
  match vb_index b !! id with
  | None => b
  | Some key =>
      let b := mkVecBook (vb_orders b) (delete id (vb_index b)) (vb_bids b) (vb_asks b) in
      match slab_try_remove (vb_orders b) key with
      | None => b
      | Some (order, s) =>
          let b := mkVecBook s (vb_index b) (vb_bids b) (vb_asks b) in
          match o_price order with
          | None => b
          | Some price =>
              set_vb_levels (o_side order) (vec_drop price key (vb_levels (o_side order) b)) b
          end
      end
  end.

Definition vec_best_bid (b : VecBook) : option Price := fst <$> last (vb_bids b).
Definition vec_best_ask (b : VecBook) : option Price := fst <$> head (vb_asks b).

(** The vector book that holds what a book holds. *)
Definition to_vec (b : OrderBook) : VecBook :=
  mkVecBook (ob_orders b) (ob_index b) (ob_bids b) (ob_asks b).
End vecbook.

(** ** Lockstep *)

Section lockstep.
Context {DA : DecimalApi} {DL : DecimalLaws DA} {UA : UuidApi}
  {SA : SlabApi} {SL : SlabLaws SA}.

Implicit Types (m : list (Price * Level)) (b : OrderBook).

(** Bisection on the vector and look-up in the map agree on where a price is. *)
Lemma search_split (p : Price) m1 mid m2 :
  below dec_val p m1 -> above dec_val p m2 ->
  (mid = [] \/ exists p' l, mid = [(p', l)] /\ dec_val p' = dec_val p) ->
  search p (m1 ++ mid ++ m2) =
    match mid with [] => Err (length m1) | _ :: _ => Ok (length m1) end.
Proof.
  intros Hb Ha Hm. apply binary_search_place.
  - eapply Forall_impl; [exact Hb|]. intros pl H. cbn. rewrite dec_cmp_val. by apply Z.compare_lt_iff.
  - eapply Forall_impl; [exact Ha|]. intros pl H. cbn. rewrite dec_cmp_val. by apply Z.compare_gt_iff.
  - destruct Hm as [->|(p' & l & -> & E)]; repeat constructor. cbn. rewrite dec_cmp_val, E.
    apply Z.compare_refl.
  - destruct Hm as [->|(p' & l & -> & E)]; cbn; lia.
Qed.

Lemma vec_push_level p k m : levels_ok m -> vec_push p k m = push_level p k m.
Proof.
  intros Hok. destruct (bt_split dec_val p m (proj1 Hok)) as (m1 & mid & m2 & -> & Hb & Ha & Hm).
  unfold vec_push, push_level. rewrite (search_split p m1 mid m2 Hb Ha Hm).
  destruct Hm as [->|(p' & l & -> & E)]; cbn [app].
  - rewrite (bt_entry_or_absent _ _ dec_cmp_val), (bt_modify_present _ _ dec_cmp_val) by done.
    by rewrite take_app_length, drop_app_length.
  - rewrite (bt_entry_or_present _ _ dec_cmp_val), (bt_modify_present _ _ dec_cmp_val) by done.
    rewrite <-(Nat.add_0_r (length m1)), alter_app_r. done.
Qed.

Lemma vec_drop_level p k m l :
  levels_ok m -> bt_get dec_cmp p m = Some l ->
  vec_drop p k m = write_level p (filter (fun j => j <> k) l) m.
Proof.
  intros Hok Hg. destruct (bt_get_split _ _ dec_cmp_val p m l (proj1 Hok) Hg)
    as (m1 & p' & m2 & -> & E & Hb & Ha).
  unfold vec_drop, write_level.
  change (search p (m1 ++ (p', l) :: m2)) with (search p (m1 ++ [(p', l)] ++ m2)).
  rewrite (search_split p m1 [(p', l)] m2 Hb Ha) by (right; by exists p', l).
  rewrite list_lookup_middle by done. rewrite (bt_modify_present _ _ dec_cmp_val) by done.
  destruct (filter _ l) as [|j js].
  - rewrite (bt_remove_present _ _ dec_cmp_val) by done.
    by rewrite delete_middle.
  - rewrite <-(Nat.add_0_r (length m1)), insert_app_r. done.
Qed.

(** ** One operation *)

Lemma vb_levels_to_vec sd b : vb_levels sd (to_vec b) = side_map sd b.
Proof. by destruct sd. Qed.

Lemma set_vb_levels_to_vec sd l b :
  set_vb_levels sd l (to_vec b) = to_vec (set_side_map sd l b).
Proof. by destruct sd. Qed.

Lemma vec_insert_lockstep b b' o r :
  book_wf b -> o_price o <> None -> dec_le (o_quantity o) dec_ZERO = false ->
  insert_order b o = Ret (b', r) -> vec_insert (to_vec b) o = Ret (to_vec b').
Proof.
  intros Hwf Hp Hq. unfold insert_order, vec_insert. destruct (o_price o) as [p|]; [|done].
  rewrite Hq. destruct (slab_insert _ o) as [k s] eqn:Hins. cbn [to_vec vb_orders vb_index] in Hins |- *. rewrite ?Hins.
  cbn [ob_orders ob_index set_orders set_index].
  rewrite (slab_get_insert _ _ _ _ k Hins), decide_True by done. cbn [or_panic obind].
  intros [= <- _]. f_equal. cbn [to_vec vb_bids vb_asks]. change (mkVecBook s _ _ _) with
    (to_vec (set_index (<[o_id o:=k]> (ob_index b)) (set_orders s b))).
  rewrite vb_levels_to_vec, set_vb_levels_to_vec. book_simpl.
  by rewrite vec_push_level by auto with clob.
Qed.

Lemma vec_cancel_lockstep b b' id r :
  book_wf b -> book_all (fun o => is_complete o = false) b ->
  cancel_order b id = Ret (b', r) -> vec_cancel (to_vec b) id = to_vec b'.
Proof.
  intros Hwf Hlive. unfold cancel_order, vec_cancel. cbn [to_vec vb_index vb_orders].
  destruct (ob_index b !! id) as [k|] eqn:Hk; [|by intros [= <- _]].
  destruct (wf_index b Hwf id k Hk) as (o & Hg & _). rewrite Hg. cbn [or_panic obind].
  rewrite (Hlive k o Hg).
  destruct (wf_level b k o Hwf Hg) as (p & l1 & l2 & _ & _ & _ & Hp & Hl & _).
  book_simpl. rewrite Hp, Hl. book_simpl.
  pose proof (slab_remove_set (ob_orders b) k (set_status Cancelled o) ltac:(by exists o)) as Hs.
  destruct (slab_try_remove (ob_orders b) k) as [[v s]|] eqn:Hr;
    [|by apply slab_remove_none in Hr; congruence].
  pose proof (slab_remove_some _ _ _ _ Hr) as Hv. assert (v = o) as -> by congruence.
  destruct (slab_try_remove (slab_set _ _ _) k) as [[v' s']|]; cbn in Hs |- *; [|done].
  injection Hs as ->. intros [= <- _]. rewrite Hp.
  assert (Hm : forall m, vec_drop p k (side_map (o_side o) b) = m ->
    set_vb_levels (o_side o) (vec_drop p k (vb_levels (o_side o)
      (mkVecBook s (delete id (ob_index b)) (ob_bids b) (ob_asks b))))
      (mkVecBook s (delete id (ob_index b)) (ob_bids b) (ob_asks b)) =
    to_vec (set_index (delete id (ob_index b)) (set_orders s (set_side_map (o_side o) m b)))).
  { intros m <-. by destruct (o_side o). }
  rewrite (Hm _ (vec_drop_level p k _ _ (wf_levels_ok b _ Hwf) Hl)). by destruct (o_side o).
Qed.

(** ** A run *)

Inductive vcommand := VInsert (o : Order) | VCancel (id : OrderId).

(** The benchmark ignores the results of the operations. *)
Definition book_step (b : OrderBook) (c : vcommand) : outcome OrderBook :=
  match c with
  | VInsert o => let! (b, _) := insert_order b o in Ret b
  | VCancel id => let! (b, _) := cancel_order b id in Ret b
  end.

Definition vec_step (v : VecBook) (c : vcommand) : outcome VecBook :=
  match c with
  | VInsert o => vec_insert v o
  | VCancel id => Ret (vec_cancel v id)
  end.

Fixpoint run_steps {S : Type} (step : S -> vcommand -> outcome S) (s : S) (cs : list vcommand) :
    outcome S :=
  match cs with
  | [] => Ret s
  | c :: cs => let! s := step s c in run_steps step s cs
  end.

(** Inserted orders are live and have a positive quantity. *)
Definition vcommand_ok (c : vcommand) : Prop :=
  match c with
  | VInsert o => is_complete o = false /\ dec_le (o_quantity o) dec_ZERO = false
  | VCancel _ => True
  end.

Lemma step_lockstep b c :
  book_wf b -> book_all (fun o => is_complete o = false) b -> vcommand_ok c ->
  exists b', book_step b c = Ret b' /\ vec_step (to_vec b) c = Ret (to_vec b') /\
    book_wf b' /\ book_all (fun o => is_complete o = false) b'.
Proof.
  intros Hwf Hlive. destruct c as [o|id]; cbn [vcommand_ok book_step vec_step].
  - intros [Hc Hq]. destruct (o_price o) as [p|] eqn:Hp.
    + destruct (insert_order_ok 0 b o p Hwf Hp Hq) as (k & b' & E & Hwf' & _ & Hg & _).
      exists b'. rewrite E. split_and!; [done| |done|].
      * eapply vec_insert_lockstep; [done|congruence|done|exact E].
      * intros j o'. rewrite Hg. case_decide; [by intros [= <-]|apply Hlive].
    + exists b. rewrite insert_order_market by done. unfold vec_insert. by rewrite Hp.
  - intros _. destruct (ob_index b !! id) as [k|] eqn:Hk.
    + destruct (wf_index b Hwf id k Hk) as (o & Hg & _).
      destruct (cancel_order_ok b id k o Hwf Hk Hg (Hlive k o Hg))
        as (b' & q1 & q2 & E & Hwf' & Hg' & _).
      exists b'. rewrite E. split_and!; [done| |done|].
      * f_equal. by eapply vec_cancel_lockstep.
      * intros j o'. rewrite Hg'. case_decide; [done|apply Hlive].
    + exists b. rewrite cancel_order_not_found by done. unfold vec_cancel. cbn [to_vec vb_index].
      by rewrite Hk.
Qed.

(** C32. The vector book of the benchmarks and the order book are in lockstep: for
    every sequence of insertions of live orders with a positive quantity and of
    cancellations, neither panics, and both end with the same slab, the same index,
    the same levels, and hence the same best prices. *)
Theorem vec_book_lockstep (cs : list vcommand) :
  Forall vcommand_ok cs ->
  exists b v, run_steps book_step OrderBook_new cs = Ret b /\
    run_steps vec_step VecBook_new cs = Ret v /\ v = to_vec b /\
    vec_best_bid v = best_bid b /\ vec_best_ask v = best_ask b.
Proof.
  intros Hcs. change VecBook_new with (to_vec OrderBook_new).
  assert (H : book_wf OrderBook_new /\ book_all (fun o => is_complete o = false) OrderBook_new).
  { split; [exact book_new_wf|]. intros k o. cbn. by rewrite slab_get_new. }
  destruct H as [Hwf Hlive]. revert Hwf Hlive. generalize OrderBook_new as b.
  induction Hcs as [|c cs Hc _ IH]; intros b Hwf Hlive; cbn [run_steps].
  - by exists b, (to_vec b).
  - destruct (step_lockstep b c Hwf Hlive Hc) as (b' & -> & -> & Hwf' & Hlive').
    by apply IH.
Qed.
End lockstep.

Arguments vcommand : clear implicits.
Arguments vcommand {DA UA}.

(** ** Witness *)

Definition sample_vcommands : list vcommand :=
  [VInsert (limit 1 Ask 1000 300); VInsert (limit 2 Ask 1010 500); VInsert (limit 3 Ask 1000 200);
   VInsert (limit 4 Bid 990 400); VCancel (oid 2); VCancel (oid 1); VCancel (oid 7)].

Lemma vec_book_lockstep_witness :
  exists b v, run_steps book_step OrderBook_new sample_vcommands = Ret b /\
    run_steps vec_step VecBook_new sample_vcommands = Ret v /\ v = to_vec b /\
    vec_best_bid v = best_bid b /\ vec_best_ask v = best_ask b.
Proof. apply vec_book_lockstep. repeat constructor. Defined.
